(** * smmalloc: a shallow embedding of [Source/Native/smmalloc.h]

    The development follows the header top-down: machine integers and raw
    memory, [PoolBucket] (the tagged-index LIFO freelist), [TlsPoolBucket]
    (the two-level thread cache) and [Allocator] (the dispatcher), and then
    the properties of the specification.

    Conventions.
    - [size_t], [uintptr_t] and pointers are [Z] in [0, 2^ptrBits);
      [uint32_t] is [Z] in [0, 2^32); wrap-around is written out where the
      source can wrap.
    - Raw memory is a byte map [Z -> Z]; the 64-bit [TaggedIndex] is stored
      little-endian (both supported targets are x86 family), [tag] in the
      low and [offset] in the high 32 bits, as the union lays them out.
    - Atomics are given their sequentially consistent meaning. The bucket
      operations come in two forms: the result of an uncontended run (a
      function), and, for [FreeInterval], the atomic steps of one thread,
      which can be interleaved with the steps of other threads. *)

From Stdlib Require Import ZArith Lia List Bool.
Import ListNotations.
Local Open Scope Z_scope.

(** ** Build configuration *)

(** [_M_X64] selects 7 cache items (64-bit pointers); every other build gets
    10, and the [static_assert] on [sizeof(TlsPoolBucket)] then forces
    32-bit pointers. *)
Inductive Arch : Type := X64 | X86.

Definition SMM_MAX_CACHE_ITEMS_COUNT (arch : Arch) : Z :=
  match arch with X64 => 7 | X86 => 10 end.

Definition ptrBits (arch : Arch) : Z :=
  match arch with X64 => 64 | X86 => 32 end.

Definition SMM_CACHE_LINE_SIZE : Z := 64.
Definition SMM_MAX_BUCKET_COUNT : Z := 64.

(** ** Machine integers *)

Definition wrap (bits x : Z) : Z := x mod 2 ^ bits.
Definition u8 (x : Z) : Z := wrap 8 x.
Definition u32 (x : Z) : Z := wrap 32 x.
Definition u64 (x : Z) : Z := wrap 64 x.
Definition UINT64_MAX : Z := 2 ^ 64 - 1.

(** The cast [(int32_t) x]. *)
Definition to_int32 (x : Z) : Z := (x + 2 ^ 31) mod 2 ^ 32 - 2 ^ 31.

Definition is_pow2 (a : Z) : Prop := exists k, 0 <= k /\ a = 2 ^ k.

(** ** Raw memory *)

Definition mem : Type := Z -> Z.

(** Little-endian load of [n] bytes at [a]. *)
Fixpoint load_le (n : nat) (m : mem) (a : Z) : Z :=
  match n with
  | O => 0
  | S k => m a + 256 * load_le k m (a + 1)
  end.

(** Little-endian store of the low [n] bytes of [v] at [a]. *)
Definition store_le (n : nat) (m : mem) (a v : Z) : mem :=
  fun x =>
    if (a <=? x) && (x <? a + Z.of_nat n)
    then (v / 256 ^ (x - a)) mod 256
    else m x.

Definition load32 : mem -> Z -> Z := load_le 4.
Definition load64 : mem -> Z -> Z := load_le 8.
Definition store32 : mem -> Z -> Z -> mem := store_le 4.
Definition store64 : mem -> Z -> Z -> mem := store_le 8.

(** [std::memmove(dst, src, n)]: the [n] bytes are read before any is
    written, so overlapping ranges are fine. *)
Definition memmove (m : mem) (dst src n : Z) : mem :=
  fun x =>
    if (dst <=? x) && (x <? dst + n) then m (src + (x - dst)) else m x.

(** In-place update of an array held as an index function. *)
Definition upd {A : Type} (f : Z -> A) (i : Z) (v : A) : Z -> A :=
  fun j => if j =? i then v else f j.

(** ** Free functions of the header *)

Definition IsAligned (arch : Arch) (v alignment : Z) : bool :=
  Z.land v (wrap (ptrBits arch) (alignment - 1)) =? 0.

Definition Align (arch : Arch) (val alignment : Z) : Z :=
  Z.land (wrap (ptrBits arch) (val + (alignment - 1)))
         (Z.lxor (2 ^ ptrBits arch - 1) (wrap (ptrBits arch) (alignment - 1))).

(** The [for] loop of [DetectAlignment]: [n] is the number of rounds left,
    [ptrBitsCount - i]. Returns the final [i]. *)
Fixpoint DetectAlignment_loop (n : nat) (v i : Z) : Z :=
  match n with
  | O => i
  | S k =>
      if negb (Z.land v 1 =? 0) then i
      else DetectAlignment_loop k (Z.shiftr v 1) (i + 1)
  end.

(** [DetectAlignment(p)]. For the null pointer the loop runs to
    [i = ptrBitsCount], and the shift [size_t(1) << i] by the full width of
    the type has no defined result: [None]. *)
Definition DetectAlignment (arch : Arch) (p : Z) : option Z :=
  let i := DetectAlignment_loop (Z.to_nat (ptrBits arch)) p 0 in
  if i <? ptrBits arch then Some (Z.shiftl 1 i) else None.

(** * The generic fallback allocator

    [struct GenericAllocator] is only declared in the header: it is the
    interface of the backing allocator. Its instance state is threaded
    explicitly; a null result is [0]. [Realloc] may move a block, so it also
    transforms memory. *)
Module GenericAllocator.

Class Ops (G : Type) : Type := {
  Alloc : G -> Z -> Z -> Z * G;
  Free : G -> Z -> G;
  Realloc : G -> mem -> Z -> Z -> Z -> Z * (G * mem);
  GetUsableSpace : G -> Z -> Z
}.

End GenericAllocator.

(** * [Allocator::PoolBucket::TaggedIndex] *)
Module TaggedIndex.

Definition Invalid : Z := UINT64_MAX.

(** The two halves [p.tag] and [p.offset] of the 64-bit value [u]. *)
Definition tag (u : Z) : Z := u mod 2 ^ 32.
Definition offset (u : Z) : Z := (u / 2 ^ 32) mod 2 ^ 32.

(** The value [u] of the union after [p.tag] and [p.offset] are assigned. *)
Definition make (t o : Z) : Z := u32 t + 2 ^ 32 * u32 o.

End TaggedIndex.

(** * [Allocator::PoolBucket] *)
Module PoolBucket.

Record t : Type := mk {
  head : Z;          (* std::atomic<uint64_t>, a TaggedIndex *)
  globalTag : Z;     (* std::atomic<uint32_t> *)
  pData : Z;
  pBufferEnd : Z
}.

(** The constructor. *)
Definition new : t := mk TaggedIndex.Invalid 0 0 0.

Definition set_head (b : t) (h : Z) : t :=
  mk h (globalTag b) (pData b) (pBufferEnd b).

Definition set_globalTag (b : t) (g : Z) : t :=
  mk (head b) g (pData b) (pBufferEnd b).

(** [Alloc()], uncontended: the compare-exchange succeeds on the value that
    was just loaded. Returns the slot ([0] for [nullptr]) and the bucket. *)
Definition Alloc (m : mem) (b : t) : Z * t :=
  let headValue := head b in
  if headValue =? TaggedIndex.Invalid then (0, b)
  else
    let p := pData b + TaggedIndex.offset headValue in
    let nextValue := load64 m p in
    (p, set_head b nextValue).

(** [FreeInterval(_pHead, _pTail)], uncontended. *)
Definition FreeInterval (m : mem) (b : t) (pHead pTail : Z) : mem * t :=
  let tag := globalTag b in
  let b1 := set_globalTag b (u32 (tag + 1)) in
  let nodeValue := TaggedIndex.make tag (u32 (pHead - pData b1)) in
  let headValue := head b1 in
  let m1 := store64 m pTail headValue in
  (m1, set_head b1 nodeValue).

Definition IsMyAlloc (b : t) (p : Z) : bool :=
  (pData b <=? p) && (p <? pBufferEnd b).

(** Modelled from the spec: the linking loop of [Create], which the header
    declares and does not define. [link_slots n m pData elementSize k
    linkTag] writes the links of the [n] slots from slot [k] on: each slot
    points to the next one and the last slot to the sentinel. The spec
    leaves open the tag written into these first links: [linkTag k] is the
    tag of the link to slot [k]. *)
Fixpoint link_slots (n : nat) (m : mem) (pData elementSize k : Z)
  (linkTag : Z -> Z) : mem :=
  match n with
  | O => m
  | S n' =>
      let node := pData + k * elementSize in
      let nextVal :=
        match n' with
        | O => TaggedIndex.Invalid
        | S _ => TaggedIndex.make (linkTag (k + 1)) ((k + 1) * elementSize)
        end in
      link_slots n' (store64 m node nextVal) pData elementSize (k + 1) linkTag
  end.

(** Modelled from the spec: [Create(elementSize)] is declared in the header
    and defined outside it. All [N] slots of the sub-region
    [[pData, pBufferEnd)] are linked in order, slot 0 at the head and the
    last slot pointing to the sentinel; [globalTag] starts at 0. *)
Definition Create (m : mem) (b : t) (elementSize : Z) (linkTag : Z -> Z)
  : mem * t :=
  let N := (pBufferEnd b - pData b) / elementSize in
  if N <=? 0 then (m, mk TaggedIndex.Invalid 0 (pData b) (pBufferEnd b))
  else
    (link_slots (Z.to_nat N) m (pData b) elementSize 0 linkTag,
     mk (TaggedIndex.make (linkTag 0) 0) 0 (pData b) (pBufferEnd b)).

(** ** [FreeInterval] as the atomic steps of one thread

    Each step touches the shared bucket or memory at most once: the
    [fetch_add] on [globalTag], the load of [head], the store through
    [pTail], and the compare-exchange on [head] (which on failure reloads
    [headValue] and sends the thread round the loop again). *)
Inductive Pc : Type := AtFetchAdd | AtLoadHead | AtWriteTail | AtCas | AtDone.

Record Frame : Type := mkFrame {
  pc : Pc;
  arg_pHead : Z;
  arg_pTail : Z;
  loc_tag : Z;
  loc_nodeValue : Z;
  loc_headValue : Z
}.

Definition enter (pHead pTail : Z) : Frame :=
  mkFrame AtFetchAdd pHead pTail 0 0 0.

Definition step (m : mem) (b : t) (f : Frame) : mem * t * Frame :=
  match pc f with
  | AtFetchAdd =>
      (m, set_globalTag b (u32 (globalTag b + 1)),
       mkFrame AtLoadHead (arg_pHead f) (arg_pTail f)
               (globalTag b) (loc_nodeValue f) (loc_headValue f))
  | AtLoadHead =>
      (m, b,
       mkFrame AtWriteTail (arg_pHead f) (arg_pTail f) (loc_tag f)
               (TaggedIndex.make (loc_tag f) (u32 (arg_pHead f - pData b)))
               (head b))
  | AtWriteTail =>
      (store64 m (arg_pTail f) (loc_headValue f), b,
       mkFrame AtCas (arg_pHead f) (arg_pTail f) (loc_tag f)
               (loc_nodeValue f) (loc_headValue f))
  | AtCas =>
      if head b =? loc_headValue f
      then (m, set_head b (loc_nodeValue f),
            mkFrame AtDone (arg_pHead f) (arg_pTail f) (loc_tag f)
                    (loc_nodeValue f) (loc_headValue f))
      else (m, b,
            mkFrame AtWriteTail (arg_pHead f) (arg_pTail f) (loc_tag f)
                    (loc_nodeValue f) (head b))
  | AtDone => (m, b, f)
  end.

(** A step completes a push when it is a compare-exchange that succeeds. *)
Definition completes (b : t) (f : Frame) : bool :=
  match pc f with
  | AtCas => head b =? loc_headValue f
  | _ => false
  end.

(** A system of threads, each inside one [FreeInterval] call on the same
    bucket, run under a schedule (the thread to step next). [pushed] lists,
    oldest first, the tag of [head] right after each completed push. *)
Record Sys : Type := mkSys {
  sys_mem : mem;
  sys_bucket : t;
  sys_threads : Z -> Frame;
  pushed : list Z
}.

Definition sys_step (s : Sys) (tid : Z) : Sys :=
  let f := sys_threads s tid in
  let '(m', b', f') := step (sys_mem s) (sys_bucket s) f in
  mkSys m' b' (upd (sys_threads s) tid f')
        (if completes (sys_bucket s) f
         then pushed s ++ [TaggedIndex.tag (head b')]
         else pushed s).

Definition run (s : Sys) (schedule : list Z) : Sys :=
  fold_left sys_step schedule s.

(** ** Sequences of uncontended operations on one bucket *)
Inductive Op : Type :=
| OpAlloc
| OpFreeInterval (pHead pTail : Z).

Definition exec (st : mem * t * list Z) (o : Op) : mem * t * list Z :=
  let '(m, b, tags) := st in
  match o with
  | OpAlloc => (m, snd (Alloc m b), tags)
  | OpFreeInterval pHead pTail =>
      let '(m', b') := FreeInterval m b pHead pTail in
      (m', b', tags ++ [TaggedIndex.tag (head b')])
  end.

(** The head tags left by the pushes among [ops], oldest first. *)
Definition push_tags (m : mem) (b : t) (ops : list Op) : list Z :=
  snd (fold_left exec ops (m, b, [])).

End PoolBucket.

(** Order on tags modulo [2^32]: [t2] is at most half the circle ahead of
    [t1]. *)
Definition tag_le (t1 t2 : Z) : Prop := u32 (t2 - t1) < 2 ^ 31.

(** Every element is [tag_le] its successor. *)
Fixpoint tags_nondecreasing (l : list Z) : Prop :=
  match l with
  | [] => True
  | t1 :: rest =>
      match rest with
      | [] => True
      | t2 :: _ => tag_le t1 t2 /\ tags_nondecreasing rest
      end
  end.

(** The list [g], [g + 1], ..., [g + n - 1] modulo [2^32]. *)
Definition counting (g : Z) (n : nat) : list Z :=
  map (fun k => u32 (g + Z.of_nat k)) (seq 0 n).

Inductive CacheWarmupOptions : Type := CACHE_COLD | CACHE_WARM | CACHE_HOT.

(** * [internal::TlsPoolBucket] *)
Module TlsPoolBucket.

(** [pStorageL1] points to an array owned by the cache and [storageL0] is an
    array member: both are held as index functions. [pBucket] points into
    the allocator's [buckets] array and is held as the index it points to. *)
Record t : Type := mk {
  pBucketData : Z;
  pStorageL1 : Z -> Z;
  pBucket : Z;
  storageL0 : Z -> Z;
  maxElementsCount : Z;   (* uint32_t *)
  numElementsL1 : Z;      (* uint32_t *)
  numElementsL0 : Z       (* uint8_t *)
}.

(** A zero-initialised record: the state of thread-local storage before a
    thread cache is created. *)
Definition zero : t := mk 0 (fun _ => 0) 0 (fun _ => 0) 0 0 0.

Definition set_L0 (c : t) (st : Z -> Z) (n : Z) : t :=
  mk (pBucketData c) (pStorageL1 c) (pBucket c) st
     (maxElementsCount c) (numElementsL1 c) n.

Definition set_L1 (c : t) (st : Z -> Z) (n : Z) : t :=
  mk (pBucketData c) st (pBucket c) (storageL0 c)
     (maxElementsCount c) n (numElementsL0 c).

Definition GetElementsCount (c : t) : Z :=
  u32 (numElementsL1 c + numElementsL0 c).

(** The [for] loop of [ReturnL1CacheToMaster]: [n] is the number of
    iterations left, [numElementsL1 - i]. Returns memory and the last
    [pPrevBlockMemory]. *)
Fixpoint link_loop (n : nat) (c : t) (m : mem) (i localTag pPrevBlockMemory : Z)
  : mem * Z :=
  match n with
  | O => (m, pPrevBlockMemory)
  | S k =>
      let offset := pStorageL1 c i in
      let m1 := store32 m pPrevBlockMemory localTag in          (* pTag->p.tag *)
      let m2 := store32 m1 (pPrevBlockMemory + 4) offset in     (* pTag->p.offset *)
      let pBlockMemory := pBucketData c + offset in
      link_loop k c m2 (i + 1) (u32 (localTag + 1)) pBlockMemory
  end.

(** [ReturnL1CacheToMaster(count)]; [b] is the bucket [*pBucket]. *)
Definition ReturnL1CacheToMaster (c : t) (b : PoolBucket.t) (m : mem) (count : Z)
  : t * PoolBucket.t * mem :=
  if count =? 0 then (c, b, m)
  else if numElementsL1 c =? 0 then (c, b, m)
  else
    let count := Z.min count (numElementsL1 c) in
    let localTag := 16777215 (* 0xFFFFFF *) in
    let firstElementToReturn := numElementsL1 c - count in
    let offset := pStorageL1 c firstElementToReturn in
    let pHead := pBucketData c + offset in
    let '(m1, pTail) :=
      link_loop (Z.to_nat (numElementsL1 c - (firstElementToReturn + 1)))
                c m (firstElementToReturn + 1) localTag pHead in
    let '(m2, b') := PoolBucket.FreeInterval m1 b pHead pTail in
    (set_L1 c (pStorageL1 c) (numElementsL1 c - count), b', m2).

(** Modelled from the spec: the warm-up loop of [Init], which the header
    declares and does not define. [warm_loop n] pops up to [n] slots of
    [b] into L1; a drained bucket just ends the filling. *)
Fixpoint warm_loop (n : nat) (c : t) (b : PoolBucket.t) (m : mem)
  : t * PoolBucket.t :=
  match n with
  | O => (c, b)
  | S k =>
      let '(p, b') := PoolBucket.Alloc m b in
      if p =? 0 then (c, b)
      else
        let offset := u32 (p - pBucketData c) in
        warm_loop k
          (set_L1 c (upd (pStorageL1 c) (numElementsL1 c) offset)
                  (u32 (numElementsL1 c + 1)))
          b' m
  end.

(** Modelled from the spec: [Init] is declared in the header and defined
    outside it. The record is wired to bucket [bucketIndex] with L1 capacity
    [maxElementsNum] and both levels empty; then [CACHE_WARM] fills L1 to
    half its capacity and [CACHE_HOT] fills it, by popping from the
    bucket. *)
Definition Init (maxElementsNum : Z) (warmupOptions : CacheWarmupOptions)
  (b : PoolBucket.t) (m : mem) (bucketIndex : Z) : t * PoolBucket.t :=
  let c := mk (PoolBucket.pData b) (fun _ => 0) bucketIndex (fun _ => 0)
              maxElementsNum 0 0 in
  let elementsCount :=
    match warmupOptions with
    | CACHE_COLD => 0
    | CACHE_WARM => maxElementsNum / 2
    | CACHE_HOT => maxElementsNum
    end in
  warm_loop (Z.to_nat elementsCount) c b m.

End TlsPoolBucket.


(** * [Allocator] *)
Module Allocator.

Definition MaxValidAlignment : Z := 16384.

Definition IsReadable (p : Z) : bool := p >? MaxValidAlignment.

(** The allocator object, together with the two pieces of the process it
    works on: [tls], what [GetTlsBucket] returns to the calling thread, and
    [ram], the raw memory. [gAllocator] is the state of the generic
    allocator instance. *)
Record t (G : Type) : Type := mk {
  bucketsCount : Z;
  bucketSizeInBytes : Z;
  pBufferEnd : Z;
  bucketsDataBegin : Z -> Z;
  buckets : Z -> PoolBucket.t;
  pBuffer : Z;
  gAllocator : G;
  tls : Z -> TlsPoolBucket.t;
  ram : mem
}.

Arguments mk {G}.
Arguments bucketsCount {G}.
Arguments bucketSizeInBytes {G}.
Arguments pBufferEnd {G}.
Arguments bucketsDataBegin {G}.
Arguments buckets {G}.
Arguments pBuffer {G}.
Arguments gAllocator {G}.
Arguments tls {G}.
Arguments ram {G}.

Section Ops.
Context {G : Type} {GA : GenericAllocator.Ops G}.
Variable arch : Arch.

Definition set_buckets (s : t G) (bs : Z -> PoolBucket.t) : t G :=
  mk (bucketsCount s) (bucketSizeInBytes s) (pBufferEnd s) (bucketsDataBegin s)
     bs (pBuffer s) (gAllocator s) (tls s) (ram s).

Definition set_gAllocator (s : t G) (g : G) : t G :=
  mk (bucketsCount s) (bucketSizeInBytes s) (pBufferEnd s) (bucketsDataBegin s)
     (buckets s) (pBuffer s) g (tls s) (ram s).

Definition set_tls (s : t G) (c : Z -> TlsPoolBucket.t) : t G :=
  mk (bucketsCount s) (bucketSizeInBytes s) (pBufferEnd s) (bucketsDataBegin s)
     (buckets s) (pBuffer s) (gAllocator s) c (ram s).

Definition set_ram (s : t G) (m : mem) : t G :=
  mk (bucketsCount s) (bucketSizeInBytes s) (pBufferEnd s) (bucketsDataBegin s)
     (buckets s) (pBuffer s) (gAllocator s) (tls s) m.

Definition FindBucket (s : t G) (p : Z) : Z :=
  let index := wrap (ptrBits arch) (p - bucketsDataBegin s 0) in
  index / bucketSizeInBytes s.

(** [GetBucketByIndex(bucketIndex)]: [None] is [nullptr]. *)
Definition GetBucketByIndex (s : t G) (bucketIndex : Z) : option PoolBucket.t :=
  if bucketIndex >=? bucketsCount s then None
  else Some (buckets s bucketIndex).

Definition IsMyAlloc (s : t G) (p : Z) : bool :=
  (pBuffer s <=? p) && (p <? pBufferEnd s).

Definition GetBucketsCount (s : t G) : Z := bucketsCount s.

(** [(uint32_t)((bucketIndex + 1) * 16)]; truncating to 32 bits absorbs the
    wrap of the [size_t] product. *)
Definition GetBucketElementSize (bucketIndex : Z) : Z :=
  u32 ((bucketIndex + 1) * 16).

Definition GetBucketElementsCount (s : t G) (bucketIndex : Z) : Z :=
  if bucketIndex >=? bucketsCount s then 0
  else
    let oneElementSize := GetBucketElementSize bucketIndex in
    u32 (bucketSizeInBytes s / oneElementSize).

(** [AllocFromCache(_self)]: works on the cache record alone. *)
Definition AllocFromCache (c : TlsPoolBucket.t) : Z * TlsPoolBucket.t :=
  if TlsPoolBucket.numElementsL0 c >? 0 then
    let n := u8 (TlsPoolBucket.numElementsL0 c - 1) in
    let offset := TlsPoolBucket.storageL0 c n in
    (TlsPoolBucket.pBucketData c + offset,
     TlsPoolBucket.set_L0 c (TlsPoolBucket.storageL0 c) n)
  else if TlsPoolBucket.numElementsL1 c >? 0 then
    let n := u32 (TlsPoolBucket.numElementsL1 c - 1) in
    let offset := TlsPoolBucket.pStorageL1 c n in
    (TlsPoolBucket.pBucketData c + offset,
     TlsPoolBucket.set_L1 c (TlsPoolBucket.pStorageL1 c) n)
  else (0, c).

(** [ReleaseToCache<useCacheL0>(_self, _p)]; [b] is the bucket
    [*_self->pBucket], which a flush of L1 pushes to. *)
Definition ReleaseToCache (useCacheL0 : bool) (c : TlsPoolBucket.t)
  (b : PoolBucket.t) (m : mem) (p : Z)
  : bool * (TlsPoolBucket.t * PoolBucket.t * mem) :=
  if TlsPoolBucket.maxElementsCount c =? 0 then (false, (c, b, m))
  else
    let offset := u32 (p - TlsPoolBucket.pBucketData c) in
    if useCacheL0 &&
       (TlsPoolBucket.numElementsL0 c <? SMM_MAX_CACHE_ITEMS_COUNT arch)
    then
      (true,
       (TlsPoolBucket.set_L0 c
          (upd (TlsPoolBucket.storageL0 c) (TlsPoolBucket.numElementsL0 c) offset)
          (u8 (TlsPoolBucket.numElementsL0 c + 1)),
        b, m))
    else if TlsPoolBucket.numElementsL1 c <? TlsPoolBucket.maxElementsCount c
    then
      (true,
       (TlsPoolBucket.set_L1 c
          (upd (TlsPoolBucket.pStorageL1 c) (TlsPoolBucket.numElementsL1 c) offset)
          (u32 (TlsPoolBucket.numElementsL1 c + 1)),
        b, m))
    else
      let halfOfElements := Z.shiftr (TlsPoolBucket.numElementsL1 c) 1 in
      let '(c1, b1, m1) :=
        TlsPoolBucket.ReturnL1CacheToMaster c b m halfOfElements in
      (true,
       (TlsPoolBucket.set_L1 c1
          (upd (TlsPoolBucket.pStorageL1 c1) (TlsPoolBucket.numElementsL1 c1) offset)
          (u32 (TlsPoolBucket.numElementsL1 c1 + 1)),
        b1, m1)).

(** [ReleaseToCache<true>(GetTlsBucket(i), p)] on the whole state; a push
    that is refused has changed nothing. *)
Definition ReleaseToTls (s : t G) (i p : Z) : bool * t G :=
  let c := tls s i in
  let k := TlsPoolBucket.pBucket c in
  let '(ok, (c', b', m')) := ReleaseToCache true c (buckets s k) (ram s) p in
  if ok then
    (true, mk (bucketsCount s) (bucketSizeInBytes s) (pBufferEnd s)
              (bucketsDataBegin s) (upd (buckets s) k b')
              (pBuffer s) (gAllocator s) (upd (tls s) i c') m')
  else (false, s).

(** The [while] loop of [Allocate]. It runs while
    [bucketIndex < bucketsCount] and each round adds one to [bucketIndex]:
    [n] is the number of rounds left, [bucketsCount - bucketIndex]. After
    the loop the request goes to the generic allocator with the caller's
    [_bytesCount] and [alignment]. *)
Fixpoint Allocate_loop (n : nat) (s : t G) (bucketIndex _bytesCount alignment : Z)
  : Z * t G :=
  match n with
  | O =>
      let '(p, g) := GenericAllocator.Alloc (gAllocator s) _bytesCount alignment in
      (p, set_gAllocator s g)
  | S k =>
      let '(pRes, b) := PoolBucket.Alloc (ram s) (buckets s bucketIndex) in
      let s1 := set_buckets s (upd (buckets s) bucketIndex b) in
      if negb (pRes =? 0) then (pRes, s1)
      else Allocate_loop k s1 (bucketIndex + 1) _bytesCount alignment
  end.

Definition Allocate (s : t G) (_bytesCount alignment : Z) : Z * t G :=
  if _bytesCount =? 0 then (alignment, s)
  else
    let bytesCount := if _bytesCount <? alignment then alignment else _bytesCount in
    let bucketIndex := Z.shiftr (bytesCount - 1) 4 in
    let '(pRes, s1) :=
      if bucketIndex <? bucketsCount s then
        let '(pRes, c) := AllocFromCache (tls s bucketIndex) in
        (pRes, set_tls s (upd (tls s) bucketIndex c))
      else (0, s) in
    if negb (pRes =? 0) then (pRes, s1)
    else
      Allocate_loop (Z.to_nat (bucketsCount s1 - bucketIndex)) s1
                    bucketIndex _bytesCount alignment.

Definition Alloc (s : t G) (_bytesCount alignment : Z) : Z * t G :=
  Allocate s _bytesCount alignment.

Definition Free (s : t G) (p : Z) : t G :=
  if negb (IsReadable p) then s
  else
    let bucketIndex := FindBucket s p in
    if bucketIndex <? bucketsCount s then
      let '(ok, s1) := ReleaseToTls s bucketIndex p in
      if ok then s1
      else
        let '(m, b) :=
          PoolBucket.FreeInterval (ram s1) (buckets s1 bucketIndex) p p in
        set_ram (set_buckets s1 (upd (buckets s1) bucketIndex b)) m
    else set_gAllocator s (GenericAllocator.Free (gAllocator s) p).

Definition Realloc (s : t G) (p bytesCount alignment : Z) : Z * t G :=
  if p =? 0 then Alloc s bytesCount alignment
  else
    let bucketIndex := FindBucket s p in
    if bucketIndex <? bucketsCount s then
      let elementSize := GetBucketElementSize bucketIndex in
      if bytesCount <=? elementSize then (p, Free s p)
      else
        let '(p2, s1) := Alloc s bytesCount alignment in
        let s2 :=
          if IsReadable p then set_ram s1 (memmove (ram s1) p2 p elementSize)
          else s1 in
        (p2, Free s2 p)
    else if bytesCount =? 0 then
      (alignment,
       if IsReadable p
       then set_gAllocator s (GenericAllocator.Free (gAllocator s) p)
       else s)
    else if negb (IsReadable p) then
      let '(q, g) := GenericAllocator.Alloc (gAllocator s) bytesCount alignment in
      (q, set_gAllocator s g)
    else
      let '(q, (g, m)) :=
        GenericAllocator.Realloc (gAllocator s) (ram s) p bytesCount alignment in
      (q, set_ram (set_gAllocator s g) m).

Definition GetUsableSize (s : t G) (p : Z) : Z :=
  if negb (IsReadable p) then 0
  else
    let bucketIndex := FindBucket s p in
    if bucketIndex <? bucketsCount s then GetBucketElementSize bucketIndex
    else GenericAllocator.GetUsableSpace (gAllocator s) p.

Definition GetBucketIndex (s : t G) (p : Z) : Z :=
  if negb (IsMyAlloc s p) then -1
  else
    let bucketIndex := FindBucket s p in
    if bucketIndex >=? bucketsCount s then -1 else to_int32 bucketIndex.

(** Modelled from the spec: the loop of [Init] over the buckets, which the
    header declares and does not define. [init_buckets n] creates the [n]
    buckets from index [i] on: bucket [i] gets the sub-region starting at
    [i * bucketSize] and its freelist is created with element size
    [16 * (i + 1)]. [linkTag i] gives the tags of the first links of
    bucket [i] (see [PoolBucket.Create]). *)
Fixpoint init_buckets (n : nat) (m : mem) (bs : Z -> PoolBucket.t)
  (base bucketSize i : Z) (linkTag : Z -> Z -> Z) : mem * (Z -> PoolBucket.t) :=
  match n with
  | O => (m, bs)
  | S k =>
      let b0 := PoolBucket.mk TaggedIndex.Invalid 0
                  (base + i * bucketSize) (base + (i + 1) * bucketSize) in
      let '(m', b) :=
        PoolBucket.Create m b0 (GetBucketElementSize i) (linkTag i) in
      init_buckets k m' (upd bs i b) base bucketSize (i + 1) linkTag
  end.

(** Modelled from the spec: [Init(bucketsCount, bucketSizeInBytes)] is
    declared in the header and defined outside it. The arena of
    [bucketsCount * bucketSizeInBytes] bytes, aligned to the cache line, is
    taken from the generic allocator and divided among the buckets. No
    thread cache exists yet: [tls] is zero-initialised. *)
Definition Init (g : G) (m : mem) (_bucketsCount _bucketSizeInBytes : Z)
  (linkTag : Z -> Z -> Z) : t G :=
  let '(base, g') :=
    GenericAllocator.Alloc g (_bucketsCount * _bucketSizeInBytes)
                           SMM_CACHE_LINE_SIZE in
  let '(m', bs) :=
    init_buckets (Z.to_nat _bucketsCount) m (fun _ => PoolBucket.new)
                 base _bucketSizeInBytes 0 linkTag in
  mk _bucketsCount _bucketSizeInBytes
     (base + _bucketsCount * _bucketSizeInBytes)
     (fun i => base + i * _bucketSizeInBytes)
     bs base g' (fun _ => TlsPoolBucket.zero) m'.

(** Modelled from the spec: [CreateThreadCache(warmupOptions, cacheSize)] is
    declared in the header and defined outside it. The calling thread gets
    one cache record per bucket, its L1 capacity the requested [cacheSize]
    clamped to the bucket's slot count, warmed up as asked. *)
Definition CreateThreadCache (s : t G) (warmupOptions : CacheWarmupOptions)
  (cacheSize : Z) : t G :=
  let made := fun i =>
    TlsPoolBucket.Init (Z.min cacheSize (GetBucketElementsCount s i))
                       warmupOptions (buckets s i) (ram s) i in
  let live := fun i => (0 <=? i) && (i <? bucketsCount s) in
  set_tls
    (set_buckets s (fun i => if live i then snd (made i) else buckets s i))
    (fun i => if live i then fst (made i) else tls s i).

End Ops.
End Allocator.

(** * Well-formed states *)

(** The freelist of a bucket as it lies in memory: from the tagged index
    [u], following the links stored in the free slots, the offsets in [l]
    are met in order and the sentinel ends the walk. Every slot leaves room
    for its link below the sub-region's end [lim]. *)
Inductive freelist (m : mem) (pData lim : Z) : Z -> list Z -> Prop :=
| freelist_nil : freelist m pData lim TaggedIndex.Invalid []
| freelist_cons u l :
    u <> TaggedIndex.Invalid ->
    TaggedIndex.offset u + 8 <= lim ->
    freelist m pData lim (load64 m (pData + TaggedIndex.offset u)) l ->
    freelist m pData lim u (TaggedIndex.offset u :: l).

(** The [n] entries of an array from index [i] on. *)
Fixpoint slice (f : Z -> Z) (i : Z) (n : nat) : list Z :=
  match n with
  | O => []
  | S k => f i :: slice f (i + 1) k
  end.

(** Two link fields, at offsets [o1] and [o2], do not overlap. *)
Definition apart (o1 o2 : Z) : Prop := o1 + 8 <= o2 \/ o2 + 8 <= o1.

(** The offsets of [l] are pairwise [apart]. *)
Fixpoint all_apart (l : list Z) : Prop :=
  match l with
  | [] => True
  | o :: rest => (forall o', In o' rest -> apart o o') /\ all_apart rest
  end.

Section WellFormed.
Context {G : Type}.
Variable arch : Arch.

(** Start of the arena sub-region of bucket [i]. *)
Definition region_base (s : Allocator.t G) (i : Z) : Z :=
  Allocator.pBuffer s + i * Allocator.bucketSizeInBytes s.

(** The arena: [bucketsCount] sub-regions of [bucketSizeInBytes] bytes in
    readable memory, within the address space. *)
Record geometry (s : Allocator.t G) : Prop := {
  geo_size : 0 < Allocator.bucketSizeInBytes s;
  geo_count : 0 <= Allocator.bucketsCount s <= SMM_MAX_BUCKET_COUNT;
  geo_base : Allocator.MaxValidAlignment < Allocator.pBuffer s;
  geo_begin : Allocator.bucketsDataBegin s 0 = Allocator.pBuffer s;
  geo_end : Allocator.pBufferEnd s = region_base s (Allocator.bucketsCount s);
  geo_fit : Allocator.pBufferEnd s < 2 ^ ptrBits arch
}.

Definition bucket_ok (s : Allocator.t G) (i : Z) : Prop :=
  PoolBucket.pData (Allocator.buckets s i) = region_base s i /\
  exists l,
    freelist (Allocator.ram s) (region_base s i) (Allocator.bucketSizeInBytes s)
             (PoolBucket.head (Allocator.buckets s i)) l.

(** A cache record of the calling thread for bucket [i]: either untouched
    thread-local storage, or wired to bucket [i]; the offsets it holds are
    of slots of the sub-region. L1 holds at most one entry more than its
    capacity (the one more is what a push into a full L1 of capacity 1
    leaves behind). *)
Definition cache_ok (s : Allocator.t G) (i : Z) : Prop :=
  let c := Allocator.tls s i in
  0 <= TlsPoolBucket.numElementsL0 c <= SMM_MAX_CACHE_ITEMS_COUNT arch /\
  0 <= TlsPoolBucket.numElementsL1 c <= TlsPoolBucket.maxElementsCount c + 1 /\
  0 <= TlsPoolBucket.maxElementsCount c < 2 ^ 32 - 2 /\
  ((TlsPoolBucket.numElementsL0 c = 0 /\ TlsPoolBucket.numElementsL1 c = 0 /\
    TlsPoolBucket.maxElementsCount c = 0) \/
   (TlsPoolBucket.pBucketData c = region_base s i /\
    TlsPoolBucket.pBucket c = i)) /\
  (forall k, 0 <= k < TlsPoolBucket.numElementsL0 c ->
     0 <= TlsPoolBucket.storageL0 c k /\
     TlsPoolBucket.storageL0 c k + 8 <= Allocator.bucketSizeInBytes s) /\
  (forall k, 0 <= k < TlsPoolBucket.numElementsL1 c ->
     0 <= TlsPoolBucket.pStorageL1 c k /\
     TlsPoolBucket.pStorageL1 c k + 8 <= Allocator.bucketSizeInBytes s).

(** Two states of one allocator: the arena has not moved. *)
Definition same_arena (s s' : Allocator.t G) : Prop :=
  Allocator.bucketsCount s' = Allocator.bucketsCount s /\
  Allocator.bucketSizeInBytes s' = Allocator.bucketSizeInBytes s /\
  Allocator.pBufferEnd s' = Allocator.pBufferEnd s /\
  Allocator.bucketsDataBegin s' = Allocator.bucketsDataBegin s /\
  Allocator.pBuffer s' = Allocator.pBuffer s.

Record wf (s : Allocator.t G) : Prop := {
  wf_geometry : geometry s;
  wf_offsets : Allocator.bucketSizeInBytes s < 2 ^ 32;
  wf_buckets : forall i, 0 <= i < Allocator.bucketsCount s -> bucket_ok s i;
  wf_caches : forall i, 0 <= i < Allocator.bucketsCount s -> cache_ok s i
}.

End WellFormed.

(** The valid calls of [Init]: the generic allocator provides an arena in
    readable memory that fits the address space, and the offsets of a
    sub-region fit 32 bits. *)
Definition Init_ok {G : Type} {GA : GenericAllocator.Ops G} (arch : Arch)
  (g : G) (_bucketsCount _bucketSizeInBytes : Z) : Prop :=
  let base :=
    fst (GenericAllocator.Alloc g (_bucketsCount * _bucketSizeInBytes)
                                SMM_CACHE_LINE_SIZE) in
  0 <= _bucketsCount <= SMM_MAX_BUCKET_COUNT /\
  0 < _bucketSizeInBytes < 2 ^ 32 /\
  Allocator.MaxValidAlignment < base /\
  base + _bucketsCount * _bucketSizeInBytes < 2 ^ ptrBits arch.

(** The counters of a cache record hold values of their types that the
    L0 array can hold. *)
Definition counters_in_range (arch : Arch) (c : TlsPoolBucket.t) : Prop :=
  0 <= TlsPoolBucket.numElementsL0 c <= SMM_MAX_CACHE_ITEMS_COUNT arch /\
  0 <= TlsPoolBucket.numElementsL1 c < 2 ^ 32.

(** The thread-cache occupancy bounds. *)
Definition occupancy_ok (arch : Arch) (c : TlsPoolBucket.t) : Prop :=
  0 <= TlsPoolBucket.numElementsL0 c <= SMM_MAX_CACHE_ITEMS_COUNT arch /\
  0 <= TlsPoolBucket.numElementsL1 c <= TlsPoolBucket.maxElementsCount c /\
  TlsPoolBucket.maxElementsCount c < 2 ^ 32.

(** A chain of linked slots, as [FreeInterval] takes it: from the slot at
    offset [o], following the links, the offsets of the list are met in
    order, and the last of them is the slot at offset [last], whose own link
    is not looked at. *)
Inductive segment (m : mem) (pData : Z) : Z -> list Z -> Z -> Prop :=
| segment_one o : segment m pData o [o] o
| segment_cons o nodes last :
    load64 m (pData + o) <> TaggedIndex.Invalid ->
    segment m pData (TaggedIndex.offset (load64 m (pData + o))) nodes last ->
    segment m pData o (o :: nodes) last.

(** The offsets that a cache record holds: those of L0, then those of L1,
    each level in the order it was filled. *)
Definition cached (c : TlsPoolBucket.t) : list Z :=
  slice (TlsPoolBucket.storageL0 c) 0 (Z.to_nat (TlsPoolBucket.numElementsL0 c))
  ++ slice (TlsPoolBucket.pStorageL1 c) 0
           (Z.to_nat (TlsPoolBucket.numElementsL1 c)).

(** The free slots of bucket [i] as the calling thread finds them: the
    offsets in its cache for the bucket, then those on the bucket's
    freelist. *)
Definition free_slots {G : Type} (s : Allocator.t G) (i : Z) (fs : list Z)
  : Prop :=
  exists l,
    freelist (Allocator.ram s) (region_base s i) (Allocator.bucketSizeInBytes s)
             (PoolBucket.head (Allocator.buckets s i)) l /\
    fs = cached (Allocator.tls s i) ++ l.

(** [freelist], decided for a given list. *)
Fixpoint freelist_check (m : mem) (pData lim u : Z) (l : list Z) : bool :=
  match l with
  | [] => u =? TaggedIndex.Invalid
  | o :: l' =>
      negb (u =? TaggedIndex.Invalid) && (TaggedIndex.offset u =? o)
      && (o + 8 <=? lim)
      && freelist_check m pData lim (load64 m (pData + o)) l'
  end.

(** * Threads that push concurrently *)

(** What a thread holds in its locals while it is inside
    [FreeInterval(p, p)] for the slot [p] at offset [o] of the bucket at
    [pData]: before the store through [pTail] its node value names the
    slot, and before the compare-exchange the link of the slot holds the
    head value the thread has seen. *)
Definition pusher_ok (m : mem) (pData o : Z) (f : PoolBucket.Frame) : Prop :=
  PoolBucket.arg_pHead f = pData + o /\
  PoolBucket.arg_pTail f = pData + o /\
  match PoolBucket.pc f with
  | PoolBucket.AtFetchAdd | PoolBucket.AtLoadHead => True
  | PoolBucket.AtWriteTail =>
      PoolBucket.loc_nodeValue f <> TaggedIndex.Invalid /\
      TaggedIndex.offset (PoolBucket.loc_nodeValue f) = o /\
      0 <= PoolBucket.loc_nodeValue f < 2 ^ 64 /\
      0 <= PoolBucket.loc_headValue f < 2 ^ 64
  | PoolBucket.AtCas =>
      PoolBucket.loc_nodeValue f <> TaggedIndex.Invalid /\
      TaggedIndex.offset (PoolBucket.loc_nodeValue f) = o /\
      0 <= PoolBucket.loc_nodeValue f < 2 ^ 64 /\
      0 <= PoolBucket.loc_headValue f < 2 ^ 64 /\
      load64 m (pData + o) = PoolBucket.loc_headValue f
  | PoolBucket.AtDone => False
  end.

(** A system in which the threads [T] each push one slot, thread [t] the
    slot at offset [offs t], onto a bucket whose freelist was [l0] when
    they started, and every other thread is idle. [finished] lists the
    threads whose push is complete, the latest first: their slots are in
    front of the freelist in that order. *)
Record pushing (T : list Z) (offs : Z -> Z) (pData lim : Z) (l0 : list Z)
  (n0 : nat) (sys : PoolBucket.Sys) (finished : list Z) : Prop := {
  pushing_data : PoolBucket.pData (PoolBucket.sys_bucket sys) = pData;
  pushing_head : 0 <= PoolBucket.head (PoolBucket.sys_bucket sys) < 2 ^ 64;
  pushing_nodup : NoDup finished;
  pushing_finished : forall t,
    In t finished <->
    In t T /\ PoolBucket.pc (PoolBucket.sys_threads sys t) = PoolBucket.AtDone;
  pushing_idle : forall t,
    ~ In t T -> PoolBucket.pc (PoolBucket.sys_threads sys t) = PoolBucket.AtDone;
  pushing_busy : forall t,
    In t T -> ~ In t finished ->
    pusher_ok (PoolBucket.sys_mem sys) pData (offs t) (PoolBucket.sys_threads sys t);
  pushing_list :
    freelist (PoolBucket.sys_mem sys) pData lim
             (PoolBucket.head (PoolBucket.sys_bucket sys))
             (map offs finished ++ l0);
  pushing_count : length (PoolBucket.pushed sys) = (n0 + length finished)%nat
}.

(** The threads [T] are about to call [FreeInterval(p, p)], thread [t] for
    the slot at offset [offs t], and no other thread is active. *)
Definition pushers_enter (sys : PoolBucket.Sys) (T : list Z) (offs : Z -> Z)
  : Prop :=
  (forall t, In t T ->
     PoolBucket.sys_threads sys t
     = PoolBucket.enter
         (PoolBucket.pData (PoolBucket.sys_bucket sys) + offs t)
         (PoolBucket.pData (PoolBucket.sys_bucket sys) + offs t)) /\
  (forall t, ~ In t T ->
     PoolBucket.pc (PoolBucket.sys_threads sys t) = PoolBucket.AtDone).

(** [n] steps of one thread inside [FreeInterval], with no step of another
    thread in between. *)
Fixpoint solo_steps (n : nat) (m : mem) (b : PoolBucket.t)
  (f : PoolBucket.Frame) : mem * PoolBucket.t * PoolBucket.Frame :=
  match n with
  | O => (m, b, f)
  | S k =>
      let '(m', b', f') := PoolBucket.step m b f in
      solo_steps k m' b' f'
  end.

(** The tags that the threads of [drawn] hold, the thread that drew last
    first: the [k]-th [fetch_add] on [globalTag] returned [g0 + k] modulo
    [2^32]. *)
Fixpoint tags_drawn (g0 : Z) (threads : Z -> PoolBucket.Frame)
  (drawn : list Z) : Prop :=
  match drawn with
  | [] => True
  | t :: rest =>
      PoolBucket.loc_tag (threads t) = u32 (g0 + Z.of_nat (length rest)) /\
      tags_drawn g0 threads rest
  end.

(** A system in which the threads [T] each make one [FreeInterval] call
    and every other thread is idle, seen from the tag counter, which was
    [g0] when they started. [drawn] lists the threads that have done their
    [fetch_add], [finished] those whose call is complete, the latest first
    in both; [pushed0] is the log of head tags at the start. *)
Record drawing (T : list Z) (g0 : Z) (pushed0 : list Z)
  (sys : PoolBucket.Sys) (drawn finished : list Z) : Prop := {
  drawing_counter :
    PoolBucket.globalTag (PoolBucket.sys_bucket sys)
    = u32 (g0 + Z.of_nat (length drawn));
  drawing_nodup : NoDup drawn;
  drawing_drawn : forall t,
    In t drawn <->
    In t T /\
    PoolBucket.pc (PoolBucket.sys_threads sys t) <> PoolBucket.AtFetchAdd;
  drawing_idle : forall t,
    ~ In t T -> PoolBucket.pc (PoolBucket.sys_threads sys t) = PoolBucket.AtDone;
  drawing_tags : tags_drawn g0 (PoolBucket.sys_threads sys) drawn;
  drawing_node : forall t,
    In t drawn ->
    PoolBucket.pc (PoolBucket.sys_threads sys t) <> PoolBucket.AtLoadHead ->
    TaggedIndex.tag (PoolBucket.loc_nodeValue (PoolBucket.sys_threads sys t))
    = PoolBucket.loc_tag (PoolBucket.sys_threads sys t);
  drawing_finished_nodup : NoDup finished;
  drawing_finished : forall t,
    In t finished ->
    In t drawn /\
    PoolBucket.pc (PoolBucket.sys_threads sys t) = PoolBucket.AtDone;
  drawing_pushed :
    PoolBucket.pushed sys
    = pushed0
      ++ map (fun t => PoolBucket.loc_tag (PoolBucket.sys_threads sys t))
             (rev finished)
}.

(** * Generic allocators used in the examples *)

(** A bump allocator: the state is the next free address. *)
#[export] Instance BumpAllocator : GenericAllocator.Ops Z := {|
  GenericAllocator.Alloc := fun g n a => (g, g + n);
  GenericAllocator.Free := fun g _ => g;
  GenericAllocator.Realloc := fun g m p n a => (g, (g + n, memmove m g p n));
  GenericAllocator.GetUsableSpace := fun _ _ => 0
|}.

(** A generic allocator that hands out one block, at the address in its
    state, and is out of memory from then on. *)
#[export] Instance OneShotAllocator : GenericAllocator.Ops (option Z) := {|
  GenericAllocator.Alloc := fun g n a =>
    match g with Some p => (p, None) | None => (0, None) end;
  GenericAllocator.Free := fun g _ => g;
  GenericAllocator.Realloc := fun g m p n a => (0, (g, m));
  GenericAllocator.GetUsableSpace := fun _ _ => 0
|}.

(** * States used in the examples *)

(** Scenario S1: eight buckets of 4096 bytes, the arena at [0x10000]. *)
Definition s1_fresh : Allocator.t Z :=
  Allocator.Init 65536 (fun _ => 0) 8 4096 (fun _ _ => 0).

(** Two threads, each freeing one 16-byte slot of the same empty bucket
    (whose sub-region starts at [0x10000]): thread 0 frees the slot at
    offset 0, thread 1 the slot at offset 16. *)
Definition race_bucket : PoolBucket.t :=
  PoolBucket.mk TaggedIndex.Invalid 0 65536 65568.

Definition race_sys : PoolBucket.Sys :=
  PoolBucket.mkSys (fun _ => 0) race_bucket
    (fun tid => if tid =? 0 then PoolBucket.enter 65536 65536
                else PoolBucket.enter 65552 65552)
    [].

(** The same two threads with every other thread idle. *)
Definition pair_sys : PoolBucket.Sys :=
  PoolBucket.mkSys (fun _ => 0) race_bucket
    (fun tid => if tid =? 0 then PoolBucket.enter 65536 65536
                else if tid =? 1 then PoolBucket.enter 65552 65552
                else PoolBucket.mkFrame PoolBucket.AtDone 0 0 0 0 0)
    [].

Definition pair_offs (tid : Z) : Z := if tid =? 0 then 0 else 16.

(** Thread 0 draws its tag and is then overtaken by the whole push of
    thread 1. *)
Definition race_schedule : list Z := [0; 1; 1; 1; 1; 0; 0; 0].

(** [array_of l] is the array whose first cells hold [l]. *)
Definition array_of (l : list Z) : Z -> Z :=
  fun i => if i <? 0 then 0 else nth (Z.to_nat i) l 0.

(** A thread cache of L1 capacity 1 with both levels full (64-bit build:
    seven offsets in L0, one in L1), its bucket of 16-byte slots at
    [0x10000] with the slots from offset 144 on still free, and a slot of
    that bucket, at offset 128, that is about to be freed. *)
Definition k1_cache : TlsPoolBucket.t :=
  TlsPoolBucket.mk 65536 (array_of [112]) 0
    (array_of [0; 16; 32; 48; 64; 80; 96]) 1 1 7.

Definition k1_bucket : PoolBucket.t :=
  PoolBucket.mk (TaggedIndex.make 0 144) 0 65536 69632.

Definition k1_slot : Z := 65664.

(** How that state comes about: one bucket of 4096 bytes, a cold thread
    cache of size 1, nine allocations of 16 bytes, and the first eight of
    them freed again. *)
Fixpoint alloc_many (n : nat) (s : Allocator.t Z) : list Z * Allocator.t Z :=
  match n with
  | O => ([], s)
  | S k =>
      let '(p, s1) := Allocator.Alloc s 16 16 in
      let '(ps, s2) := alloc_many k s1 in
      (p :: ps, s2)
  end.

Definition k1_allocs : list Z * Allocator.t Z :=
  alloc_many 9
    (Allocator.CreateThreadCache
       (Allocator.Init 65536 (fun _ => 0) 1 4096 (fun _ _ => 0))
       CACHE_COLD 1).

Definition k1_run : Allocator.t Z :=
  fold_left (Allocator.Free X64) (firstn 8 (fst k1_allocs)) (snd k1_allocs).

(** User code writing the byte [v] to the [n] bytes at [a]. *)
Definition fill (m : mem) (a n v : Z) : mem :=
  fun x => if (a <=? x) && (x <? a + n) then v else m x.

(** Scenario S1 after its first allocation. *)
Definition s1_used : Allocator.t Z := snd (Allocator.Alloc s1_fresh 24 8).
Definition s1_ptr : Z := fst (Allocator.Alloc s1_fresh 24 8).

(** Out of memory: two buckets of 32 bytes at [0x10000] over a generic
    allocator that has nothing left. The slot at offset 0 of the bucket of
    16-byte slots is allocated and the user has filled it with [0xAB]; the
    other 16-byte slot is free; the single 32-byte slot is allocated too, so
    that no bucket can serve a request of 32 bytes. *)
Definition oom_ptr : Z := 65536.

Definition oom_state : Allocator.t (option Z) :=
  Allocator.mk 2 32 65600 (fun i => 65536 + i * 32)
    (upd (upd (fun _ => PoolBucket.new) 0
              (PoolBucket.mk (TaggedIndex.make 0 16) 0 65536 65568))
         1 (PoolBucket.mk TaggedIndex.Invalid 0 65568 65600))
    65536 None (fun _ => TlsPoolBucket.zero)
    (fill (store64 (store64 (fun _ => 0) 65552 TaggedIndex.Invalid)
                   65568 TaggedIndex.Invalid)
          65536 16 171).

(** How that state comes about: [Init] takes the arena from a generic
    allocator that has just this one block, [alloc(16, 16)] returns
    [oom_ptr], the user fills it, and [alloc(32, 16)] takes the 32-byte
    slot. *)
Definition oom_run : Allocator.t (option Z) :=
  let s0 := Allocator.Init (Some 65536) (fun _ => 0) 2 32 (fun _ _ => 0) in
  let s1 := snd (Allocator.Alloc s0 16 16) in
  let s2 := Allocator.set_ram s1 (fill (Allocator.ram s1) oom_ptr 16 171) in
  snd (Allocator.Alloc s2 32 16).

Definition first16 : list Z :=
  [0; 1; 2; 3; 4; 5; 6; 7; 8; 9; 10; 11; 12; 13; 14; 15].

(** A bucket of 16-byte slots at [0x10000] whose freelist holds the slot at
    offset 32 alone, and memory in which the slot at offset 0 is linked to
    the slot at offset 16: the interval from the one to the other is ready
    to be pushed. *)
Definition chain_mem : mem :=
  store64 (store64 (fun _ => 0) 65536 (TaggedIndex.make 5 16))
          65568 TaggedIndex.Invalid.

Definition chain_bucket : PoolBucket.t :=
  PoolBucket.mk (TaggedIndex.make 0 32) 1 65536 69632.

(** A thread cache for that bucket with an empty L0 and a full L1 of
    capacity 2, which holds the slots at offsets 0 and 16. *)
Definition full_cache : TlsPoolBucket.t :=
  TlsPoolBucket.mk 65536 (array_of [0; 16]) 0 (array_of []) 2 2 0.

(** A small allocator: two buckets of 64 bytes at [0x10000], four slots of
    16 bytes and two of 32, and no thread cache; then the same after its
    first [alloc(16, 16)], which returns the slot at [0x10000]. *)
Definition small_fresh : Allocator.t Z :=
  Allocator.Init 65536 (fun _ => 0) 2 64 (fun _ _ => 0).

Definition small_used : Allocator.t Z := snd (Allocator.Alloc small_fresh 16 16).
Definition small_ptr : Z := fst (Allocator.Alloc small_fresh 16 16).

(** The small allocator with a cold thread cache of size 4. *)
Definition small_cached : Allocator.t Z :=
  Allocator.CreateThreadCache small_fresh CACHE_COLD 4.

Definition small_cached_used : Allocator.t Z :=
  snd (Allocator.Alloc small_cached 16 16).
Definition small_cached_ptr : Z := fst (Allocator.Alloc small_cached 16 16).

(** The allocator of the out-of-memory example when just created, and
    after its single 32-byte slot has been taken. *)
Definition oom_fresh : Allocator.t (option Z) :=
  Allocator.Init (Some 65536) (fun _ => 0) 2 32 (fun _ _ => 0).

Definition oom_taken : Allocator.t (option Z) :=
  snd (Allocator.Alloc oom_fresh 32 16).

(** Closed goals over concrete states are settled by evaluation. *)
Ltac by_computation :=
  vm_compute; repeat (split || reflexivity || (intro; discriminate)).

(** * Part II: properties *)

(** * Basic facts about memory *)

Lemma upd_same {A} (f : Z -> A) i v : upd f i v i = v.
Proof. unfold upd. now rewrite Z.eqb_refl. Qed.

Lemma upd_other {A} (f : Z -> A) i j v : j <> i -> upd f i v j = f j.
Proof. unfold upd. intros H. apply Z.eqb_neq in H. now rewrite H. Qed.

Lemma upd_self {A} (f : Z -> A) i j : upd f i (f i) j = f j.
Proof.
  unfold upd. destruct (j =? i) eqn:E; [|reflexivity].
  apply Z.eqb_eq in E. now subst.
Qed.

Lemma store_le_outside n m a v x :
  x < a \/ a + Z.of_nat n <= x -> store_le n m a v x = m x.
Proof.
  intros H. unfold store_le.
  destruct (a <=? x) eqn:E1; destruct (x <? a + Z.of_nat n) eqn:E2;
    simpl; try reflexivity.
  apply Z.leb_le in E1. apply Z.ltb_lt in E2. lia.
Qed.

Lemma store_le_inside n m a v x :
  a <= x < a + Z.of_nat n -> store_le n m a v x = (v / 256 ^ (x - a)) mod 256.
Proof.
  intros [H1 H2]. unfold store_le.
  apply Z.leb_le in H1. apply Z.ltb_lt in H2. now rewrite H1, H2.
Qed.

Lemma load_le_ext n : forall m m' a,
  (forall x, a <= x < a + Z.of_nat n -> m' x = m x) ->
  load_le n m' a = load_le n m a.
Proof.
  induction n as [|k IH]; intros m m' a H; cbn [load_le]; [reflexivity|].
  rewrite (H a) by lia.
  rewrite (IH m m' (a + 1)); [reflexivity|].
  intros x Hx. apply H. lia.
Qed.

Lemma load_le_app n1 : forall n2 m a,
  load_le (n1 + n2) m a =
  load_le n1 m a + 256 ^ Z.of_nat n1 * load_le n2 m (a + Z.of_nat n1).
Proof.
  induction n1 as [|k IH]; intros n2 m a.
  - cbn [Nat.add load_le]. rewrite Z.add_0_r. change (Z.of_nat 0) with 0.
    rewrite Z.pow_0_r. lia.
  - cbn [Nat.add load_le]. rewrite IH.
    replace (a + 1 + Z.of_nat k) with (a + Z.of_nat (S k)) by lia.
    replace (256 ^ Z.of_nat (S k)) with (256 * 256 ^ Z.of_nat k).
    + ring.
    + rewrite Nat2Z.inj_succ, Z.pow_succ_r by lia. reflexivity.
Qed.

(** Reading back [k] bytes at position [j] of a stored value. *)
Lemma load_store_le_part k : forall n m a v j,
  0 <= j -> j + Z.of_nat k <= Z.of_nat n ->
  load_le k (store_le n m a v) (a + j) = (v / 256 ^ j) mod 256 ^ Z.of_nat k.
Proof.
  induction k as [|k IH]; intros n m a v j Hj Hn.
  - cbn [load_le]. change (Z.of_nat 0) with 0.
    rewrite Z.pow_0_r. now rewrite Z.mod_1_r.
  - cbn [load_le].
    rewrite store_le_inside by lia.
    replace (a + j + 1) with (a + (j + 1)) by lia.
    rewrite IH by lia.
    replace (a + j - a) with j by lia.
    rewrite Nat2Z.inj_succ, Z.pow_succ_r by lia.
    rewrite Z.pow_add_r by lia. rewrite Z.pow_1_r.
    rewrite <- Z.div_div by (try apply Z.pow_pos_nonneg; lia).
    rewrite (Z.rem_mul_r (v / 256 ^ j) 256 (256 ^ Z.of_nat k))
      by (try apply Z.pow_nonzero; try apply Z.pow_pos_nonneg; lia).
    reflexivity.
Qed.

Lemma load_store_le_same n m a v :
  0 <= v < 256 ^ Z.of_nat n -> load_le n (store_le n m a v) a = v.
Proof.
  intros Hv.
  replace a with (a + 0) at 2 by lia.
  rewrite load_store_le_part by lia.
  rewrite Z.pow_0_r, Z.div_1_r. now apply Z.mod_small.
Qed.

Lemma load_store_le_other k n m a v b :
  b + Z.of_nat k <= a \/ a + Z.of_nat n <= b ->
  load_le k (store_le n m a v) b = load_le k m b.
Proof.
  intros H. apply load_le_ext. intros x Hx.
  apply store_le_outside. lia.
Qed.

Lemma load64_store64_same m a v :
  0 <= v < 2 ^ 64 -> load64 (store64 m a v) a = v.
Proof. intros H. apply load_store_le_same. exact H. Qed.

Lemma load64_store64_other m a v b :
  b + 8 <= a \/ a + 8 <= b -> load64 (store64 m a v) b = load64 m b.
Proof. intros H. apply load_store_le_other. simpl. lia. Qed.

Lemma memmove_inside m dst src n x :
  dst <= x < dst + n -> memmove m dst src n x = m (src + (x - dst)).
Proof.
  intros [H1 H2]. unfold memmove.
  apply Z.leb_le in H1. apply Z.ltb_lt in H2. now rewrite H1, H2.
Qed.

Lemma memmove_outside m dst src n x :
  x < dst \/ dst + n <= x -> memmove m dst src n x = m x.
Proof.
  intros H. unfold memmove.
  destruct (dst <=? x) eqn:E1; destruct (x <? dst + n) eqn:E2;
    simpl; try reflexivity.
  apply Z.leb_le in E1. apply Z.ltb_lt in E2. lia.
Qed.

(** * The dispatcher's pointer arithmetic *)

Section Geometry.
Context {G : Type} {GA : GenericAllocator.Ops G}.
Variable arch : Arch.
Implicit Types (s : Allocator.t G) (p i : Z).

Lemma ptrBits_pos : 0 < 2 ^ ptrBits arch.
Proof. destruct arch; reflexivity. Qed.

Lemma IsReadable_false p :
  p <= Allocator.MaxValidAlignment -> Allocator.IsReadable p = false.
Proof.
  intros H. unfold Allocator.IsReadable.
  destruct (p >? Allocator.MaxValidAlignment) eqn:E; [|reflexivity].
  apply Z.gtb_lt in E. lia.
Qed.

Lemma IsReadable_true p :
  Allocator.MaxValidAlignment < p -> Allocator.IsReadable p = true.
Proof.
  intros H. unfold Allocator.IsReadable.
  destruct (p >? Allocator.MaxValidAlignment) eqn:E; [reflexivity|].
  rewrite Z.gtb_ltb in E. apply Z.ltb_ge in E. lia.
Qed.

Lemma IsMyAlloc_true_iff s p :
  Allocator.IsMyAlloc s p = true <->
  Allocator.pBuffer s <= p < Allocator.pBufferEnd s.
Proof.
  unfold Allocator.IsMyAlloc. rewrite andb_true_iff, Z.leb_le, Z.ltb_lt.
  reflexivity.
Qed.

Lemma IsMyAlloc_false_iff s p :
  Allocator.IsMyAlloc s p = false <->
  p < Allocator.pBuffer s \/ Allocator.pBufferEnd s <= p.
Proof.
  unfold Allocator.IsMyAlloc. rewrite andb_false_iff, Z.leb_gt, Z.ltb_ge.
  reflexivity.
Qed.

Lemma region_base_step s i :
  region_base s (i + 1) = region_base s i + Allocator.bucketSizeInBytes s.
Proof. unfold region_base. ring. Qed.

Lemma region_base_mono s i j :
  0 < Allocator.bucketSizeInBytes s -> i <= j ->
  region_base s i <= region_base s j.
Proof. intros Hs Hij. unfold region_base. nia. Qed.

(** Inside the sub-region of bucket [i], [FindBucket] answers [i]. *)
Lemma FindBucket_region s p i :
  geometry arch s -> 0 <= i < Allocator.bucketsCount s ->
  region_base s i <= p < region_base s (i + 1) ->
  Allocator.FindBucket arch s p = i.
Proof.
  intros Hg Hi Hp. destruct Hg as [Hsz Hcnt Hbase Hbeg Hend Hfit].
  unfold Allocator.FindBucket. rewrite Hbeg.
  assert (Hle : region_base s (i + 1) <= Allocator.pBufferEnd s).
  { rewrite Hend. apply region_base_mono; lia. }
  unfold region_base in *. unfold Allocator.MaxValidAlignment in *.
  unfold wrap. rewrite Z.mod_small by nia.
  symmetry. apply (Z.div_unique _ _ i (p - Allocator.pBuffer s
                                        - i * Allocator.bucketSizeInBytes s)).
  - left. lia.
  - ring.
Qed.

(** Every pointer of the arena lies in the sub-region of the bucket that
    [FindBucket] names, and that bucket exists. *)
Lemma FindBucket_arena s p :
  geometry arch s -> Allocator.IsMyAlloc s p = true ->
  let i := (p - Allocator.pBuffer s) / Allocator.bucketSizeInBytes s in
  0 <= i < Allocator.bucketsCount s /\
  region_base s i <= p < region_base s (i + 1) /\
  Allocator.FindBucket arch s p = i.
Proof.
  intros Hg Hp i. apply IsMyAlloc_true_iff in Hp.
  pose proof Hg as [Hsz Hcnt Hbase Hbeg Hend Hfit].
  rewrite Hend in Hp. unfold region_base in Hp.
  pose proof (Z.div_mod (p - Allocator.pBuffer s) (Allocator.bucketSizeInBytes s)
                ltac:(lia)) as Hdm.
  pose proof (Z.mod_pos_bound (p - Allocator.pBuffer s)
                (Allocator.bucketSizeInBytes s) Hsz) as Hmb.
  fold i in Hdm.
  assert (Hi : 0 <= i < Allocator.bucketsCount s).
  { split.
    - apply Z.div_pos; lia.
    - apply Z.div_lt_upper_bound; [lia|]. nia. }
  assert (Hr : region_base s i <= p < region_base s (i + 1)).
  { unfold region_base. nia. }
  split; [exact Hi|]. split; [exact Hr|].
  apply FindBucket_region; assumption.
Qed.

(** Outside the arena, [FindBucket] names no bucket. *)
Lemma FindBucket_outside s p :
  geometry arch s -> 0 <= p < 2 ^ ptrBits arch ->
  Allocator.IsMyAlloc s p = false ->
  Allocator.bucketsCount s <= Allocator.FindBucket arch s p.
Proof.
  intros Hg Hp Hout. apply IsMyAlloc_false_iff in Hout.
  destruct Hg as [Hsz Hcnt Hbase Hbeg Hend Hfit].
  unfold Allocator.FindBucket. rewrite Hbeg.
  rewrite Hend in *. unfold region_base in *.
  unfold Allocator.MaxValidAlignment in *. unfold wrap.
  apply Z.div_le_lower_bound; [lia|].
  destruct Hout as [Hlow | Hhigh].
  - replace (p - Allocator.pBuffer s)
      with (p - Allocator.pBuffer s + 2 ^ ptrBits arch
            + (-1) * 2 ^ ptrBits arch) by ring.
    rewrite Z.mod_add by lia.
    rewrite Z.mod_small by lia. nia.
  - rewrite Z.mod_small by lia. nia.
Qed.

Lemma GetBucketElementSize_small i :
  0 <= i < SMM_MAX_BUCKET_COUNT ->
  Allocator.GetBucketElementSize i = 16 * (i + 1).
Proof.
  intros Hi. unfold Allocator.GetBucketElementSize, u32, wrap.
  unfold SMM_MAX_BUCKET_COUNT in Hi.
  rewrite Z.mod_small; [ring|]. lia.
Qed.

End Geometry.

(** * Sentinels, [GetUsableSize] and [Free] *)

Section Dispatch.
Context {G : Type} {GA : GenericAllocator.Ops G}.
Variable arch : Arch.
Implicit Types (s : Allocator.t G) (p i a n : Z).

Lemma is_pow2_pos a : is_pow2 a -> 0 < a.
Proof. intros [k [Hk ->]]. apply Z.pow_pos_nonneg; lia. Qed.

(** C4. For a power-of-two alignment [a <= 16384], [alloc(0, a)] returns the
    value [a] itself as a (non-null) pointer and leaves the allocator as it
    was; freeing that value does nothing, and its usable size is 0. *)
Theorem zero_size_sentinel s a :
  is_pow2 a -> a <= Allocator.MaxValidAlignment ->
  Allocator.Alloc s 0 a = (a, s) /\
  a <> 0 /\
  Allocator.Free arch s a = s /\
  Allocator.GetUsableSize arch s a = 0.
Proof.
  intros Hpow Hle. pose proof (is_pow2_pos a Hpow) as Hpos.
  repeat split.
  - lia.
  - unfold Allocator.Free. now rewrite IsReadable_false.
  - unfold Allocator.GetUsableSize. now rewrite IsReadable_false.
Qed.

Lemma GetUsableSize_region s p i :
  geometry arch s -> 0 <= i < Allocator.bucketsCount s ->
  region_base s i <= p < region_base s (i + 1) ->
  Allocator.GetUsableSize arch s p = 16 * (i + 1).
Proof.
  intros Hg Hi Hr.
  assert (Hread : Allocator.MaxValidAlignment < p).
  { pose proof (geo_base _ _ Hg) as Hb. pose proof (geo_size _ _ Hg) as Hsz.
    unfold region_base in Hr. nia. }
  unfold Allocator.GetUsableSize. rewrite IsReadable_true by exact Hread.
  cbn [negb]. rewrite (FindBucket_region arch s p i Hg Hi Hr).
  destruct (i <? Allocator.bucketsCount s) eqn:E;
    [|apply Z.ltb_ge in E; lia].
  apply GetBucketElementSize_small.
  pose proof (geo_count _ _ Hg). lia.
Qed.

(** C7. [usable_size(p)] is 0 for a sentinel ([p <= 16384]), the element
    size [16 * (i + 1)] for a pointer in the sub-region of bucket [i], and
    what the generic allocator answers for every other pointer. *)
Theorem GetUsableSize_spec s p :
  geometry arch s -> 0 <= p < 2 ^ ptrBits arch ->
  (p <= Allocator.MaxValidAlignment -> Allocator.GetUsableSize arch s p = 0) /\
  (forall i, 0 <= i < Allocator.bucketsCount s ->
     region_base s i <= p < region_base s (i + 1) ->
     Allocator.GetUsableSize arch s p = 16 * (i + 1)) /\
  (Allocator.MaxValidAlignment < p -> Allocator.IsMyAlloc s p = false ->
     Allocator.GetUsableSize arch s p =
     GenericAllocator.GetUsableSpace (Allocator.gAllocator s) p).
Proof.
  intros Hg Hp. split; [|split].
  - intros Hs. unfold Allocator.GetUsableSize. now rewrite IsReadable_false.
  - intros i Hi Hr. apply GetUsableSize_region; assumption.
  - intros Hread Hout.
    unfold Allocator.GetUsableSize. rewrite IsReadable_true by exact Hread.
    cbn [negb].
    pose proof (FindBucket_outside arch s p Hg Hp Hout) as Hfb.
    destruct (Allocator.FindBucket arch s p <? Allocator.bucketsCount s) eqn:E;
      [apply Z.ltb_lt in E; lia | reflexivity].
Qed.

End Dispatch.

(** * The tag of the freelist head *)

Section Tags.
Implicit Types (m : mem) (b : PoolBucket.t).

Lemma u32_idem x : u32 (u32 x) = u32 x.
Proof. unfold u32, wrap. apply Z.mod_mod. lia. Qed.

Lemma u32_add_l x y : u32 (u32 x + y) = u32 (x + y).
Proof. unfold u32, wrap. apply Zplus_mod_idemp_l. Qed.

Lemma u32_range x : 0 <= u32 x < 2 ^ 32.
Proof. unfold u32, wrap. apply Z.mod_pos_bound. lia. Qed.

Lemma tag_make t o : TaggedIndex.tag (TaggedIndex.make t o) = u32 t.
Proof.
  unfold TaggedIndex.tag, TaggedIndex.make.
  rewrite Z.mul_comm, Z.mod_add by lia.
  apply u32_idem.
Qed.

Lemma offset_make t o : TaggedIndex.offset (TaggedIndex.make t o) = u32 o.
Proof.
  unfold TaggedIndex.offset, TaggedIndex.make.
  pose proof (u32_range t) as Ht.
  rewrite Z.mul_comm, Z.div_add by lia.
  rewrite (Z.div_small (u32 t)) by lia.
  apply u32_idem.
Qed.

Lemma make_range t o : 0 <= TaggedIndex.make t o < 2 ^ 64.
Proof.
  unfold TaggedIndex.make.
  pose proof (u32_range t). pose proof (u32_range o). lia.
Qed.

(** An uncontended [FreeInterval] installs the tag it drew from
    [globalTag] and leaves [globalTag] one further. *)
Lemma FreeInterval_tag m b pHead pTail :
  let b' := snd (PoolBucket.FreeInterval m b pHead pTail) in
  TaggedIndex.tag (PoolBucket.head b') = u32 (PoolBucket.globalTag b) /\
  PoolBucket.globalTag b' = u32 (PoolBucket.globalTag b + 1) /\
  PoolBucket.pData b' = PoolBucket.pData b.
Proof.
  unfold PoolBucket.FreeInterval. cbn.
  split; [apply tag_make | split; reflexivity].
Qed.

Lemma Alloc_globalTag m b :
  PoolBucket.globalTag (snd (PoolBucket.Alloc m b)) = PoolBucket.globalTag b.
Proof.
  unfold PoolBucket.Alloc.
  destruct (PoolBucket.head b =? TaggedIndex.Invalid); reflexivity.
Qed.

(** Run alone, the four atomic steps of a thread make up [FreeInterval]. *)
Lemma FreeInterval_solo m b pHead pTail :
  let '(m1, b1, f1) := PoolBucket.step m b (PoolBucket.enter pHead pTail) in
  let '(m2, b2, f2) := PoolBucket.step m1 b1 f1 in
  let '(m3, b3, f3) := PoolBucket.step m2 b2 f2 in
  let '(m4, b4, f4) := PoolBucket.step m3 b3 f3 in
  (m4, b4) = PoolBucket.FreeInterval m b pHead pTail /\
  PoolBucket.pc f4 = PoolBucket.AtDone.
Proof.
  unfold PoolBucket.step, PoolBucket.enter, PoolBucket.FreeInterval.
  cbn. rewrite Z.eqb_refl. cbn. split; reflexivity.
Qed.

Lemma counting_S g n : counting g (S n) = u32 g :: counting (u32 (g + 1)) n.
Proof.
  unfold counting. cbn [seq map]. rewrite Z.add_0_r. f_equal.
  rewrite <- seq_shift, map_map.
  apply map_ext. intros k. rewrite u32_add_l. f_equal. lia.
Qed.

(** The tags left by the pushes of a sequence of uncontended operations
    count up from [globalTag]. *)
Lemma exec_fold ops : forall m b acc,
  exists n,
    snd (fold_left PoolBucket.exec ops (m, b, acc)) =
    acc ++ counting (PoolBucket.globalTag b) n.
Proof.
  induction ops as [|o ops IH]; intros m b acc.
  - exists O. cbn. now rewrite app_nil_r.
  - cbn [fold_left]. destruct o as [|pHead pTail].
    + cbn [PoolBucket.exec].
      destruct (IH m (snd (PoolBucket.Alloc m b)) acc) as [n Hn].
      exists n. rewrite Hn. now rewrite Alloc_globalTag.
    + cbn [PoolBucket.exec].
      pose proof (FreeInterval_tag m b pHead pTail) as Ht. cbv zeta in Ht.
      destruct (PoolBucket.FreeInterval m b pHead pTail) as [m' b'].
      cbn [snd] in Ht. destruct Ht as [Htag [Hg _]].
      destruct (IH m' b' (acc ++ [TaggedIndex.tag (PoolBucket.head b')]))
        as [n Hn].
      exists (S n). rewrite Hn, Htag, Hg, counting_S.
      rewrite <- app_assoc. reflexivity.
Qed.

Lemma tag_le_succ g : tag_le (u32 g) (u32 (g + 1)).
Proof.
  unfold tag_le, u32, wrap.
  rewrite Zminus_mod_idemp_l, Zminus_mod_idemp_r.
  replace (g + 1 - g) with 1 by ring.
  reflexivity.
Qed.

Lemma counting_nondecreasing n : forall g, tags_nondecreasing (counting g n).
Proof.
  induction n as [|n IH]; intros g; [exact I|].
  rewrite counting_S. destruct n as [|n'].
  - exact I.
  - specialize (IH (u32 (g + 1))). rewrite counting_S in IH |- *.
    cbn [tags_nondecreasing]. split.
    + rewrite u32_idem. apply tag_le_succ.
    + exact IH.
Qed.

(** C9, as amended. When the pushes on a bucket do not overlap one another
    (each [FreeInterval] runs from its [fetch_add] to its compare-exchange
    with no other push in between; pops may come in any number between
    them), the tags of [head] after the successive pushes are
    [globalTag], [globalTag + 1], ... modulo [2^32]: each is one more than
    the one before, so they never decrease modulo [2^32]. *)
Theorem push_tags_count_up m b ops :
  let tags := PoolBucket.push_tags m b ops in
  tags = map (fun k => u32 (PoolBucket.globalTag b + Z.of_nat k))
             (seq 0 (length tags)) /\
  tags_nondecreasing tags.
Proof.
  unfold PoolBucket.push_tags.
  destruct (exec_fold ops m b []) as [n Hn]. cbn [app] in Hn.
  cbv zeta. rewrite Hn. split.
  - unfold counting. rewrite length_map, length_seq. reflexivity.
  - apply counting_nondecreasing.
Qed.

(** C9 as stated fails once two pushes overlap: thread 0 draws tag 0,
    thread 1 draws tag 1 and completes its push, then thread 0 completes
    its own. Both compare-exchanges succeed at the first attempt, and the
    tag of [head] goes from 1 down to 0. *)
Lemma overlapping_pushes_decrease_tag :
  let final := PoolBucket.run race_sys race_schedule in
  PoolBucket.pc (PoolBucket.sys_threads final 0) = PoolBucket.AtDone /\
  PoolBucket.pc (PoolBucket.sys_threads final 1) = PoolBucket.AtDone /\
  PoolBucket.pushed final = [1; 0] /\
  ~ tags_nondecreasing (PoolBucket.pushed final).
Proof.
  assert (E : PoolBucket.pushed (PoolBucket.run race_sys race_schedule) = [1; 0])
    by (vm_compute; reflexivity).
  cbv zeta. rewrite E.
  split; [vm_compute; reflexivity|].
  split; [vm_compute; reflexivity|].
  split; [reflexivity|].
  cbn [tags_nondecreasing]. intros [H _]. revert H.
  unfold tag_le, u32, wrap. vm_compute. intros H. discriminate H.
Qed.

End Tags.

(** * The thread cache *)

Section Cache.
Variable arch : Arch.
Implicit Types (c : TlsPoolBucket.t) (b : PoolBucket.t) (m : mem).

Lemma K0_range : 0 < SMM_MAX_CACHE_ITEMS_COUNT arch <= 10.
Proof. destruct arch; cbn; lia. Qed.

Lemma u8_small x : 0 <= x < 256 -> u8 x = x.
Proof. intros H. unfold u8, wrap. apply Z.mod_small. cbn. lia. Qed.

Lemma u32_small x : 0 <= x < 2 ^ 32 -> u32 x = x.
Proof. intros H. unfold u32, wrap. now apply Z.mod_small. Qed.

(** A pop takes from L0 if it holds anything, else from L1, and lowers only
    the counter of the level it took from. *)
Lemma AllocFromCache_cases c :
  counters_in_range arch c ->
  let '(p, c') := Allocator.AllocFromCache c in
  (0 < TlsPoolBucket.numElementsL0 c /\
   TlsPoolBucket.numElementsL0 c' = TlsPoolBucket.numElementsL0 c - 1 /\
   TlsPoolBucket.numElementsL1 c' = TlsPoolBucket.numElementsL1 c /\
   p = TlsPoolBucket.pBucketData c
       + TlsPoolBucket.storageL0 c (TlsPoolBucket.numElementsL0 c - 1)) \/
  (TlsPoolBucket.numElementsL0 c = 0 /\ 0 < TlsPoolBucket.numElementsL1 c /\
   TlsPoolBucket.numElementsL0 c' = 0 /\
   TlsPoolBucket.numElementsL1 c' = TlsPoolBucket.numElementsL1 c - 1 /\
   p = TlsPoolBucket.pBucketData c
       + TlsPoolBucket.pStorageL1 c (TlsPoolBucket.numElementsL1 c - 1)) \/
  (TlsPoolBucket.numElementsL0 c = 0 /\ TlsPoolBucket.numElementsL1 c = 0 /\
   c' = c /\ p = 0).
Proof.
  intros [H0 H1]. pose proof K0_range as HK.
  unfold Allocator.AllocFromCache.
  destruct (TlsPoolBucket.numElementsL0 c >? 0) eqn:E0.
  - apply Z.gtb_lt in E0. left. cbn.
    rewrite u8_small by lia. repeat split; try lia.
  - rewrite Z.gtb_ltb in E0. apply Z.ltb_ge in E0.
    destruct (TlsPoolBucket.numElementsL1 c >? 0) eqn:E1.
    + apply Z.gtb_lt in E1. right. left. cbn.
      rewrite u32_small by lia. repeat split; try lia.
    + rewrite Z.gtb_ltb in E1. apply Z.ltb_ge in E1.
      right. right. repeat split; lia.
Qed.

Lemma AllocFromCache_occupancy c :
  occupancy_ok arch c -> occupancy_ok arch (snd (Allocator.AllocFromCache c)).
Proof.
  intros Hc.
  assert (Hr : counters_in_range arch c)
    by (destruct Hc as [H0 [H1 Hmax]]; split; lia).
  pose proof (AllocFromCache_cases c Hr) as H.
  destruct (Allocator.AllocFromCache c) as [p c'] eqn:E. cbn [snd].
  assert (Hm : TlsPoolBucket.maxElementsCount c' = TlsPoolBucket.maxElementsCount c).
  { unfold Allocator.AllocFromCache in E.
    destruct (TlsPoolBucket.numElementsL0 c >? 0);
      [|destruct (TlsPoolBucket.numElementsL1 c >? 0)];
      inversion E; reflexivity. }
  destruct Hc as [H0 [H1 Hmax]]. unfold occupancy_ok. rewrite Hm.
  destruct H as [H | [H | H]].
  - lia.
  - lia.
  - destruct H as [_ [_ [-> _]]]. lia.
Qed.

(** What [ReturnL1CacheToMaster] does when it has something to return: one
    [FreeInterval] on the bucket, and [min count numElementsL1] entries off
    the top of L1. *)
Lemma ReturnL1CacheToMaster_some c b m count :
  0 < count -> 0 < TlsPoolBucket.numElementsL1 c ->
  let '(c', b', m') := TlsPoolBucket.ReturnL1CacheToMaster c b m count in
  TlsPoolBucket.numElementsL1 c' =
    TlsPoolBucket.numElementsL1 c - Z.min count (TlsPoolBucket.numElementsL1 c) /\
  TlsPoolBucket.numElementsL0 c' = TlsPoolBucket.numElementsL0 c /\
  TlsPoolBucket.maxElementsCount c' = TlsPoolBucket.maxElementsCount c /\
  TlsPoolBucket.pStorageL1 c' = TlsPoolBucket.pStorageL1 c /\
  TlsPoolBucket.storageL0 c' = TlsPoolBucket.storageL0 c /\
  TlsPoolBucket.pBucketData c' = TlsPoolBucket.pBucketData c /\
  TlsPoolBucket.pBucket c' = TlsPoolBucket.pBucket c /\
  PoolBucket.globalTag b' = u32 (PoolBucket.globalTag b + 1) /\
  TaggedIndex.offset (PoolBucket.head b') =
    u32 (TlsPoolBucket.pBucketData c
         + TlsPoolBucket.pStorageL1 c
             (TlsPoolBucket.numElementsL1 c
              - Z.min count (TlsPoolBucket.numElementsL1 c))
         - PoolBucket.pData b).
Proof.
  intros Hc Hn. unfold TlsPoolBucket.ReturnL1CacheToMaster.
  destruct (count =? 0) eqn:E0; [apply Z.eqb_eq in E0; lia|].
  destruct (TlsPoolBucket.numElementsL1 c =? 0) eqn:E1;
    [apply Z.eqb_eq in E1; lia|].
  cbv zeta.
  destruct (TlsPoolBucket.link_loop _ c m _ _ _) as [m1 pTail].
  unfold PoolBucket.FreeInterval. cbn.
  rewrite offset_make, u32_idem.
  repeat split; reflexivity.
Qed.

(** Occupancy survives every push, except on a cache of L1 capacity 1. *)
Lemma ReleaseToCache_occupancy useCacheL0 c b m p :
  occupancy_ok arch c -> TlsPoolBucket.maxElementsCount c <> 1 ->
  let '(ok, (c', b', m')) :=
    Allocator.ReleaseToCache arch useCacheL0 c b m p in
  occupancy_ok arch c' /\
  (ok = false <-> TlsPoolBucket.maxElementsCount c = 0).
Proof.
  intros [H0 [H1 Hmax]] Hne. pose proof K0_range as HK.
  unfold Allocator.ReleaseToCache.
  destruct (TlsPoolBucket.maxElementsCount c =? 0) eqn:Em.
  { apply Z.eqb_eq in Em. split; [repeat split; lia | tauto]. }
  apply Z.eqb_neq in Em.
  assert (Hok : forall P : Prop, (true = false <-> P) <-> ~ P)
    by (intros P; split; [intros [_ H] HP; discriminate (H HP)
                         | intros HnP; split; [discriminate | tauto]]).
  destruct (useCacheL0 &&
            (TlsPoolBucket.numElementsL0 c <? SMM_MAX_CACHE_ITEMS_COUNT arch))
    eqn:EL0.
  { apply andb_true_iff in EL0. destruct EL0 as [_ EL0].
    apply Z.ltb_lt in EL0. split; [|apply Hok; exact Em].
    unfold occupancy_ok. cbn. rewrite u8_small by lia. lia. }
  destruct (TlsPoolBucket.numElementsL1 c <? TlsPoolBucket.maxElementsCount c)
    eqn:EL1.
  { apply Z.ltb_lt in EL1. split; [|apply Hok; exact Em].
    unfold occupancy_ok. cbn. rewrite u32_small by lia. lia. }
  apply Z.ltb_ge in EL1.
  assert (Hfull : 2 <= TlsPoolBucket.numElementsL1 c) by lia.
  rewrite Z.shiftr_div_pow2 by lia. change (2 ^ 1) with 2.
  assert (Hhalf : 0 < TlsPoolBucket.numElementsL1 c / 2
                  <= TlsPoolBucket.numElementsL1 c).
  { split.
    - apply Z.div_str_pos. lia.
    - apply Z.div_le_upper_bound; lia. }
  pose proof (ReturnL1CacheToMaster_some c b m
                (TlsPoolBucket.numElementsL1 c / 2)
                ltac:(lia) ltac:(lia)) as Hret.
  destruct (TlsPoolBucket.ReturnL1CacheToMaster c b m
              (TlsPoolBucket.numElementsL1 c / 2)) as [[c1 b1] m1].
  destruct Hret as [Hn1 [Hn0 [Hmx _]]].
  rewrite Z.min_l in Hn1 by lia.
  split; [|apply Hok; exact Em].
  unfold occupancy_ok. cbn. rewrite Hn0, Hmx, Hn1.
  rewrite u32_small by lia. lia.
Qed.

Lemma ReturnL1CacheToMaster_cache c b m count :
  0 < count <= TlsPoolBucket.numElementsL1 c ->
  fst (fst (TlsPoolBucket.ReturnL1CacheToMaster c b m count))
  = TlsPoolBucket.set_L1 c (TlsPoolBucket.pStorageL1 c)
      (TlsPoolBucket.numElementsL1 c - count) /\
  PoolBucket.pData (snd (fst (TlsPoolBucket.ReturnL1CacheToMaster c b m count)))
  = PoolBucket.pData b.
Proof.
  intros Hc. unfold TlsPoolBucket.ReturnL1CacheToMaster.
  destruct (count =? 0) eqn:E0; [apply Z.eqb_eq in E0; lia|].
  destruct (TlsPoolBucket.numElementsL1 c =? 0) eqn:E1;
    [apply Z.eqb_eq in E1; lia|].
  cbv zeta. rewrite Z.min_l by lia.
  destruct (TlsPoolBucket.link_loop _ c m _ _ _) as [m1 pTail].
  unfold PoolBucket.FreeInterval. cbn. split; reflexivity.
Qed.

(** The branches of a push into a cache that is enabled. It always
    succeeds. With room in L0 the offset goes on top of L0; else with room
    in L1 it goes on top of L1; else, L1 holding at least two entries, half
    of them (rounded down) leave by [ReturnL1CacheToMaster] and the offset
    goes on top of what is left. The last branch is the full L1 of one
    entry: nothing leaves it, the bucket is not touched, and the offset
    goes into cell 1. *)
Lemma ReleaseToCache_cases c b m p :
  0 < TlsPoolBucket.maxElementsCount c ->
  0 <= TlsPoolBucket.numElementsL0 c < 255 ->
  0 <= TlsPoolBucket.numElementsL1 c < 2 ^ 32 - 1 ->
  let offset := u32 (p - TlsPoolBucket.pBucketData c) in
  let n0 := TlsPoolBucket.numElementsL0 c in
  let n1 := TlsPoolBucket.numElementsL1 c in
  let r := Allocator.ReleaseToCache arch true c b m p in
  fst r = true /\
  ((n0 < SMM_MAX_CACHE_ITEMS_COUNT arch /\
    snd r = (TlsPoolBucket.set_L0 c (upd (TlsPoolBucket.storageL0 c) n0 offset)
                                  (n0 + 1), b, m))
   \/
   (SMM_MAX_CACHE_ITEMS_COUNT arch <= n0 /\
    n1 < TlsPoolBucket.maxElementsCount c /\
    snd r = (TlsPoolBucket.set_L1 c (upd (TlsPoolBucket.pStorageL1 c) n1 offset)
                                  (n1 + 1), b, m))
   \/
   (SMM_MAX_CACHE_ITEMS_COUNT arch <= n0 /\
    TlsPoolBucket.maxElementsCount c <= n1 /\ 2 <= n1 /\
    let flushed := TlsPoolBucket.ReturnL1CacheToMaster c b m (n1 / 2) in
    snd r = (TlsPoolBucket.set_L1 c
               (upd (TlsPoolBucket.pStorageL1 c) (n1 - n1 / 2) offset)
               (n1 - n1 / 2 + 1),
             snd (fst flushed), snd flushed))
   \/
   (SMM_MAX_CACHE_ITEMS_COUNT arch <= n0 /\
    TlsPoolBucket.maxElementsCount c <= n1 /\ n1 = 1 /\
    snd r = (TlsPoolBucket.set_L1 c (upd (TlsPoolBucket.pStorageL1 c) 1 offset) 2,
             b, m))).
Proof.
  intros Hmax H0 H1 offset n0 n1 r. pose proof K0_range as HK.
  subst r n0 n1. cbv zeta. unfold Allocator.ReleaseToCache.
  destruct (TlsPoolBucket.maxElementsCount c =? 0) eqn:Em;
    [apply Z.eqb_eq in Em; lia|].
  fold offset. cbn [andb].
  destruct (TlsPoolBucket.numElementsL0 c <? SMM_MAX_CACHE_ITEMS_COUNT arch)
    eqn:EL0.
  { apply Z.ltb_lt in EL0. split; [reflexivity|].
    left. cbn [snd]. rewrite u8_small by lia. split; [exact EL0 | reflexivity]. }
  apply Z.ltb_ge in EL0.
  destruct (TlsPoolBucket.numElementsL1 c <? TlsPoolBucket.maxElementsCount c)
    eqn:EL1.
  { apply Z.ltb_lt in EL1. split; [reflexivity|].
    right. left. cbn [snd]. rewrite u32_small by lia.
    split; [exact EL0|]. split; [exact EL1 | reflexivity]. }
  apply Z.ltb_ge in EL1.
  rewrite Z.shiftr_div_pow2 by lia. change (2 ^ 1) with 2.
  destruct (Z_lt_le_dec (TlsPoolBucket.numElementsL1 c) 2) as [Hone | Htwo].
  - (* L1 is full with a single entry, or empty *)
    assert (Hn1 : TlsPoolBucket.numElementsL1 c = 0 \/
                  TlsPoolBucket.numElementsL1 c = 1) by lia.
    destruct Hn1 as [Hn1 | Hn1].
    + (* an empty L1 that counts as full: the capacity is negative *)
      exfalso. lia.
    + rewrite Hn1. change (1 / 2) with 0.
      unfold TlsPoolBucket.ReturnL1CacheToMaster. cbn [Z.eqb].
      split; [reflexivity|].
      right. right. right. cbn [snd TlsPoolBucket.numElementsL1
                                TlsPoolBucket.pStorageL1].
      rewrite Hn1. change (u32 (1 + 1)) with 2.
      split; [exact EL0|]. split; [lia|].
      split; [reflexivity | reflexivity].
  - (* half of L1 goes back to the bucket *)
    assert (Hhalf : 0 < TlsPoolBucket.numElementsL1 c / 2
                    <= TlsPoolBucket.numElementsL1 c).
    { split.
      - apply Z.div_str_pos. lia.
      - apply Z.div_le_upper_bound; lia. }
    destruct (ReturnL1CacheToMaster_cache c b m
                (TlsPoolBucket.numElementsL1 c / 2) Hhalf) as [Hc1 _].
    destruct (TlsPoolBucket.ReturnL1CacheToMaster c b m
                (TlsPoolBucket.numElementsL1 c / 2)) as [[c1 b1] m1].
    cbn [fst snd] in Hc1 |- *. subst c1.
    split; [reflexivity|].
    right. right. left.
    cbn [TlsPoolBucket.numElementsL1 TlsPoolBucket.pStorageL1
         TlsPoolBucket.set_L1 TlsPoolBucket.pBucketData TlsPoolBucket.pBucket
         TlsPoolBucket.storageL0 TlsPoolBucket.maxElementsCount
         TlsPoolBucket.numElementsL0].
    rewrite u32_small by lia.
    split; [exact EL0|]. split; [exact EL1|]. split; [exact Htwo|].
    unfold TlsPoolBucket.set_L1. cbn. reflexivity.
Qed.

(** C10, at the failing input. On a cache of L1 capacity 1 whose two levels
    are full, which satisfies the occupancy bounds, a further push returns
    nothing to the bucket and still appends: [numElementsL1] becomes 2,
    above [maxElementsCount] = 1. *)
Theorem occupancy_lost_at_capacity_one :
  occupancy_ok X64 k1_cache /\
  let '(ok, (c', b', m')) :=
    Allocator.ReleaseToCache X64 true k1_cache k1_bucket (fun _ => 0) k1_slot in
  ok = true /\
  TlsPoolBucket.maxElementsCount c' = 1 /\
  TlsPoolBucket.numElementsL1 c' = 2 /\
  ~ occupancy_ok X64 c'.
Proof.
  split.
  - unfold occupancy_ok. cbn. lia.
  - cbn. repeat split; try reflexivity.
    unfold occupancy_ok. cbn. lia.
Qed.


(** The failing input is a state the allocator reaches. *)
Lemma k1_state_is_reached :
  let c := Allocator.tls k1_run 0 in
  TlsPoolBucket.pBucketData c = TlsPoolBucket.pBucketData k1_cache /\
  TlsPoolBucket.pBucket c = TlsPoolBucket.pBucket k1_cache /\
  TlsPoolBucket.maxElementsCount c = TlsPoolBucket.maxElementsCount k1_cache /\
  TlsPoolBucket.numElementsL0 c = TlsPoolBucket.numElementsL0 k1_cache /\
  TlsPoolBucket.numElementsL1 c = TlsPoolBucket.numElementsL1 k1_cache /\
  map (TlsPoolBucket.storageL0 c) [0; 1; 2; 3; 4; 5; 6] =
    map (TlsPoolBucket.storageL0 k1_cache) [0; 1; 2; 3; 4; 5; 6] /\
  TlsPoolBucket.pStorageL1 c 0 = TlsPoolBucket.pStorageL1 k1_cache 0 /\
  Allocator.buckets k1_run 0 = k1_bucket /\
  nth 8 (fst k1_allocs) 0 = k1_slot /\
  Allocator.GetBucketIndex X64 k1_run k1_slot = 0.
Proof. vm_compute. repeat split; reflexivity. Qed.

End Cache.

(** * [Allocate] *)

Section Allocate.
Context {G : Type} {GA : GenericAllocator.Ops G}.
Variable arch : Arch.
Implicit Types (s : Allocator.t G) (p i j a n : Z).

Lemma offset_nonneg u : 0 <= TaggedIndex.offset u < 2 ^ 32.
Proof. unfold TaggedIndex.offset. apply Z.mod_pos_bound. lia. Qed.

Lemma PoolBucket_Alloc_empty m b :
  PoolBucket.head b = TaggedIndex.Invalid -> PoolBucket.Alloc m b = (0, b).
Proof.
  intros H. unfold PoolBucket.Alloc. rewrite H, Z.eqb_refl. reflexivity.
Qed.

Lemma PoolBucket_Alloc_pop m b :
  PoolBucket.head b <> TaggedIndex.Invalid ->
  PoolBucket.Alloc m b =
  (PoolBucket.pData b + TaggedIndex.offset (PoolBucket.head b),
   PoolBucket.set_head b
     (load64 m (PoolBucket.pData b + TaggedIndex.offset (PoolBucket.head b)))).
Proof.
  intros H. unfold PoolBucket.Alloc. apply Z.eqb_neq in H. rewrite H.
  reflexivity.
Qed.

Lemma geometry_same_arena s s' :
  same_arena s s' -> geometry arch s -> geometry arch s'.
Proof.
  intros [Hc [Hs [He [Hb Hp]]]] [H1 H2 H3 H4 H5 H6].
  constructor; unfold region_base in *; rewrite ?Hc, ?Hs, ?He, ?Hb, ?Hp;
    assumption.
Qed.

Lemma region_base_same_arena s s' i :
  same_arena s s' -> region_base s' i = region_base s i.
Proof.
  intros [Hc [Hs [He [Hb Hp]]]]. unfold region_base. now rewrite Hs, Hp.
Qed.

Lemma same_arena_refl s : same_arena s s.
Proof. repeat split. Qed.

Lemma same_arena_trans s1 s2 s3 :
  same_arena s1 s2 -> same_arena s2 s3 -> same_arena s1 s3.
Proof.
  intros [A1 [A2 [A3 [A4 A5]]]] [B1 [B2 [B3 [B4 B5]]]].
  repeat split; congruence.
Qed.

(** A pointer in the sub-region of bucket [j] is the arena's, bucket [j]'s,
    and not null. *)
Lemma in_region_facts s s' p j :
  geometry arch s -> same_arena s s' ->
  0 <= j < Allocator.bucketsCount s ->
  region_base s j <= p < region_base s (j + 1) ->
  Allocator.IsMyAlloc s' p = true /\
  Allocator.GetBucketIndex arch s' p = j /\
  Allocator.MaxValidAlignment < p.
Proof.
  intros Hg Hsame Hj Hp.
  pose proof (geometry_same_arena s s' Hsame Hg) as Hg'.
  pose proof Hsame as [Hc [Hs [He [Hb Hpb]]]].
  rewrite <- (region_base_same_arena s s' j Hsame) in Hp.
  rewrite <- (region_base_same_arena s s' (j + 1) Hsame) in Hp.
  rewrite <- Hc in Hj.
  assert (Hmine : Allocator.IsMyAlloc s' p = true).
  { apply IsMyAlloc_true_iff. rewrite (geo_end _ _ Hg').
    pose proof (geo_size _ _ Hg').
    pose proof (region_base_mono s' 0 j ltac:(lia) ltac:(lia)).
    pose proof (region_base_mono s' (j + 1) (Allocator.bucketsCount s')
                  ltac:(lia) ltac:(lia)).
    unfold region_base in *. lia. }
  split; [exact Hmine|]. split.
  - unfold Allocator.GetBucketIndex. rewrite Hmine. cbn [negb].
    rewrite (FindBucket_region arch s' p j Hg' Hj Hp).
    destruct (j >=? Allocator.bucketsCount s') eqn:E.
    + rewrite Z.geb_leb in E. apply Z.leb_le in E. lia.
    + pose proof (geo_count _ _ Hg') as Hcnt. unfold SMM_MAX_BUCKET_COUNT in Hcnt.
      unfold to_int32. rewrite Z.mod_small by lia. lia.
  - pose proof (geo_base _ _ Hg'). pose proof (geo_size _ _ Hg').
    unfold region_base in Hp. nia.
Qed.

(** The slot a non-empty bucket pops lies in the bucket's sub-region. *)
Lemma bucket_head_in_region s j :
  bucket_ok s j ->
  PoolBucket.head (Allocator.buckets s j) <> TaggedIndex.Invalid ->
  let p := PoolBucket.pData (Allocator.buckets s j)
           + TaggedIndex.offset (PoolBucket.head (Allocator.buckets s j)) in
  region_base s j <= p /\ p + 8 <= region_base s (j + 1).
Proof.
  intros [Hd [l Hl]] Hne p. subst p. rewrite Hd.
  pose proof (offset_nonneg (PoolBucket.head (Allocator.buckets s j))) as Ho.
  rewrite region_base_step.
  inversion Hl as [Hinv | u l' Hu Hlim Hrest]; subst.
  - congruence.
  - lia.
Qed.

Lemma bucket_ok_ext s s' i :
  same_arena s s' -> Allocator.ram s' = Allocator.ram s ->
  Allocator.buckets s' i = Allocator.buckets s i ->
  bucket_ok s i -> bucket_ok s' i.
Proof.
  intros Hsa Hram Hb Hok. unfold bucket_ok in *.
  rewrite Hb, Hram, (region_base_same_arena s s' i Hsa).
  destruct Hsa as [_ [Hs _]]. rewrite Hs. exact Hok.
Qed.

(** The buckets from [idx] up are tried in turn; the first that is not
    empty serves the request, and when all are empty the request goes to
    the generic allocator as the caller made it. *)
Lemma Allocate_loop_spec _bytesCount alignment (fuel : nat) :
  forall s idx p s',
    geometry arch s ->
    (forall i, 0 <= i < Allocator.bucketsCount s -> bucket_ok s i) ->
    0 <= idx -> Z.of_nat fuel = Allocator.bucketsCount s - idx ->
    Allocator.Allocate_loop fuel s idx _bytesCount alignment = (p, s') ->
    (exists j,
        idx <= j < Allocator.bucketsCount s /\
        (forall k, idx <= k < j ->
           PoolBucket.head (Allocator.buckets s k) = TaggedIndex.Invalid) /\
        PoolBucket.head (Allocator.buckets s j) <> TaggedIndex.Invalid /\
        region_base s j <= p /\ p + 8 <= region_base s (j + 1) /\
        p = fst (PoolBucket.Alloc (Allocator.ram s) (Allocator.buckets s j)) /\
        Allocator.buckets s' j
        = snd (PoolBucket.Alloc (Allocator.ram s) (Allocator.buckets s j)) /\
        (forall k, k <> j -> Allocator.buckets s' k = Allocator.buckets s k) /\
        Allocator.gAllocator s' = Allocator.gAllocator s)
    \/
    ((forall k, idx <= k < Allocator.bucketsCount s ->
        PoolBucket.head (Allocator.buckets s k) = TaggedIndex.Invalid) /\
     GenericAllocator.Alloc (Allocator.gAllocator s) _bytesCount alignment
     = (p, Allocator.gAllocator s') /\
     (forall k, Allocator.buckets s' k = Allocator.buckets s k)).
Proof.
  induction fuel as [|fuel IH]; intros s idx p s' Hg Hbk Hidx Hn Hrun.
  - right. cbn [Allocator.Allocate_loop] in Hrun.
    destruct (GenericAllocator.Alloc (Allocator.gAllocator s) _bytesCount alignment)
      as [q g] eqn:Eg.
    inversion Hrun; subst. cbn. split; [|split; reflexivity].
    intros k Hk. lia.
  - cbn [Allocator.Allocate_loop] in Hrun.
    assert (Hin : 0 <= idx < Allocator.bucketsCount s) by lia.
    destruct (Z.eq_dec (PoolBucket.head (Allocator.buckets s idx))
                       TaggedIndex.Invalid) as [Hempty | Hfull].
    + rewrite (PoolBucket_Alloc_empty _ _ Hempty) in Hrun.
      cbn [negb Z.eqb] in Hrun. cbv zeta in Hrun.
      set (s1 := Allocator.set_buckets s
                   (upd (Allocator.buckets s) idx (Allocator.buckets s idx)))
        in *.
      assert (Hb1 : forall k, Allocator.buckets s1 k = Allocator.buckets s k)
        by (intros k; apply upd_self).
      assert (Hsa : same_arena s s1) by (repeat split).
      destruct (IH s1 (idx + 1) p s'
                  (geometry_same_arena s s1 Hsa Hg)
                  ltac:(intros i Hi;
                        apply (bucket_ok_ext s s1 i Hsa eq_refl (Hb1 i));
                        apply Hbk; exact Hi)
                  ltac:(lia)
                  ltac:(change (Allocator.bucketsCount s1)
                          with (Allocator.bucketsCount s); lia)
                  Hrun)
        as [[j [Hj [Hbelow [Hne [Hlo [Hhi [Hp [Hbj [Hbo Hgen]]]]]]]]]
           | [Hall [Hgen Hbo]]].
      * change (Allocator.bucketsCount s1) with (Allocator.bucketsCount s) in Hj.
        change (region_base s1) with (region_base s) in Hlo, Hhi.
        change (Allocator.ram s1) with (Allocator.ram s) in Hp, Hbj.
        rewrite Hb1 in Hne, Hp, Hbj.
        left. exists j. split; [lia|]. split.
        { intros k Hk. destruct (Z.eq_dec k idx) as [-> | Hne'];
            [exact Hempty | rewrite <- Hb1; apply Hbelow; lia]. }
        split; [exact Hne|]. split; [exact Hlo|]. split; [exact Hhi|].
        split; [exact Hp|]. split; [exact Hbj|].
        split; [|exact Hgen].
        intros k Hk. rewrite (Hbo k Hk). apply Hb1.
      * right. split.
        { intros k Hk. destruct (Z.eq_dec k idx) as [-> | Hne'];
            [exact Hempty | rewrite <- Hb1; apply Hall; cbn; lia]. }
        split; [exact Hgen|].
        intros k. rewrite (Hbo k). apply Hb1.
    + pose proof (bucket_head_in_region s idx (Hbk idx Hin) Hfull) as Hreg.
      cbv zeta in Hreg.
      pose proof (PoolBucket_Alloc_pop (Allocator.ram s) _ Hfull) as Hpop.
      rewrite Hpop in Hrun. cbv zeta in Hrun.
      set (q := PoolBucket.pData (Allocator.buckets s idx)
                + TaggedIndex.offset (PoolBucket.head (Allocator.buckets s idx)))
        in *.
      assert (Hq : q <> 0).
      { pose proof (geo_base _ _ Hg). pose proof (geo_size _ _ Hg).
        unfold Allocator.MaxValidAlignment, region_base in *. nia. }
      apply Z.eqb_neq in Hq. rewrite Hq in Hrun. cbn [negb] in Hrun.
      left. exists idx. split; [lia|]. split; [intros k Hk; lia|].
      split; [exact Hfull|].
      inversion Hrun; subst p s'.
      split; [tauto|]. split; [tauto|].
      rewrite Hpop. cbn [fst snd Allocator.buckets Allocator.set_buckets
                         Allocator.gAllocator].
      split; [reflexivity|]. split; [apply upd_same|].
      split; [|reflexivity].
      intros k Hk. apply upd_other. exact Hk.
Qed.

Lemma Allocate_loop_same_arena (fuel : nat) : forall s idx _bytesCount alignment,
  same_arena s (snd (Allocator.Allocate_loop fuel s idx _bytesCount alignment)).
Proof.
  induction fuel as [|fuel IH]; intros s idx nb al;
    cbn [Allocator.Allocate_loop].
  - destruct (GenericAllocator.Alloc (Allocator.gAllocator s) nb al).
    repeat split.
  - destruct (PoolBucket.Alloc (Allocator.ram s) (Allocator.buckets s idx))
      as [pRes b]. cbv zeta.
    destruct (negb (pRes =? 0)); [repeat split|].
    eapply same_arena_trans; [|apply IH]. repeat split.
Qed.

Lemma Allocate_same_arena s n a :
  same_arena s (snd (Allocator.Allocate s n a)).
Proof.
  unfold Allocator.Allocate.
  destruct (n =? 0); [apply same_arena_refl|].
  cbv zeta.
  set (i0 := Z.shiftr ((if n <? a then a else n) - 1) 4).
  destruct (i0 <? Allocator.bucketsCount s).
  - destruct (Allocator.AllocFromCache (Allocator.tls s i0)) as [pRes c].
    destruct (negb (pRes =? 0)); [repeat split|].
    eapply same_arena_trans; [|apply Allocate_loop_same_arena].
    repeat split.
  - cbn [negb Z.eqb]. apply Allocate_loop_same_arena.
Qed.

Lemma start_index_ceil n' :
  0 < n' -> Z.shiftr (n' - 1) 4 = (n' + 15) / 16 - 1.
Proof.
  intros H. rewrite Z.shiftr_div_pow2 by lia. change (2 ^ 4) with 16.
  replace (n' + 15) with (n' - 1 + 1 * 16) by ring.
  rewrite Z.div_add by lia. ring.
Qed.

Lemma effective_size n a : (if n <? a then a else n) = Z.max n a.
Proof.
  destruct (n <? a) eqn:E.
  - apply Z.ltb_lt in E. lia.
  - apply Z.ltb_ge in E. lia.
Qed.

(** A pop from the cache of bucket [i] either misses, leaving the record as
    it was, or yields a pointer in the sub-region of bucket [i]. *)
Lemma cache_pop_in_region s i :
  cache_ok arch s i ->
  let '(p, c) := Allocator.AllocFromCache (Allocator.tls s i) in
  (p = 0 /\ c = Allocator.tls s i) \/
  (region_base s i <= p /\ p + 8 <= region_base s (i + 1)).
Proof.
  intros [H0 [H1 [Hm [Hw [HL0 HL1]]]]].
  pose proof (AllocFromCache_cases arch (Allocator.tls s i)
                ltac:(split; lia)) as Hc.
  destruct (Allocator.AllocFromCache (Allocator.tls s i)) as [p c].
  rewrite region_base_step.
  destruct Hc as [[Hpos [_ [_ Hp]]] | [[_ [Hpos [_ [_ Hp]]]] | [_ [_ [Hc Hp]]]]].
  - right. destruct Hw as [[Hz _] | [Hd _]]; [lia|].
    rewrite Hp, Hd.
    specialize (HL0 (TlsPoolBucket.numElementsL0 (Allocator.tls s i) - 1)
                  ltac:(lia)). lia.
  - right. destruct Hw as [[_ [Hz _]] | [Hd _]]; [lia|].
    rewrite Hp, Hd.
    specialize (HL1 (TlsPoolBucket.numElementsL1 (Allocator.tls s i) - 1)
                  ltac:(lia)). lia.
  - left. tauto.
Qed.

Lemma Allocate_loop_ram (fuel : nat) : forall s idx _bytesCount alignment,
  Allocator.ram (snd (Allocator.Allocate_loop fuel s idx _bytesCount alignment))
  = Allocator.ram s /\
  Allocator.tls (snd (Allocator.Allocate_loop fuel s idx _bytesCount alignment))
  = Allocator.tls s.
Proof.
  induction fuel as [|fuel IH]; intros s idx nb al;
    cbn [Allocator.Allocate_loop].
  - destruct (GenericAllocator.Alloc (Allocator.gAllocator s) nb al).
    split; reflexivity.
  - destruct (PoolBucket.Alloc (Allocator.ram s) (Allocator.buckets s idx))
      as [pRes b]. cbv zeta.
    destruct (negb (pRes =? 0)); [split; reflexivity|].
    destruct (IH (Allocator.set_buckets s (upd (Allocator.buckets s) idx b))
                 (idx + 1) nb al) as [H1 H2].
    rewrite H1, H2. split; reflexivity.
Qed.

(** Where the result of [Allocate] comes from, for a request of positive
    size: the thread cache of the starting bucket, the first non-empty
    bucket from the starting one up, or the generic allocator. Memory is
    only read, and the thread caches of the other buckets are not
    touched. *)
Lemma Allocate_cases s n a :
  wf arch s -> 0 < n -> 0 < a ->
  let i0 := Z.shiftr (Z.max n a - 1) 4 in
  forall p s', Allocator.Allocate s n a = (p, s') ->
    same_arena s s' /\
    Allocator.ram s' = Allocator.ram s /\
    (forall k, k <> i0 -> Allocator.tls s' k = Allocator.tls s k) /\
    ((exists j,
         i0 <= j < Allocator.bucketsCount s /\
         region_base s j <= p /\ p + 8 <= region_base s (j + 1) /\
         (forall k, i0 <= k < j ->
            PoolBucket.head (Allocator.buckets s k) = TaggedIndex.Invalid) /\
         (i0 < j -> fst (Allocator.AllocFromCache (Allocator.tls s i0)) = 0) /\
         Allocator.gAllocator s' = Allocator.gAllocator s)
     \/
     ((forall k, i0 <= k < Allocator.bucketsCount s ->
         PoolBucket.head (Allocator.buckets s k) = TaggedIndex.Invalid) /\
      (i0 < Allocator.bucketsCount s ->
         fst (Allocator.AllocFromCache (Allocator.tls s i0)) = 0) /\
      GenericAllocator.Alloc (Allocator.gAllocator s) n a
      = (p, Allocator.gAllocator s') /\
      (forall k, Allocator.buckets s' k = Allocator.buckets s k))).
Proof.
  intros Hwf Hn Hapos i0.
  assert (Hi0 : 0 <= i0).
  { unfold i0. apply Z.shiftr_nonneg. lia. }
  intros p s' Hrun.
  pose proof (Allocate_same_arena s n a) as Hsa.
  rewrite Hrun in Hsa. cbn [snd] in Hsa.
  split; [exact Hsa|].
  pose proof (wf_geometry _ _ Hwf) as Hg.
  unfold Allocator.Allocate in Hrun.
  destruct (n =? 0) eqn:En; [apply Z.eqb_eq in En; lia|].
  cbv zeta in Hrun. rewrite effective_size in Hrun.
  fold i0 in Hrun.
  destruct (i0 <? Allocator.bucketsCount s) eqn:Ei.
  - apply Z.ltb_lt in Ei.
    assert (Hin : 0 <= i0 < Allocator.bucketsCount s) by lia.
    pose proof (cache_pop_in_region s i0 (wf_caches _ _ Hwf i0 Hin)) as Hc.
    destruct (Allocator.AllocFromCache (Allocator.tls s i0)) as [pc c] eqn:Epop.
    destruct Hc as [[Hmiss Hsame] | Hhit].
    + (* the cache missed: scan the buckets *)
      subst pc. cbn [negb Z.eqb] in Hrun.
      set (s1 := Allocator.set_tls s (upd (Allocator.tls s) i0 c)) in *.
      assert (Hg1 : geometry arch s1)
        by (apply (geometry_same_arena s); [repeat split | exact Hg]).
      assert (Hbk1 : forall i, 0 <= i < Allocator.bucketsCount s1 ->
                               bucket_ok s1 i)
        by (intros i Hi; exact (wf_buckets _ _ Hwf i Hi)).
      assert (Hfuel : Z.of_nat (Z.to_nat (Allocator.bucketsCount s1 - i0))
                      = Allocator.bucketsCount s1 - i0)
        by (change (Allocator.bucketsCount s1) with (Allocator.bucketsCount s);
            lia).
      pose proof (Allocate_loop_ram
                    (Z.to_nat (Allocator.bucketsCount s1 - i0)) s1 i0 n a)
        as [Hram Htls].
      rewrite Hrun in Hram, Htls. cbn [snd] in Hram, Htls.
      split; [exact Hram|].
      split.
      { intros k Hk. rewrite Htls. cbn. rewrite upd_other by exact Hk.
        reflexivity. }
      destruct (Allocate_loop_spec n a _ s1 i0 p s' Hg1 Hbk1 Hi0 Hfuel Hrun)
        as [[j [Hj [Hbelow [Hne [Hlo [Hhi [Hp [Hbj [Hbo Hgen]]]]]]]]]
           | [Hall [Hgen Hbo]]].
      * left. exists j.
        split; [exact Hj|]. split; [exact Hlo|]. split; [exact Hhi|].
        split; [exact Hbelow|]. split; [intros _; reflexivity|].
        exact Hgen.
      * right. split; [exact Hall|]. split; [intros _; reflexivity|].
        split; [exact Hgen|]. exact Hbo.
    + (* the cache hit *)
      assert (Hpc : pc <> 0).
      { pose proof (geo_base _ _ Hg). pose proof (geo_size _ _ Hg).
        unfold Allocator.MaxValidAlignment, region_base in *. nia. }
      apply Z.eqb_neq in Hpc. rewrite Hpc in Hrun. cbn [negb] in Hrun.
      inversion Hrun; subst p s'.
      split; [reflexivity|].
      split.
      { intros k Hk. cbn. rewrite upd_other by exact Hk. reflexivity. }
      left. exists i0.
      split; [lia|]. split; [tauto|]. split; [tauto|].
      split; [intros k Hk; lia|]. split; [intros Hlt; lia|].
      reflexivity.
  - (* the starting index is already past the last bucket *)
    apply Z.ltb_ge in Ei. cbn [negb Z.eqb] in Hrun.
    replace (Z.to_nat (Allocator.bucketsCount s - i0)) with O in Hrun by lia.
    cbn [Allocator.Allocate_loop] in Hrun.
    destruct (GenericAllocator.Alloc (Allocator.gAllocator s) n a)
      as [q g] eqn:Eg.
    inversion Hrun; subst p s'.
    split; [reflexivity|]. split; [intros k Hk; reflexivity|].
    right. split; [intros k Hk; lia|]. split; [intros Hlt; lia|].
    split; reflexivity.
Qed.

(** C1. For [alloc(n, a)] with [n > 0] and [a] a power of two at most
    16384, the effective size is [n' = max(n, a)] and the search starts at
    bucket [(n' - 1) >> 4 = ceil(n' / 16) - 1]. A pointer served from the
    arena is bucket [j]'s for some [j] from the starting index up; [j] is
    above the start only when the thread cache of the starting bucket
    missed and every bucket below [j] was empty, and no other thread cache
    is touched. When the index reaches [bucketsCount] the result is that
    of the generic allocator's [Alloc] on the caller's [n] and [a]. *)
Theorem Allocate_bucket s n a :
  wf arch s ->
  0 < n < 2 ^ ptrBits arch -> is_pow2 a -> a <= Allocator.MaxValidAlignment ->
  let n' := Z.max n a in
  let i0 := Z.shiftr (n' - 1) 4 in
  i0 = (n' + 15) / 16 - 1 /\
  forall p s', Allocator.Alloc s n a = (p, s') ->
    (forall k, k <> i0 -> Allocator.tls s' k = Allocator.tls s k) /\
    ((exists j,
         i0 <= j < Allocator.bucketsCount s /\
         Allocator.IsMyAlloc s' p = true /\
         Allocator.GetBucketIndex arch s' p = j /\
         (forall k, i0 <= k < j ->
            PoolBucket.head (Allocator.buckets s k) = TaggedIndex.Invalid) /\
         (i0 < j -> fst (Allocator.AllocFromCache (Allocator.tls s i0)) = 0) /\
         Allocator.gAllocator s' = Allocator.gAllocator s)
     \/
     ((forall k, i0 <= k < Allocator.bucketsCount s ->
         PoolBucket.head (Allocator.buckets s k) = TaggedIndex.Invalid) /\
      (i0 < Allocator.bucketsCount s ->
         fst (Allocator.AllocFromCache (Allocator.tls s i0)) = 0) /\
      GenericAllocator.Alloc (Allocator.gAllocator s) n a
      = (p, Allocator.gAllocator s') /\
      (forall k, Allocator.buckets s' k = Allocator.buckets s k))).
Proof.
  intros Hwf Hn Hpow Ha n' i0.
  pose proof (is_pow2_pos a Hpow) as Hapos.
  split; [apply start_index_ceil; unfold n'; lia|].
  intros p s' Hrun.
  destruct (Allocate_cases s n a Hwf ltac:(lia) Hapos p s' Hrun)
    as [Hsa [_ [Htls Hcases]]].
  fold n' in Htls, Hcases. fold i0 in Htls, Hcases.
  split; [exact Htls|].
  destruct Hcases as [[j [Hj [Hlo [Hhi [Hbelow [Hmiss Hgen]]]]]] | Hdeleg].
  - left. exists j.
    assert (Hi0 : 0 <= i0) by (unfold i0; apply Z.shiftr_nonneg; lia).
    destruct (in_region_facts s s' p j (wf_geometry _ _ Hwf) Hsa
                ltac:(lia) ltac:(lia)) as [Hmine [Hidx _]].
    repeat (split; [assumption|]). assumption.
  - right. exact Hdeleg.
Qed.

End Allocate.

(** * What [Free] writes, and [Realloc] *)

Section Realloc.
Context {G : Type} {GA : GenericAllocator.Ops G}.
Variable arch : Arch.
Implicit Types (s : Allocator.t G) (c : TlsPoolBucket.t) (m : mem).

(** Chaining cache entries writes only into the slots it chains. *)
Lemma link_loop_frame (fuel : nat) : forall c m i localTag pPrev lo hi x,
  lo <= pPrev -> pPrev + 8 <= hi ->
  (forall k, i <= k < i + Z.of_nat fuel ->
     lo <= TlsPoolBucket.pBucketData c + TlsPoolBucket.pStorageL1 c k /\
     TlsPoolBucket.pBucketData c + TlsPoolBucket.pStorageL1 c k + 8 <= hi) ->
  x < lo \/ hi <= x ->
  fst (TlsPoolBucket.link_loop fuel c m i localTag pPrev) x = m x /\
  lo <= snd (TlsPoolBucket.link_loop fuel c m i localTag pPrev) /\
  snd (TlsPoolBucket.link_loop fuel c m i localTag pPrev) + 8 <= hi.
Proof.
  induction fuel as [|fuel IH]; intros c m i localTag pPrev lo hi x Hlo Hhi Hk Hx.
  - cbn. auto.
  - cbn [TlsPoolBucket.link_loop].
    destruct (Hk i ltac:(lia)) as [Hl Hh].
    destruct (IH c
                (store32 (store32 m pPrev localTag) (pPrev + 4)
                         (TlsPoolBucket.pStorageL1 c i))
                (i + 1) (u32 (localTag + 1))
                (TlsPoolBucket.pBucketData c + TlsPoolBucket.pStorageL1 c i)
                lo hi x Hl Hh ltac:(intros k Hkk; apply Hk; lia) Hx)
      as [Hm Hrest].
    split; [|exact Hrest].
    rewrite Hm. unfold store32.
    rewrite !store_le_outside by (cbn; lia). reflexivity.
Qed.

Lemma ReturnL1CacheToMaster_frame c b m count lo hi x :
  0 <= TlsPoolBucket.numElementsL1 c ->
  (forall k, 0 <= k < TlsPoolBucket.numElementsL1 c ->
     lo <= TlsPoolBucket.pBucketData c + TlsPoolBucket.pStorageL1 c k /\
     TlsPoolBucket.pBucketData c + TlsPoolBucket.pStorageL1 c k + 8 <= hi) ->
  0 <= count -> x < lo \/ hi <= x ->
  snd (TlsPoolBucket.ReturnL1CacheToMaster c b m count) x = m x.
Proof.
  intros Hn Hk Hc Hx. unfold TlsPoolBucket.ReturnL1CacheToMaster.
  destruct (count =? 0) eqn:E0; [reflexivity|]. apply Z.eqb_neq in E0.
  destruct (TlsPoolBucket.numElementsL1 c =? 0) eqn:E1; [reflexivity|].
  apply Z.eqb_neq in E1. cbv zeta.
  set (cnt := Z.min count (TlsPoolBucket.numElementsL1 c)).
  assert (Hcnt : 0 < cnt <= TlsPoolBucket.numElementsL1 c) by (unfold cnt; lia).
  set (first := TlsPoolBucket.numElementsL1 c - cnt).
  destruct (Hk first ltac:(unfold first; lia)) as [Hl Hh].
  pose proof (link_loop_frame
                (Z.to_nat (TlsPoolBucket.numElementsL1 c - (first + 1)))
                c m (first + 1) 16777215
                (TlsPoolBucket.pBucketData c + TlsPoolBucket.pStorageL1 c first)
                lo hi x Hl Hh
                ltac:(intros k Hkk; apply Hk; unfold first in *; lia) Hx)
    as [Hm [Htl Hth]].
  destruct (TlsPoolBucket.link_loop _ c m (first + 1) _ _) as [m1 pTail].
  cbn [fst snd] in Hm, Htl, Hth.
  unfold PoolBucket.FreeInterval. cbn [snd].
  unfold store64. rewrite store_le_outside by (cbn; lia). exact Hm.
Qed.

Lemma ReleaseToCache_frame useCacheL0 c b m p lo hi x :
  0 <= TlsPoolBucket.numElementsL1 c ->
  (forall k, 0 <= k < TlsPoolBucket.numElementsL1 c ->
     lo <= TlsPoolBucket.pBucketData c + TlsPoolBucket.pStorageL1 c k /\
     TlsPoolBucket.pBucketData c + TlsPoolBucket.pStorageL1 c k + 8 <= hi) ->
  x < lo \/ hi <= x ->
  snd (snd (Allocator.ReleaseToCache arch useCacheL0 c b m p)) x = m x.
Proof.
  intros Hn Hk Hx. unfold Allocator.ReleaseToCache.
  destruct (TlsPoolBucket.maxElementsCount c =? 0); [reflexivity|].
  cbv zeta.
  destruct (useCacheL0 && _); [reflexivity|].
  destruct (TlsPoolBucket.numElementsL1 c <? TlsPoolBucket.maxElementsCount c);
    [reflexivity|].
  pose proof (ReturnL1CacheToMaster_frame c b m
                (Z.shiftr (TlsPoolBucket.numElementsL1 c) 1) lo hi x Hn Hk
                ltac:(apply Z.shiftr_nonneg; lia) Hx) as Hret.
  destruct (TlsPoolBucket.ReturnL1CacheToMaster c b m _) as [[c1 b1] m1].
  cbn [snd] in Hret |- *. exact Hret.
Qed.

Lemma ReleaseToTls_same_arena s i p :
  same_arena s (snd (Allocator.ReleaseToTls arch s i p)).
Proof.
  unfold Allocator.ReleaseToTls.
  destruct (Allocator.ReleaseToCache arch true _ _ _ _) as [ok [[c' b'] m']].
  destruct ok; repeat split.
Qed.

Lemma Free_same_arena s p : same_arena s (Allocator.Free arch s p).
Proof.
  unfold Allocator.Free.
  destruct (negb (Allocator.IsReadable p)); [apply same_arena_refl|].
  destruct (Allocator.FindBucket arch s p <? Allocator.bucketsCount s);
    [|repeat split].
  pose proof (ReleaseToTls_same_arena s (Allocator.FindBucket arch s p) p) as H.
  destruct (Allocator.ReleaseToTls arch s (Allocator.FindBucket arch s p) p)
    as [ok s1].
  cbn [snd] in H. destruct ok; [exact H|].
  destruct (PoolBucket.FreeInterval _ _ p p) as [m b].
  eapply same_arena_trans; [exact H|]. repeat split.
Qed.

(** Freeing a slot of bucket [i] writes only inside the sub-region of
    bucket [i]. *)
Lemma Free_frame s p i x :
  geometry arch s -> 0 <= i < Allocator.bucketsCount s -> cache_ok arch s i ->
  region_base s i <= p -> p + 8 <= region_base s (i + 1) ->
  x < region_base s i \/ region_base s (i + 1) <= x ->
  Allocator.ram (Allocator.Free arch s p) x = Allocator.ram s x.
Proof.
  intros Hg Hi Hc Hlo Hhi Hx.
  assert (Hread : Allocator.MaxValidAlignment < p).
  { pose proof (geo_base _ _ Hg). pose proof (geo_size _ _ Hg).
    unfold region_base in Hlo. nia. }
  unfold Allocator.Free. rewrite (IsReadable_true p Hread). cbn [negb].
  rewrite (FindBucket_region arch s p i Hg Hi ltac:(lia)).
  destruct (i <? Allocator.bucketsCount s) eqn:E; [|apply Z.ltb_ge in E; lia].
  unfold Allocator.ReleaseToTls.
  destruct Hc as [H0 [H1 [Hm [Hw [HL0 HL1]]]]].
  pose proof (ReleaseToCache_frame true (Allocator.tls s i)
                (Allocator.buckets s (TlsPoolBucket.pBucket (Allocator.tls s i)))
                (Allocator.ram s) p (region_base s i) (region_base s (i + 1)) x
                ltac:(lia)) as Hfr.
  assert (Hentries : forall k,
             0 <= k < TlsPoolBucket.numElementsL1 (Allocator.tls s i) ->
             region_base s i <=
               TlsPoolBucket.pBucketData (Allocator.tls s i)
               + TlsPoolBucket.pStorageL1 (Allocator.tls s i) k /\
             TlsPoolBucket.pBucketData (Allocator.tls s i)
             + TlsPoolBucket.pStorageL1 (Allocator.tls s i) k + 8
             <= region_base s (i + 1)).
  { intros k Hk. destruct Hw as [[_ [Hz _]] | [Hd _]]; [lia|].
    rewrite Hd, region_base_step. specialize (HL1 k Hk). lia. }
  specialize (Hfr Hentries Hx).
  destruct (Allocator.ReleaseToCache arch true _ _ _ p) as [ok [[c' b'] m']].
  cbn [snd] in Hfr.
  destruct ok.
  - cbn. exact Hfr.
  - unfold PoolBucket.FreeInterval. cbn.
    unfold store64. apply store_le_outside. cbn. lia.
Qed.

Lemma cache_ok_transfer s s' i :
  same_arena s s' -> Allocator.tls s' i = Allocator.tls s i ->
  cache_ok arch s i -> cache_ok arch s' i.
Proof.
  intros Hsa Ht Hc. unfold cache_ok in *.
  rewrite Ht, (region_base_same_arena s s' i Hsa).
  destruct Hsa as [_ [Hs _]]. rewrite Hs. exact Hc.
Qed.

End Realloc.

(** * A freshly created allocator *)

Section Setup.
Context {G : Type} {GA : GenericAllocator.Ops G}.
Variable arch : Arch.
Implicit Types (s : Allocator.t G) (m : mem).

Lemma Invalid_offset : TaggedIndex.offset TaggedIndex.Invalid = 2 ^ 32 - 1.
Proof. reflexivity. Qed.

Lemma Invalid_range : 0 <= TaggedIndex.Invalid < 2 ^ 64.
Proof. unfold TaggedIndex.Invalid, UINT64_MAX. lia. Qed.

Lemma make_not_Invalid t o :
  0 <= o < 2 ^ 32 - 1 -> TaggedIndex.make t o <> TaggedIndex.Invalid.
Proof.
  intros Ho E. apply (f_equal TaggedIndex.offset) in E.
  rewrite offset_make, Invalid_offset, u32_small in E; lia.
Qed.

Lemma freelist_frame m m' pData lim u l :
  (forall x, pData <= x < pData + lim -> m' x = m x) ->
  freelist m pData lim u l -> freelist m' pData lim u l.
Proof.
  intros Hagree Hfl. induction Hfl as [|u l Hu Hlim Hrest IH].
  - constructor.
  - constructor; [exact Hu | exact Hlim |].
    pose proof (offset_nonneg u) as Ho.
    replace (load64 m' (pData + TaggedIndex.offset u))
      with (load64 m (pData + TaggedIndex.offset u)); [exact IH|].
    symmetry. apply load_le_ext. intros x Hx. apply Hagree.
    cbn in Hx. lia.
Qed.

Lemma link_slots_frame (n : nat) : forall m pData elementSize k linkTag x,
  8 <= elementSize ->
  x < pData + k * elementSize \/
  pData + (k + Z.of_nat n) * elementSize <= x ->
  PoolBucket.link_slots n m pData elementSize k linkTag x = m x.
Proof.
  induction n as [|n IH]; intros m pData sz k linkTag x Hsz Hx.
  - reflexivity.
  - cbn [PoolBucket.link_slots]. rewrite IH by (try exact Hsz; nia).
    unfold store64. apply store_le_outside. cbn. nia.
Qed.

Lemma link_slots_step (n : nat) m pData elementSize k linkTag :
  PoolBucket.link_slots (S (S n)) m pData elementSize k linkTag =
  PoolBucket.link_slots (S n)
    (store64 m (pData + k * elementSize)
       (TaggedIndex.make (linkTag (k + 1)) ((k + 1) * elementSize)))
    pData elementSize (k + 1) linkTag.
Proof. reflexivity. Qed.

(** [Create] on at least one slot: the slots from [k] on are chained in
    order behind the link to slot [k]. *)
Lemma link_slots_freelist pData elementSize lim linkTag (n : nat) :
  forall m k,
    8 <= elementSize -> 0 <= k ->
    (k + Z.of_nat (S n)) * elementSize <= lim -> lim < 2 ^ 32 ->
    exists l,
      freelist (PoolBucket.link_slots (S n) m pData elementSize k linkTag)
               pData lim
               (TaggedIndex.make (linkTag k) (k * elementSize)) l.
Proof.
  induction n as [|n IH]; intros m k Hsz Hk Hfit Hlim.
  - assert (Hoff : TaggedIndex.offset
                     (TaggedIndex.make (linkTag k) (k * elementSize))
                   = k * elementSize)
      by (rewrite offset_make; apply u32_small; nia).
    exists [TaggedIndex.offset (TaggedIndex.make (linkTag k) (k * elementSize))].
    constructor.
    + apply make_not_Invalid. nia.
    + rewrite Hoff. nia.
    + rewrite Hoff. cbn [PoolBucket.link_slots].
      rewrite load64_store64_same by exact Invalid_range. constructor.
  - assert (Hoff : TaggedIndex.offset
                     (TaggedIndex.make (linkTag k) (k * elementSize))
                   = k * elementSize)
      by (rewrite offset_make; apply u32_small; nia).
    rewrite link_slots_step.
    set (m1 := store64 m (pData + k * elementSize)
                 (TaggedIndex.make (linkTag (k + 1)) ((k + 1) * elementSize))).
    destruct (IH m1 (k + 1) Hsz ltac:(lia)
                 ltac:(rewrite Nat2Z.inj_succ in *; lia) Hlim) as [l Hl].
    exists (TaggedIndex.offset (TaggedIndex.make (linkTag k) (k * elementSize))
            :: l).
    constructor.
    + apply make_not_Invalid. nia.
    + rewrite Hoff. nia.
    + rewrite Hoff.
      replace (load64 (PoolBucket.link_slots (S n) m1 pData elementSize (k + 1)
                         linkTag) (pData + k * elementSize))
        with (TaggedIndex.make (linkTag (k + 1)) ((k + 1) * elementSize));
        [exact Hl|].
      symmetry. transitivity (load64 m1 (pData + k * elementSize)).
      * apply load_le_ext. intros x Hx.
        apply link_slots_frame; [exact Hsz|]. cbn in Hx. nia.
      * unfold m1. apply load64_store64_same. apply make_range.
Qed.

(** [Create] chains the slots of the sub-region, touches no memory outside
    it, and leaves a non-empty freelist when a slot fits. *)
Lemma Create_ok m base bsz elementSize linkTag :
  8 <= elementSize -> 0 < bsz < 2 ^ 32 ->
  let '(m', b) :=
    PoolBucket.Create m (PoolBucket.mk TaggedIndex.Invalid 0 base (base + bsz))
                      elementSize linkTag in
  PoolBucket.pData b = base /\
  (exists l, freelist m' base bsz (PoolBucket.head b) l) /\
  (elementSize <= bsz -> PoolBucket.head b = TaggedIndex.make (linkTag 0) 0) /\
  (forall x, x < base \/ base + bsz <= x -> m' x = m x).
Proof.
  intros Hsz Hb. unfold PoolBucket.Create. cbn [PoolBucket.pData PoolBucket.pBufferEnd].
  replace (base + bsz - base) with bsz by ring.
  pose proof (Z.mul_div_le bsz elementSize ltac:(lia)) as Hmd.
  destruct (bsz / elementSize <=? 0) eqn:EN.
  - apply Z.leb_le in EN. cbn. split; [reflexivity|]. split.
    + exists []. constructor.
    + split; [|reflexivity].
      intros Hfit. exfalso.
      assert (1 <= bsz / elementSize)
        by (apply Z.div_le_lower_bound; lia). lia.
  - apply Z.leb_gt in EN. cbn [PoolBucket.pData PoolBucket.head].
    split; [reflexivity|].
    destruct (Z.to_nat (bsz / elementSize)) as [|n] eqn:En; [lia|].
    split; [|split; [reflexivity|]].
    + destruct (link_slots_freelist base elementSize bsz linkTag n m 0 Hsz
                  ltac:(lia) ltac:(rewrite <- En; lia) ltac:(lia)) as [l Hl].
      exists l. exact Hl.
    + intros x Hx. apply link_slots_frame; [exact Hsz|].
      rewrite <- En. rewrite Z2Nat.id by lia. lia.
Qed.

Lemma init_buckets_ok base bsz linkTag (n : nat) : forall m bs i,
  0 < bsz < 2 ^ 32 -> 0 <= i -> i + Z.of_nat n <= SMM_MAX_BUCKET_COUNT ->
  (forall j, 0 <= j < i ->
     PoolBucket.pData (bs j) = base + j * bsz /\
     (exists l, freelist m (base + j * bsz) bsz (PoolBucket.head (bs j)) l) /\
     (16 * (j + 1) <= bsz ->
        PoolBucket.head (bs j) = TaggedIndex.make (linkTag j 0) 0)) ->
  let '(m', bs') := Allocator.init_buckets n m bs base bsz i linkTag in
  forall j, 0 <= j < i + Z.of_nat n ->
    PoolBucket.pData (bs' j) = base + j * bsz /\
    (exists l, freelist m' (base + j * bsz) bsz (PoolBucket.head (bs' j)) l) /\
    (16 * (j + 1) <= bsz ->
       PoolBucket.head (bs' j) = TaggedIndex.make (linkTag j 0) 0).
Proof.
  induction n as [|n IH]; intros m bs i Hb Hi Hn Hdone.
  - cbn [Allocator.init_buckets]. intros j Hj. apply Hdone. lia.
  - cbn [Allocator.init_buckets].
    unfold SMM_MAX_BUCKET_COUNT in Hn.
    assert (Hsz : Allocator.GetBucketElementSize i = 16 * (i + 1))
      by (apply GetBucketElementSize_small; unfold SMM_MAX_BUCKET_COUNT; lia).
    replace (base + (i + 1) * bsz) with (base + i * bsz + bsz) by ring.
    pose proof (Create_ok m (base + i * bsz) bsz
                  (Allocator.GetBucketElementSize i) (linkTag i)
                  ltac:(lia) Hb) as Hc.
    destruct (PoolBucket.Create m _ (Allocator.GetBucketElementSize i) (linkTag i))
      as [m1 b].
    destruct Hc as [Hd [Hfl [Hhead Hframe]]].
    specialize (IH m1 (upd bs i b) (i + 1) Hb ltac:(lia)
                   ltac:(unfold SMM_MAX_BUCKET_COUNT; lia)).
    assert (Hstep : forall j, 0 <= j < i + 1 ->
              PoolBucket.pData (upd bs i b j) = base + j * bsz /\
              (exists l, freelist m1 (base + j * bsz) bsz
                           (PoolBucket.head (upd bs i b j)) l) /\
              (16 * (j + 1) <= bsz ->
                 PoolBucket.head (upd bs i b j)
                 = TaggedIndex.make (linkTag j 0) 0)).
    { intros j Hj. destruct (Z.eq_dec j i) as [-> | Hne].
      - rewrite upd_same. split; [exact Hd|]. split; [exact Hfl|].
        intros Hfit. apply Hhead. lia.
      - rewrite upd_other by exact Hne.
        destruct (Hdone j ltac:(lia)) as [Hdj [[l Hl] Hhj]].
        split; [exact Hdj|]. split; [|exact Hhj].
        exists l. apply (freelist_frame m); [|exact Hl].
        intros x Hx. apply Hframe. left. nia. }
    specialize (IH Hstep).
    destruct (Allocator.init_buckets n m1 (upd bs i b) base bsz (i + 1) linkTag)
      as [m' bs'].
    intros j Hj. apply IH. lia.
Qed.

Lemma Init_fresh g m B bsz linkTag :
  Init_ok arch g B bsz ->
  let s := Allocator.Init g m B bsz linkTag in
  wf arch s /\
  Allocator.bucketsCount s = B /\
  Allocator.bucketSizeInBytes s = bsz /\
  (forall i, Allocator.tls s i = TlsPoolBucket.zero) /\
  (forall i, 0 <= i < B -> 16 * (i + 1) <= bsz ->
     PoolBucket.head (Allocator.buckets s i)
     = TaggedIndex.make (linkTag i 0) 0).
Proof.
  unfold Init_ok, Allocator.Init.
  destruct (GenericAllocator.Alloc g (B * bsz) SMM_CACHE_LINE_SIZE)
    as [base g']. cbn [fst].
  intros [HB [Hb [Hbase Hfit]]].
  pose proof (init_buckets_ok base bsz linkTag (Z.to_nat B) m
                (fun _ => PoolBucket.new) 0 Hb ltac:(lia) ltac:(lia)
                ltac:(intros j Hj; lia)) as Hbk.
  destruct (Allocator.init_buckets (Z.to_nat B) m (fun _ => PoolBucket.new)
              base bsz 0 linkTag) as [m' bs].
  cbv zeta. split; [|split; [reflexivity|split; [reflexivity|split]]].
  - constructor.
    + constructor; unfold region_base; cbn; lia.
    + cbn. lia.
    + intros i Hi. cbn in Hi. destruct (Hbk i ltac:(lia)) as [Hd [Hfl _]].
      split; [exact Hd | exact Hfl].
    + intros i Hi. unfold cache_ok. cbn.
      pose proof (K0_range arch).
      repeat split; lia.
  - intros i. reflexivity.
  - intros i Hi Hs. cbn. destruct (Hbk i ltac:(lia)) as [_ [_ Hh]].
    apply Hh. exact Hs.
Qed.

End Setup.

(** * Well-formedness is kept by allocation *)

Section Preservation.
Context {G : Type} {GA : GenericAllocator.Ops G}.
Variable arch : Arch.
Implicit Types (s : Allocator.t G) (c : TlsPoolBucket.t) (m : mem).

Lemma freelist_pop m pData lim u l :
  freelist m pData lim u l -> u <> TaggedIndex.Invalid ->
  exists l', freelist m pData lim
               (load64 m (pData + TaggedIndex.offset u)) l'.
Proof.
  intros Hfl Hne. inversion Hfl as [Hinv | u' l' Hu Hlim Hrest]; subst.
  - congruence.
  - exists l'. exact Hrest.
Qed.

Lemma bucket_ok_pop s s' j :
  same_arena s s' -> Allocator.ram s' = Allocator.ram s ->
  Allocator.buckets s' j
  = snd (PoolBucket.Alloc (Allocator.ram s) (Allocator.buckets s j)) ->
  bucket_ok s j -> bucket_ok s' j.
Proof.
  intros Hsa Hram Hb [Hd [l Hl]]. unfold bucket_ok.
  rewrite Hb, Hram, (region_base_same_arena s s' j Hsa).
  destruct Hsa as [_ [Hs _]]. rewrite Hs.
  destruct (Z.eq_dec (PoolBucket.head (Allocator.buckets s j))
                     TaggedIndex.Invalid) as [He | Hne].
  - rewrite (PoolBucket_Alloc_empty _ _ He). cbn [snd].
    split; [exact Hd | exists l; exact Hl].
  - rewrite (PoolBucket_Alloc_pop _ _ Hne). cbn [snd].
    split; [exact Hd|]. cbn [PoolBucket.head PoolBucket.set_head].
    rewrite Hd. apply (freelist_pop _ _ _ _ l Hl Hne).
Qed.

Lemma cache_ok_pop s s' i :
  same_arena s s' ->
  Allocator.tls s' i = snd (Allocator.AllocFromCache (Allocator.tls s i)) ->
  cache_ok arch s i -> cache_ok arch s' i.
Proof.
  intros Hsa Ht Hc. unfold cache_ok in *.
  rewrite Ht, (region_base_same_arena s s' i Hsa).
  destruct Hsa as [_ [Hs _]]. rewrite Hs. clear Ht Hs.
  destruct Hc as [H0 [H1 [Hm [Hw [HL0 HL1]]]]].
  pose proof (K0_range arch) as HK.
  unfold Allocator.AllocFromCache.
  destruct (TlsPoolBucket.numElementsL0 (Allocator.tls s i) >? 0) eqn:E0.
  - apply Z.gtb_lt in E0. cbn. rewrite u8_small by lia.
    repeat split; try lia; try (apply HL0; lia); try (apply HL1; lia).
  - rewrite Z.gtb_ltb in E0. apply Z.ltb_ge in E0.
    destruct (TlsPoolBucket.numElementsL1 (Allocator.tls s i) >? 0) eqn:E1.
    + apply Z.gtb_lt in E1. cbn. rewrite u32_small by lia.
      repeat split; try lia; try (apply HL0; lia); try (apply HL1; lia).
    + cbn. repeat split; try lia; try (apply HL0; lia); try (apply HL1; lia).
Qed.

(** A cache that holds something does not miss. *)
Lemma cache_pop_hit s i :
  geometry arch s -> 0 <= i -> cache_ok arch s i ->
  0 < TlsPoolBucket.numElementsL0 (Allocator.tls s i) \/
  0 < TlsPoolBucket.numElementsL1 (Allocator.tls s i) ->
  fst (Allocator.AllocFromCache (Allocator.tls s i)) <> 0.
Proof.
  intros Hg Hi Hc Hsome.
  pose proof (cache_pop_in_region arch s i Hc) as Hpop.
  pose proof Hc as [H0 [H1 [Hm _]]].
  pose proof (AllocFromCache_cases arch (Allocator.tls s i)
                ltac:(split; lia)) as Hcases.
  destruct (Allocator.AllocFromCache (Allocator.tls s i)) as [p c].
  cbn [fst].
  destruct Hpop as [[Hp Hcc] | [Hlo _]].
  - subst c.
    destruct Hcases as [[? [? _]] | [[_ [? [_ [? _]]]] | [? [? _]]]]; lia.
  - pose proof (geo_base _ _ Hg). pose proof (geo_size _ _ Hg).
    unfold Allocator.MaxValidAlignment, region_base in *. nia.
Qed.

(** The thread cache of the starting bucket after [Allocate]: popped once. *)
Lemma Allocate_tls_start s n a :
  0 < n ->
  let i0 := Z.shiftr (Z.max n a - 1) 4 in
  i0 < Allocator.bucketsCount s ->
  Allocator.tls (snd (Allocator.Allocate s n a)) i0
  = snd (Allocator.AllocFromCache (Allocator.tls s i0)).
Proof.
  intros Hn i0 Hi. unfold Allocator.Allocate.
  destruct (n =? 0) eqn:En; [apply Z.eqb_eq in En; lia|].
  cbv zeta. rewrite effective_size. fold i0.
  apply Z.ltb_lt in Hi. rewrite Hi.
  destruct (Allocator.AllocFromCache (Allocator.tls s i0)) as [pc c].
  cbn [snd].
  destruct (negb (pc =? 0)).
  - cbn. apply upd_same.
  - destruct (Allocate_loop_ram
                (Z.to_nat
                   (Allocator.bucketsCount
                      (Allocator.set_tls s (upd (Allocator.tls s) i0 c)) - i0))
                (Allocator.set_tls s (upd (Allocator.tls s) i0 c)) i0 n a)
      as [_ Ht].
    rewrite Ht. cbn. apply upd_same.
Qed.

Lemma Allocate_loop_buckets_ok _bytesCount alignment (fuel : nat) s idx :
  geometry arch s ->
  (forall i, 0 <= i < Allocator.bucketsCount s -> bucket_ok s i) ->
  0 <= idx -> Z.of_nat fuel = Allocator.bucketsCount s - idx ->
  let s' := snd (Allocator.Allocate_loop fuel s idx _bytesCount alignment) in
  forall i, 0 <= i < Allocator.bucketsCount s -> bucket_ok s' i.
Proof.
  intros Hg Hbk Hidx Hfuel s' i Hi.
  pose proof (Allocate_loop_same_arena fuel s idx _bytesCount alignment) as Hsa.
  destruct (Allocate_loop_ram fuel s idx _bytesCount alignment) as [Hram _].
  fold s' in Hsa, Hram.
  destruct (Allocator.Allocate_loop fuel s idx _bytesCount alignment)
    as [p s''] eqn:Erun.
  cbn [snd] in s'. subst s'.
  destruct (Allocate_loop_spec arch _bytesCount alignment fuel s idx p s''
              Hg Hbk Hidx Hfuel Erun)
    as [[j [Hj [_ [Hne [_ [_ [_ [Hbj [Hbo _]]]]]]]]] | [_ [_ Hbo]]].
  - destruct (Z.eq_dec i j) as [-> | Hij].
    + apply (bucket_ok_pop s s'' j Hsa Hram Hbj). apply Hbk. exact Hi.
    + apply (bucket_ok_ext s s'' i Hsa Hram (Hbo i Hij)). apply Hbk.
      exact Hi.
  - apply (bucket_ok_ext s s'' i Hsa Hram (Hbo i)). apply Hbk. exact Hi.
Qed.

Lemma Allocate_wf s n a :
  wf arch s -> 0 < n -> 0 < a -> wf arch (snd (Allocator.Allocate s n a)).
Proof.
  intros Hwf Hn Ha.
  pose proof (wf_geometry _ _ Hwf) as Hg.
  pose proof (Allocate_same_arena s n a) as Hsa.
  set (i0 := Z.shiftr (Z.max n a - 1) 4).
  assert (Hi0 : 0 <= i0) by (unfold i0; apply Z.shiftr_nonneg; lia).
  assert (Hcaches : forall i, 0 <= i < Allocator.bucketsCount s ->
                      cache_ok arch (snd (Allocator.Allocate s n a)) i).
  { intros i Hi. destruct (Z.eq_dec i i0) as [-> | Hne].
    - apply (cache_ok_pop s _ i0 Hsa); [|exact (wf_caches _ _ Hwf i0 Hi)].
      apply Allocate_tls_start; [exact Hn | fold i0; lia].
    - destruct (Allocator.Allocate s n a) as [p s'] eqn:Erun.
      destruct (Allocate_cases arch s n a Hwf Hn Ha p s' Erun)
        as [_ [_ [Htls _]]].
      cbn [snd] in *. fold i0 in Htls.
      apply (cache_ok_transfer arch s s' i Hsa (Htls i Hne)).
      exact (wf_caches _ _ Hwf i Hi). }
  assert (Hbuckets : forall i, 0 <= i < Allocator.bucketsCount s ->
                       bucket_ok (snd (Allocator.Allocate s n a)) i).
  { clear Hcaches. unfold Allocator.Allocate in *.
    destruct (n =? 0) eqn:En; [apply Z.eqb_eq in En; lia|].
    cbv zeta in *. rewrite effective_size in *. fold i0 in Hsa |- *.
    destruct (i0 <? Allocator.bucketsCount s) eqn:Ei.
    - destruct (Allocator.AllocFromCache (Allocator.tls s i0)) as [pc c].
      set (s1 := Allocator.set_tls s (upd (Allocator.tls s) i0 c)) in *.
      assert (Hbk1 : forall i, 0 <= i < Allocator.bucketsCount s1 ->
                               bucket_ok s1 i)
        by (intros i Hi; exact (wf_buckets _ _ Hwf i Hi)).
      destruct (negb (pc =? 0)); [exact Hbk1|].
      apply Z.ltb_lt in Ei.
      apply (Allocate_loop_buckets_ok n a _ s1 i0);
        [apply (geometry_same_arena arch s); [repeat split | exact Hg]
        | exact Hbk1 | exact Hi0
        | change (Allocator.bucketsCount s1) with (Allocator.bucketsCount s);
          lia].
    - cbn [negb Z.eqb] in *. apply Z.ltb_ge in Ei.
      replace (Z.to_nat (Allocator.bucketsCount s - i0)) with O by lia.
      cbn [Allocator.Allocate_loop].
      destruct (GenericAllocator.Alloc (Allocator.gAllocator s) n a).
      cbn [snd]. intros i Hi. exact (wf_buckets _ _ Hwf i Hi). }
  pose proof Hsa as [Hc [Hs _]].
  constructor.
  - exact (geometry_same_arena arch s _ Hsa Hg).
  - rewrite Hs. exact (wf_offsets _ _ Hwf).
  - intros i Hi. rewrite Hc in Hi. apply Hbuckets. exact Hi.
  - intros i Hi. rewrite Hc in Hi. apply Hcaches. exact Hi.
Qed.

End Preservation.

(** * [FreeInterval] prepends *)

Section Prepend.
Implicit Types (m : mem) (b : PoolBucket.t) (c : TlsPoolBucket.t).

(** A freelist only depends on the link fields of its own slots. *)
Lemma freelist_frame_nodes m m' pData lim u l :
  (forall o, In o l -> forall x, pData + o <= x < pData + o + 8 -> m' x = m x) ->
  freelist m pData lim u l -> freelist m' pData lim u l.
Proof.
  intros Hagree Hfl. induction Hfl as [|u l Hu Hlim Hrest IH].
  - constructor.
  - constructor; [exact Hu | exact Hlim |].
    replace (load64 m' (pData + TaggedIndex.offset u))
      with (load64 m (pData + TaggedIndex.offset u)).
    + apply IH. intros o Ho. apply Hagree. right. exact Ho.
    + symmetry. apply load_le_ext. intros x Hx.
      apply (Hagree (TaggedIndex.offset u)); [left; reflexivity|].
      cbn in Hx. lia.
Qed.

(** Freeing one slot: [FreeInterval(p, p)] puts the slot in front of the
    freelist, which is otherwise as it was. *)
Lemma FreeInterval_prepends m b lim o l :
  freelist m (PoolBucket.pData b) lim (PoolBucket.head b) l ->
  0 <= PoolBucket.head b < 2 ^ 64 ->
  0 <= o -> o + 8 <= lim -> lim < 2 ^ 32 ->
  (forall o', In o' l -> apart o o') ->
  let p := PoolBucket.pData b + o in
  let '(m', b') := PoolBucket.FreeInterval m b p p in
  freelist m' (PoolBucket.pData b') lim (PoolBucket.head b') (o :: l).
Proof.
  intros Hfl Hh Ho Hfit Hlim Hapart p. subst p.
  unfold PoolBucket.FreeInterval. cbn.
  replace (PoolBucket.pData b + o - PoolBucket.pData b) with o by ring.
  set (u := TaggedIndex.make (PoolBucket.globalTag b) (u32 o)).
  assert (Hoff : TaggedIndex.offset u = o).
  { unfold u. rewrite offset_make, u32_idem. apply u32_small. lia. }
  replace (o :: l) with (TaggedIndex.offset u :: l)
    by (rewrite Hoff; reflexivity).
  constructor.
  - unfold u. rewrite u32_small by lia. apply make_not_Invalid. lia.
  - rewrite Hoff. exact Hfit.
  - rewrite Hoff, load64_store64_same by exact Hh.
    apply (freelist_frame_nodes m); [|exact Hfl].
    intros o' Ho' x Hx. unfold store64. apply store_le_outside.
    destruct (Hapart o' Ho') as [H | H]; cbn; lia.
Qed.

Lemma load64_store32_pair m a t o :
  load64 (store32 (store32 m a t) (a + 4) o) a = TaggedIndex.make t o.
Proof.
  unfold load64, store32, TaggedIndex.make, u32, wrap.
  change 8%nat with (4 + 4)%nat. rewrite load_le_app.
  change (Z.of_nat 4) with 4.
  replace (a + 4) with (a + 4 + 0) at 3 by ring.
  rewrite load_store_le_part by (cbn; lia).
  rewrite load_store_le_other by (cbn; lia).
  replace a with (a + 0) at 2 by ring.
  rewrite load_store_le_part by (cbn; lia).
  rewrite Z.pow_0_r, !Z.div_1_r.
  change (256 ^ Z.of_nat 4) with (2 ^ 32). change (256 ^ 4) with (2 ^ 32).
  reflexivity.
Qed.

(** The chain that [ReturnL1CacheToMaster] builds. With the link of the
    last slot set to [h], the slots of the entries [first], [i], [i + 1],
    ... of L1 form a freelist that continues with the freelist [l] of
    [h], provided the slots are pairwise apart and apart from those of
    [l]. *)
Lemma link_loop_chain lim (fuel : nat) : forall c m i localTag first h l t0,
  let pData := TlsPoolBucket.pBucketData c in
  let entries := first :: slice (TlsPoolBucket.pStorageL1 c) i fuel in
  lim < 2 ^ 32 -> 0 <= h < 2 ^ 64 ->
  (forall o, In o entries -> 0 <= o /\ o + 8 <= lim) ->
  all_apart (entries ++ l) ->
  freelist m pData lim h l ->
  let '(m1, pTail) :=
    TlsPoolBucket.link_loop fuel c m i localTag (pData + first) in
  freelist (store64 m1 pTail h) pData lim (TaggedIndex.make t0 first)
           (entries ++ l).
Proof.
  induction fuel as [|fuel IH];
    intros c m i localTag first h l t0 pData entries Hlim Hh Hin Hap Hfl.
  - subst entries. cbn [slice TlsPoolBucket.link_loop app] in *.
    destruct (Hin first ltac:(left; reflexivity)) as [Hf0 Hf1].
    assert (Hoff : TaggedIndex.offset (TaggedIndex.make t0 first) = first)
      by (rewrite offset_make; apply u32_small; lia).
    replace (first :: l)
      with (TaggedIndex.offset (TaggedIndex.make t0 first) :: l)
      by (rewrite Hoff; reflexivity).
    constructor.
    + apply make_not_Invalid. lia.
    + rewrite Hoff. exact Hf1.
    + rewrite Hoff, load64_store64_same by exact Hh.
      apply (freelist_frame_nodes m); [|exact Hfl].
      intros o' Ho' x Hx. unfold store64. apply store_le_outside.
      destruct Hap as [Hap _]. destruct (Hap o' Ho') as [H | H]; cbn; lia.
  - subst entries. cbn [slice TlsPoolBucket.link_loop] in *.
    set (e := TlsPoolBucket.pStorageL1 c i) in *.
    set (m2 := store32 (store32 m (pData + first) localTag)
                       (pData + first + 4) e).
    destruct (Hin first ltac:(left; reflexivity)) as [Hf0 Hf1].
    rewrite <- app_comm_cons in Hap. cbn [all_apart] in Hap.
    destruct Hap as [Hap1 Hap2].
    assert (Hfl2 : freelist m2 pData lim h l).
    { apply (freelist_frame_nodes m); [|exact Hfl].
      intros o' Ho' x Hx. unfold m2, store32.
      assert (Hd : apart first o')
        by (apply Hap1; right; apply in_or_app; right; exact Ho').
      rewrite !store_le_outside; [reflexivity | |];
        destruct Hd; cbn; lia. }
    specialize (IH c m2 (i + 1) (u32 (localTag + 1)) e h l localTag
                   Hlim Hh
                   ltac:(intros o Ho; apply Hin; right; exact Ho)
                   Hap2 Hfl2).
    cbv zeta in IH. fold pData in IH |- *.
    destruct (TlsPoolBucket.link_loop fuel c m2 (i + 1) (u32 (localTag + 1))
                (pData + e)) as [m1 pTail] eqn:Eloop.
    assert (Hoff : TaggedIndex.offset (TaggedIndex.make t0 first) = first)
      by (rewrite offset_make; apply u32_small; lia).
    rewrite <- app_comm_cons.
    replace (first :: (e :: slice (TlsPoolBucket.pStorageL1 c) (i + 1) fuel) ++ l)
      with (TaggedIndex.offset (TaggedIndex.make t0 first)
            :: (e :: slice (TlsPoolBucket.pStorageL1 c) (i + 1) fuel) ++ l)
      by (rewrite Hoff; reflexivity).
    constructor.
    + apply make_not_Invalid. lia.
    + rewrite Hoff. exact Hf1.
    + rewrite Hoff.
      replace (load64 (store64 m1 pTail h) (pData + first))
        with (TaggedIndex.make localTag e); [exact IH|].
      symmetry. rewrite <- (load64_store32_pair m (pData + first) localTag e).
      fold m2. apply load_le_ext. intros x Hx. cbn in Hx.
      assert (Hrest : forall o, In o (e :: slice (TlsPoolBucket.pStorageL1 c)
                                            (i + 1) fuel) ->
                        0 <= o /\ o + 8 <= lim /\ apart first o).
      { intros o Ho. destruct (Hin o ltac:(right; exact Ho)) as [A B].
        split; [exact A|]. split; [exact B|].
        apply Hap1. apply in_or_app. left. exact Ho. }
      clear IH Hfl2 Hfl Hap2.
      assert (Hgen : forall (k : nat) mm j tg e0 x0,
                 (forall o, In o (e0 :: slice (TlsPoolBucket.pStorageL1 c) j k) ->
                    apart first o) ->
                 pData + first <= x0 < pData + first + 8 ->
                 let r := TlsPoolBucket.link_loop k c mm j tg (pData + e0) in
                 fst r x0 = mm x0 /\
                 (snd r + 8 <= pData + first \/ pData + first + 8 <= snd r)).
      { induction k as [|k IHk]; intros mm j tg e0 x0 Hd Hx0.
        - cbn. split; [reflexivity|].
          destruct (Hd e0 ltac:(left; reflexivity)) as [H | H]; lia.
        - cbn [TlsPoolBucket.link_loop slice] in *.
          fold pData.
          destruct (IHk (store32 (store32 mm (pData + e0) tg) (pData + e0 + 4)
                                 (TlsPoolBucket.pStorageL1 c j))
                        (j + 1) (u32 (tg + 1)) (TlsPoolBucket.pStorageL1 c j) x0
                        ltac:(intros o Ho; apply Hd; right; exact Ho) Hx0)
            as [I1 I2].
          split; [|exact I2].
          rewrite I1. unfold store32.
          destruct (Hd e0 ltac:(left; reflexivity)) as [H | H];
            rewrite !store_le_outside by (cbn; lia); reflexivity. }
      destruct (Hgen fuel m2 (i + 1) (u32 (localTag + 1)) e x
                  ltac:(intros o Ho; apply Hrest; exact Ho) Hx) as [G1 G2].
      rewrite Eloop in G1, G2. cbn [fst snd] in G1, G2.
      unfold store64. rewrite store_le_outside by (cbn; lia). exact G1.
Qed.

Lemma make_u32_offset t o : TaggedIndex.make t (u32 o) = TaggedIndex.make t o.
Proof. unfold TaggedIndex.make. now rewrite u32_idem. Qed.

(** A flush of [count] entries of L1: they are put, in the order they have
    in L1, in front of the bucket's freelist, by the one [FreeInterval]. *)
Lemma ReturnL1CacheToMaster_prepends c b m count lim l :
  0 < count <= TlsPoolBucket.numElementsL1 c ->
  TlsPoolBucket.pBucketData c = PoolBucket.pData b ->
  lim < 2 ^ 32 -> 0 <= PoolBucket.head b < 2 ^ 64 ->
  let returned :=
    slice (TlsPoolBucket.pStorageL1 c) (TlsPoolBucket.numElementsL1 c - count)
          (Z.to_nat count) in
  (forall o, In o returned -> 0 <= o /\ o + 8 <= lim) ->
  all_apart (returned ++ l) ->
  freelist m (PoolBucket.pData b) lim (PoolBucket.head b) l ->
  let '(c', b', m') := TlsPoolBucket.ReturnL1CacheToMaster c b m count in
  freelist m' (PoolBucket.pData b') lim (PoolBucket.head b') (returned ++ l).
Proof.
  intros Hc Hd Hlim Hh returned Hin Hap Hfl.
  unfold TlsPoolBucket.ReturnL1CacheToMaster.
  destruct (count =? 0) eqn:E0; [apply Z.eqb_eq in E0; lia|].
  destruct (TlsPoolBucket.numElementsL1 c =? 0) eqn:E1;
    [apply Z.eqb_eq in E1; lia|].
  cbv zeta. rewrite Z.min_l by lia.
  set (first := TlsPoolBucket.numElementsL1 c - count) in *.
  replace (TlsPoolBucket.numElementsL1 c - (first + 1)) with (count - 1)
    by (unfold first; ring).
  assert (Hret : returned =
                 TlsPoolBucket.pStorageL1 c first
                 :: slice (TlsPoolBucket.pStorageL1 c) (first + 1)
                          (Z.to_nat (count - 1))).
  { unfold returned.
    replace (Z.to_nat count) with (S (Z.to_nat (count - 1))) by lia.
    reflexivity. }
  rewrite Hret in Hin, Hap |- *.
  rewrite <- Hd in Hfl.
  pose proof (link_loop_chain lim (Z.to_nat (count - 1)) c m (first + 1)
                16777215 (TlsPoolBucket.pStorageL1 c first)
                (PoolBucket.head b) l (PoolBucket.globalTag b)
                Hlim Hh Hin Hap Hfl) as Hchain.
  destruct (TlsPoolBucket.link_loop (Z.to_nat (count - 1)) c m (first + 1)
              16777215
              (TlsPoolBucket.pBucketData c + TlsPoolBucket.pStorageL1 c first))
    as [m1 pTail].
  unfold PoolBucket.FreeInterval. cbn.
  rewrite Hd.
  replace (PoolBucket.pData b + TlsPoolBucket.pStorageL1 c first
           - PoolBucket.pData b)
    with (TlsPoolBucket.pStorageL1 c first) by ring.
  rewrite make_u32_offset. rewrite Hd in Hchain. exact Hchain.
Qed.

End Prepend.

(** * Well-formedness is kept by [Free] *)

Section FreePreserves.
Context {G : Type} {GA : GenericAllocator.Ops G}.
Variable arch : Arch.
Implicit Types (s : Allocator.t G) (c : TlsPoolBucket.t) (m : mem).

Lemma slice_app f i (a b : nat) :
  slice f i (a + b) = slice f i a ++ slice f (i + Z.of_nat a) b.
Proof.
  revert i. induction a as [|a IH]; intros i.
  - cbn. now rewrite Z.add_0_r.
  - cbn [Nat.add slice app]. rewrite IH. do 3 f_equal. lia.
Qed.

Lemma In_slice f (n : nat) : forall i o,
  In o (slice f i n) -> exists k, i <= k < i + Z.of_nat n /\ o = f k.
Proof.
  induction n as [|n IH]; intros i o Hin; [destruct Hin|].
  cbn [slice] in Hin. destruct Hin as [<- | Hin].
  - exists i. split; [lia | reflexivity].
  - destruct (IH (i + 1) o Hin) as [k [Hk ->]]. exists k. split; [lia | reflexivity].
Qed.

Lemma all_apart_app_r A : forall B, all_apart (A ++ B) -> all_apart B.
Proof.
  induction A as [|a A IH]; intros B H; [exact H|].
  cbn [app all_apart] in H. apply IH. tauto.
Qed.

(** What [Free] does to a slot of bucket [i]. *)
Lemma Free_arena_unfold s p i :
  geometry arch s -> 0 <= i < Allocator.bucketsCount s ->
  region_base s i <= p < region_base s (i + 1) ->
  let c := Allocator.tls s i in
  let r := Allocator.ReleaseToCache arch true c
             (Allocator.buckets s (TlsPoolBucket.pBucket c)) (Allocator.ram s) p in
  let mb := PoolBucket.FreeInterval (Allocator.ram s) (Allocator.buckets s i) p p in
  Allocator.Free arch s p =
  if fst r then
    Allocator.mk (Allocator.bucketsCount s) (Allocator.bucketSizeInBytes s)
      (Allocator.pBufferEnd s) (Allocator.bucketsDataBegin s)
      (upd (Allocator.buckets s) (TlsPoolBucket.pBucket c) (snd (fst (snd r))))
      (Allocator.pBuffer s) (Allocator.gAllocator s)
      (upd (Allocator.tls s) i (fst (fst (snd r)))) (snd (snd r))
  else
    Allocator.set_ram
      (Allocator.set_buckets s (upd (Allocator.buckets s) i (snd mb))) (fst mb).
Proof.
  intros Hg Hi Hp c r mb. subst c r mb.
  assert (Hread : Allocator.MaxValidAlignment < p).
  { pose proof (geo_base _ _ Hg). pose proof (geo_size _ _ Hg).
    unfold region_base in Hp. nia. }
  unfold Allocator.Free. rewrite (IsReadable_true p Hread). cbn [negb].
  rewrite (FindBucket_region arch s p i Hg Hi Hp).
  destruct (i <? Allocator.bucketsCount s) eqn:E; [|apply Z.ltb_ge in E; lia].
  unfold Allocator.ReleaseToTls.
  destruct (Allocator.ReleaseToCache arch true _ _ _ p) as [ok [[c' b'] m']].
  destruct ok; cbn [fst snd]; [reflexivity|].
  destruct (PoolBucket.FreeInterval (Allocator.ram s) (Allocator.buckets s i) p p).
  reflexivity.
Qed.

(** A state that differs from a well-formed one inside bucket [i] only,
    and is in order there, is well formed. *)
Lemma wf_update s s' i :
  wf arch s -> same_arena s s' -> 0 <= i < Allocator.bucketsCount s ->
  (forall x, x < region_base s i \/ region_base s (i + 1) <= x ->
             Allocator.ram s' x = Allocator.ram s x) ->
  (forall j, j <> i -> Allocator.buckets s' j = Allocator.buckets s j) ->
  (forall j, j <> i -> Allocator.tls s' j = Allocator.tls s j) ->
  bucket_ok s' i -> cache_ok arch s' i -> wf arch s'.
Proof.
  intros Hwf Hsa Hi Hram Hb Ht Hbi Hci.
  pose proof (wf_geometry _ _ Hwf) as Hg.
  pose proof (geo_size _ _ Hg) as Hsz.
  pose proof Hsa as [Hc [Hs _]].
  constructor.
  - exact (geometry_same_arena arch s s' Hsa Hg).
  - rewrite Hs. exact (wf_offsets _ _ Hwf).
  - intros j Hj. rewrite Hc in Hj.
    destruct (Z.eq_dec j i) as [-> | Hne]; [exact Hbi|].
    destruct (wf_buckets _ _ Hwf j Hj) as [Hd [l Hl]].
    unfold bucket_ok. rewrite (Hb j Hne), (region_base_same_arena s s' j Hsa), Hs.
    split; [exact Hd|]. exists l.
    apply (freelist_frame (Allocator.ram s)); [|exact Hl].
    intros x Hx. apply Hram.
    destruct (Z_lt_le_dec j i) as [Hlt | Hgt].
    + left. pose proof (region_base_mono s (j + 1) i Hsz ltac:(lia)).
      rewrite region_base_step in *. lia.
    + right. pose proof (region_base_mono s (i + 1) j Hsz ltac:(lia)). lia.
  - intros j Hj. rewrite Hc in Hj.
    destruct (Z.eq_dec j i) as [-> | Hne]; [exact Hci|].
    apply (cache_ok_transfer arch s s' j Hsa (Ht j Hne)).
    exact (wf_caches _ _ Hwf j Hj).
Qed.

(** [Free] of a slot of bucket [i] keeps the state well formed, provided
    the slot is not free already: its link field is apart from those of the
    slots on the bucket's freelist and in L1 of the thread cache, which are
    apart from one another. *)
Lemma Free_wf s p i l :
  wf arch s -> 0 <= i < Allocator.bucketsCount s ->
  region_base s i <= p -> p + 8 <= region_base s (i + 1) ->
  freelist (Allocator.ram s) (region_base s i) (Allocator.bucketSizeInBytes s)
           (PoolBucket.head (Allocator.buckets s i)) l ->
  0 <= PoolBucket.head (Allocator.buckets s i) < 2 ^ 64 ->
  all_apart ((p - region_base s i)
             :: slice (TlsPoolBucket.pStorageL1 (Allocator.tls s i)) 0
                      (Z.to_nat (TlsPoolBucket.numElementsL1 (Allocator.tls s i)))
                ++ l) ->
  wf arch (Allocator.Free arch s p).
Proof.
  intros Hwf Hi Hlo Hhi Hfl Hh Hap.
  pose proof (wf_geometry _ _ Hwf) as Hg.
  pose proof (geo_size _ _ Hg) as Hsz.
  pose proof (wf_offsets _ _ Hwf) as Hoff.
  pose proof (K0_range arch) as HK.
  pose proof (wf_caches _ _ Hwf i Hi) as Hc.
  destruct (wf_buckets _ _ Hwf i Hi) as [Hd _].
  assert (Hp : region_base s i <= p < region_base s (i + 1)) by lia.
  assert (Hrel : u32 (p - region_base s i) = p - region_base s i).
  { apply u32_small. rewrite region_base_step in Hhi. lia. }
  assert (Hrange : 0 <= p - region_base s i /\
                   p - region_base s i + 8 <= Allocator.bucketSizeInBytes s)
    by (rewrite region_base_step in Hhi; lia).
  pose proof (Free_same_arena arch s p) as Hsa.
  pose proof (fun x => Free_frame arch s p i x Hg Hi Hc Hlo Hhi) as Hframe.
  pose proof (Free_arena_unfold s p i Hg Hi Hp) as Hfree. cbv zeta in Hfree.
  destruct Hc as [H0 [H1 [Hm [Hw [HL0 HL1]]]]].
  set (c := Allocator.tls s i) in *.
  cbn [all_apart] in Hap. destruct Hap as [Hap_p Hap_rest].
  destruct (Z.eq_dec (TlsPoolBucket.maxElementsCount c) 0) as [Hmax | Hmax].
  - (* the cache refuses: the slot goes to the freelist *)
    assert (Hr : Allocator.ReleaseToCache arch true c
                   (Allocator.buckets s (TlsPoolBucket.pBucket c))
                   (Allocator.ram s) p
                 = (false, (c, Allocator.buckets s (TlsPoolBucket.pBucket c),
                            Allocator.ram s)))
      by (unfold Allocator.ReleaseToCache; rewrite Hmax; reflexivity).
    rewrite Hr in Hfree. cbn [fst] in Hfree.
    pose proof (FreeInterval_prepends (Allocator.ram s) (Allocator.buckets s i)
                  (Allocator.bucketSizeInBytes s) (p - region_base s i) l
                  ltac:(rewrite Hd; exact Hfl) Hh ltac:(lia) ltac:(lia) Hoff
                  ltac:(intros o' Ho'; apply Hap_p; apply in_or_app; right;
                        exact Ho')) as Hpre.
    cbv zeta in Hpre. rewrite Hd in Hpre.
    replace (region_base s i + (p - region_base s i)) with p in Hpre by ring.
    assert (Hpd : PoolBucket.pData
                    (snd (PoolBucket.FreeInterval (Allocator.ram s)
                            (Allocator.buckets s i) p p)) = region_base s i)
      by (unfold PoolBucket.FreeInterval; cbn; exact Hd).
    destruct (PoolBucket.FreeInterval (Allocator.ram s) (Allocator.buckets s i) p p)
      as [m' b'].
    cbn [fst snd] in Hfree, Hpd.
    apply (wf_update s _ i Hwf Hsa Hi Hframe).
    + intros j Hj. rewrite Hfree. cbn. apply upd_other. exact Hj.
    + intros j Hj. rewrite Hfree. reflexivity.
    + unfold bucket_ok. rewrite Hfree. cbn. rewrite upd_same.
      change (region_base
                (Allocator.set_ram
                   (Allocator.set_buckets s (upd (Allocator.buckets s) i b')) m')
                i) with (region_base s i).
      split; [exact Hpd|]. exists ((p - region_base s i) :: l).
      rewrite Hpd in Hpre. exact Hpre.
    + apply (cache_ok_transfer arch s _ i Hsa).
      * rewrite Hfree. reflexivity.
      * exact (wf_caches _ _ Hwf i Hi).
  - (* the cache takes the slot *)
    assert (Hwired : TlsPoolBucket.pBucketData c = region_base s i /\
                     TlsPoolBucket.pBucket c = i)
      by (destruct Hw as [[_ [_ Hz]] | Hw]; [lia | exact Hw]).
    destruct Hwired as [Hcd Hcb].
    destruct (ReleaseToCache_cases arch c
                (Allocator.buckets s (TlsPoolBucket.pBucket c))
                (Allocator.ram s) p ltac:(lia) ltac:(lia) ltac:(lia))
      as [Hok Hcases].
    cbv zeta in Hcases. rewrite Hcd, Hrel, Hcb in Hcases.
    rewrite Hok, Hcb in Hfree.
    assert (Hsame_b : forall b' T,
              b' = Allocator.buckets s i ->
              bucket_ok
                (Allocator.mk (Allocator.bucketsCount s)
                   (Allocator.bucketSizeInBytes s) (Allocator.pBufferEnd s)
                   (Allocator.bucketsDataBegin s) (upd (Allocator.buckets s) i b')
                   (Allocator.pBuffer s) (Allocator.gAllocator s) T
                   (Allocator.ram s)) i).
    { intros b' T ->. unfold bucket_ok. cbn. rewrite upd_same.
      split; [exact Hd|]. exists l. exact Hfl. }
    assert (Hcache : forall st0 n0' st1 n1',
              0 <= n0' <= SMM_MAX_CACHE_ITEMS_COUNT arch ->
              0 <= n1' <= TlsPoolBucket.maxElementsCount c + 1 ->
              (forall k, 0 <= k < n0' ->
                 0 <= st0 k /\ st0 k + 8 <= Allocator.bucketSizeInBytes s) ->
              (forall k, 0 <= k < n1' ->
                 0 <= st1 k /\ st1 k + 8 <= Allocator.bucketSizeInBytes s) ->
              forall s',
                same_arena s s' ->
                Allocator.tls s' i
                = TlsPoolBucket.mk (TlsPoolBucket.pBucketData c) st1
                    (TlsPoolBucket.pBucket c) st0
                    (TlsPoolBucket.maxElementsCount c) n1' n0' ->
                cache_ok arch s' i).
    { intros st0 n0' st1 n1' A0 A1 AL0 AL1 s' Hsa' Ht. unfold cache_ok.
      rewrite Ht, (region_base_same_arena s s' i Hsa').
      destruct Hsa' as [_ [Hs' _]]. rewrite Hs'. cbn.
      repeat split; try lia; try (apply AL0; assumption);
        try (apply AL1; assumption). }
    apply (wf_update s _ i Hwf Hsa Hi Hframe).
    + intros j Hj. rewrite Hfree. cbn. apply upd_other. exact Hj.
    + intros j Hj. rewrite Hfree. cbn. apply upd_other. exact Hj.
    + (* the bucket *)
      destruct Hcases as [[_ Hr] | [[_ [_ Hr]] | [[_ [Hfull [Htwo Hr]]] | [_ [_ [_ Hr]]]]]].
      * rewrite Hfree, Hr. cbn [fst snd].
        apply Hsame_b. reflexivity.
      * rewrite Hfree, Hr. cbn [fst snd].
        apply Hsame_b. reflexivity.
      * (* a flush *)
        set (n1 := TlsPoolBucket.numElementsL1 c) in *.
        assert (Hhalf : 0 < n1 / 2 <= n1).
        { split; [apply Z.div_str_pos; lia
                 | apply Z.div_le_upper_bound; lia]. }
        pose proof (ReturnL1CacheToMaster_prepends c (Allocator.buckets s i)
                      (Allocator.ram s) (n1 / 2) (Allocator.bucketSizeInBytes s) l
                      Hhalf ltac:(rewrite Hcd, Hd; reflexivity) Hoff Hh) as Hpre.
        cbv zeta in Hpre. fold n1 in Hpre.
        assert (Hsplit : slice (TlsPoolBucket.pStorageL1 c) 0 (Z.to_nat n1)
                         = slice (TlsPoolBucket.pStorageL1 c) 0
                                 (Z.to_nat (n1 - n1 / 2))
                           ++ slice (TlsPoolBucket.pStorageL1 c) (n1 - n1 / 2)
                                    (Z.to_nat (n1 / 2))).
        { replace (Z.to_nat n1)
            with (Z.to_nat (n1 - n1 / 2) + Z.to_nat (n1 / 2))%nat by lia.
          rewrite slice_app. do 2 f_equal. lia. }
        rewrite Hsplit, <- app_assoc in Hap_rest.
        apply all_apart_app_r in Hap_rest.
        specialize (Hpre
          ltac:(intros o Ho; apply In_slice in Ho; destruct Ho as [k [Hk ->]];
                apply HL1; fold n1; lia)
          Hap_rest ltac:(rewrite Hd; exact Hfl)).
        destruct (ReturnL1CacheToMaster_cache c (Allocator.buckets s i)
                    (Allocator.ram s) (n1 / 2) Hhalf) as [_ Hpd].
        rewrite Hfree, Hr. cbv zeta. cbn [fst snd].
        destruct (TlsPoolBucket.ReturnL1CacheToMaster c (Allocator.buckets s i)
                    (Allocator.ram s) (n1 / 2)) as [[c1 b1] m1].
        cbn [fst snd] in Hpd |- *.
        unfold bucket_ok. cbn. rewrite upd_same.
        split; [rewrite Hpd; exact Hd|].
        eexists. rewrite Hpd, Hd in Hpre. exact Hpre.
      * rewrite Hfree, Hr. cbn [fst snd].
        apply Hsame_b. reflexivity.
    + (* the cache record *)
      assert (Hnew : forall st n k,
                (forall j, 0 <= j < n ->
                   0 <= st j /\ st j + 8 <= Allocator.bucketSizeInBytes s) ->
                0 <= k < n + 1 ->
                0 <= upd st n (p - region_base s i) k /\
                upd st n (p - region_base s i) k + 8
                <= Allocator.bucketSizeInBytes s).
      { intros st n k Hst Hk. destruct (Z.eq_dec k n) as [-> | Hne].
        - rewrite upd_same. exact Hrange.
        - rewrite upd_other by exact Hne. apply Hst. lia. }
      destruct Hcases as [[Hroom Hr] | [[_ [Hroom Hr]] | [[_ [Hfull [Htwo Hr]]] | [_ [Hfull [Hone Hr]]]]]].
      * apply (Hcache
                 (upd (TlsPoolBucket.storageL0 c) (TlsPoolBucket.numElementsL0 c)
                      (p - region_base s i))
                 (TlsPoolBucket.numElementsL0 c + 1)
                 (TlsPoolBucket.pStorageL1 c) (TlsPoolBucket.numElementsL1 c));
          [lia | lia | intros k Hk; apply Hnew; assumption | exact HL1
          | exact Hsa |].
        rewrite Hfree, Hr. cbn. apply upd_same.
      * apply (Hcache
                 (TlsPoolBucket.storageL0 c) (TlsPoolBucket.numElementsL0 c)
                 (upd (TlsPoolBucket.pStorageL1 c) (TlsPoolBucket.numElementsL1 c)
                      (p - region_base s i))
                 (TlsPoolBucket.numElementsL1 c + 1));
          [lia | lia | exact HL0 | intros k Hk; apply Hnew; assumption
          | exact Hsa |].
        rewrite Hfree, Hr. cbn. apply upd_same.
      * set (n1 := TlsPoolBucket.numElementsL1 c) in *.
        assert (Hhalf : 0 < n1 / 2 <= n1).
        { split; [apply Z.div_str_pos; lia
                 | apply Z.div_le_upper_bound; lia]. }
        apply (Hcache
                 (TlsPoolBucket.storageL0 c) (TlsPoolBucket.numElementsL0 c)
                 (upd (TlsPoolBucket.pStorageL1 c) (n1 - n1 / 2)
                      (p - region_base s i))
                 (n1 - n1 / 2 + 1));
          [lia | lia | exact HL0
          | intros k Hk; apply Hnew; [intros j Hj; apply HL1; fold n1; lia
                                     | exact Hk]
          | exact Hsa |].
        rewrite Hfree, Hr. cbn. apply upd_same.
      * apply (Hcache
                 (TlsPoolBucket.storageL0 c) (TlsPoolBucket.numElementsL0 c)
                 (upd (TlsPoolBucket.pStorageL1 c) 1 (p - region_base s i)) 2);
          [lia | lia | exact HL0
          | intros k Hk; apply (Hnew _ 1);
              [intros j Hj; apply HL1; lia | lia]
          | exact Hsa |].
        rewrite Hfree, Hr. cbn. apply upd_same.
Qed.

End FreePreserves.

(** * Thread-cache creation *)

Section ThreadCache.
Context {G : Type} {GA : GenericAllocator.Ops G}.
Variable arch : Arch.
Implicit Types (s : Allocator.t G) (c : TlsPoolBucket.t) (m : mem).

Lemma freelist_head_fits m pData lim u l :
  freelist m pData lim u l -> u <> TaggedIndex.Invalid ->
  TaggedIndex.offset u + 8 <= lim.
Proof.
  intros Hfl Hne. inversion Hfl; subst; [congruence | assumption].
Qed.

(** Warming up pops slots of the bucket into L1, and nothing else. *)
Lemma warm_loop_ok m rb bsz (fuel : nat) : forall c b,
  0 < rb -> 0 < bsz < 2 ^ 32 ->
  PoolBucket.pData b = rb ->
  (exists l, freelist m rb bsz (PoolBucket.head b) l) ->
  TlsPoolBucket.pBucketData c = rb ->
  TlsPoolBucket.numElementsL0 c = 0 ->
  0 <= TlsPoolBucket.numElementsL1 c ->
  TlsPoolBucket.numElementsL1 c + Z.of_nat fuel < 2 ^ 32 - 1 ->
  (forall k, 0 <= k < TlsPoolBucket.numElementsL1 c ->
     0 <= TlsPoolBucket.pStorageL1 c k /\
     TlsPoolBucket.pStorageL1 c k + 8 <= bsz) ->
  let '(c', b') := TlsPoolBucket.warm_loop fuel c b m in
  PoolBucket.pData b' = rb /\
  (exists l, freelist m rb bsz (PoolBucket.head b') l) /\
  TlsPoolBucket.pBucketData c' = rb /\
  TlsPoolBucket.pBucket c' = TlsPoolBucket.pBucket c /\
  TlsPoolBucket.maxElementsCount c' = TlsPoolBucket.maxElementsCount c /\
  TlsPoolBucket.numElementsL0 c' = 0 /\
  TlsPoolBucket.numElementsL1 c <= TlsPoolBucket.numElementsL1 c'
    <= TlsPoolBucket.numElementsL1 c + Z.of_nat fuel /\
  (forall k, 0 <= k < TlsPoolBucket.numElementsL1 c' ->
     0 <= TlsPoolBucket.pStorageL1 c' k /\
     TlsPoolBucket.pStorageL1 c' k + 8 <= bsz) /\
  (PoolBucket.head b <> TaggedIndex.Invalid ->
   0 < TlsPoolBucket.numElementsL1 c' \/
   PoolBucket.head b' <> TaggedIndex.Invalid).
Proof.
  induction fuel as [|fuel IH]; intros c b Hrb Hbsz Hd Hfl Hcd H0 H1 Hbound Hent.
  - cbn [TlsPoolBucket.warm_loop].
    repeat split; try assumption; try reflexivity; try lia;
      try (apply Hent; assumption).
  - cbn [TlsPoolBucket.warm_loop].
    destruct (Z.eq_dec (PoolBucket.head b) TaggedIndex.Invalid) as [He | Hne].
    + rewrite (PoolBucket_Alloc_empty _ _ He). cbn [Z.eqb].
      repeat split; try assumption; try reflexivity; try lia;
        try (apply Hent; assumption).
    + rewrite (PoolBucket_Alloc_pop _ _ Hne). rewrite Hd.
      destruct Hfl as [l Hl].
      pose proof (offset_nonneg (PoolBucket.head b)) as Ho.
      pose proof (freelist_head_fits _ _ _ _ _ Hl Hne) as Hfit.
      destruct (rb + TaggedIndex.offset (PoolBucket.head b) =? 0) eqn:Ep;
        [apply Z.eqb_eq in Ep; lia|].
      rewrite Hcd.
      replace (rb + TaggedIndex.offset (PoolBucket.head b) - rb)
        with (TaggedIndex.offset (PoolBucket.head b)) by ring.
      rewrite (u32_small (TaggedIndex.offset (PoolBucket.head b))) by lia.
      rewrite (u32_small (TlsPoolBucket.numElementsL1 c + 1)) by lia.
      set (c1 := TlsPoolBucket.set_L1 c _ _).
      set (b1 := PoolBucket.set_head b _).
      specialize (IH c1 b1 Hrb Hbsz Hd
                     (freelist_pop _ _ _ _ l Hl Hne) Hcd H0
                     ltac:(cbn; lia)
                     ltac:(cbn; rewrite Nat2Z.inj_succ in Hbound; lia)).
      assert (Hent1 : forall k, 0 <= k < TlsPoolBucket.numElementsL1 c1 ->
                0 <= TlsPoolBucket.pStorageL1 c1 k /\
                TlsPoolBucket.pStorageL1 c1 k + 8 <= bsz).
      { intros k Hk. cbn in Hk |- *.
        destruct (Z.eq_dec k (TlsPoolBucket.numElementsL1 c)) as [-> | Hkne].
        - rewrite upd_same. lia.
        - rewrite upd_other by exact Hkne. apply Hent. lia. }
      specialize (IH Hent1).
      destruct (TlsPoolBucket.warm_loop fuel c1 b1 m) as [c' b'].
      destruct IH as [I1 [I2 [I3 [I4 [I5 [I6 [I7 [I8 I9]]]]]]]].
      cbn in I4, I5, I7.
      repeat split; try assumption; try (apply I8; assumption);
        try (rewrite Nat2Z.inj_succ); try lia.
Qed.

Lemma GetBucketElementsCount_range s i :
  0 < Allocator.bucketSizeInBytes s < 2 ^ 32 ->
  0 <= i < Allocator.bucketsCount s ->
  Allocator.bucketsCount s <= SMM_MAX_BUCKET_COUNT ->
  0 <= Allocator.GetBucketElementsCount s i < 2 ^ 28.
Proof.
  intros Hb Hi Hc. unfold Allocator.GetBucketElementsCount.
  destruct (i >=? Allocator.bucketsCount s) eqn:E.
  { rewrite Z.geb_leb in E. apply Z.leb_le in E. lia. }
  rewrite GetBucketElementSize_small by lia.
  assert (Hq : 0 <= Allocator.bucketSizeInBytes s / (16 * (i + 1)) < 2 ^ 28).
  { split.
    - apply Z.div_pos; lia.
    - apply Z.div_lt_upper_bound; [lia|]. nia. }
  rewrite u32_small by lia. exact Hq.
Qed.

(** Creating the thread cache keeps the state well formed. Each record
    comes out with L0 empty and L1 within its capacity, and a bucket that
    had a free slot has one still, or has given at least one to L1. *)
Lemma CreateThreadCache_fresh s warmupOptions cacheSize :
  wf arch s -> 0 <= cacheSize ->
  let s' := Allocator.CreateThreadCache s warmupOptions cacheSize in
  wf arch s' /\
  forall i, 0 <= i < Allocator.bucketsCount s ->
    TlsPoolBucket.numElementsL0 (Allocator.tls s' i) = 0 /\
    occupancy_ok arch (Allocator.tls s' i) /\
    (PoolBucket.head (Allocator.buckets s i) <> TaggedIndex.Invalid ->
     0 < TlsPoolBucket.numElementsL1 (Allocator.tls s' i) \/
     PoolBucket.head (Allocator.buckets s' i) <> TaggedIndex.Invalid).
Proof.
  intros Hwf Hcs s'.
  pose proof (wf_geometry _ _ Hwf) as Hg.
  pose proof (geo_size _ _ Hg) as Hsz.
  pose proof (geo_base _ _ Hg) as Hbase.
  pose proof (geo_count _ _ Hg) as Hcnt.
  pose proof (wf_offsets _ _ Hwf) as Hoff.
  pose proof (K0_range arch) as HK.
  assert (Hsa : same_arena s s') by (repeat split).
  assert (Heach : forall i, 0 <= i < Allocator.bucketsCount s ->
            bucket_ok s' i /\ cache_ok arch s' i /\
            TlsPoolBucket.numElementsL0 (Allocator.tls s' i) = 0 /\
            occupancy_ok arch (Allocator.tls s' i) /\
            (PoolBucket.head (Allocator.buckets s i) <> TaggedIndex.Invalid ->
             0 < TlsPoolBucket.numElementsL1 (Allocator.tls s' i) \/
             PoolBucket.head (Allocator.buckets s' i) <> TaggedIndex.Invalid)).
  { intros i Hi.
    destruct (wf_buckets _ _ Hwf i Hi) as [Hd Hfl].
    pose proof (GetBucketElementsCount_range s i ltac:(lia) Hi ltac:(lia)) as HN.
    set (K1 := Z.min cacheSize (Allocator.GetBucketElementsCount s i)).
    set (cnt := match warmupOptions with
                | CACHE_COLD => 0
                | CACHE_WARM => K1 / 2
                | CACHE_HOT => K1
                end).
    assert (HK1 : 0 <= K1 < 2 ^ 28) by (unfold K1; lia).
    assert (Hcnt' : 0 <= cnt <= K1).
    { unfold cnt. destruct warmupOptions; try lia.
      split; [apply Z.div_pos; lia | apply Z.div_le_upper_bound; lia]. }
    assert (Hrb : 0 < region_base s i).
    { unfold region_base, Allocator.MaxValidAlignment in *. nia. }
    pose proof (warm_loop_ok (Allocator.ram s) (region_base s i)
                  (Allocator.bucketSizeInBytes s) (Z.to_nat cnt)
                  (TlsPoolBucket.mk (PoolBucket.pData (Allocator.buckets s i))
                     (fun _ => 0) i (fun _ => 0) K1 0 0)
                  (Allocator.buckets s i)
                  Hrb ltac:(lia) Hd Hfl Hd eq_refl ltac:(cbn; lia)
                  ltac:(cbn; lia) ltac:(cbn; intros k Hk; lia)) as Hw.
    assert (Hb' : Allocator.buckets s' i
                  = snd (TlsPoolBucket.Init K1 warmupOptions
                           (Allocator.buckets s i) (Allocator.ram s) i)).
    { subst s'. unfold Allocator.CreateThreadCache. cbn.
      destruct (0 <=? i) eqn:E1; [|apply Z.leb_gt in E1; lia].
      destruct (i <? Allocator.bucketsCount s) eqn:E2;
        [|apply Z.ltb_ge in E2; lia].
      reflexivity. }
    assert (Hc' : Allocator.tls s' i
                  = fst (TlsPoolBucket.Init K1 warmupOptions
                           (Allocator.buckets s i) (Allocator.ram s) i)).
    { subst s'. unfold Allocator.CreateThreadCache. cbn.
      destruct (0 <=? i) eqn:E1; [|apply Z.leb_gt in E1; lia].
      destruct (i <? Allocator.bucketsCount s) eqn:E2;
        [|apply Z.ltb_ge in E2; lia].
      reflexivity. }
    unfold TlsPoolBucket.Init in Hb', Hc'. fold cnt in Hb', Hc'.
    destruct (TlsPoolBucket.warm_loop (Z.to_nat cnt) _ (Allocator.buckets s i)
                (Allocator.ram s)) as [c' b'].
    cbn [fst snd] in Hb', Hc'.
    destruct Hw as [W1 [W2 [W3 [W4 [W5 [W6 [W7 [W8 W9]]]]]]]].
    cbn in W4, W5, W7. rewrite Z2Nat.id in W7 by lia.
    unfold bucket_ok, cache_ok, occupancy_ok.
    rewrite Hb', Hc'.
    change (region_base s' i) with (region_base s i).
    change (Allocator.ram s') with (Allocator.ram s).
    change (Allocator.bucketSizeInBytes s') with (Allocator.bucketSizeInBytes s).
    rewrite W5, W6.
    repeat split; try assumption; try lia; try (apply W8; assumption). }
  split.
  - constructor.
    + exact (geometry_same_arena arch s s' Hsa Hg).
    + exact Hoff.
    + intros i Hi. apply Heach. exact Hi.
    + intros i Hi. apply Heach. exact Hi.
  - intros i Hi. destruct (Heach i Hi) as [_ [_ H]]. exact H.
Qed.

End ThreadCache.

(** * Free, then allocate again *)

Section Lifo.
Context {G : Type} {GA : GenericAllocator.Ops G}.
Variable arch : Arch.
Implicit Types (s : Allocator.t G) (c : TlsPoolBucket.t) (m : mem).

Lemma AllocFromCache_L0 c :
  0 < TlsPoolBucket.numElementsL0 c <= 255 ->
  Allocator.AllocFromCache c =
  (TlsPoolBucket.pBucketData c
   + TlsPoolBucket.storageL0 c (TlsPoolBucket.numElementsL0 c - 1),
   TlsPoolBucket.set_L0 c (TlsPoolBucket.storageL0 c)
                        (TlsPoolBucket.numElementsL0 c - 1)).
Proof.
  intros H. unfold Allocator.AllocFromCache.
  destruct (TlsPoolBucket.numElementsL0 c >? 0) eqn:E.
  - rewrite u8_small by lia. reflexivity.
  - rewrite Z.gtb_ltb in E. apply Z.ltb_ge in E. lia.
Qed.

Lemma AllocFromCache_empty c :
  TlsPoolBucket.numElementsL0 c = 0 -> TlsPoolBucket.numElementsL1 c = 0 ->
  Allocator.AllocFromCache c = (0, c).
Proof.
  intros H0 H1. unfold Allocator.AllocFromCache. rewrite H0, H1. reflexivity.
Qed.

(** A hit in the thread cache of the starting bucket is the result. *)
Lemma Allocate_cache_hit s n a :
  0 < n ->
  let i0 := Z.shiftr (Z.max n a - 1) 4 in
  i0 < Allocator.bucketsCount s ->
  fst (Allocator.AllocFromCache (Allocator.tls s i0)) <> 0 ->
  fst (Allocator.Allocate s n a)
  = fst (Allocator.AllocFromCache (Allocator.tls s i0)).
Proof.
  intros Hn i0 Hi Hhit. unfold Allocator.Allocate.
  destruct (n =? 0) eqn:En; [apply Z.eqb_eq in En; lia|].
  cbv zeta. rewrite effective_size. fold i0.
  apply Z.ltb_lt in Hi. rewrite Hi.
  destruct (Allocator.AllocFromCache (Allocator.tls s i0)) as [pc c].
  cbn [fst] in *. apply Z.eqb_neq in Hhit. rewrite Hhit. reflexivity.
Qed.

(** After a miss in the thread cache, a starting bucket that is not empty
    serves the request. *)
Lemma Allocate_first_bucket s n a :
  0 < n ->
  let i0 := Z.shiftr (Z.max n a - 1) 4 in
  i0 < Allocator.bucketsCount s ->
  fst (Allocator.AllocFromCache (Allocator.tls s i0)) = 0 ->
  fst (PoolBucket.Alloc (Allocator.ram s) (Allocator.buckets s i0)) <> 0 ->
  fst (Allocator.Allocate s n a)
  = fst (PoolBucket.Alloc (Allocator.ram s) (Allocator.buckets s i0)).
Proof.
  intros Hn i0 Hi Hmiss Hpop. unfold Allocator.Allocate.
  destruct (n =? 0) eqn:En; [apply Z.eqb_eq in En; lia|].
  cbv zeta. rewrite effective_size. fold i0.
  pose proof Hi as Hi'. apply Z.ltb_lt in Hi'. rewrite Hi'.
  destruct (Allocator.AllocFromCache (Allocator.tls s i0)) as [pc c].
  cbn [fst] in Hmiss. subst pc. cbn [negb Z.eqb].
  cbn [Allocator.bucketsCount Allocator.set_tls].
  destruct (Z.to_nat (Allocator.bucketsCount s - i0)) as [|k] eqn:Ek; [lia|].
  cbn [Allocator.Allocate_loop Allocator.ram Allocator.buckets Allocator.set_tls].
  destruct (PoolBucket.Alloc (Allocator.ram s) (Allocator.buckets s i0))
    as [pRes b].
  cbn [fst] in Hpop |- *. apply Z.eqb_neq in Hpop. rewrite Hpop. reflexivity.
Qed.

(** [Free] of a slot of bucket [i] whose thread cache is disabled: the slot
    becomes the head of the bucket's freelist. *)
Lemma Free_refused s p i :
  geometry arch s -> 0 <= i < Allocator.bucketsCount s ->
  region_base s i <= p < region_base s (i + 1) ->
  TlsPoolBucket.maxElementsCount (Allocator.tls s i) = 0 ->
  let mb := PoolBucket.FreeInterval (Allocator.ram s) (Allocator.buckets s i) p p in
  Allocator.Free arch s p =
  Allocator.set_ram
    (Allocator.set_buckets s (upd (Allocator.buckets s) i (snd mb))) (fst mb).
Proof.
  intros Hg Hi Hp Hmax mb.
  assert (Hread : Allocator.MaxValidAlignment < p).
  { pose proof (geo_base _ _ Hg). pose proof (geo_size _ _ Hg).
    unfold region_base in Hp. nia. }
  unfold Allocator.Free. rewrite (IsReadable_true p Hread). cbn [negb].
  rewrite (FindBucket_region arch s p i Hg Hi Hp).
  destruct (i <? Allocator.bucketsCount s) eqn:E; [|apply Z.ltb_ge in E; lia].
  unfold Allocator.ReleaseToTls, Allocator.ReleaseToCache.
  rewrite Hmax. cbn [Z.eqb]. subst mb.
  destruct (PoolBucket.FreeInterval (Allocator.ram s) (Allocator.buckets s i) p p).
  reflexivity.
Qed.

(** [Free] of a slot of bucket [i] whose thread cache has room in L0: the
    offset of the slot goes on top of L0. *)
Lemma Free_to_L0 s p i :
  geometry arch s -> 0 <= i < Allocator.bucketsCount s ->
  region_base s i <= p < region_base s (i + 1) ->
  TlsPoolBucket.maxElementsCount (Allocator.tls s i) <> 0 ->
  0 <= TlsPoolBucket.numElementsL0 (Allocator.tls s i)
    < SMM_MAX_CACHE_ITEMS_COUNT arch ->
  let c := Allocator.tls s i in
  Allocator.tls (Allocator.Free arch s p) i =
  TlsPoolBucket.set_L0 c
    (upd (TlsPoolBucket.storageL0 c) (TlsPoolBucket.numElementsL0 c)
         (u32 (p - TlsPoolBucket.pBucketData c)))
    (TlsPoolBucket.numElementsL0 c + 1).
Proof.
  intros Hg Hi Hp Hmax HL0 c. subst c.
  assert (Hread : Allocator.MaxValidAlignment < p).
  { pose proof (geo_base _ _ Hg). pose proof (geo_size _ _ Hg).
    unfold region_base in Hp. nia. }
  pose proof (K0_range arch) as HK.
  unfold Allocator.Free. rewrite (IsReadable_true p Hread). cbn [negb].
  rewrite (FindBucket_region arch s p i Hg Hi Hp).
  destruct (i <? Allocator.bucketsCount s) eqn:E; [|apply Z.ltb_ge in E; lia].
  unfold Allocator.ReleaseToTls, Allocator.ReleaseToCache.
  apply Z.eqb_neq in Hmax. rewrite Hmax.
  destruct HL0 as [HL0a HL0b]. apply Z.ltb_lt in HL0b. rewrite HL0b.
  cbn [andb]. cbn [Allocator.tls]. rewrite upd_same.
  rewrite u8_small by (apply Z.ltb_lt in HL0b; lia). reflexivity.
Qed.

(** LIFO reuse. A slot of bucket [i] that is freed is what the next
    allocation of that size class returns, whenever the thread cache has
    room in L0 or is disabled (and then empty). *)
Lemma free_then_alloc s p i n a :
  geometry arch s -> Allocator.bucketSizeInBytes s < 2 ^ 32 ->
  0 <= i < Allocator.bucketsCount s ->
  region_base s i <= p -> p + 8 <= region_base s (i + 1) ->
  cache_ok arch s i ->
  PoolBucket.pData (Allocator.buckets s i) = region_base s i ->
  TlsPoolBucket.numElementsL0 (Allocator.tls s i)
    < SMM_MAX_CACHE_ITEMS_COUNT arch ->
  (TlsPoolBucket.maxElementsCount (Allocator.tls s i) = 0 ->
   TlsPoolBucket.numElementsL0 (Allocator.tls s i) = 0 /\
   TlsPoolBucket.numElementsL1 (Allocator.tls s i) = 0) ->
  0 < n -> Z.shiftr (Z.max n a - 1) 4 = i ->
  fst (Allocator.Allocate (Allocator.Free arch s p) n a) = p.
Proof.
  intros Hg Hoff Hi Hlo Hhi Hc Hd HL0 Hdis Hn Hidx.
  pose proof (geo_base _ _ Hg) as Hbase.
  pose proof (geo_size _ _ Hg) as Hsz.
  pose proof (K0_range arch) as HK.
  assert (Hp : region_base s i <= p < region_base s (i + 1)) by lia.
  assert (Hrb : 0 < region_base s i)
    by (unfold region_base, Allocator.MaxValidAlignment in *; nia).
  assert (Hrel : u32 (p - region_base s i) = p - region_base s i).
  { apply u32_small. rewrite region_base_step in Hhi. lia. }
  pose proof (Free_same_arena arch s p) as Hsa.
  pose proof Hsa as [Hcnt _].
  destruct (Z.eq_dec (TlsPoolBucket.maxElementsCount (Allocator.tls s i)) 0)
    as [Hmax | Hmax].
  - (* the cache is disabled: through the freelist *)
    destruct (Hdis Hmax) as [Hz0 Hz1].
    pose proof (Free_refused s p i Hg Hi Hp Hmax) as Hfree. cbv zeta in Hfree.
    assert (Hmiss : Allocator.AllocFromCache
                      (Allocator.tls (Allocator.Free arch s p) i)
                    = (0, Allocator.tls s i)).
    { rewrite Hfree. cbn [Allocator.tls Allocator.set_ram Allocator.set_buckets].
      apply AllocFromCache_empty; assumption. }
    assert (Hpop : fst (PoolBucket.Alloc
                          (Allocator.ram (Allocator.Free arch s p))
                          (Allocator.buckets (Allocator.Free arch s p) i)) = p).
    { rewrite Hfree.
      cbn [Allocator.ram Allocator.buckets Allocator.set_ram Allocator.set_buckets].
      rewrite upd_same. unfold PoolBucket.FreeInterval. cbn [fst snd].
      rewrite PoolBucket_Alloc_pop.
      - cbn. rewrite offset_make, u32_idem, Hd, Hrel. ring.
      - cbn. apply make_not_Invalid. rewrite Hd, Hrel.
        rewrite region_base_step in Hhi. lia. }
    rewrite <- Hidx in Hmiss, Hpop.
    rewrite (Allocate_first_bucket (Allocator.Free arch s p) n a Hn).
    + exact Hpop.
    + rewrite Hidx, Hcnt. lia.
    + rewrite Hmiss. reflexivity.
    + rewrite Hpop. lia.
  - (* the cache takes the slot into L0 *)
    destruct Hc as [H0 [H1 [Hm [Hw _]]]].
    assert (Hwired : TlsPoolBucket.pBucketData (Allocator.tls s i)
                     = region_base s i)
      by (destruct Hw as [[_ [_ Hz]] | [Hw _]]; [lia | exact Hw]).
    pose proof (Free_to_L0 s p i Hg Hi Hp Hmax ltac:(lia)) as Htls.
    cbv zeta in Htls.
    assert (Hhit : fst (Allocator.AllocFromCache
                          (Allocator.tls (Allocator.Free arch s p) i)) = p).
    { rewrite Htls, AllocFromCache_L0 by (cbn; lia).
      cbn. replace (TlsPoolBucket.numElementsL0 (Allocator.tls s i) + 1 - 1)
        with (TlsPoolBucket.numElementsL0 (Allocator.tls s i)) by ring.
      rewrite upd_same, Hwired, Hrel. ring. }
    rewrite <- Hidx in Hhit.
    rewrite (Allocate_cache_hit (Allocator.Free arch s p) n a Hn).
    + exact Hhit.
    + rewrite Hidx, Hcnt. lia.
    + rewrite Hhit. lia.
Qed.

End Lifo.

(** * Scenario S1 *)

Section ScenarioS1.
Context {G : Type} {GA : GenericAllocator.Ops G}.
Variable arch : Arch.

(** C5. On an allocator created with 8 buckets of 4096 bytes, with no
    thread cache or with one just created (any warm-up, any size), in a
    single-threaded run: [p = alloc(24, 8)] is a slot of bucket 1, its
    usable size is 32 and it is the arena's; and after [free(p)] the next
    [alloc(24, 8)] returns [p] again. *)
Theorem scenario_S1 (g : G) (m0 : mem) (linkTag : Z -> Z -> Z)
  (cache : option (CacheWarmupOptions * Z)) :
  Init_ok arch g 8 4096 ->
  (forall w sz, cache = Some (w, sz) -> 0 <= sz) ->
  let s0 := Allocator.Init g m0 8 4096 linkTag in
  let s := match cache with
           | None => s0
           | Some (w, sz) => Allocator.CreateThreadCache s0 w sz
           end in
  let p := fst (Allocator.Alloc s 24 8) in
  let s1 := snd (Allocator.Alloc s 24 8) in
  Allocator.GetBucketIndex arch s1 p = 1 /\
  Allocator.GetUsableSize arch s1 p = 32 /\
  Allocator.IsMyAlloc s1 p = true /\
  fst (Allocator.Alloc (Allocator.Free arch s1 p) 24 8) = p.
Proof.
  intros Hok Hsz s0 s p s1.
  destruct (Init_fresh arch g m0 8 4096 linkTag Hok)
    as [Hwf0 [HB [Hbs [Htls0 Hhead0]]]].
  fold s0 in Hwf0, HB, Hbs, Htls0, Hhead0.
  assert (Hne0 : PoolBucket.head (Allocator.buckets s0 1) <> TaggedIndex.Invalid).
  { rewrite (Hhead0 1) by lia. apply make_not_Invalid. lia. }
  pose proof (K0_range arch) as HK.
  assert (Hs : wf arch s /\ same_arena s0 s /\
               TlsPoolBucket.numElementsL0 (Allocator.tls s 1) = 0 /\
               occupancy_ok arch (Allocator.tls s 1) /\
               (0 < TlsPoolBucket.numElementsL1 (Allocator.tls s 1) \/
                PoolBucket.head (Allocator.buckets s 1) <> TaggedIndex.Invalid)).
  { subst s. destruct cache as [[w sz]|].
    - destruct (CreateThreadCache_fresh arch s0 w sz Hwf0 (Hsz w sz eq_refl))
        as [Hwf Heach].
      destruct (Heach 1 ltac:(lia)) as [H0 [Hocc Hsome]].
      split; [exact Hwf|]. split; [repeat split|].
      split; [exact H0|]. split; [exact Hocc|]. exact (Hsome Hne0).
    - split; [exact Hwf0|]. split; [apply same_arena_refl|].
      rewrite Htls0. cbn. unfold occupancy_ok. cbn.
      split; [reflexivity|]. split; [lia|]. right. exact Hne0. }
  destruct Hs as [Hwf [Hsa0 [HL0 [Hocc Hsome]]]].
  pose proof (wf_geometry _ _ Hwf) as Hg.
  assert (HBs : Allocator.bucketsCount s = 8)
    by (destruct Hsa0 as [Hc _]; rewrite Hc; exact HB).
  assert (Hbss : Allocator.bucketSizeInBytes s = 4096)
    by (destruct Hsa0 as [_ [Hc _]]; rewrite Hc; exact Hbs).
  assert (Hin : 0 <= 1 < Allocator.bucketsCount s) by lia.
  pose proof (wf_caches _ _ Hwf 1 Hin) as Hc1.
  unfold Allocator.Alloc in *.
  assert (Hrun : Allocator.Allocate s 24 8 = (p, s1))
    by (subst p s1; destruct (Allocator.Allocate s 24 8); reflexivity).
  destruct (Allocate_cases arch s 24 8 Hwf ltac:(lia) ltac:(lia) p s1 Hrun)
    as [Hsa [_ [_ Hcases]]].
  change (Z.shiftr (Z.max 24 8 - 1) 4) with 1 in Hcases.
  assert (Hserved : ~ (fst (Allocator.AllocFromCache (Allocator.tls s 1)) = 0 /\
                       PoolBucket.head (Allocator.buckets s 1)
                       = TaggedIndex.Invalid)).
  { intros [Hmiss Hempty]. destruct Hsome as [Hpos | Hne]; [|congruence].
    apply (cache_pop_hit arch s 1 Hg ltac:(lia) Hc1); [right; exact Hpos|].
    exact Hmiss. }
  assert (Hplace : region_base s 1 <= p /\ p + 8 <= region_base s 2).
  { destruct Hcases as [[j [Hj [Hlo [Hhi [Hbelow [Hmiss _]]]]]]
                       | [Hall [Hmiss _]]].
    - destruct (Z.eq_dec j 1) as [-> | Hj1]; [split; assumption|].
      exfalso. apply Hserved. split; [apply Hmiss; lia | apply Hbelow; lia].
    - exfalso. apply Hserved. split; [apply Hmiss; lia | apply Hall; lia]. }
  destruct Hplace as [Hlo Hhi].
  assert (Hreg : region_base s 1 <= p < region_base s (1 + 1))
    by (change (1 + 1) with 2; lia).
  destruct (in_region_facts arch s s1 p 1 Hg Hsa Hin Hreg)
    as [Hmine [Hidx _]].
  pose proof (Allocate_wf arch s 24 8 Hwf ltac:(lia) ltac:(lia)) as Hwf1.
  rewrite Hrun in Hwf1. cbn [snd] in Hwf1.
  pose proof (wf_geometry _ _ Hwf1) as Hg1.
  pose proof Hsa as [Hcnt1 _].
  assert (Hin1 : 0 <= 1 < Allocator.bucketsCount s1) by lia.
  assert (Hreg1 : region_base s1 1 <= p < region_base s1 (1 + 1))
    by (rewrite !(region_base_same_arena s s1) by exact Hsa; exact Hreg).
  split; [exact Hidx|].
  split; [exact (GetUsableSize_region arch s1 p 1 Hg1 Hin1 Hreg1)|].
  split; [exact Hmine|].
  (* the cache record of bucket 1 after the first allocation *)
  pose proof (Allocate_tls_start s 24 8 ltac:(lia)) as Htls1.
  change (Z.shiftr (Z.max 24 8 - 1) 4) with 1 in Htls1.
  specialize (Htls1 ltac:(lia)). rewrite Hrun in Htls1. cbn [snd] in Htls1.
  pose proof (AllocFromCache_occupancy arch _ Hocc) as Hocc1.
  pose proof (AllocFromCache_cases arch (Allocator.tls s 1)
                ltac:(destruct Hocc as [? [? ?]]; split; lia)) as Hpop.
  rewrite <- Htls1 in Hocc1.
  destruct (Allocator.AllocFromCache (Allocator.tls s 1)) as [pc c'].
  cbn [snd] in Htls1.
  assert (HL01 : TlsPoolBucket.numElementsL0 (Allocator.tls s1 1) = 0).
  { rewrite Htls1.
    destruct Hpop as [[? _] | [[_ [_ [? _]]] | [? [_ [-> _]]]]]; lia. }
  apply (free_then_alloc arch s1 p 1 24 8 Hg1 (wf_offsets _ _ Hwf1) Hin1).
  - lia.
  - change (1 + 1) with 2. rewrite (region_base_same_arena s s1) by exact Hsa.
    exact Hhi.
  - exact (wf_caches _ _ Hwf1 1 Hin1).
  - destruct (wf_buckets _ _ Hwf1 1 Hin1) as [Hd _]. exact Hd.
  - lia.
  - intros Hmax. destruct Hocc1 as [_ [Hb _]]. lia.
  - lia.
  - reflexivity.
Qed.

End ScenarioS1.

(** * Out of memory *)

(** When the generic allocator returns null, so does [Allocate]. *)
Lemma Allocate_propagates_null {G : Type} {GA : GenericAllocator.Ops G}
  (arch : Arch) (s : Allocator.t G) (n a : Z) :
  wf arch s -> 0 < n -> 0 < a ->
  fst (GenericAllocator.Alloc (Allocator.gAllocator s) n a) = 0 ->
  forall p s', Allocator.Allocate s n a = (p, s') ->
    p = 0 \/ Allocator.IsMyAlloc s' p = true.
Proof.
  intros Hwf Hn Ha Hnull p s' Hrun.
  destruct (Allocate_cases arch s n a Hwf Hn Ha p s' Hrun)
    as [Hsa [_ [_ [[j [Hj [Hlo [Hhi _]]]] | [_ [_ [Hgen _]]]]]]].
  - right.
    assert (Hi0 : 0 <= Z.shiftr (Z.max n a - 1) 4)
      by (apply Z.shiftr_nonneg; lia).
    pose proof (wf_geometry _ _ Hwf) as Hg. pose proof (geo_size _ _ Hg).
    destruct (in_region_facts arch s s' p j Hg Hsa ltac:(lia)
                ltac:(rewrite region_base_step in *; lia)) as [Hmine _].
    exact Hmine.
  - left. rewrite Hgen in Hnull. exact Hnull.
Qed.

(** The out-of-memory state is one the allocator reaches. *)
Lemma oom_state_is_reached :
  fst (Allocator.Alloc
         (Allocator.Init (Some 65536) (fun _ => 0) 2 32 (fun _ _ => 0)) 16 16)
  = oom_ptr /\
  Allocator.bucketsCount oom_run = Allocator.bucketsCount oom_state /\
  Allocator.bucketSizeInBytes oom_run = Allocator.bucketSizeInBytes oom_state /\
  Allocator.pBuffer oom_run = Allocator.pBuffer oom_state /\
  Allocator.pBufferEnd oom_run = Allocator.pBufferEnd oom_state /\
  Allocator.bucketsDataBegin oom_run 0 = Allocator.bucketsDataBegin oom_state 0 /\
  map (Allocator.buckets oom_run) [0; 1] = map (Allocator.buckets oom_state) [0; 1] /\
  Allocator.gAllocator oom_run = Allocator.gAllocator oom_state /\
  map (Allocator.tls oom_run) [0; 1] = map (Allocator.tls oom_state) [0; 1] /\
  map (Allocator.ram oom_run) (map (fun k => 65536 + Z.of_nat k) (seq 0 64))
  = map (Allocator.ram oom_state) (map (fun k => 65536 + Z.of_nat k) (seq 0 64)) /\
  map (Allocator.ram oom_run) first16 = map (Allocator.ram oom_state) first16.
Proof. vm_compute. repeat split; reflexivity. Qed.

(** C8, at the failing input. [oom_ptr] is a slot of bucket 0, of element
    size 16, and holds sixteen bytes [0xAB]; no bucket can serve 32 bytes
    and the generic allocator returns null. [Realloc(oom_ptr, 32, 16)]
    returns null, but before that it has copied the sixteen bytes of the
    slot to the addresses 0 to 15: it writes through the null result. *)
Theorem Realloc_writes_through_null :
  oom_ptr = 65536 /\
  Allocator.GetBucketIndex X64 oom_state oom_ptr = 0 /\
  Allocator.GetBucketElementSize 0 = 16 /\
  fst (GenericAllocator.Alloc (Allocator.gAllocator oom_state) 32 16) = 0 /\
  fst (Allocator.Alloc oom_state 32 16) = 0 /\
  fst (Allocator.Realloc X64 oom_state oom_ptr 32 16) = 0 /\
  map (Allocator.ram oom_state) first16 = repeat 0 16 /\
  map (Allocator.ram (snd (Allocator.Realloc X64 oom_state oom_ptr 32 16)))
      first16 = repeat 171 16.
Proof. vm_compute. repeat split; reflexivity. Qed.

(** * The theorems at concrete inputs *)

Lemma s1_Init_ok : Init_ok X64 (65536 : Z) 8 4096.
Proof. unfold Init_ok. by_computation. Qed.

Lemma s1_fresh_wf : wf X64 s1_fresh.
Proof. exact (proj1 (Init_fresh X64 65536 (fun _ => 0) 8 4096 (fun _ _ => 0) s1_Init_ok)). Qed.

Lemma s1_used_wf : wf X64 s1_used.
Proof.
  unfold s1_used, Allocator.Alloc.
  apply Allocate_wf; [exact s1_fresh_wf | lia | lia].
Qed.

Lemma is_pow2_8 : is_pow2 8.
Proof. exists 3. split; [lia | reflexivity]. Qed.

Lemma is_pow2_16 : is_pow2 16.
Proof. exists 4. split; [lia | reflexivity]. Qed.

Lemma is_pow2_64 : is_pow2 64.
Proof. exists 6. split; [lia | reflexivity]. Qed.

(** C1 at [alloc(24, 8)] on the fresh allocator of scenario S1. *)
Lemma Allocate_bucket_witness :
  wf X64 s1_fresh /\ 0 < 24 < 2 ^ ptrBits X64 /\ is_pow2 8 /\
  8 <= Allocator.MaxValidAlignment /\
  let n' := Z.max 24 8 in
  let i0 := Z.shiftr (n' - 1) 4 in
  i0 = (n' + 15) / 16 - 1 /\
  forall p s', Allocator.Alloc s1_fresh 24 8 = (p, s') ->
    (forall k, k <> i0 -> Allocator.tls s' k = Allocator.tls s1_fresh k) /\
    ((exists j,
         i0 <= j < Allocator.bucketsCount s1_fresh /\
         Allocator.IsMyAlloc s' p = true /\
         Allocator.GetBucketIndex X64 s' p = j /\
         (forall k, i0 <= k < j ->
            PoolBucket.head (Allocator.buckets s1_fresh k)
            = TaggedIndex.Invalid) /\
         (i0 < j ->
            fst (Allocator.AllocFromCache (Allocator.tls s1_fresh i0)) = 0) /\
         Allocator.gAllocator s' = Allocator.gAllocator s1_fresh)
     \/
     ((forall k, i0 <= k < Allocator.bucketsCount s1_fresh ->
         PoolBucket.head (Allocator.buckets s1_fresh k) = TaggedIndex.Invalid) /\
      (i0 < Allocator.bucketsCount s1_fresh ->
         fst (Allocator.AllocFromCache (Allocator.tls s1_fresh i0)) = 0) /\
      GenericAllocator.Alloc (Allocator.gAllocator s1_fresh) 24 8
      = (p, Allocator.gAllocator s') /\
      (forall k, Allocator.buckets s' k = Allocator.buckets s1_fresh k))).
Proof.
  assert (H1 : 0 < 24 < 2 ^ ptrBits X64) by by_computation.
  assert (H2 : 8 <= Allocator.MaxValidAlignment) by by_computation.
  split; [exact s1_fresh_wf|]. split; [exact H1|].
  split; [exact is_pow2_8|]. split; [exact H2|].
  exact (Allocate_bucket X64 s1_fresh 24 8 s1_fresh_wf H1 is_pow2_8 H2).
Defined.

(** C4 at [alloc(0, 64)] (scenario S2). *)
Lemma zero_size_sentinel_witness :
  is_pow2 64 /\ 64 <= Allocator.MaxValidAlignment /\
  Allocator.Alloc s1_fresh 0 64 = (64, s1_fresh) /\
  64 <> 0 /\
  Allocator.Free X64 s1_fresh 64 = s1_fresh /\
  Allocator.GetUsableSize X64 s1_fresh 64 = 0.
Proof.
  assert (H1 : 64 <= Allocator.MaxValidAlignment) by by_computation.
  split; [exact is_pow2_64|]. split; [exact H1|].
  exact (zero_size_sentinel X64 s1_fresh 64 is_pow2_64 H1).
Defined.

(** C5 with a warm thread cache of size 16. *)
Lemma scenario_S1_witness :
  Init_ok X64 (65536 : Z) 8 4096 /\
  (forall w sz, Some (CACHE_WARM, 16) = Some (w, sz) -> 0 <= sz) /\
  let s := Allocator.CreateThreadCache s1_fresh CACHE_WARM 16 in
  let p := fst (Allocator.Alloc s 24 8) in
  let s1 := snd (Allocator.Alloc s 24 8) in
  Allocator.GetBucketIndex X64 s1 p = 1 /\
  Allocator.GetUsableSize X64 s1 p = 32 /\
  Allocator.IsMyAlloc s1 p = true /\
  fst (Allocator.Alloc (Allocator.Free X64 s1 p) 24 8) = p.
Proof.
  assert (H1 : forall w sz, Some (CACHE_WARM, 16) = Some (w, sz) -> 0 <= sz).
  { intros w sz H. injection H as _ <-. lia. }
  split; [exact s1_Init_ok|]. split; [exact H1|].
  exact (scenario_S1 X64 65536 (fun _ => 0) (fun _ _ => 0)
           (Some (CACHE_WARM, 16)) s1_Init_ok H1).
Defined.

(** C7 at the slot that scenario S1 has allocated. *)
Lemma GetUsableSize_spec_witness :
  geometry X64 s1_used /\ 0 <= s1_ptr < 2 ^ ptrBits X64 /\
  (s1_ptr <= Allocator.MaxValidAlignment ->
     Allocator.GetUsableSize X64 s1_used s1_ptr = 0) /\
  (forall i, 0 <= i < Allocator.bucketsCount s1_used ->
     region_base s1_used i <= s1_ptr < region_base s1_used (i + 1) ->
     Allocator.GetUsableSize X64 s1_used s1_ptr = 16 * (i + 1)) /\
  (Allocator.MaxValidAlignment < s1_ptr ->
   Allocator.IsMyAlloc s1_used s1_ptr = false ->
     Allocator.GetUsableSize X64 s1_used s1_ptr =
     GenericAllocator.GetUsableSpace (Allocator.gAllocator s1_used) s1_ptr).
Proof.
  assert (H1 : 0 <= s1_ptr < 2 ^ ptrBits X64) by by_computation.
  split; [exact (wf_geometry _ _ s1_used_wf)|]. split; [exact H1|].
  exact (GetUsableSize_spec X64 s1_used s1_ptr (wf_geometry _ _ s1_used_wf) H1).
Defined.

(** * Part III: further properties of the code *)
(** ** The alignment helpers *)

Section Utilities.
Variable arch : Arch.

Lemma pow2_in_word a :
  is_pow2 a -> a < 2 ^ ptrBits arch ->
  exists k, 0 <= k < ptrBits arch /\ a = 2 ^ k.
Proof.
  intros [k [Hk ->]] Hlt. exists k. split; [|reflexivity].
  split; [exact Hk|]. apply (Z.pow_lt_mono_r_iff 2); [lia | | exact Hlt].
  destruct arch; cbn; lia.
Qed.

Lemma wrap_mask k :
  0 <= k < ptrBits arch -> wrap (ptrBits arch) (2 ^ k - 1) = Z.ones k.
Proof.
  intros Hk. unfold wrap. rewrite Z.ones_equiv, <- Z.sub_1_r.
  apply Z.mod_small.
  assert (0 < 2 ^ k) by (apply Z.pow_pos_nonneg; lia).
  assert (2 ^ k < 2 ^ ptrBits arch) by (apply Z.pow_lt_mono_r; lia).
  lia.
Qed.

Lemma IsAligned_pow2 v k :
  0 <= k < ptrBits arch -> IsAligned arch v (2 ^ k) = (v mod 2 ^ k =? 0).
Proof.
  intros Hk. unfold IsAligned. rewrite (wrap_mask k Hk), Z.land_ones by lia.
  reflexivity.
Qed.

(** [Align] clears the low bits of the wrapped sum. *)
Lemma Align_pow2 val k :
  0 <= k < ptrBits arch ->
  Align arch val (2 ^ k)
  = 2 ^ k * (wrap (ptrBits arch) (val + (2 ^ k - 1)) / 2 ^ k).
Proof.
  intros Hk. unfold Align. rewrite (wrap_mask k Hk).
  assert (Hb : 0 <= ptrBits arch) by lia.
  replace (2 ^ ptrBits arch - 1) with (Z.ones (ptrBits arch))
    by (rewrite Z.ones_equiv; lia).
  set (x := val + (2 ^ k - 1)).
  rewrite Z.mul_comm, <- Z.shiftl_mul_pow2, <- Z.shiftr_div_pow2 by lia.
  apply Z.bits_inj'. intros n Hn.
  rewrite Z.land_spec, Z.lxor_spec, !Z.testbit_ones_nonneg by lia.
  rewrite Z.shiftl_spec by lia.
  destruct (Z.ltb_spec n k) as [Hnk | Hnk].
  - rewrite (Z.testbit_neg_r _ (n - k)) by lia.
    destruct (Z.ltb_spec n (ptrBits arch)); [|lia].
    now rewrite andb_false_r.
  - rewrite Z.shiftr_spec by lia. replace (n - k + k) with n by ring.
    destruct (Z.ltb_spec n (ptrBits arch)) as [Hnb | Hnb].
    + now rewrite andb_true_r.
    + cbn [xorb]. rewrite andb_false_r. symmetry. unfold wrap.
      apply Z.mod_pow2_bits_high. lia.
Qed.

(** The loop of [DetectAlignment] stops at the lowest set bit. *)
Lemma DetectAlignment_loop_spec (n : nat) : forall v i,
  0 < v < 2 ^ Z.of_nat n ->
  exists k, 0 <= k < Z.of_nat n /\
    DetectAlignment_loop n v i = i + k /\
    v mod 2 ^ k = 0 /\ (v / 2 ^ k) mod 2 = 1.
Proof.
  induction n as [|n IH]; intros v i Hv.
  - cbn in Hv. lia.
  - cbn [DetectAlignment_loop].
    replace (Z.land v 1) with (v mod 2)
      by (symmetry; exact (Z.land_ones v 1 ltac:(lia))).
    pose proof (Z.mod_pos_bound v 2 ltac:(lia)) as Hm.
    pose proof (Z.div_mod v 2 ltac:(lia)) as Hd.
    destruct (Z.eqb_spec (v mod 2) 0) as [He | Hne]; cbn [negb].
    + replace (Z.shiftr v 1) with (v / 2)
        by (symmetry; exact (Z.shiftr_div_pow2 v 1 ltac:(lia))).
      assert (Hv2 : 0 < v / 2 < 2 ^ Z.of_nat n).
      { rewrite Nat2Z.inj_succ, Z.pow_succ_r in Hv by lia. lia. }
      destruct (IH (v / 2) (i + 1) Hv2) as [k [Hk [Hl [Hz Ho]]]].
      exists (k + 1). split; [lia|]. split; [lia|].
      replace (2 ^ (k + 1)) with (2 * 2 ^ k)
        by (rewrite Z.pow_add_r by lia; change (2 ^ 1) with 2; ring).
      assert (Hpk : 0 < 2 ^ k) by (apply Z.pow_pos_nonneg; lia).
      split.
      * apply Z.mod_divide; [lia|]. apply Z.mod_divide in Hz; [|lia].
        destruct Hz as [q Hq]. exists q. lia.
      * rewrite <- Z.div_div by lia. exact Ho.
    + exists 0. split; [lia|]. split; [lia|].
      change (2 ^ 0) with 1. rewrite Z.mod_1_r, Z.div_1_r. lia.
Qed.

(** X1. [IsAligned(v, alignment)], for an alignment that is a power of two
    and fits a [size_t], holds exactly when [alignment] divides [v]. *)
Theorem IsAligned_divides v a :
  is_pow2 a -> a < 2 ^ ptrBits arch ->
  (IsAligned arch v a = true <-> (a | v)).
Proof.
  intros Hp Hlt. destruct (pow2_in_word a Hp Hlt) as [k [Hk ->]].
  rewrite (IsAligned_pow2 v k Hk), Z.eqb_eq.
  apply Z.mod_divide.
  assert (0 < 2 ^ k) by (apply Z.pow_pos_nonneg; lia). lia.
Qed.

(** X2. [Align(val, alignment)], for an alignment that is a power of two:
    the result is the wrapped sum [val + alignment - 1] rounded down to a
    multiple of [alignment], so it is aligned (the postcondition the source
    asserts); when the sum does not wrap, it is the least multiple of
    [alignment] that is not below [val], and an aligned [val] is returned
    as it is. *)
Theorem Align_spec val a :
  is_pow2 a -> a < 2 ^ ptrBits arch ->
  let r := Align arch val a in
  r = a * (wrap (ptrBits arch) (val + (a - 1)) / a) /\
  IsAligned arch r a = true /\
  (0 <= val -> val + (a - 1) < 2 ^ ptrBits arch ->
     val <= r < val + a /\
     (forall r', val <= r' -> (a | r') -> r <= r') /\
     (IsAligned arch val a = true -> r = val)).
Proof.
  intros Hp Hlt. destruct (pow2_in_word a Hp Hlt) as [k [Hk ->]].
  assert (Hpk : 0 < 2 ^ k) by (apply Z.pow_pos_nonneg; lia).
  cbv zeta. rewrite (Align_pow2 val k Hk).
  split; [reflexivity|]. split.
  - rewrite (IsAligned_pow2 _ k Hk). apply Z.eqb_eq.
    rewrite Z.mul_comm. apply Z.mod_mul. lia.
  - intros Hval Hfit. unfold wrap. rewrite Z.mod_small by lia.
    set (x := val + (2 ^ k - 1)).
    pose proof (Z.mul_div_le x (2 ^ k) Hpk) as Hle.
    pose proof (Z.mul_succ_div_gt x (2 ^ k) Hpk) as Hgt.
    split; [subst x; lia|]. split.
    + intros r' Hr' [q Hq]. subst r'.
      assert (x / 2 ^ k < q + 1); [|nia].
      apply Z.div_lt_upper_bound; [lia|]. subst x. lia.
    + rewrite (IsAligned_pow2 val k Hk), Z.eqb_eq. intros Hal.
      apply Z.mod_divide in Hal; [|lia]. destruct Hal as [q Hq].
      assert (Hx : x / 2 ^ k = q).
      { symmetry. apply (Z.div_unique x (2 ^ k) q (2 ^ k - 1)); [lia|].
        subst x. lia. }
      rewrite Hx. lia.
Qed.

(** X3. [DetectAlignment(p)] for a non-null pointer is the largest power of
    two that divides the address, and the pointer is aligned to it; for the
    null pointer the loop runs through all the bits and the final shift is
    by the width of the type. *)
Theorem DetectAlignment_spec :
  (forall p, 0 < p < 2 ^ ptrBits arch ->
     exists k, 0 <= k < ptrBits arch /\
       DetectAlignment arch p = Some (2 ^ k) /\
       (2 ^ k | p) /\ ~ (2 ^ (k + 1) | p) /\
       IsAligned arch p (2 ^ k) = true) /\
  DetectAlignment_loop (Z.to_nat (ptrBits arch)) 0 0 = ptrBits arch /\
  DetectAlignment arch 0 = None.
Proof.
  split; [|destruct arch; split; reflexivity].
  intros p Hp.
  assert (Hb : Z.of_nat (Z.to_nat (ptrBits arch)) = ptrBits arch)
    by (destruct arch; reflexivity).
  destruct (DetectAlignment_loop_spec (Z.to_nat (ptrBits arch)) p 0)
    as [k [Hk [Hl [Hz Ho]]]]; [rewrite Hb; exact Hp|].
  rewrite Hb in Hk. exists k. split; [exact Hk|].
  assert (Hpk : 0 < 2 ^ k) by (apply Z.pow_pos_nonneg; lia).
  split; [|split; [|split]].
  - unfold DetectAlignment. rewrite Hl. cbn [Z.add].
    destruct (Z.ltb_spec k (ptrBits arch)); [|lia].
    now rewrite Z.shiftl_1_l.
  - apply Z.mod_divide; [lia | exact Hz].
  - intros [q Hq].
    replace (2 ^ (k + 1)) with (2 * 2 ^ k) in Hq
      by (rewrite Z.pow_add_r by lia; change (2 ^ 1) with 2; ring).
    assert (Hdiv : p / 2 ^ k = q * 2).
    { symmetry. apply (Z.div_unique p (2 ^ k) (q * 2) 0); lia. }
    rewrite Hdiv, Z.mod_mul in Ho by lia. discriminate.
  - rewrite (IsAligned_pow2 p k Hk). now apply Z.eqb_eq.
Qed.

End Utilities.

(** X1 at the address [0x10040] and the cache line size. *)
Lemma IsAligned_divides_witness :
  is_pow2 64 /\ 64 < 2 ^ ptrBits X64 /\
  (IsAligned X64 65600 64 = true <-> (64 | 65600)).
Proof.
  assert (H : 64 < 2 ^ ptrBits X64) by reflexivity.
  split; [exact is_pow2_64|]. split; [exact H|].
  exact (IsAligned_divides X64 65600 64 is_pow2_64 H).
Defined.

(** X2 at [Align(100, 64)], which is 128. *)
Lemma Align_spec_witness :
  is_pow2 64 /\ 64 < 2 ^ ptrBits X64 /\
  let r := Align X64 100 64 in
  r = 64 * (wrap (ptrBits X64) (100 + (64 - 1)) / 64) /\
  IsAligned X64 r 64 = true /\
  (0 <= 100 -> 100 + (64 - 1) < 2 ^ ptrBits X64 ->
     100 <= r < 100 + 64 /\
     (forall r', 100 <= r' -> (64 | r') -> r <= r') /\
     (IsAligned X64 100 64 = true -> r = 100)).
Proof.
  assert (H : 64 < 2 ^ ptrBits X64) by reflexivity.
  split; [exact is_pow2_64|]. split; [exact H|].
  exact (Align_spec X64 100 64 is_pow2_64 H).
Defined.

(** ** The tagged index and the bucket freelist *)

Section Bucket.
Implicit Types (m : mem) (b : PoolBucket.t).

(** X4. The two views of the [TaggedIndex] union agree: a 64-bit value is
    made of its [tag] and [offset] halves, the halves of a value made from
    two 32-bit fields are those fields, only the two all-ones fields give
    the sentinel, and a link written field by field (as
    [ReturnL1CacheToMaster] writes it) reads back as the value made of the
    fields (as [Alloc] reads it). *)
Theorem TaggedIndex_round_trip :
  (forall u, 0 <= u < 2 ^ 64 ->
     TaggedIndex.make (TaggedIndex.tag u) (TaggedIndex.offset u) = u) /\
  (forall t o, 0 <= t < 2 ^ 32 -> 0 <= o < 2 ^ 32 ->
     TaggedIndex.tag (TaggedIndex.make t o) = t /\
     TaggedIndex.offset (TaggedIndex.make t o) = o) /\
  (forall t o,
     TaggedIndex.make t o = TaggedIndex.Invalid <->
     u32 t = 2 ^ 32 - 1 /\ u32 o = 2 ^ 32 - 1) /\
  (forall m a t o,
     load64 (store32 (store32 m a t) (a + 4) o) a = TaggedIndex.make t o).
Proof.
  split; [|split; [|split]].
  - intros u Hu. unfold TaggedIndex.make, TaggedIndex.tag, TaggedIndex.offset.
    rewrite !u32_small by (apply Z.mod_pos_bound; lia).
    assert (Hq : 0 <= u / 2 ^ 32 < 2 ^ 32).
    { split; [apply Z.div_pos; lia|].
      apply Z.div_lt_upper_bound; [lia|]. change (2 ^ 32 * 2 ^ 32) with (2 ^ 64). lia. }
    rewrite (Z.mod_small (u / 2 ^ 32)) by exact Hq.
    pose proof (Z.div_mod u (2 ^ 32) ltac:(lia)). lia.
  - intros t o Ht Ho. rewrite tag_make, offset_make.
    now rewrite !u32_small.
  - intros t o. unfold TaggedIndex.make, TaggedIndex.Invalid, UINT64_MAX.
    pose proof (u32_range t). pose proof (u32_range o). lia.
  - exact load64_store32_pair.
Qed.

(** X5. [PoolBucket::Alloc] on a bucket whose head starts a freelist: on an
    empty list it returns [nullptr] and changes nothing; otherwise it
    returns the first slot of the list and leaves the rest of the list at
    the head, without touching [globalTag] (memory is never written by a
    pop). The result is null only for the empty list. *)
Theorem PoolBucket_Alloc_pops m b lim l :
  0 < PoolBucket.pData b ->
  freelist m (PoolBucket.pData b) lim (PoolBucket.head b) l ->
  match l with
  | [] => PoolBucket.Alloc m b = (0, b)
  | o :: l' =>
      fst (PoolBucket.Alloc m b) = PoolBucket.pData b + o /\
      fst (PoolBucket.Alloc m b) <> 0 /\
      let b' := snd (PoolBucket.Alloc m b) in
      freelist m (PoolBucket.pData b') lim (PoolBucket.head b') l' /\
      PoolBucket.pData b' = PoolBucket.pData b /\
      PoolBucket.pBufferEnd b' = PoolBucket.pBufferEnd b /\
      PoolBucket.globalTag b' = PoolBucket.globalTag b
  end.
Proof.
  intros Hbase Hfl. inversion Hfl as [Hh | u l' Hu Hlim Hrest Hh Hl]; subst.
  - apply PoolBucket_Alloc_empty. now symmetry.
  - rewrite (PoolBucket_Alloc_pop m b Hu). cbn.
    pose proof (offset_nonneg (PoolBucket.head b)).
    repeat split; try reflexivity; [lia | exact Hrest].
Qed.

(** The chain of an interval, with the link of its last slot set to [h],
    is a freelist that goes on with the freelist of [h]. *)
Lemma segment_freelist m pData lim h l o nodes last :
  segment m pData o nodes last ->
  0 <= h < 2 ^ 64 -> lim < 2 ^ 32 ->
  (forall o', In o' nodes -> 0 <= o' /\ o' + 8 <= lim) ->
  all_apart (nodes ++ l) ->
  freelist m pData lim h l ->
  forall u, u <> TaggedIndex.Invalid -> TaggedIndex.offset u = o ->
    freelist (store64 m (pData + last) h) pData lim u (nodes ++ l).
Proof.
  intros Hseg Hh Hlim.
  induction Hseg as [o | o nodes last Hne Hseg IH]; intros Hin Hap Hfl u Hu Hoff.
  - cbn [app]. rewrite <- Hoff. constructor; [exact Hu | |].
    + rewrite Hoff. apply (Hin o). now left.
    + rewrite Hoff, load64_store64_same by exact Hh.
      apply (freelist_frame_nodes m); [|exact Hfl].
      intros o' Ho' x Hx. apply store_le_outside.
      destruct Hap as [Hap _]. destruct (Hap o' Ho'); cbn; lia.
  - rewrite <- app_comm_cons, <- Hoff. constructor; [exact Hu | |].
    + rewrite Hoff. apply (Hin o). now left.
    + rewrite Hoff.
      assert (Hlast : In last nodes).
      { clear - Hseg. induction Hseg; [now left | now right]. }
      rewrite <- app_comm_cons in Hap. destruct Hap as [Hap1 Hap2].
      rewrite load64_store64_other.
      * apply IH; [| exact Hap2 | exact Hfl | exact Hne | reflexivity].
        intros o' Ho'. apply Hin. now right.
      * destruct (Hap1 last) as [H | H]; [apply in_or_app; now left | |]; lia.
Qed.

(** X6. [PoolBucket::FreeInterval(pHead, pTail)], uncontended, on a chain
    of slots that leads from [pHead] to [pTail]: the slots of the chain are
    put in front of the freelist in chain order by one compare-exchange,
    the only write to memory is the link of [pTail], one tag is drawn from
    [globalTag] and becomes the tag of the head. *)
Theorem FreeInterval_prepends_chain m b lim oh ot nodes l :
  segment m (PoolBucket.pData b) oh nodes ot ->
  freelist m (PoolBucket.pData b) lim (PoolBucket.head b) l ->
  0 <= PoolBucket.head b < 2 ^ 64 -> lim < 2 ^ 32 ->
  (forall o, In o nodes -> 0 <= o /\ o + 8 <= lim) ->
  all_apart (nodes ++ l) ->
  let m' := fst (PoolBucket.FreeInterval m b (PoolBucket.pData b + oh)
                                         (PoolBucket.pData b + ot)) in
  let b' := snd (PoolBucket.FreeInterval m b (PoolBucket.pData b + oh)
                                         (PoolBucket.pData b + ot)) in
  freelist m' (PoolBucket.pData b') lim (PoolBucket.head b') (nodes ++ l) /\
  PoolBucket.pData b' = PoolBucket.pData b /\
  PoolBucket.globalTag b' = u32 (PoolBucket.globalTag b + 1) /\
  TaggedIndex.tag (PoolBucket.head b') = u32 (PoolBucket.globalTag b) /\
  (forall x, x < PoolBucket.pData b + ot \/ PoolBucket.pData b + ot + 8 <= x ->
             m' x = m x).
Proof.
  intros Hseg Hfl Hh Hlim Hin Hap. cbv zeta.
  unfold PoolBucket.FreeInterval. cbn.
  replace (PoolBucket.pData b + oh - PoolBucket.pData b) with oh by ring.
  assert (Hoh : 0 <= oh /\ oh + 8 <= lim).
  { apply Hin. inversion Hseg; now left. }
  split; [|split; [reflexivity | split; [reflexivity | split]]].
  - apply (segment_freelist m (PoolBucket.pData b) lim (PoolBucket.head b) l
             oh nodes ot); try assumption.
    + rewrite u32_small by lia. apply make_not_Invalid. lia.
    + rewrite offset_make, u32_idem. apply u32_small. lia.
  - apply tag_make.
  - intros x Hx. apply store_le_outside. cbn. lia.
Qed.

(** X7. A pop right after the push of one slot undoes it: [Alloc] returns
    the slot that [FreeInterval(p, p)] has just pushed and the head is the
    value it had before the push, tag included; only [globalTag] has moved
    on. *)
Theorem FreeInterval_then_Alloc m b p :
  0 <= PoolBucket.head b < 2 ^ 64 ->
  0 <= p - PoolBucket.pData b < 2 ^ 32 - 1 ->
  let m' := fst (PoolBucket.FreeInterval m b p p) in
  let b' := snd (PoolBucket.FreeInterval m b p p) in
  PoolBucket.Alloc m' b' =
  (p, PoolBucket.mk (PoolBucket.head b) (u32 (PoolBucket.globalTag b + 1))
                    (PoolBucket.pData b) (PoolBucket.pBufferEnd b)).
Proof.
  intros Hh Hp. cbv zeta. unfold PoolBucket.FreeInterval.
  unfold PoolBucket.set_head, PoolBucket.set_globalTag.
  cbn [fst snd PoolBucket.head PoolBucket.pData PoolBucket.globalTag
       PoolBucket.pBufferEnd].
  set (o := p - PoolBucket.pData b) in *.
  assert (Hne : TaggedIndex.make (PoolBucket.globalTag b) (u32 o)
                <> TaggedIndex.Invalid).
  { rewrite u32_small by lia. apply make_not_Invalid. lia. }
  rewrite PoolBucket_Alloc_pop by exact Hne.
  unfold PoolBucket.set_head.
  cbn [fst snd PoolBucket.head PoolBucket.pData PoolBucket.globalTag
       PoolBucket.pBufferEnd].
  rewrite offset_make, u32_idem, u32_small by lia.
  replace (PoolBucket.pData b + o) with p by (subst o; ring).
  rewrite load64_store64_same by exact Hh. reflexivity.
Qed.

End Bucket.

Lemma chain_bucket_freelist :
  freelist chain_mem (PoolBucket.pData chain_bucket) 4096
           (PoolBucket.head chain_bucket) [32].
Proof.
  apply (freelist_cons chain_mem 65536 4096 (TaggedIndex.make 0 32) []).
  - intro H; vm_compute in H; discriminate H.
  - vm_compute. intro H; discriminate H.
  - replace (load64 chain_mem (65536 + TaggedIndex.offset (TaggedIndex.make 0 32)))
      with TaggedIndex.Invalid by (vm_compute; reflexivity).
    constructor.
Qed.

Lemma chain_bucket_head : 0 <= PoolBucket.head chain_bucket < 2 ^ 64.
Proof. vm_compute. split; [intro H; discriminate H | reflexivity]. Qed.

(** X5 at the bucket of the chain example, whose list is the one slot at
    offset 32. *)
Lemma PoolBucket_Alloc_pops_witness :
  0 < PoolBucket.pData chain_bucket /\
  freelist chain_mem (PoolBucket.pData chain_bucket) 4096
           (PoolBucket.head chain_bucket) [32] /\
  fst (PoolBucket.Alloc chain_mem chain_bucket)
  = PoolBucket.pData chain_bucket + 32 /\
  fst (PoolBucket.Alloc chain_mem chain_bucket) <> 0 /\
  let b' := snd (PoolBucket.Alloc chain_mem chain_bucket) in
  freelist chain_mem (PoolBucket.pData b') 4096 (PoolBucket.head b') [] /\
  PoolBucket.pData b' = PoolBucket.pData chain_bucket /\
  PoolBucket.pBufferEnd b' = PoolBucket.pBufferEnd chain_bucket /\
  PoolBucket.globalTag b' = PoolBucket.globalTag chain_bucket.
Proof.
  assert (H0 : 0 < PoolBucket.pData chain_bucket) by reflexivity.
  split; [exact H0|]. split; [exact chain_bucket_freelist|].
  exact (PoolBucket_Alloc_pops chain_mem chain_bucket 4096 [32] H0
           chain_bucket_freelist).
Defined.

(** X6 at the chain example: the interval of the slots at offsets 0 and 16
    is pushed in front of the slot at offset 32. *)
Lemma FreeInterval_prepends_chain_witness :
  segment chain_mem (PoolBucket.pData chain_bucket) 0 [0; 16] 16 /\
  freelist chain_mem (PoolBucket.pData chain_bucket) 4096
           (PoolBucket.head chain_bucket) [32] /\
  0 <= PoolBucket.head chain_bucket < 2 ^ 64 /\ 4096 < 2 ^ 32 /\
  (forall o, In o [0; 16] -> 0 <= o /\ o + 8 <= 4096) /\
  all_apart ([0; 16] ++ [32]) /\
  let m' := fst (PoolBucket.FreeInterval chain_mem chain_bucket
                   (PoolBucket.pData chain_bucket + 0)
                   (PoolBucket.pData chain_bucket + 16)) in
  let b' := snd (PoolBucket.FreeInterval chain_mem chain_bucket
                   (PoolBucket.pData chain_bucket + 0)
                   (PoolBucket.pData chain_bucket + 16)) in
  freelist m' (PoolBucket.pData b') 4096 (PoolBucket.head b')
           ([0; 16] ++ [32]) /\
  PoolBucket.pData b' = PoolBucket.pData chain_bucket /\
  PoolBucket.globalTag b' = u32 (PoolBucket.globalTag chain_bucket + 1) /\
  TaggedIndex.tag (PoolBucket.head b') = u32 (PoolBucket.globalTag chain_bucket) /\
  (forall x, x < PoolBucket.pData chain_bucket + 16 \/
             PoolBucket.pData chain_bucket + 16 + 8 <= x ->
             m' x = chain_mem x).
Proof.
  assert (Hseg : segment chain_mem (PoolBucket.pData chain_bucket) 0 [0; 16] 16).
  { apply segment_cons.
    - intro H; vm_compute in H; discriminate H.
    - replace (TaggedIndex.offset
                 (load64 chain_mem (PoolBucket.pData chain_bucket + 0)))
        with 16 by (vm_compute; reflexivity).
      constructor. }
  pose proof chain_bucket_freelist as Hfl.
  pose proof chain_bucket_head as Hh.
  assert (Hlim : 4096 < 2 ^ 32) by reflexivity.
  assert (Hin : forall o, In o [0; 16] -> 0 <= o /\ o + 8 <= 4096)
    by (intros o [<- | [<- | []]]; lia).
  assert (Hap : all_apart ([0; 16] ++ [32])).
  { cbn. unfold apart. repeat split; try (intros o' H; intuition lia). }
  split; [exact Hseg|]. split; [exact Hfl|]. split; [exact Hh|].
  split; [exact Hlim|]. split; [exact Hin|]. split; [exact Hap|].
  exact (FreeInterval_prepends_chain chain_mem chain_bucket 4096 0 16 [0; 16]
           [32] Hseg Hfl Hh Hlim Hin Hap).
Defined.

(** X7 at the chain example and the slot at offset 48. *)
Lemma FreeInterval_then_Alloc_witness :
  0 <= PoolBucket.head chain_bucket < 2 ^ 64 /\
  0 <= 65584 - PoolBucket.pData chain_bucket < 2 ^ 32 - 1 /\
  let m' := fst (PoolBucket.FreeInterval chain_mem chain_bucket 65584 65584) in
  let b' := snd (PoolBucket.FreeInterval chain_mem chain_bucket 65584 65584) in
  PoolBucket.Alloc m' b' =
  (65584, PoolBucket.mk (PoolBucket.head chain_bucket)
                        (u32 (PoolBucket.globalTag chain_bucket + 1))
                        (PoolBucket.pData chain_bucket)
                        (PoolBucket.pBufferEnd chain_bucket)).
Proof.
  pose proof chain_bucket_head as Hh.
  assert (Hp : 0 <= 65584 - PoolBucket.pData chain_bucket < 2 ^ 32 - 1)
    by (vm_compute; split; [intro H; discriminate H | reflexivity]).
  split; [exact Hh|]. split; [exact Hp|].
  exact (FreeInterval_then_Alloc chain_mem chain_bucket 65584 Hh Hp).
Defined.

(** ** Addresses, buckets and sizes *)

Section Addresses.
Context {G : Type} {GA : GenericAllocator.Ops G}.
Variable arch : Arch.
Implicit Types (s : Allocator.t G) (p i j a n : Z).

(** X8. [FindBucket] tells the arena from the rest of
    the address space: its result is a bucket index exactly for the
    addresses [IsMyAlloc] accepts (an address below the arena wraps around
    to an index past the last bucket), and for those it is the bucket whose
    sub-region holds the address. *)
Theorem FindBucket_classifies s p :
  geometry arch s -> 0 <= p < 2 ^ ptrBits arch ->
  (Allocator.FindBucket arch s p <? Allocator.bucketsCount s)
  = Allocator.IsMyAlloc s p /\
  (Allocator.IsMyAlloc s p = true ->
     let i := Allocator.FindBucket arch s p in
     i = (p - Allocator.pBuffer s) / Allocator.bucketSizeInBytes s /\
     0 <= i /\ region_base s i <= p < region_base s (i + 1)).
Proof.
  intros Hg Hp. destruct (Allocator.IsMyAlloc s p) eqn:E.
  - destruct (FindBucket_arena arch s p Hg E) as [Hi [Hr Hf]].
    cbv zeta. rewrite Hf. split; [apply Z.ltb_lt; lia|].
    intros _. split; [reflexivity|]. split; [lia | exact Hr].
  - pose proof (FindBucket_outside arch s p Hg Hp E).
    split; [apply Z.ltb_ge; lia | discriminate].
Qed.

(** X9. [GetBucketIndex] is [-1] exactly for the
    addresses outside the arena; for an address of the arena it is the
    index of the bucket whose sub-region holds it, and [GetUsableSize] of
    that address is the element size of this bucket. *)
Theorem GetBucketIndex_spec s p :
  geometry arch s -> 0 <= p < 2 ^ ptrBits arch ->
  let j := Allocator.GetBucketIndex arch s p in
  (Allocator.IsMyAlloc s p = false -> j = -1) /\
  (Allocator.IsMyAlloc s p = true ->
     j = (p - Allocator.pBuffer s) / Allocator.bucketSizeInBytes s /\
     0 <= j < Allocator.bucketsCount s /\
     region_base s j <= p < region_base s (j + 1) /\
     Allocator.GetUsableSize arch s p = Allocator.GetBucketElementSize j /\
     Allocator.GetBucketElementSize j = 16 * (j + 1)).
Proof.
  intros Hg Hp. cbv zeta. split.
  - intros E. unfold Allocator.GetBucketIndex. now rewrite E.
  - intros E. destruct (FindBucket_arena arch s p Hg E) as [Hi [Hr Hf]].
    set (i := (p - Allocator.pBuffer s) / Allocator.bucketSizeInBytes s) in *.
    destruct (in_region_facts arch s s p i Hg (same_arena_refl s) Hi Hr)
      as [_ [Hidx _]].
    rewrite Hidx. split; [reflexivity|]. split; [exact Hi|].
    split; [exact Hr|].
    pose proof (geo_count _ _ Hg).
    rewrite (GetUsableSize_region arch s p i Hg Hi Hr).
    rewrite GetBucketElementSize_small by lia. split; reflexivity.
Qed.

(** X10. [GetBucketElementsCount] of a bucket
    that exists is the number of whole elements its sub-region holds;
    past the last bucket it is 0, where [GetBucketByIndex] is null. *)
Theorem GetBucketElementsCount_spec s i :
  0 < Allocator.bucketSizeInBytes s < 2 ^ 36 ->
  0 <= Allocator.bucketsCount s <= SMM_MAX_BUCKET_COUNT -> 0 <= i ->
  let n := Allocator.GetBucketElementsCount s i in
  let S := Allocator.GetBucketElementSize i in
  (i < Allocator.bucketsCount s ->
     Allocator.GetBucketByIndex s i = Some (Allocator.buckets s i) /\
     S = 16 * (i + 1) /\
     n * S <= Allocator.bucketSizeInBytes s < (n + 1) * S) /\
  (Allocator.bucketsCount s <= i ->
     Allocator.GetBucketByIndex s i = None /\ n = 0).
Proof.
  intros Hsz Hcnt Hi. cbv zeta.
  unfold Allocator.GetBucketElementsCount, Allocator.GetBucketByIndex.
  rewrite Z.geb_leb. split.
  - intros Hlt. destruct (Z.leb_spec (Allocator.bucketsCount s) i); [lia|].
    rewrite GetBucketElementSize_small by lia.
    split; [reflexivity|]. split; [reflexivity|].
    set (S := 16 * (i + 1)). assert (HS : 16 <= S) by (subst S; lia).
    assert (Hq : 0 <= Allocator.bucketSizeInBytes s / S < 2 ^ 32).
    { split; [apply Z.div_pos; lia|].
      apply Z.div_lt_upper_bound; [lia|]. nia. }
    rewrite u32_small by exact Hq.
    pose proof (Z.mul_div_le (Allocator.bucketSizeInBytes s) S ltac:(lia)).
    pose proof (Z.mul_succ_div_gt (Allocator.bucketSizeInBytes s) S ltac:(lia)).
    lia.
  - intros Hge. destruct (Z.leb_spec (Allocator.bucketsCount s) i); [|lia].
    split; reflexivity.
Qed.

(** X11. A request that no bucket can hold (the larger of
    size and alignment exceeds 16 bytes times the number of buckets) goes
    straight to the generic allocator, with the size and alignment the
    caller gave; thread caches, buckets and memory are not touched. *)
Theorem Allocate_oversize s n a :
  0 < n -> 0 <= Allocator.bucketsCount s ->
  16 * Allocator.bucketsCount s < Z.max n a ->
  Allocator.Alloc s n a =
  (fst (GenericAllocator.Alloc (Allocator.gAllocator s) n a),
   Allocator.set_gAllocator s
     (snd (GenericAllocator.Alloc (Allocator.gAllocator s) n a))).
Proof.
  intros Hn Hcnt Hbig. unfold Allocator.Alloc, Allocator.Allocate.
  destruct (Z.eqb_spec n 0); [lia|]. cbv zeta.
  rewrite effective_size, Z.shiftr_div_pow2 by lia.
  change (2 ^ 4) with 16.
  assert (Hidx : Allocator.bucketsCount s <= (Z.max n a - 1) / 16)
    by (apply Z.div_le_lower_bound; lia).
  destruct (Z.ltb_spec ((Z.max n a - 1) / 16) (Allocator.bucketsCount s)); [lia|].
  cbn [negb Z.eqb].
  replace (Z.to_nat (Allocator.bucketsCount s - (Z.max n a - 1) / 16)) with O by lia.
  cbn [Allocator.Allocate_loop].
  destruct (GenericAllocator.Alloc (Allocator.gAllocator s) n a). reflexivity.
Qed.

(** X12. [Realloc] of a non-null pointer that is not in
    the arena never touches the buckets or the thread caches. With size 0
    it frees a readable pointer through the generic allocator and returns
    the alignment; a pointer that is not readable (the result of a
    zero-size request) is replaced by a block of the generic allocator,
    even when a bucket could hold the size; every other pointer is handed
    to the generic allocator's [Realloc]. *)
Theorem Realloc_outside_arena s p n a :
  geometry arch s -> 0 < p < 2 ^ ptrBits arch ->
  Allocator.IsMyAlloc s p = false ->
  let r := Allocator.Realloc arch s p n a in
  Allocator.buckets (snd r) = Allocator.buckets s /\
  Allocator.tls (snd r) = Allocator.tls s /\
  (n = 0 ->
     fst r = a /\ Allocator.ram (snd r) = Allocator.ram s /\
     Allocator.gAllocator (snd r)
     = if Allocator.IsReadable p
       then GenericAllocator.Free (Allocator.gAllocator s) p
       else Allocator.gAllocator s) /\
  (n <> 0 -> p <= Allocator.MaxValidAlignment ->
     r = (fst (GenericAllocator.Alloc (Allocator.gAllocator s) n a),
          Allocator.set_gAllocator s
            (snd (GenericAllocator.Alloc (Allocator.gAllocator s) n a)))) /\
  (n <> 0 -> Allocator.MaxValidAlignment < p ->
     let q := GenericAllocator.Realloc (Allocator.gAllocator s)
                (Allocator.ram s) p n a in
     r = (fst q,
          Allocator.set_ram (Allocator.set_gAllocator s (fst (snd q)))
                            (snd (snd q)))).
Proof.
  intros Hg Hp Hout.
  pose proof (FindBucket_outside arch s p Hg ltac:(lia) Hout) as Hf.
  cbv zeta. unfold Allocator.Realloc.
  destruct (Z.eqb_spec p 0); [lia|].
  destruct (Z.ltb_spec (Allocator.FindBucket arch s p) (Allocator.bucketsCount s));
    [lia|].
  destruct (Z.eqb_spec n 0) as [Hn | Hn].
  - cbn [fst snd]. destruct (Allocator.IsReadable p); cbn.
    + repeat split; try reflexivity; intros; contradiction.
    + repeat split; try reflexivity; intros; contradiction.
  - destruct (Allocator.IsReadable p) eqn:Er; cbn [negb].
    + apply Z.gtb_lt in Er.
      destruct (GenericAllocator.Realloc (Allocator.gAllocator s)
                  (Allocator.ram s) p n a) as [q [g m]].
      cbn. repeat split; try reflexivity; intros; try contradiction.
      unfold Allocator.MaxValidAlignment in *. lia.
    + unfold Allocator.IsReadable in Er.
      assert (p <= Allocator.MaxValidAlignment)
        by (destruct (Z.gtb_spec p Allocator.MaxValidAlignment);
            [discriminate | lia]).
      destruct (GenericAllocator.Alloc (Allocator.gAllocator s) n a) as [q g].
      cbn. repeat split; try reflexivity; intros; try contradiction. lia.
Qed.

(** X13. A block that [Alloc] hands out from the arena
    is large enough: the usable size of the result, which is the element
    size of its bucket, is at least the requested size and at least the
    requested alignment. *)
Theorem Allocate_usable_size s n a p s' :
  wf arch s -> 0 < n -> 0 < a ->
  (forall pg g,
     GenericAllocator.Alloc (Allocator.gAllocator s) n a = (pg, g) ->
     Allocator.IsMyAlloc s pg = false) ->
  Allocator.Alloc s n a = (p, s') ->
  Allocator.IsMyAlloc s' p = true ->
  n <= Allocator.GetUsableSize arch s' p /\
  a <= Allocator.GetUsableSize arch s' p /\
  Allocator.GetUsableSize arch s' p
  = 16 * (Allocator.GetBucketIndex arch s' p + 1).
Proof.
  intros Hwf Hn Ha Hgen Hrun Hmine.
  destruct (Allocate_cases arch s n a Hwf Hn Ha p s' Hrun)
    as [Hsame [_ [_ [[j [Hj [Hlo [Hhi _]]]] | [_ [_ [Hg _]]]]]]].
  - pose proof (wf_geometry _ _ Hwf) as Hgeo.
    pose proof (geo_size _ _ Hgeo) as Hsz.
    assert (Hr : region_base s j <= p < region_base s (j + 1))
      by (split; [exact Hlo | lia]).
    assert (Hj' : 0 <= j < Allocator.bucketsCount s).
    { split; [|lia]. destruct Hj as [Hj _].
      assert (0 <= Z.shiftr (Z.max n a - 1) 4); [|lia].
      apply Z.shiftr_nonneg. lia. }
    destruct (in_region_facts arch s s' p j Hgeo Hsame Hj' Hr) as [_ [Hidx _]].
    pose proof (geometry_same_arena arch s s' Hsame Hgeo) as Hgeo'.
    assert (Hj'' : 0 <= j < Allocator.bucketsCount s')
      by (destruct Hsame as [-> _]; exact Hj').
    rewrite <- (region_base_same_arena s s' j Hsame) in Hr.
    rewrite <- (region_base_same_arena s s' (j + 1) Hsame) in Hr.
    rewrite (GetUsableSize_region arch s' p j Hgeo' Hj'' Hr), Hidx.
    rewrite Z.shiftr_div_pow2 in Hj by lia. change (2 ^ 4) with 16 in Hj.
    pose proof (Z.mul_succ_div_gt (Z.max n a - 1) 16 ltac:(lia)).
    lia.
  - exfalso. specialize (Hgen p (Allocator.gAllocator s') Hg).
    destruct Hsame as [_ [_ [He [_ Hb]]]].
    unfold Allocator.IsMyAlloc in *. rewrite He, Hb in Hmine.
    congruence.
Qed.

End Addresses.

Lemma s1_ptr_range : 0 <= s1_ptr < 2 ^ ptrBits X64.
Proof. by_computation. Qed.

Lemma s1_alloc_run : Allocator.Alloc s1_fresh 24 8 = (s1_ptr, s1_used).
Proof. unfold s1_ptr, s1_used. now destruct (Allocator.Alloc s1_fresh 24 8). Qed.

(** X8 at the block of scenario S1. *)
Lemma FindBucket_classifies_witness :
  geometry X64 s1_used /\ 0 <= s1_ptr < 2 ^ ptrBits X64 /\
  (Allocator.FindBucket X64 s1_used s1_ptr <? Allocator.bucketsCount s1_used)
  = Allocator.IsMyAlloc s1_used s1_ptr /\
  (Allocator.IsMyAlloc s1_used s1_ptr = true ->
     let i := Allocator.FindBucket X64 s1_used s1_ptr in
     i = (s1_ptr - Allocator.pBuffer s1_used)
         / Allocator.bucketSizeInBytes s1_used /\
     0 <= i /\ region_base s1_used i <= s1_ptr < region_base s1_used (i + 1)).
Proof.
  split; [exact (wf_geometry _ _ s1_used_wf)|]. split; [exact s1_ptr_range|].
  exact (FindBucket_classifies X64 s1_used s1_ptr
           (wf_geometry _ _ s1_used_wf) s1_ptr_range).
Defined.

(** X9 at the block of scenario S1. *)
Lemma GetBucketIndex_spec_witness :
  geometry X64 s1_used /\ 0 <= s1_ptr < 2 ^ ptrBits X64 /\
  let j := Allocator.GetBucketIndex X64 s1_used s1_ptr in
  (Allocator.IsMyAlloc s1_used s1_ptr = false -> j = -1) /\
  (Allocator.IsMyAlloc s1_used s1_ptr = true ->
     j = (s1_ptr - Allocator.pBuffer s1_used)
         / Allocator.bucketSizeInBytes s1_used /\
     0 <= j < Allocator.bucketsCount s1_used /\
     region_base s1_used j <= s1_ptr < region_base s1_used (j + 1) /\
     Allocator.GetUsableSize X64 s1_used s1_ptr
     = Allocator.GetBucketElementSize j /\
     Allocator.GetBucketElementSize j = 16 * (j + 1)).
Proof.
  split; [exact (wf_geometry _ _ s1_used_wf)|]. split; [exact s1_ptr_range|].
  exact (GetBucketIndex_spec X64 s1_used s1_ptr
           (wf_geometry _ _ s1_used_wf) s1_ptr_range).
Defined.

(** X10 at the bucket of 32-byte elements of
    scenario S1. *)
Lemma GetBucketElementsCount_spec_witness :
  0 < Allocator.bucketSizeInBytes s1_fresh < 2 ^ 36 /\
  0 <= Allocator.bucketsCount s1_fresh <= SMM_MAX_BUCKET_COUNT /\ 0 <= 1 /\
  let n := Allocator.GetBucketElementsCount s1_fresh 1 in
  let S := Allocator.GetBucketElementSize 1 in
  (1 < Allocator.bucketsCount s1_fresh ->
     Allocator.GetBucketByIndex s1_fresh 1 = Some (Allocator.buckets s1_fresh 1) /\
     S = 16 * (1 + 1) /\
     n * S <= Allocator.bucketSizeInBytes s1_fresh < (n + 1) * S) /\
  (Allocator.bucketsCount s1_fresh <= 1 ->
     Allocator.GetBucketByIndex s1_fresh 1 = None /\ n = 0).
Proof.
  assert (H1 : 0 < Allocator.bucketSizeInBytes s1_fresh < 2 ^ 36)
    by by_computation.
  assert (H2 : 0 <= Allocator.bucketsCount s1_fresh <= SMM_MAX_BUCKET_COUNT)
    by by_computation.
  assert (H3 : 0 <= 1) by lia.
  split; [exact H1|]. split; [exact H2|]. split; [exact H3|].
  exact (GetBucketElementsCount_spec s1_fresh 1 H1 H2 H3).
Defined.

(** X11 at a request of 200 bytes in scenario S1, whose
    largest elements have 128 bytes. *)
Lemma Allocate_oversize_witness :
  0 < 200 /\ 0 <= Allocator.bucketsCount s1_fresh /\
  16 * Allocator.bucketsCount s1_fresh < Z.max 200 8 /\
  Allocator.Alloc s1_fresh 200 8 =
  (fst (GenericAllocator.Alloc (Allocator.gAllocator s1_fresh) 200 8),
   Allocator.set_gAllocator s1_fresh
     (snd (GenericAllocator.Alloc (Allocator.gAllocator s1_fresh) 200 8))).
Proof.
  assert (H1 : 0 < 200) by lia.
  assert (H2 : 0 <= Allocator.bucketsCount s1_fresh) by by_computation.
  assert (H3 : 16 * Allocator.bucketsCount s1_fresh < Z.max 200 8)
    by by_computation.
  split; [exact H1|]. split; [exact H2|]. split; [exact H3|].
  exact (Allocate_oversize s1_fresh 200 8 H1 H2 H3).
Defined.

(** X12 at the result 64 of a zero-size request with
    alignment 64. *)
Lemma Realloc_outside_arena_witness :
  geometry X64 s1_fresh /\ 0 < 64 < 2 ^ ptrBits X64 /\
  Allocator.IsMyAlloc s1_fresh 64 = false /\
  let r := Allocator.Realloc X64 s1_fresh 64 24 8 in
  Allocator.buckets (snd r) = Allocator.buckets s1_fresh /\
  Allocator.tls (snd r) = Allocator.tls s1_fresh /\
  (24 = 0 ->
     fst r = 8 /\ Allocator.ram (snd r) = Allocator.ram s1_fresh /\
     Allocator.gAllocator (snd r)
     = if Allocator.IsReadable 64
       then GenericAllocator.Free (Allocator.gAllocator s1_fresh) 64
       else Allocator.gAllocator s1_fresh) /\
  (24 <> 0 -> 64 <= Allocator.MaxValidAlignment ->
     r = (fst (GenericAllocator.Alloc (Allocator.gAllocator s1_fresh) 24 8),
          Allocator.set_gAllocator s1_fresh
            (snd (GenericAllocator.Alloc (Allocator.gAllocator s1_fresh) 24 8)))) /\
  (24 <> 0 -> Allocator.MaxValidAlignment < 64 ->
     let q := GenericAllocator.Realloc (Allocator.gAllocator s1_fresh)
                (Allocator.ram s1_fresh) 64 24 8 in
     r = (fst q,
          Allocator.set_ram (Allocator.set_gAllocator s1_fresh (fst (snd q)))
                            (snd (snd q)))).
Proof.
  assert (H1 : 0 < 64 < 2 ^ ptrBits X64) by by_computation.
  assert (H2 : Allocator.IsMyAlloc s1_fresh 64 = false) by by_computation.
  split; [exact (wf_geometry _ _ s1_fresh_wf)|]. split; [exact H1|].
  split; [exact H2|].
  exact (Realloc_outside_arena X64 s1_fresh 64 24 8
           (wf_geometry _ _ s1_fresh_wf) H1 H2).
Defined.

(** X13 at [alloc(24, 8)] of scenario S1. *)
Lemma Allocate_usable_size_witness :
  wf X64 s1_fresh /\ 0 < 24 /\ 0 < 8 /\
  (forall pg g,
     GenericAllocator.Alloc (Allocator.gAllocator s1_fresh) 24 8 = (pg, g) ->
     Allocator.IsMyAlloc s1_fresh pg = false) /\
  Allocator.Alloc s1_fresh 24 8 = (s1_ptr, s1_used) /\
  Allocator.IsMyAlloc s1_used s1_ptr = true /\
  24 <= Allocator.GetUsableSize X64 s1_used s1_ptr /\
  8 <= Allocator.GetUsableSize X64 s1_used s1_ptr /\
  Allocator.GetUsableSize X64 s1_used s1_ptr
  = 16 * (Allocator.GetBucketIndex X64 s1_used s1_ptr + 1).
Proof.
  assert (H1 : 0 < 24) by lia.
  assert (H2 : 0 < 8) by lia.
  assert (H3 : forall pg g,
             GenericAllocator.Alloc (Allocator.gAllocator s1_fresh) 24 8 = (pg, g) ->
             Allocator.IsMyAlloc s1_fresh pg = false).
  { intros pg g H. injection H as <- _. by_computation. }
  assert (H4 : Allocator.IsMyAlloc s1_used s1_ptr = true) by by_computation.
  split; [exact s1_fresh_wf|]. split; [exact H1|]. split; [exact H2|].
  split; [exact H3|]. split; [exact s1_alloc_run|]. split; [exact H4|].
  exact (Allocate_usable_size X64 s1_fresh 24 8 s1_ptr s1_used s1_fresh_wf
           H1 H2 H3 s1_alloc_run H4).
Defined.

(** ** The thread cache *)

Section CacheLevels.
Variable arch : Arch.
Implicit Types (c : TlsPoolBucket.t) (b : PoolBucket.t) (m : mem).

(** What [ReturnL1CacheToMaster] leaves of the cache record: only the
    count of L1 changes. *)
Lemma ReturnL1CacheToMaster_record c b m count :
  let c1 := fst (fst (TlsPoolBucket.ReturnL1CacheToMaster c b m count)) in
  TlsPoolBucket.pBucketData c1 = TlsPoolBucket.pBucketData c /\
  TlsPoolBucket.pStorageL1 c1 = TlsPoolBucket.pStorageL1 c /\
  TlsPoolBucket.pBucket c1 = TlsPoolBucket.pBucket c /\
  TlsPoolBucket.storageL0 c1 = TlsPoolBucket.storageL0 c /\
  TlsPoolBucket.maxElementsCount c1 = TlsPoolBucket.maxElementsCount c /\
  TlsPoolBucket.numElementsL0 c1 = TlsPoolBucket.numElementsL0 c /\
  (0 <= count -> 0 <= TlsPoolBucket.numElementsL1 c ->
   TlsPoolBucket.numElementsL1 c1
   = TlsPoolBucket.numElementsL1 c
     - Z.min count (TlsPoolBucket.numElementsL1 c)).
Proof.
  cbv zeta. unfold TlsPoolBucket.ReturnL1CacheToMaster.
  destruct (Z.eqb_spec count 0) as [-> | Hc].
  { cbn. repeat split; try reflexivity. intros _ Hn. lia. }
  destruct (Z.eqb_spec (TlsPoolBucket.numElementsL1 c) 0) as [Hz | Hnz].
  { cbn. repeat split; try reflexivity. intros Hcount Hn. lia. }
  cbv zeta.
  destruct (TlsPoolBucket.link_loop _ c m _ _ _) as [m1 pTail].
  destruct (PoolBucket.FreeInterval m1 b _ pTail) as [m2 b'].
  cbn. repeat split; reflexivity.
Qed.

(** The count that [ReturnL1CacheToMaster] is given is clamped to the
    entries that L1 holds. *)
Lemma ReturnL1CacheToMaster_clamp c b m count :
  0 < count -> 0 < TlsPoolBucket.numElementsL1 c ->
  TlsPoolBucket.ReturnL1CacheToMaster c b m count
  = TlsPoolBucket.ReturnL1CacheToMaster c b m
      (Z.min count (TlsPoolBucket.numElementsL1 c)).
Proof.
  intros Hc Hn. unfold TlsPoolBucket.ReturnL1CacheToMaster.
  destruct (Z.eqb_spec count 0); [lia|].
  destruct (Z.eqb_spec (Z.min count (TlsPoolBucket.numElementsL1 c)) 0); [lia|].
  destruct (Z.eqb_spec (TlsPoolBucket.numElementsL1 c) 0); [lia|].
  cbv zeta.
  rewrite (Z.min_l (Z.min count (TlsPoolBucket.numElementsL1 c))
                   (TlsPoolBucket.numElementsL1 c)) by lia.
  reflexivity.
Qed.

(** X14. [AllocFromCache] returns [nullptr] exactly
    when both levels are empty, and then changes nothing. Otherwise it
    takes the entry on top of L0 if L0 holds any, else the entry on top of
    L1, and lowers the count of that level by one, so [GetElementsCount]
    goes down by one; the arrays and the capacity are as they were. *)
Theorem AllocFromCache_takes_top c :
  counters_in_range arch c -> 0 < TlsPoolBucket.pBucketData c ->
  (forall k, 0 <= TlsPoolBucket.storageL0 c k) ->
  (forall k, 0 <= TlsPoolBucket.pStorageL1 c k) ->
  let p := fst (Allocator.AllocFromCache c) in
  let c' := snd (Allocator.AllocFromCache c) in
  (p = 0 <->
   TlsPoolBucket.numElementsL0 c = 0 /\ TlsPoolBucket.numElementsL1 c = 0) /\
  (p = 0 -> c' = c) /\
  (0 < TlsPoolBucket.numElementsL0 c ->
     p = TlsPoolBucket.pBucketData c
         + TlsPoolBucket.storageL0 c (TlsPoolBucket.numElementsL0 c - 1) /\
     TlsPoolBucket.numElementsL0 c' = TlsPoolBucket.numElementsL0 c - 1 /\
     TlsPoolBucket.numElementsL1 c' = TlsPoolBucket.numElementsL1 c) /\
  (TlsPoolBucket.numElementsL0 c = 0 -> 0 < TlsPoolBucket.numElementsL1 c ->
     p = TlsPoolBucket.pBucketData c
         + TlsPoolBucket.pStorageL1 c (TlsPoolBucket.numElementsL1 c - 1) /\
     TlsPoolBucket.numElementsL0 c' = 0 /\
     TlsPoolBucket.numElementsL1 c' = TlsPoolBucket.numElementsL1 c - 1) /\
  (p <> 0 ->
   TlsPoolBucket.numElementsL1 c + TlsPoolBucket.numElementsL0 c < 2 ^ 32 ->
     TlsPoolBucket.GetElementsCount c'
     = TlsPoolBucket.GetElementsCount c - 1) /\
  TlsPoolBucket.storageL0 c' = TlsPoolBucket.storageL0 c /\
  TlsPoolBucket.pStorageL1 c' = TlsPoolBucket.pStorageL1 c /\
  TlsPoolBucket.maxElementsCount c' = TlsPoolBucket.maxElementsCount c.
Proof.
  intros Hr Hbase HL0 HL1. pose proof Hr as [H0 H1].
  pose proof (K0_range arch) as HK.
  pose proof (AllocFromCache_cases arch c Hr) as Hcases.
  assert (Hrec : TlsPoolBucket.storageL0 (snd (Allocator.AllocFromCache c))
                 = TlsPoolBucket.storageL0 c /\
                 TlsPoolBucket.pStorageL1 (snd (Allocator.AllocFromCache c))
                 = TlsPoolBucket.pStorageL1 c /\
                 TlsPoolBucket.maxElementsCount (snd (Allocator.AllocFromCache c))
                 = TlsPoolBucket.maxElementsCount c).
  { unfold Allocator.AllocFromCache.
    destruct (TlsPoolBucket.numElementsL0 c >? 0);
      [|destruct (TlsPoolBucket.numElementsL1 c >? 0)];
      repeat split; reflexivity. }
  cbv zeta. destruct (Allocator.AllocFromCache c) as [p c'] eqn:E.
  cbn [fst snd] in *.
  pose proof (HL0 (TlsPoolBucket.numElementsL0 c - 1)).
  pose proof (HL1 (TlsPoolBucket.numElementsL1 c - 1)).
  unfold TlsPoolBucket.GetElementsCount.
  destruct Hcases as [[Ha [Hb [Hc Hd]]] | [[Ha [Hb [Hc [Hd He]]]] | [Ha [Hb [Hc Hd]]]]].
  - repeat split; try tauto; try lia.
    intros _ Hsum. rewrite Hb, Hc, !u32_small by lia. lia.
  - repeat split; try tauto; try lia.
    intros _ Hsum. rewrite Hc, Hd, !u32_small by lia. lia.
  - subst c' p. repeat split; try tauto; try lia.
Qed.

(** X15. The thread cache is last-in
    first-out: the pointer that [ReleaseToCache] has just taken is what the
    next [AllocFromCache] returns, whether it went to L0, to L1, or to L1
    after a flush. (A push into L1 while L0 holds entries is the one case
    left out: L0 is served first.) *)
Theorem ReleaseToCache_then_AllocFromCache (useCacheL0 : bool) c b m p :
  0 < TlsPoolBucket.maxElementsCount c ->
  0 <= TlsPoolBucket.numElementsL0 c <= SMM_MAX_CACHE_ITEMS_COUNT arch ->
  0 <= TlsPoolBucket.numElementsL1 c < 2 ^ 32 - 1 ->
  0 <= p - TlsPoolBucket.pBucketData c < 2 ^ 32 ->
  (if useCacheL0
   then TlsPoolBucket.numElementsL0 c < SMM_MAX_CACHE_ITEMS_COUNT arch
   else TlsPoolBucket.numElementsL0 c = 0) ->
  let r := Allocator.ReleaseToCache arch useCacheL0 c b m p in
  let c' := fst (fst (snd r)) in
  fst r = true /\
  fst (Allocator.AllocFromCache c') = p /\
  TlsPoolBucket.numElementsL0 (snd (Allocator.AllocFromCache c'))
  = TlsPoolBucket.numElementsL0 c.
Proof.
  intros Hmax H0 H1 Hp Hsel. pose proof (K0_range arch) as HK.
  cbv zeta. unfold Allocator.ReleaseToCache.
  destruct (Z.eqb_spec (TlsPoolBucket.maxElementsCount c) 0); [lia|].
  cbv zeta. set (offset := u32 (p - TlsPoolBucket.pBucketData c)).
  assert (Hoff : TlsPoolBucket.pBucketData c + offset = p)
    by (subst offset; rewrite u32_small by lia; ring).
  destruct useCacheL0.
  - destruct (Z.ltb_spec (TlsPoolBucket.numElementsL0 c)
                         (SMM_MAX_CACHE_ITEMS_COUNT arch)); [|lia].
    cbn [andb fst snd]. split; [reflexivity|].
    unfold Allocator.AllocFromCache, TlsPoolBucket.set_L0. cbn.
    rewrite (u8_small (TlsPoolBucket.numElementsL0 c + 1)) by lia.
    destruct (Z.gtb_spec (TlsPoolBucket.numElementsL0 c + 1) 0); [|lia].
    cbn. replace (TlsPoolBucket.numElementsL0 c + 1 - 1)
      with (TlsPoolBucket.numElementsL0 c) by ring.
    rewrite u8_small by lia. rewrite upd_same. split; [exact Hoff | reflexivity].
  - cbn [andb].
    assert (Hpop : forall c1,
              TlsPoolBucket.pBucketData c1 = TlsPoolBucket.pBucketData c ->
              TlsPoolBucket.numElementsL0 c1 = 0 ->
              0 <= TlsPoolBucket.numElementsL1 c1 < 2 ^ 32 - 1 ->
              let c' := TlsPoolBucket.set_L1 c1
                          (upd (TlsPoolBucket.pStorageL1 c1)
                               (TlsPoolBucket.numElementsL1 c1) offset)
                          (u32 (TlsPoolBucket.numElementsL1 c1 + 1)) in
              fst (Allocator.AllocFromCache c') = p /\
              TlsPoolBucket.numElementsL0 (snd (Allocator.AllocFromCache c')) = 0).
    { intros c1 Hb Hz Hn. cbv zeta.
      unfold Allocator.AllocFromCache, TlsPoolBucket.set_L1. cbn.
      rewrite Hz. cbn.
      rewrite (u32_small (TlsPoolBucket.numElementsL1 c1 + 1)) by lia.
      destruct (Z.gtb_spec (TlsPoolBucket.numElementsL1 c1 + 1) 0); [|lia].
      cbn. replace (TlsPoolBucket.numElementsL1 c1 + 1 - 1)
        with (TlsPoolBucket.numElementsL1 c1) by ring.
      rewrite u32_small by lia. rewrite upd_same, Hb.
      split; [exact Hoff | reflexivity]. }
    rewrite Hsel.
    destruct (Z.ltb_spec (TlsPoolBucket.numElementsL1 c)
                         (TlsPoolBucket.maxElementsCount c)).
    + cbn [fst snd]. split; [reflexivity|].
      apply Hpop; [reflexivity | exact Hsel | lia].
    + pose proof (ReturnL1CacheToMaster_record c b m
                    (Z.shiftr (TlsPoolBucket.numElementsL1 c) 1)) as Hrec.
      cbv zeta in Hrec.
      destruct (TlsPoolBucket.ReturnL1CacheToMaster c b m
                  (Z.shiftr (TlsPoolBucket.numElementsL1 c) 1))
        as [[c1 b1] m1].
      cbn [fst snd] in *. split; [reflexivity|].
      destruct Hrec as [Hb [_ [_ [_ [_ [Hz Hn]]]]]].
      assert (Hhalf : 0 <= Z.shiftr (TlsPoolBucket.numElementsL1 c) 1)
        by (apply Z.shiftr_nonneg; lia).
      specialize (Hn Hhalf ltac:(lia)).
      apply Hpop; [exact Hb | congruence | lia].
Qed.

(** X16. On a thread cache of any L1 capacity other than
    1, pops and pushes keep the occupancy bounds ([numElementsL0] at most
    [SMM_MAX_CACHE_ITEMS_COUNT], [numElementsL1] at most
    [maxElementsCount]); a push is refused exactly when the capacity is 0,
    and a refused push changes nothing. *)
Theorem cache_occupancy_kept useCacheL0 c b m p :
  occupancy_ok arch c -> TlsPoolBucket.maxElementsCount c <> 1 ->
  occupancy_ok arch (snd (Allocator.AllocFromCache c)) /\
  let r := Allocator.ReleaseToCache arch useCacheL0 c b m p in
  occupancy_ok arch (fst (fst (snd r))) /\
  (fst r = false <-> TlsPoolBucket.maxElementsCount c = 0) /\
  (fst r = false -> snd r = (c, b, m)).
Proof.
  intros Hocc Hne. split; [exact (AllocFromCache_occupancy arch c Hocc)|].
  cbv zeta.
  pose proof (ReleaseToCache_occupancy arch useCacheL0 c b m p Hocc Hne) as H.
  destruct (Allocator.ReleaseToCache arch useCacheL0 c b m p)
    as [ok [[c' b'] m']] eqn:E.
  cbn [fst snd]. destruct H as [H1 H2].
  split; [exact H1|]. split; [exact H2|].
  intros Hok. apply H2 in Hok.
  unfold Allocator.ReleaseToCache in E.
  destruct (Z.eqb_spec (TlsPoolBucket.maxElementsCount c) 0); [|contradiction].
  now inversion E.
Qed.

(** The freelist after [ReturnL1CacheToMaster(count)]: the last
    [min(count, numElementsL1)] entries of L1 are in front of it. *)
Lemma ReturnL1CacheToMaster_list c b m count lim l :
  0 <= count -> 0 <= TlsPoolBucket.numElementsL1 c ->
  TlsPoolBucket.pBucketData c = PoolBucket.pData b ->
  lim < 2 ^ 32 -> 0 <= PoolBucket.head b < 2 ^ 64 ->
  let k := Z.min count (TlsPoolBucket.numElementsL1 c) in
  let returned :=
    slice (TlsPoolBucket.pStorageL1 c) (TlsPoolBucket.numElementsL1 c - k)
          (Z.to_nat k) in
  (forall o, In o returned -> 0 <= o /\ o + 8 <= lim) ->
  all_apart (returned ++ l) ->
  freelist m (PoolBucket.pData b) lim (PoolBucket.head b) l ->
  let r := TlsPoolBucket.ReturnL1CacheToMaster c b m count in
  freelist (snd r) (PoolBucket.pData (snd (fst r))) lim
           (PoolBucket.head (snd (fst r))) (returned ++ l) /\
  PoolBucket.pData (snd (fst r)) = PoolBucket.pData b /\
  (0 < k ->
   PoolBucket.globalTag (snd (fst r)) = u32 (PoolBucket.globalTag b + 1)) /\
  (k = 0 -> r = (c, b, m)).
Proof.
  intros Hcount Hn Hdata Hlim Hh k returned Hin Hap Hfl. cbv zeta.
  destruct (Z.eq_dec k 0) as [Hk0 | Hk0].
  - assert (Hnop : TlsPoolBucket.ReturnL1CacheToMaster c b m count = (c, b, m)).
    { unfold TlsPoolBucket.ReturnL1CacheToMaster.
      destruct (Z.eqb_spec count 0); [reflexivity|].
      destruct (Z.eqb_spec (TlsPoolBucket.numElementsL1 c) 0); [reflexivity|].
      subst k. lia. }
    rewrite Hnop. cbn [fst snd].
    subst returned. rewrite Hk0 in *. cbn [Z.to_nat slice app] in *.
    repeat split; try reflexivity; try lia. exact Hfl.
  - assert (Hkpos : 0 < k <= TlsPoolBucket.numElementsL1 c) by (subst k; lia).
    assert (Hclamp : TlsPoolBucket.ReturnL1CacheToMaster c b m count
                     = TlsPoolBucket.ReturnL1CacheToMaster c b m k)
      by (apply ReturnL1CacheToMaster_clamp; subst k; lia).
    pose proof (ReturnL1CacheToMaster_prepends c b m k lim l Hkpos Hdata Hlim Hh
                  Hin Hap Hfl) as Hpre.
    pose proof (ReturnL1CacheToMaster_some c b m k ltac:(lia) ltac:(lia)) as Hsome.
    destruct (ReturnL1CacheToMaster_cache c b m k Hkpos) as [_ Hpd].
    rewrite Hclamp in *.
    destruct (TlsPoolBucket.ReturnL1CacheToMaster c b m k) as [[c' b'] m'].
    cbn [fst snd] in *.
    destruct Hsome as [_ [_ [_ [_ [_ [_ [_ [Htag _]]]]]]]].
    repeat split; try assumption; try lia.
Qed.

(** X17. [ReturnL1CacheToMaster(count)] moves
    the last [min(count, numElementsL1)] entries of L1 to the front of the
    bucket's freelist, oldest first, by a single [FreeInterval] (one tag is
    drawn); the entries that stay in L1 are not touched. With [count = 0]
    or an empty L1 nothing happens at all. *)
Theorem ReturnL1CacheToMaster_flushes c b m count lim l :
  0 <= count -> 0 <= TlsPoolBucket.numElementsL1 c ->
  TlsPoolBucket.pBucketData c = PoolBucket.pData b ->
  lim < 2 ^ 32 -> 0 <= PoolBucket.head b < 2 ^ 64 ->
  let k := Z.min count (TlsPoolBucket.numElementsL1 c) in
  let returned :=
    slice (TlsPoolBucket.pStorageL1 c) (TlsPoolBucket.numElementsL1 c - k)
          (Z.to_nat k) in
  (forall o, In o returned -> 0 <= o /\ o + 8 <= lim) ->
  all_apart (returned ++ l) ->
  freelist m (PoolBucket.pData b) lim (PoolBucket.head b) l ->
  let r := TlsPoolBucket.ReturnL1CacheToMaster c b m count in
  let c' := fst (fst r) in
  let b' := snd (fst r) in
  freelist (snd r) (PoolBucket.pData b') lim (PoolBucket.head b')
           (returned ++ l) /\
  TlsPoolBucket.numElementsL1 c' = TlsPoolBucket.numElementsL1 c - k /\
  TlsPoolBucket.pStorageL1 c' = TlsPoolBucket.pStorageL1 c /\
  TlsPoolBucket.numElementsL0 c' = TlsPoolBucket.numElementsL0 c /\
  TlsPoolBucket.storageL0 c' = TlsPoolBucket.storageL0 c /\
  (0 < k -> PoolBucket.globalTag b' = u32 (PoolBucket.globalTag b + 1)) /\
  (k = 0 -> r = (c, b, m)).
Proof.
  intros Hcount Hn Hdata Hlim Hh k returned Hin Hap Hfl.
  pose proof (ReturnL1CacheToMaster_record c b m count) as Hrec.
  cbv zeta in Hrec. destruct Hrec as [_ [HL1 [_ [HL0 [_ [Hn0 Hn1]]]]]].
  specialize (Hn1 Hcount Hn). fold k in Hn1.
  destruct (ReturnL1CacheToMaster_list c b m count lim l Hcount Hn Hdata Hlim Hh
              Hin Hap Hfl) as [Hlist [_ [Htag Hnop]]].
  cbv zeta. repeat split; assumption.
Qed.

End CacheLevels.

Lemma full_cache_counters : counters_in_range X64 full_cache.
Proof. by_computation. Qed.

Lemma array_of_nonneg l k : (forall x, In x l -> 0 <= x) -> 0 <= array_of l k.
Proof.
  intros Hl. unfold array_of. destruct (k <? 0); [lia|].
  destruct (nth_in_or_default (Z.to_nat k) l 0) as [H | ->]; [|lia].
  now apply Hl.
Qed.

(** X14 at the cache whose L1 holds two entries. *)
Lemma AllocFromCache_takes_top_witness :
  counters_in_range X64 full_cache /\ 0 < TlsPoolBucket.pBucketData full_cache /\
  (forall k, 0 <= TlsPoolBucket.storageL0 full_cache k) /\
  (forall k, 0 <= TlsPoolBucket.pStorageL1 full_cache k) /\
  let p := fst (Allocator.AllocFromCache full_cache) in
  let c' := snd (Allocator.AllocFromCache full_cache) in
  (p = 0 <->
   TlsPoolBucket.numElementsL0 full_cache = 0 /\
   TlsPoolBucket.numElementsL1 full_cache = 0) /\
  (p = 0 -> c' = full_cache) /\
  (0 < TlsPoolBucket.numElementsL0 full_cache ->
     p = TlsPoolBucket.pBucketData full_cache
         + TlsPoolBucket.storageL0 full_cache
             (TlsPoolBucket.numElementsL0 full_cache - 1) /\
     TlsPoolBucket.numElementsL0 c' = TlsPoolBucket.numElementsL0 full_cache - 1 /\
     TlsPoolBucket.numElementsL1 c' = TlsPoolBucket.numElementsL1 full_cache) /\
  (TlsPoolBucket.numElementsL0 full_cache = 0 ->
   0 < TlsPoolBucket.numElementsL1 full_cache ->
     p = TlsPoolBucket.pBucketData full_cache
         + TlsPoolBucket.pStorageL1 full_cache
             (TlsPoolBucket.numElementsL1 full_cache - 1) /\
     TlsPoolBucket.numElementsL0 c' = 0 /\
     TlsPoolBucket.numElementsL1 c' = TlsPoolBucket.numElementsL1 full_cache - 1) /\
  (p <> 0 ->
   TlsPoolBucket.numElementsL1 full_cache
   + TlsPoolBucket.numElementsL0 full_cache < 2 ^ 32 ->
     TlsPoolBucket.GetElementsCount c'
     = TlsPoolBucket.GetElementsCount full_cache - 1) /\
  TlsPoolBucket.storageL0 c' = TlsPoolBucket.storageL0 full_cache /\
  TlsPoolBucket.pStorageL1 c' = TlsPoolBucket.pStorageL1 full_cache /\
  TlsPoolBucket.maxElementsCount c' = TlsPoolBucket.maxElementsCount full_cache.
Proof.
  assert (H1 : 0 < TlsPoolBucket.pBucketData full_cache) by reflexivity.
  assert (H2 : forall k, 0 <= TlsPoolBucket.storageL0 full_cache k)
    by (intros k; apply array_of_nonneg; intros x []).
  assert (H3 : forall k, 0 <= TlsPoolBucket.pStorageL1 full_cache k)
    by (intros k; apply array_of_nonneg; intros x [<- | [<- | []]]; lia).
  split; [exact full_cache_counters|]. split; [exact H1|].
  split; [exact H2|]. split; [exact H3|].
  exact (AllocFromCache_takes_top X64 full_cache full_cache_counters H1 H2 H3).
Defined.

(** X15 at a push into the full L1, which
    flushes one entry first. *)
Lemma ReleaseToCache_then_AllocFromCache_witness :
  0 < TlsPoolBucket.maxElementsCount full_cache /\
  0 <= TlsPoolBucket.numElementsL0 full_cache <= SMM_MAX_CACHE_ITEMS_COUNT X64 /\
  0 <= TlsPoolBucket.numElementsL1 full_cache < 2 ^ 32 - 1 /\
  0 <= 65584 - TlsPoolBucket.pBucketData full_cache < 2 ^ 32 /\
  (if false
   then TlsPoolBucket.numElementsL0 full_cache < SMM_MAX_CACHE_ITEMS_COUNT X64
   else TlsPoolBucket.numElementsL0 full_cache = 0) /\
  let r := Allocator.ReleaseToCache X64 false full_cache chain_bucket
             chain_mem 65584 in
  let c' := fst (fst (snd r)) in
  fst r = true /\
  fst (Allocator.AllocFromCache c') = 65584 /\
  TlsPoolBucket.numElementsL0 (snd (Allocator.AllocFromCache c'))
  = TlsPoolBucket.numElementsL0 full_cache.
Proof.
  assert (H1 : 0 < TlsPoolBucket.maxElementsCount full_cache) by reflexivity.
  assert (H2 : 0 <= TlsPoolBucket.numElementsL0 full_cache
               <= SMM_MAX_CACHE_ITEMS_COUNT X64) by by_computation.
  assert (H3 : 0 <= TlsPoolBucket.numElementsL1 full_cache < 2 ^ 32 - 1)
    by by_computation.
  assert (H4 : 0 <= 65584 - TlsPoolBucket.pBucketData full_cache < 2 ^ 32)
    by by_computation.
  assert (H5 : TlsPoolBucket.numElementsL0 full_cache = 0) by reflexivity.
  split; [exact H1|]. split; [exact H2|]. split; [exact H3|].
  split; [exact H4|]. split; [exact H5|].
  exact (ReleaseToCache_then_AllocFromCache X64 false full_cache chain_bucket
           chain_mem 65584 H1 H2 H3 H4 H5).
Defined.

(** X16 at a push into the full L1 of capacity 2. *)
Lemma cache_occupancy_kept_witness :
  occupancy_ok X64 full_cache /\ TlsPoolBucket.maxElementsCount full_cache <> 1 /\
  occupancy_ok X64 (snd (Allocator.AllocFromCache full_cache)) /\
  let r := Allocator.ReleaseToCache X64 true full_cache chain_bucket
             chain_mem 65584 in
  occupancy_ok X64 (fst (fst (snd r))) /\
  (fst r = false <-> TlsPoolBucket.maxElementsCount full_cache = 0) /\
  (fst r = false -> snd r = (full_cache, chain_bucket, chain_mem)).
Proof.
  assert (H1 : occupancy_ok X64 full_cache) by by_computation.
  assert (H2 : TlsPoolBucket.maxElementsCount full_cache <> 1)
    by (intro H; discriminate H).
  split; [exact H1|]. split; [exact H2|].
  exact (cache_occupancy_kept X64 true full_cache chain_bucket chain_mem 65584
           H1 H2).
Defined.

(** X17 at the flush of both entries of L1 in
    front of the slot at offset 32. *)
Lemma ReturnL1CacheToMaster_flushes_witness :
  0 <= 5 /\ 0 <= TlsPoolBucket.numElementsL1 full_cache /\
  TlsPoolBucket.pBucketData full_cache = PoolBucket.pData chain_bucket /\
  4096 < 2 ^ 32 /\ 0 <= PoolBucket.head chain_bucket < 2 ^ 64 /\
  let k := Z.min 5 (TlsPoolBucket.numElementsL1 full_cache) in
  let returned :=
    slice (TlsPoolBucket.pStorageL1 full_cache)
          (TlsPoolBucket.numElementsL1 full_cache - k) (Z.to_nat k) in
  (forall o, In o returned -> 0 <= o /\ o + 8 <= 4096) /\
  all_apart (returned ++ [32]) /\
  freelist chain_mem (PoolBucket.pData chain_bucket) 4096
           (PoolBucket.head chain_bucket) [32] /\
  let r := TlsPoolBucket.ReturnL1CacheToMaster full_cache chain_bucket
             chain_mem 5 in
  let c' := fst (fst r) in
  let b' := snd (fst r) in
  freelist (snd r) (PoolBucket.pData b') 4096 (PoolBucket.head b')
           (returned ++ [32]) /\
  TlsPoolBucket.numElementsL1 c' = TlsPoolBucket.numElementsL1 full_cache - k /\
  TlsPoolBucket.pStorageL1 c' = TlsPoolBucket.pStorageL1 full_cache /\
  TlsPoolBucket.numElementsL0 c' = TlsPoolBucket.numElementsL0 full_cache /\
  TlsPoolBucket.storageL0 c' = TlsPoolBucket.storageL0 full_cache /\
  (0 < k -> PoolBucket.globalTag b' = u32 (PoolBucket.globalTag chain_bucket + 1)) /\
  (k = 0 -> r = (full_cache, chain_bucket, chain_mem)).
Proof.
  assert (H1 : 0 <= 5) by lia.
  assert (H2 : 0 <= TlsPoolBucket.numElementsL1 full_cache) by by_computation.
  assert (H3 : TlsPoolBucket.pBucketData full_cache = PoolBucket.pData chain_bucket)
    by reflexivity.
  assert (H4 : 4096 < 2 ^ 32) by reflexivity.
  assert (H5 : forall o,
             In o (slice (TlsPoolBucket.pStorageL1 full_cache)
                     (TlsPoolBucket.numElementsL1 full_cache
                      - Z.min 5 (TlsPoolBucket.numElementsL1 full_cache))
                     (Z.to_nat (Z.min 5 (TlsPoolBucket.numElementsL1 full_cache)))) ->
             0 <= o /\ o + 8 <= 4096)
    by (intros o [<- | [<- | []]]; vm_compute; split; intro H; discriminate H).
  assert (H6 : all_apart
                 (slice (TlsPoolBucket.pStorageL1 full_cache)
                    (TlsPoolBucket.numElementsL1 full_cache
                     - Z.min 5 (TlsPoolBucket.numElementsL1 full_cache))
                    (Z.to_nat (Z.min 5 (TlsPoolBucket.numElementsL1 full_cache)))
                  ++ [32])).
  { change (all_apart ([0; 16] ++ [32])).
    cbn. unfold apart. repeat split; try (intros o' H; intuition lia). }
  split; [exact H1|]. split; [exact H2|]. split; [exact H3|].
  split; [exact H4|]. split; [exact chain_bucket_head|].
  split; [exact H5|]. split; [exact H6|]. split; [exact chain_bucket_freelist|].
  exact (ReturnL1CacheToMaster_flushes full_cache chain_bucket chain_mem 5 4096
           [32] H1 H2 H3 H4 chain_bucket_head H5 H6 chain_bucket_freelist).
Defined.

(** ** The free slots *)

Section FreeSlots.
Context {G : Type} {GA : GenericAllocator.Ops G}.
Variable arch : Arch.
Implicit Types (s : Allocator.t G) (c : TlsPoolBucket.t) (m : mem).

Lemma slice_ext f g (n : nat) : forall i,
  (forall k, i <= k < i + Z.of_nat n -> f k = g k) ->
  slice f i n = slice g i n.
Proof.
  induction n as [|n IH]; intros i H; [reflexivity|].
  cbn [slice]. rewrite (H i) by lia. f_equal. apply IH. intros k Hk. apply H. lia.
Qed.

Lemma slice_snoc f n :
  0 < n -> slice f 0 (Z.to_nat n) = slice f 0 (Z.to_nat (n - 1)) ++ [f (n - 1)].
Proof.
  intros Hn. replace (Z.to_nat n) with (Z.to_nat (n - 1) + 1)%nat by lia.
  rewrite slice_app. cbn [slice]. do 3 f_equal. lia.
Qed.

Lemma slice_upd_snoc f n v :
  0 <= n -> slice (upd f n v) 0 (Z.to_nat (n + 1)) = slice f 0 (Z.to_nat n) ++ [v].
Proof.
  intros Hn. rewrite slice_snoc by lia. replace (n + 1 - 1) with n by ring.
  rewrite upd_same. f_equal. apply slice_ext. intros k Hk.
  apply upd_other. lia.
Qed.

(** The free slots of a bucket depend on the bucket, the thread cache for
    it, and the memory of its sub-region. *)
Lemma free_slots_ext s s' k fs :
  same_arena s s' -> 0 < Allocator.bucketSizeInBytes s ->
  Allocator.buckets s' k = Allocator.buckets s k ->
  Allocator.tls s' k = Allocator.tls s k ->
  (forall x, region_base s k <= x < region_base s (k + 1) ->
             Allocator.ram s' x = Allocator.ram s x) ->
  free_slots s k fs -> free_slots s' k fs.
Proof.
  intros Hsa Hsz Hb Ht Hm [l [Hfl ->]]. exists l.
  rewrite Hb, Ht, (region_base_same_arena s s' k Hsa).
  destruct Hsa as [_ [-> _]]. split; [|reflexivity].
  apply (freelist_frame (Allocator.ram s)); [|exact Hfl].
  intros x Hx. apply Hm. rewrite region_base_step. lia.
Qed.

(** Where [Allocate] takes its result from, and the state it leaves. *)
Lemma Allocate_outcome s n a p s' :
  wf arch s -> 0 < n -> 0 < a ->
  Allocator.Allocate s n a = (p, s') ->
  let i0 := Z.shiftr (Z.max n a - 1) 4 in
  (i0 < Allocator.bucketsCount s /\
   p = fst (Allocator.AllocFromCache (Allocator.tls s i0)) /\ p <> 0 /\
   s' = Allocator.set_tls s
          (upd (Allocator.tls s) i0
               (snd (Allocator.AllocFromCache (Allocator.tls s i0)))))
  \/
  ((forall k, Allocator.tls s' k = Allocator.tls s k) /\
   ((exists j,
        i0 <= j < Allocator.bucketsCount s /\
        PoolBucket.head (Allocator.buckets s j) <> TaggedIndex.Invalid /\
        p = fst (PoolBucket.Alloc (Allocator.ram s) (Allocator.buckets s j)) /\
        Allocator.buckets s' j
        = snd (PoolBucket.Alloc (Allocator.ram s) (Allocator.buckets s j)) /\
        (forall k, k <> j -> Allocator.buckets s' k = Allocator.buckets s k) /\
        Allocator.gAllocator s' = Allocator.gAllocator s)
    \/
    (GenericAllocator.Alloc (Allocator.gAllocator s) n a
     = (p, Allocator.gAllocator s') /\
     (forall k, Allocator.buckets s' k = Allocator.buckets s k)))).
Proof.
  intros Hwf Hn Hapos Hrun i0.
  assert (Hi0 : 0 <= i0) by (unfold i0; apply Z.shiftr_nonneg; lia).
  pose proof (wf_geometry _ _ Hwf) as Hg.
  unfold Allocator.Allocate in Hrun.
  destruct (Z.eqb_spec n 0); [lia|].
  cbv zeta in Hrun. rewrite effective_size in Hrun. fold i0 in Hrun.
  destruct (Z.ltb_spec i0 (Allocator.bucketsCount s)) as [Ei | Ei].
  - assert (Hin : 0 <= i0 < Allocator.bucketsCount s) by lia.
    pose proof (cache_pop_in_region arch s i0 (wf_caches _ _ Hwf i0 Hin)) as Hc.
    destruct (Allocator.AllocFromCache (Allocator.tls s i0)) as [pc c] eqn:Epop.
    cbn [fst snd].
    destruct Hc as [[Hmiss Hsame] | Hhit].
    + subst pc c. cbn [negb Z.eqb] in Hrun. right.
      set (s1 := Allocator.set_tls s
                   (upd (Allocator.tls s) i0 (Allocator.tls s i0))) in *.
      assert (Hg1 : geometry arch s1)
        by (apply (geometry_same_arena arch s); [repeat split | exact Hg]).
      assert (Hbk1 : forall i, 0 <= i < Allocator.bucketsCount s1 ->
                               bucket_ok s1 i)
        by (intros i Hi; exact (wf_buckets _ _ Hwf i Hi)).
      assert (Hfuel : Z.of_nat (Z.to_nat (Allocator.bucketsCount s1 - i0))
                      = Allocator.bucketsCount s1 - i0)
        by (change (Allocator.bucketsCount s1) with (Allocator.bucketsCount s);
            lia).
      pose proof (Allocate_loop_ram
                    (Z.to_nat (Allocator.bucketsCount s1 - i0)) s1 i0 n a)
        as [_ Htls].
      rewrite Hrun in Htls. cbn [snd] in Htls.
      split.
      { intros k. rewrite Htls. cbn. apply upd_self. }
      destruct (Allocate_loop_spec arch n a _ s1 i0 p s' Hg1 Hbk1 Hi0 Hfuel Hrun)
        as [[j [Hj [_ [Hne [_ [_ [Hp [Hbj [Hbo Hgen]]]]]]]]]
           | [_ [Hgen Hbo]]].
      * left. exists j. split; [exact Hj|]. split; [exact Hne|].
        split; [exact Hp|]. split; [exact Hbj|]. split; [exact Hbo | exact Hgen].
      * right. split; [exact Hgen | exact Hbo].
    + left.
      assert (Hpc : pc <> 0).
      { pose proof (geo_base _ _ Hg). pose proof (geo_size _ _ Hg).
        unfold Allocator.MaxValidAlignment, region_base in *. nia. }
      destruct (Z.eqb_spec pc 0); [contradiction|]. cbn [negb] in Hrun.
      inversion Hrun; subst p s'. repeat split; assumption.
  - right. cbn [negb Z.eqb] in Hrun.
    replace (Z.to_nat (Allocator.bucketsCount s - i0)) with O in Hrun by lia.
    cbn [Allocator.Allocate_loop] in Hrun.
    destruct (GenericAllocator.Alloc (Allocator.gAllocator s) n a)
      as [q g] eqn:Eg.
    inversion Hrun; subst p s'.
    split; [intros k; reflexivity|]. right. split; [reflexivity|].
    intros k. reflexivity.
Qed.

(** X20. A block that [Alloc] returns from the arena
    was a free slot of its bucket, in the thread cache or on the freelist,
    and is a free slot no more: the free slots of that bucket are the ones
    before without the returned one, and those of every other bucket are
    as before. A request that is passed to the generic allocator leaves the
    free slots of all buckets as they are. The state stays well formed. *)
Theorem Allocate_takes_free_slot s n a p s' :
  wf arch s -> 0 < n -> 0 < a ->
  Allocator.Alloc s n a = (p, s') ->
  wf arch s' /\
  ((exists j,
      0 <= j < Allocator.bucketsCount s /\
      Allocator.GetBucketIndex arch s' p = j /\
      (forall fs, free_slots s j fs ->
         exists fs1 fs2,
           fs = fs1 ++ (p - region_base s j) :: fs2 /\
           free_slots s' j (fs1 ++ fs2)) /\
      (forall k fs, k <> j -> free_slots s k fs -> free_slots s' k fs) /\
      Allocator.gAllocator s' = Allocator.gAllocator s)
   \/
   (GenericAllocator.Alloc (Allocator.gAllocator s) n a
    = (p, Allocator.gAllocator s') /\
    (forall k fs, free_slots s k fs -> free_slots s' k fs))).
Proof.
  intros Hwf Hn Ha Hrun. unfold Allocator.Alloc in Hrun.
  pose proof (Allocate_wf arch s n a Hwf Hn Ha) as Hwf'.
  rewrite Hrun in Hwf'. cbn [snd] in Hwf'. split; [exact Hwf'|].
  pose proof (wf_geometry _ _ Hwf) as Hg.
  pose proof (geo_size _ _ Hg) as Hsz.
  destruct (Allocate_cases arch s n a Hwf Hn Ha p s' Hrun) as [Hsa [Hram _]].
  assert (Hkeep : forall k fs,
            Allocator.buckets s' k = Allocator.buckets s k ->
            Allocator.tls s' k = Allocator.tls s k ->
            free_slots s k fs -> free_slots s' k fs).
  { intros k fs Hb Ht. apply free_slots_ext; try assumption.
    intros x _. now rewrite Hram. }
  assert (Hi0 : 0 <= Z.shiftr (Z.max n a - 1) 4)
    by (apply Z.shiftr_nonneg; lia).
  destruct (Allocate_outcome s n a p s' Hwf Hn Ha Hrun)
    as [[Hlt [Hp [Hp0 Hs']]] | [Htls [[j [Hj [Hne [Hp [Hbj [Hbo Hgen]]]]]] | [Hgen Hbo]]]].
  - (* from the thread cache *)
    left. set (i0 := Z.shiftr (Z.max n a - 1) 4) in *.
    assert (Hin : 0 <= i0 < Allocator.bucketsCount s) by lia.
    pose proof (wf_caches _ _ Hwf i0 Hin) as Hc.
    destruct Hc as [H0 [H1 [Hm [Hw _]]]].
    set (c := Allocator.tls s i0) in *.
    assert (Hcr : counters_in_range arch c) by (split; lia).
    pose proof (AllocFromCache_cases arch c Hcr) as Hcases.
    assert (Harr : TlsPoolBucket.storageL0 (snd (Allocator.AllocFromCache c))
                   = TlsPoolBucket.storageL0 c /\
                   TlsPoolBucket.pStorageL1 (snd (Allocator.AllocFromCache c))
                   = TlsPoolBucket.pStorageL1 c).
    { unfold Allocator.AllocFromCache.
      destruct (TlsPoolBucket.numElementsL0 c >? 0);
        [|destruct (TlsPoolBucket.numElementsL1 c >? 0)];
        split; reflexivity. }
    destruct (Allocator.AllocFromCache c) as [pc c'] eqn:Epop.
    cbn [fst snd] in *. subst pc.
    assert (Hwired : TlsPoolBucket.pBucketData c = region_base s i0).
    { destruct Hw as [[Hz0 [Hz1 _]] | [Hw _]]; [|exact Hw].
      destruct Hcases as [[Hx _] | [[_ [Hx _]] | [_ [_ [_ Hx]]]]]; lia. }
    assert (Hregion : region_base s i0 <= p < region_base s (i0 + 1)).
    { pose proof (cache_pop_in_region arch s i0 (wf_caches _ _ Hwf i0 Hin)) as Hr.
      fold c in Hr. rewrite Epop in Hr. destruct Hr as [[Hr _] | Hr]; lia. }
    destruct (in_region_facts arch s s' p i0 Hg Hsa Hin Hregion) as [_ [Hidx _]].
    exists i0. split; [exact Hin|]. split; [exact Hidx|].
    assert (Htls' : Allocator.tls s' i0 = c')
      by (rewrite Hs'; cbn; apply upd_same).
    assert (Hbk : forall k, Allocator.buckets s' k = Allocator.buckets s k)
      by (intros k; rewrite Hs'; reflexivity).
    destruct Harr as [HaL0 HaL1].
    split; [|split].
    + intros fs [l [Hfl ->]].
      assert (Hfl' : freelist (Allocator.ram s') (region_base s' i0)
                       (Allocator.bucketSizeInBytes s')
                       (PoolBucket.head (Allocator.buckets s' i0)) l).
      { rewrite Hram, Hbk, (region_base_same_arena s s' i0 Hsa).
        destruct Hsa as [_ [-> _]]. exact Hfl. }
      unfold cached. fold c.
      destruct Hcases as [[Hx [Hn0 [Hn1 Hpv]]]
                         | [[Hz [Hx [Hn0 [Hn1 Hpv]]]] | [_ [_ [_ Hx]]]]];
        [| |contradiction].
      * exists (slice (TlsPoolBucket.storageL0 c) 0
                      (Z.to_nat (TlsPoolBucket.numElementsL0 c - 1))),
               (slice (TlsPoolBucket.pStorageL1 c) 0
                      (Z.to_nat (TlsPoolBucket.numElementsL1 c)) ++ l).
        split.
        -- rewrite (slice_snoc _ _ Hx), <- !app_assoc. cbn [app].
           do 2 f_equal. rewrite Hpv, Hwired. ring.
        -- exists l. split; [exact Hfl'|].
           rewrite Htls'. unfold cached. rewrite HaL0, HaL1, Hn0, Hn1.
           now rewrite app_assoc.
      * exists (slice (TlsPoolBucket.pStorageL1 c) 0
                      (Z.to_nat (TlsPoolBucket.numElementsL1 c - 1))), l.
        split.
        -- rewrite Hz. cbn [Z.to_nat slice app].
           rewrite (slice_snoc _ _ Hx), <- !app_assoc. cbn [app].
           do 2 f_equal. rewrite Hpv, Hwired. ring.
        -- exists l. split; [exact Hfl'|].
           rewrite Htls'. unfold cached. rewrite HaL0, HaL1, Hn0, Hn1.
           reflexivity.
    + intros k fs Hk. apply Hkeep; [apply Hbk|].
      rewrite Hs'. cbn. now apply upd_other.
    + rewrite Hs'. reflexivity.
  - (* from the freelist of bucket [j] *)
    left.
    assert (Hin : 0 <= j < Allocator.bucketsCount s) by lia.
    destruct (wf_buckets _ _ Hwf j Hin) as [Hd _].
    pose proof (bucket_head_in_region s j (wf_buckets _ _ Hwf j Hin) Hne)
      as Hreg. cbv zeta in Hreg.
    rewrite (PoolBucket_Alloc_pop _ _ Hne) in Hp, Hbj. cbn [fst snd] in Hp, Hbj.
    assert (Hregion : region_base s j <= p < region_base s (j + 1))
      by (rewrite Hp; lia).
    destruct (in_region_facts arch s s' p j Hg Hsa Hin Hregion) as [_ [Hidx _]].
    exists j. split; [exact Hin|]. split; [exact Hidx|].
    split; [|split; [|exact Hgen]].
    + intros fs [l [Hfl ->]].
      inversion Hfl as [Hh | u l' Hu Hlim Hrest Hh Hl]; [congruence|]. subst.
      exists (cached (Allocator.tls s j)), l'. split.
      * do 2 f_equal. rewrite Hd. ring.
      * exists l'. rewrite Htls. split; [|reflexivity].
        rewrite Hram, Hbj, (region_base_same_arena s s' j Hsa).
        destruct Hsa as [_ [-> _]]. cbn [PoolBucket.head PoolBucket.set_head].
        rewrite Hd. exact Hrest.
    + intros k fs Hk. apply Hkeep; [now apply Hbo | apply Htls].
  - right. split; [exact Hgen|].
    intros k fs. apply Hkeep; [apply Hbo | apply Htls].
Qed.

(** The state that [Free] of a slot of bucket [i] leaves, by the branch
    that [ReleaseToCache] takes and the answer it gives. Of the state only
    the arena and the thread cache for bucket [i] need to be in order. *)
Lemma Free_arena_branches s p i :
  geometry arch s -> Allocator.bucketSizeInBytes s < 2 ^ 32 ->
  0 <= i < Allocator.bucketsCount s -> cache_ok arch s i ->
  region_base s i <= p -> p + 8 <= region_base s (i + 1) ->
  let c := Allocator.tls s i in
  let o := p - region_base s i in
  let n0 := TlsPoolBucket.numElementsL0 c in
  let n1 := TlsPoolBucket.numElementsL1 c in
  let s' := Allocator.Free arch s p in
  (forall k, k <> i ->
     Allocator.buckets s' k = Allocator.buckets s k /\
     Allocator.tls s' k = Allocator.tls s k) /\
  Allocator.gAllocator s' = Allocator.gAllocator s /\
  ((fst (Allocator.ReleaseToTls arch s i p) = false /\
    TlsPoolBucket.maxElementsCount c = 0 /\
    Allocator.tls s' i = c /\
    (Allocator.ram s', Allocator.buckets s' i)
    = PoolBucket.FreeInterval (Allocator.ram s) (Allocator.buckets s i) p p)
   \/
   (fst (Allocator.ReleaseToTls arch s i p) = true /\
    n0 < SMM_MAX_CACHE_ITEMS_COUNT arch /\
    Allocator.tls s' i
    = TlsPoolBucket.set_L0 c (upd (TlsPoolBucket.storageL0 c) n0 o) (n0 + 1) /\
    Allocator.buckets s' i = Allocator.buckets s i /\
    Allocator.ram s' = Allocator.ram s)
   \/
   (fst (Allocator.ReleaseToTls arch s i p) = true /\
    exists k1,
      0 <= k1 <= n1 /\ (n1 < TlsPoolBucket.maxElementsCount c \/ n1 = 1 -> k1 = n1) /\
      (TlsPoolBucket.maxElementsCount c <= n1 -> 2 <= n1 -> k1 = n1 - n1 / 2) /\
      SMM_MAX_CACHE_ITEMS_COUNT arch <= n0 /\
      Allocator.tls s' i
      = TlsPoolBucket.set_L1 c (upd (TlsPoolBucket.pStorageL1 c) k1 o) (k1 + 1) /\
      (Allocator.buckets s' i, Allocator.ram s')
      = (snd (fst (TlsPoolBucket.ReturnL1CacheToMaster c (Allocator.buckets s i)
                     (Allocator.ram s) (n1 - k1))),
         snd (TlsPoolBucket.ReturnL1CacheToMaster c (Allocator.buckets s i)
                (Allocator.ram s) (n1 - k1))))).
Proof.
  intros Hg Hoff Hi Hc Hlo Hhi c o n0 n1 s'.
  pose proof (geo_size _ _ Hg) as Hsz.
  pose proof (K0_range arch) as HK.
  assert (Hp : region_base s i <= p < region_base s (i + 1)) by lia.
  assert (Hrel : u32 (p - region_base s i) = p - region_base s i).
  { apply u32_small. rewrite region_base_step in Hhi. lia. }
  pose proof (Free_arena_unfold arch s p i Hg Hi Hp) as Hfree.
  cbv zeta in Hfree. fold c in Hfree. fold s' in Hfree.
  destruct Hc as [H0 [H1 [Hm [Hw _]]]]. fold c in H0, H1, Hm, Hw.
  fold n0 in H0. fold n1 in H1.
  destruct (Z.eq_dec (TlsPoolBucket.maxElementsCount c) 0) as [Hmax | Hmax].
  - assert (Hr : Allocator.ReleaseToCache arch true c
                   (Allocator.buckets s (TlsPoolBucket.pBucket c))
                   (Allocator.ram s) p
                 = (false, (c, Allocator.buckets s (TlsPoolBucket.pBucket c),
                            Allocator.ram s)))
      by (unfold Allocator.ReleaseToCache; rewrite Hmax; reflexivity).
    assert (Hfst : fst (Allocator.ReleaseToTls arch s i p) = false).
    { unfold Allocator.ReleaseToTls. cbv zeta. fold c. rewrite Hr. reflexivity. }
    rewrite Hr in Hfree. cbn [fst] in Hfree.
    destruct (PoolBucket.FreeInterval (Allocator.ram s) (Allocator.buckets s i) p p)
      as [m' b'] eqn:Efi.
    cbn [fst snd] in Hfree. rewrite Hfree.
    split; [|split; [reflexivity|]].
    + intros k Hk. cbn. split; [now apply upd_other | reflexivity].
    + left. split; [exact Hfst|]. split; [exact Hmax|]. split; [reflexivity|].
      cbn. now rewrite upd_same.
  - assert (Hwired : TlsPoolBucket.pBucketData c = region_base s i /\
                     TlsPoolBucket.pBucket c = i)
      by (destruct Hw as [[_ [_ Hz]] | Hw]; [lia | exact Hw]).
    destruct Hwired as [Hcd Hcb].
    destruct (ReleaseToCache_cases arch c
                (Allocator.buckets s (TlsPoolBucket.pBucket c))
                (Allocator.ram s) p ltac:(lia) ltac:(lia) ltac:(lia))
      as [Hok Hcases].
    assert (Hfst : fst (Allocator.ReleaseToTls arch s i p) = true).
    { unfold Allocator.ReleaseToTls. cbv zeta. fold c. revert Hok.
      destruct (Allocator.ReleaseToCache arch true c
                  (Allocator.buckets s (TlsPoolBucket.pBucket c))
                  (Allocator.ram s) p) as [ok [[c' b'] m']].
      cbn [fst]. intros ->. reflexivity. }
    cbv zeta in Hcases. rewrite Hcd, Hrel, Hcb in Hcases.
    rewrite Hok, Hcb in Hfree. fold o n0 n1 in Hcases.
    rewrite Hfree.
    split; [|split; [reflexivity|]].
    + intros k Hk. cbn. split; now apply upd_other.
    + cbn [Allocator.tls Allocator.buckets Allocator.ram]. rewrite !upd_same.
      destruct Hcases as [[Hroom Hr] | [[Hf0 [Hroom Hr]]
                         | [[Hf0 [Hfull [Htwo Hr]]] | [Hf0 [Hfull [Hone Hr]]]]]];
        rewrite Hr; cbn [fst snd].
      * right. left. split; [exact Hfst|]. repeat split; try reflexivity.
        exact Hroom.
      * right. right. split; [exact Hfst|]. exists n1.
        replace (n1 - n1) with 0 by ring.
        split; [lia|]. split; [intros _; reflexivity|]. split; [intros; lia|].
        split; [exact Hf0|]. split; reflexivity.
      * right. right. split; [exact Hfst|]. exists (n1 - n1 / 2).
        assert (Hhalf : 0 < n1 / 2 <= n1).
        { split; [apply Z.div_str_pos; lia | apply Z.div_le_upper_bound; lia]. }
        replace (n1 - (n1 - n1 / 2)) with (n1 / 2) by ring.
        split; [lia|]. split; [intros [H | H]; lia|].
        split; [intros; reflexivity|]. split; [exact Hf0|].
        split; reflexivity.
      * right. right. split; [exact Hfst|]. exists n1.
        replace (n1 - n1) with 0 by ring.
        split; [lia|]. split; [intros _; reflexivity|]. split; [intros; lia|].
        split; [exact Hf0|]. rewrite Hone. split; reflexivity.
Qed.

(** The same for a well-formed state, without the answer. *)
Lemma Free_arena_pieces s p i :
  wf arch s -> 0 <= i < Allocator.bucketsCount s ->
  region_base s i <= p -> p + 8 <= region_base s (i + 1) ->
  let c := Allocator.tls s i in
  let o := p - region_base s i in
  let n0 := TlsPoolBucket.numElementsL0 c in
  let n1 := TlsPoolBucket.numElementsL1 c in
  let s' := Allocator.Free arch s p in
  (forall k, k <> i ->
     Allocator.buckets s' k = Allocator.buckets s k /\
     Allocator.tls s' k = Allocator.tls s k) /\
  Allocator.gAllocator s' = Allocator.gAllocator s /\
  ((TlsPoolBucket.maxElementsCount c = 0 /\
    Allocator.tls s' i = c /\
    (Allocator.ram s', Allocator.buckets s' i)
    = PoolBucket.FreeInterval (Allocator.ram s) (Allocator.buckets s i) p p)
   \/
   (n0 < SMM_MAX_CACHE_ITEMS_COUNT arch /\
    Allocator.tls s' i
    = TlsPoolBucket.set_L0 c (upd (TlsPoolBucket.storageL0 c) n0 o) (n0 + 1) /\
    Allocator.buckets s' i = Allocator.buckets s i /\
    Allocator.ram s' = Allocator.ram s)
   \/
   (exists k1,
      0 <= k1 <= n1 /\ (n1 < TlsPoolBucket.maxElementsCount c \/ n1 = 1 -> k1 = n1) /\
      (TlsPoolBucket.maxElementsCount c <= n1 -> 2 <= n1 -> k1 = n1 - n1 / 2) /\
      SMM_MAX_CACHE_ITEMS_COUNT arch <= n0 /\
      Allocator.tls s' i
      = TlsPoolBucket.set_L1 c (upd (TlsPoolBucket.pStorageL1 c) k1 o) (k1 + 1) /\
      (Allocator.buckets s' i, Allocator.ram s')
      = (snd (fst (TlsPoolBucket.ReturnL1CacheToMaster c (Allocator.buckets s i)
                     (Allocator.ram s) (n1 - k1))),
         snd (TlsPoolBucket.ReturnL1CacheToMaster c (Allocator.buckets s i)
                (Allocator.ram s) (n1 - k1))))).
Proof.
  intros Hwf Hi Hlo Hhi.
  destruct (Free_arena_branches s p i (wf_geometry _ _ Hwf) (wf_offsets _ _ Hwf)
              Hi (wf_caches _ _ Hwf i Hi) Hlo Hhi)
    as [Hoth [Hgen [[_ H] | [[_ H] | [_ H]]]]].
  - split; [exact Hoth|]. split; [exact Hgen|]. left. exact H.
  - split; [exact Hoth|]. split; [exact Hgen|]. right. left. exact H.
  - split; [exact Hoth|]. split; [exact Hgen|]. right. right. exact H.
Qed.

Lemma all_apart_drop o A B :
  all_apart (o :: A ++ B) -> all_apart (o :: B).
Proof.
  cbn [all_apart]. intros [H1 H2]. split.
  - intros o' Ho'. apply H1. apply in_or_app. now right.
  - exact (all_apart_app_r A B H2).
Qed.

(** X21. [Free] of a slot of the arena that is not free
    already makes it a free slot of its bucket: the free slots of the
    bucket are the ones before with the freed one put in (whether the
    thread cache took it, flushed part of L1 to make room, or refused it
    and the slot went to the freelist), and those of every other bucket are
    as before. The generic allocator is not called and the state stays
    well formed. *)
Theorem Free_returns_slot s p i fs :
  wf arch s -> 0 <= i < Allocator.bucketsCount s ->
  region_base s i <= p -> p + 8 <= region_base s (i + 1) ->
  0 <= PoolBucket.head (Allocator.buckets s i) < 2 ^ 64 ->
  free_slots s i fs -> all_apart ((p - region_base s i) :: fs) ->
  let s' := Allocator.Free arch s p in
  wf arch s' /\
  (exists fs1 fs2,
     fs = fs1 ++ fs2 /\
     free_slots s' i (fs1 ++ (p - region_base s i) :: fs2)) /\
  (forall k fsk, k <> i -> free_slots s k fsk -> free_slots s' k fsk) /\
  Allocator.gAllocator s' = Allocator.gAllocator s.
Proof.
  intros Hwf Hi Hlo Hhi Hh [l [Hfl ->]] Hap s'.
  pose proof (wf_geometry _ _ Hwf) as Hg.
  pose proof (geo_size _ _ Hg) as Hsz.
  pose proof (wf_offsets _ _ Hwf) as Hoff.
  pose proof (wf_caches _ _ Hwf i Hi) as Hc.
  destruct (wf_buckets _ _ Hwf i Hi) as [Hd _].
  pose proof (Free_same_arena arch s p) as Hsa. fold s' in Hsa.
  pose proof (fun x => Free_frame arch s p i x Hg Hi Hc Hlo Hhi) as Hframe.
  fold s' in Hframe.
  destruct (Free_arena_pieces s p i Hwf Hi Hlo Hhi) as [Hoth [Hgen Hcases]].
  cbv zeta in Hoth, Hgen, Hcases. fold s' in Hoth, Hgen, Hcases.
  set (c := Allocator.tls s i) in *.
  set (o := p - region_base s i) in *.
  assert (Hrange : 0 <= o /\ o + 8 <= Allocator.bucketSizeInBytes s)
    by (subst o; rewrite region_base_step in Hhi; lia).
  unfold cached in Hap. fold c in Hap. rewrite <- app_assoc in Hap.
  pose proof (all_apart_drop _ _ _ Hap) as Hap1.
  split.
  { apply (Free_wf arch s p i l Hwf Hi Hlo Hhi Hfl Hh). exact Hap1. }
  split; [|split; [|exact Hgen]].
  2: { intros k fsk Hk. destruct (Hoth k Hk) as [Hb Ht].
       apply free_slots_ext; try assumption.
       intros x Hx. apply Hframe.
       destruct (Z_lt_le_dec k i) as [Hlt | Hgt].
       - left. pose proof (region_base_mono s (k + 1) i Hsz ltac:(lia)). lia.
       - right. pose proof (region_base_mono s (i + 1) k Hsz ltac:(lia)). lia. }
  assert (Hbase : region_base s' i = region_base s i)
    by (apply region_base_same_arena; exact Hsa).
  assert (Hbsz : Allocator.bucketSizeInBytes s' = Allocator.bucketSizeInBytes s)
    by (destruct Hsa as [_ [H _]]; exact H).
  destruct Hc as [H0 [H1 [Hm [Hw [HL0 HL1]]]]]. fold c in H0, H1, Hm, Hw, HL0, HL1.
  unfold free_slots, cached. rewrite Hbase, Hbsz. fold c.
  set (L0s := slice (TlsPoolBucket.storageL0 c) 0
                    (Z.to_nat (TlsPoolBucket.numElementsL0 c))) in *.
  set (L1s := slice (TlsPoolBucket.pStorageL1 c) 0
                    (Z.to_nat (TlsPoolBucket.numElementsL1 c))) in *.
  destruct Hcases as [[Hmax [Ht Hfi]] | [[Hroom [Ht [Hb Hr]]]
                     | [k1 [Hk1 [Hk1a [Hk1b [Hf0 [Ht Hbr]]]]]]]].
  - (* refused by the cache: onto the freelist *)
    pose proof (FreeInterval_prepends (Allocator.ram s) (Allocator.buckets s i)
                  (Allocator.bucketSizeInBytes s) o l
                  ltac:(rewrite Hd; exact Hfl) Hh ltac:(lia) ltac:(lia) Hoff
                  ltac:(intros o' Ho'; apply (proj1 Hap1);
                        apply in_or_app; right; exact Ho')) as Hpre.
    cbv zeta in Hpre. rewrite Hd in Hpre.
    replace (region_base s i + o) with p in Hpre by (subst o; ring).
    rewrite <- Hfi in Hpre.
    assert (Hpd : PoolBucket.pData (Allocator.buckets s' i) = region_base s i).
    { replace (Allocator.buckets s' i)
        with (snd (PoolBucket.FreeInterval (Allocator.ram s)
                     (Allocator.buckets s i) p p))
        by (rewrite <- Hfi; reflexivity).
      unfold PoolBucket.FreeInterval. cbn. exact Hd. }
    rewrite Hpd in Hpre.
    exists (L0s ++ L1s), l. split; [reflexivity|].
    exists (o :: l). split; [exact Hpre|]. rewrite Ht. fold L0s L1s.
    now rewrite <- app_assoc.
  - (* into L0 *)
    exists L0s, (L1s ++ l). split; [now rewrite app_assoc|].
    exists l. rewrite Hr, Hb, Ht. split; [exact Hfl|].
    unfold TlsPoolBucket.set_L0.
    cbn [TlsPoolBucket.storageL0 TlsPoolBucket.pStorageL1
         TlsPoolBucket.numElementsL0 TlsPoolBucket.numElementsL1].
    rewrite slice_upd_snoc by lia. fold L0s L1s.
    rewrite <- !app_assoc. reflexivity.
  - (* into L1, after a flush if L1 was full *)
    set (n1 := TlsPoolBucket.numElementsL1 c) in *.
    set (ret := slice (TlsPoolBucket.pStorageL1 c) k1 (Z.to_nat (n1 - k1))).
    assert (Hsplit : L1s = slice (TlsPoolBucket.pStorageL1 c) 0 (Z.to_nat k1)
                           ++ ret).
    { subst L1s ret.
      replace (Z.to_nat n1) with (Z.to_nat k1 + Z.to_nat (n1 - k1))%nat by lia.
      rewrite slice_app. do 2 f_equal. lia. }
    exists (L0s ++ slice (TlsPoolBucket.pStorageL1 c) 0 (Z.to_nat k1)), (ret ++ l).
    split; [rewrite Hsplit, <- !app_assoc; reflexivity|].
    exists (ret ++ l). split.
    + injection Hbr as Hb Hr. rewrite Hb, Hr.
      assert (Hwired : TlsPoolBucket.pBucketData c = region_base s i).
      { destruct Hw as [[Hz _] | [Hw _]]; [|exact Hw].
        pose proof (K0_range arch). lia. }
      assert (Hmin : Z.min (n1 - k1) n1 = n1 - k1) by lia.
      pose proof (ReturnL1CacheToMaster_list c (Allocator.buckets s i)
                    (Allocator.ram s) (n1 - k1) (Allocator.bucketSizeInBytes s) l
                    ltac:(lia) ltac:(lia) ltac:(rewrite Hwired, Hd; reflexivity)
                    Hoff Hh) as Hfl'.
      cbv zeta in Hfl'. fold n1 in Hfl'. rewrite Hmin in Hfl'.
      replace (n1 - (n1 - k1)) with k1 in Hfl' by ring. fold ret in Hfl'.
      destruct Hfl' as [Hlist [Hpd _]].
      * intros o' Ho'. apply In_slice in Ho'. destruct Ho' as [k [Hk ->]].
        apply HL1. fold n1. lia.
      * cbn [all_apart] in Hap. destruct Hap as [_ Hap].
        apply all_apart_app_r in Hap. rewrite Hsplit, <- app_assoc in Hap.
        exact (all_apart_app_r _ _ Hap).
      * rewrite Hd. exact Hfl.
      * rewrite Hpd, Hd in Hlist. exact Hlist.
    + rewrite Ht. unfold TlsPoolBucket.set_L1.
      cbn [TlsPoolBucket.storageL0 TlsPoolBucket.pStorageL1
           TlsPoolBucket.numElementsL0 TlsPoolBucket.numElementsL1].
      rewrite slice_upd_snoc by lia. fold L0s.
      rewrite <- !app_assoc. reflexivity.
Qed.

End FreeSlots.

Lemma freelist_check_sound m pData lim l : forall u,
  freelist_check m pData lim u l = true -> freelist m pData lim u l.
Proof.
  induction l as [|o l IH]; intros u H; cbn [freelist_check] in H.
  - apply Z.eqb_eq in H. subst u. constructor.
  - apply andb_true_iff in H. destruct H as [H Hrest].
    apply andb_true_iff in H. destruct H as [H Hlim].
    apply andb_true_iff in H. destruct H as [Hne Hoff].
    apply negb_true_iff in Hne. apply Z.eqb_neq in Hne.
    apply Z.eqb_eq in Hoff. apply Z.leb_le in Hlim. subst o.
    constructor; [exact Hne | exact Hlim |]. now apply IH.
Qed.

Lemma small_Init_ok : Init_ok X64 (65536 : Z) 2 64.
Proof. unfold Init_ok. by_computation. Qed.

Lemma small_fresh_wf : wf X64 small_fresh.
Proof.
  exact (proj1 (Init_fresh X64 65536 (fun _ => 0) 2 64 (fun _ _ => 0)
                  small_Init_ok)).
Qed.

Lemma small_used_wf : wf X64 small_used.
Proof.
  unfold small_used, Allocator.Alloc.
  apply Allocate_wf; [exact small_fresh_wf | lia | lia].
Qed.

Lemma small_alloc_run : Allocator.Alloc small_fresh 16 16 = (small_ptr, small_used).
Proof.
  unfold small_ptr, small_used. now destruct (Allocator.Alloc small_fresh 16 16).
Qed.

Lemma small_used_free_slots : free_slots small_used 0 [16; 32; 48].
Proof.
  exists [16; 32; 48]. split; [|reflexivity].
  apply freelist_check_sound. vm_compute. reflexivity.
Qed.

(** X20 at the first [alloc(16, 16)] of the small
    allocator. *)
Lemma Allocate_takes_free_slot_witness :
  wf X64 small_fresh /\ 0 < 16 /\ 0 < 16 /\
  Allocator.Alloc small_fresh 16 16 = (small_ptr, small_used) /\
  wf X64 small_used /\
  ((exists j,
      0 <= j < Allocator.bucketsCount small_fresh /\
      Allocator.GetBucketIndex X64 small_used small_ptr = j /\
      (forall fs, free_slots small_fresh j fs ->
         exists fs1 fs2,
           fs = fs1 ++ (small_ptr - region_base small_fresh j) :: fs2 /\
           free_slots small_used j (fs1 ++ fs2)) /\
      (forall k fs, k <> j -> free_slots small_fresh k fs ->
                    free_slots small_used k fs) /\
      Allocator.gAllocator small_used = Allocator.gAllocator small_fresh)
   \/
   (GenericAllocator.Alloc (Allocator.gAllocator small_fresh) 16 16
    = (small_ptr, Allocator.gAllocator small_used) /\
    (forall k fs, free_slots small_fresh k fs -> free_slots small_used k fs))).
Proof.
  assert (H1 : 0 < 16) by lia.
  split; [exact small_fresh_wf|]. split; [exact H1|]. split; [exact H1|].
  split; [exact small_alloc_run|].
  exact (Allocate_takes_free_slot X64 small_fresh 16 16 small_ptr small_used
           small_fresh_wf H1 H1 small_alloc_run).
Defined.

(** X21 at the free of that block. *)
Lemma Free_returns_slot_witness :
  wf X64 small_used /\ 0 <= 0 < Allocator.bucketsCount small_used /\
  region_base small_used 0 <= small_ptr /\
  small_ptr + 8 <= region_base small_used (0 + 1) /\
  0 <= PoolBucket.head (Allocator.buckets small_used 0) < 2 ^ 64 /\
  free_slots small_used 0 [16; 32; 48] /\
  all_apart ((small_ptr - region_base small_used 0) :: [16; 32; 48]) /\
  let s' := Allocator.Free X64 small_used small_ptr in
  wf X64 s' /\
  (exists fs1 fs2,
     [16; 32; 48] = fs1 ++ fs2 /\
     free_slots s' 0 (fs1 ++ (small_ptr - region_base small_used 0) :: fs2)) /\
  (forall k fsk, k <> 0 -> free_slots small_used k fsk -> free_slots s' k fsk) /\
  Allocator.gAllocator s' = Allocator.gAllocator small_used.
Proof.
  assert (H1 : 0 <= 0 < Allocator.bucketsCount small_used) by by_computation.
  assert (H2 : region_base small_used 0 <= small_ptr) by by_computation.
  assert (H3 : small_ptr + 8 <= region_base small_used (0 + 1)) by by_computation.
  assert (H4 : 0 <= PoolBucket.head (Allocator.buckets small_used 0) < 2 ^ 64)
    by by_computation.
  assert (H5 : all_apart ((small_ptr - region_base small_used 0) :: [16; 32; 48])).
  { replace (small_ptr - region_base small_used 0) with 0
      by (vm_compute; reflexivity).
    cbn. unfold apart. repeat split; try (intros o' H; intuition lia). }
  split; [exact small_used_wf|]. split; [exact H1|]. split; [exact H2|].
  split; [exact H3|]. split; [exact H4|]. split; [exact small_used_free_slots|].
  split; [exact H5|].
  exact (Free_returns_slot X64 small_used small_ptr 0 [16; 32; 48]
           small_used_wf H1 H2 H3 H4 small_used_free_slots H5).
Defined.

(** ** Where a freed slot goes *)

Section FreeEffect.
Context {G : Type} {GA : GenericAllocator.Ops G}.
Variable arch : Arch.
Implicit Types (s : Allocator.t G) (c : TlsPoolBucket.t) (m : mem).

(** [Free] of a slot of bucket [i] that is not free already. When the
    thread cache takes the slot, its offset is in the cache afterwards, and
    the cache and the freelist together hold what they held and the slot;
    when the cache refuses, the cache is as before and the slot is the new
    first node of the freelist. Of the state only the arena, bucket [i] and
    the thread cache for it need to be in order. *)
Lemma Free_slot_local s p i l :
  geometry arch s -> Allocator.bucketSizeInBytes s < 2 ^ 32 ->
  0 <= i < Allocator.bucketsCount s ->
  PoolBucket.pData (Allocator.buckets s i) = region_base s i ->
  cache_ok arch s i ->
  region_base s i <= p -> p + 8 <= region_base s (i + 1) ->
  0 <= PoolBucket.head (Allocator.buckets s i) < 2 ^ 64 ->
  freelist (Allocator.ram s) (region_base s i) (Allocator.bucketSizeInBytes s)
           (PoolBucket.head (Allocator.buckets s i)) l ->
  all_apart ((p - region_base s i) :: cached (Allocator.tls s i) ++ l) ->
  let o := p - region_base s i in
  let s' := Allocator.Free arch s p in
  exists l',
    freelist (Allocator.ram s') (region_base s i) (Allocator.bucketSizeInBytes s)
             (PoolBucket.head (Allocator.buckets s' i)) l' /\
    if fst (Allocator.ReleaseToTls arch s i p)
    then In o (cached (Allocator.tls s' i)) /\
         exists fs1 fs2,
           cached (Allocator.tls s i) ++ l = fs1 ++ fs2 /\
           cached (Allocator.tls s' i) ++ l' = fs1 ++ o :: fs2
    else Allocator.tls s' i = Allocator.tls s i /\ l' = o :: l.
Proof.
  intros Hg Hoff Hi Hd Hc Hlo Hhi Hh Hfl Hap o s'.
  pose proof (geo_size _ _ Hg) as Hsz.
  destruct (Free_arena_branches arch s p i Hg Hoff Hi Hc Hlo Hhi)
    as [_ [_ Hcases]].
  cbv zeta in Hcases. fold s' in Hcases. fold o in Hcases, Hap.
  set (c := Allocator.tls s i) in *.
  assert (Hrange : 0 <= o /\ o + 8 <= Allocator.bucketSizeInBytes s)
    by (subst o; rewrite region_base_step in Hhi; lia).
  unfold cached in Hap. rewrite <- app_assoc in Hap.
  pose proof (all_apart_drop _ _ _ Hap) as Hap1.
  destruct Hc as [H0 [H1 [Hm [Hw [HL0 HL1]]]]].
  fold c in H0, H1, Hm, Hw, HL0, HL1.
  set (L0s := slice (TlsPoolBucket.storageL0 c) 0
                    (Z.to_nat (TlsPoolBucket.numElementsL0 c))) in *.
  set (L1s := slice (TlsPoolBucket.pStorageL1 c) 0
                    (Z.to_nat (TlsPoolBucket.numElementsL1 c))) in *.
  assert (Hcached : cached c = L0s ++ L1s) by reflexivity.
  destruct Hcases as [[Hfst [Hmax [Ht Hfi]]] | [[Hfst [Hroom [Ht [Hb Hr]]]]
                     | [Hfst [k1 [Hk1 [Hk1a [Hk1b [Hf0 [Ht Hbr]]]]]]]]];
    rewrite Hfst.
  - (* refused by the cache: onto the freelist *)
    exists (o :: l). split; [|split; [exact Ht | reflexivity]].
    pose proof (FreeInterval_prepends (Allocator.ram s) (Allocator.buckets s i)
                  (Allocator.bucketSizeInBytes s) o l
                  ltac:(rewrite Hd; exact Hfl) Hh ltac:(lia) ltac:(lia) Hoff
                  ltac:(intros o' Ho'; apply (proj1 Hap1);
                        apply in_or_app; right; exact Ho')) as Hpre.
    cbv zeta in Hpre. rewrite Hd in Hpre.
    replace (region_base s i + o) with p in Hpre by (subst o; ring).
    rewrite <- Hfi in Hpre.
    assert (Hpd : PoolBucket.pData (Allocator.buckets s' i) = region_base s i).
    { replace (Allocator.buckets s' i)
        with (snd (PoolBucket.FreeInterval (Allocator.ram s)
                     (Allocator.buckets s i) p p))
        by (rewrite <- Hfi; reflexivity).
      unfold PoolBucket.FreeInterval. cbn. exact Hd. }
    rewrite Hpd in Hpre. exact Hpre.
  - (* into L0 *)
    exists l. split; [rewrite Hr, Hb; exact Hfl|].
    assert (Hc' : cached (Allocator.tls s' i) = (L0s ++ [o]) ++ L1s).
    { rewrite Ht. unfold cached, TlsPoolBucket.set_L0.
      cbn [TlsPoolBucket.storageL0 TlsPoolBucket.pStorageL1
           TlsPoolBucket.numElementsL0 TlsPoolBucket.numElementsL1].
      rewrite slice_upd_snoc by lia. reflexivity. }
    rewrite Hc', Hcached. split.
    + apply in_or_app. left. apply in_or_app. right. now left.
    + exists L0s, (L1s ++ l). split; [now rewrite app_assoc|].
      rewrite <- !app_assoc. reflexivity.
  - (* into L1, after a flush if L1 was full *)
    set (n1 := TlsPoolBucket.numElementsL1 c) in *.
    set (kept := slice (TlsPoolBucket.pStorageL1 c) 0 (Z.to_nat k1)).
    set (ret := slice (TlsPoolBucket.pStorageL1 c) k1 (Z.to_nat (n1 - k1))).
    assert (Hsplit : L1s = kept ++ ret).
    { subst L1s kept ret.
      replace (Z.to_nat n1) with (Z.to_nat k1 + Z.to_nat (n1 - k1))%nat by lia.
      rewrite slice_app. do 2 f_equal. lia. }
    exists (ret ++ l). split.
    + injection Hbr as Hb Hr. rewrite Hb, Hr.
      assert (Hwired : TlsPoolBucket.pBucketData c = region_base s i).
      { destruct Hw as [[Hz _] | [Hw _]]; [|exact Hw].
        pose proof (K0_range arch). lia. }
      assert (Hmin : Z.min (n1 - k1) n1 = n1 - k1) by lia.
      pose proof (ReturnL1CacheToMaster_list c (Allocator.buckets s i)
                    (Allocator.ram s) (n1 - k1) (Allocator.bucketSizeInBytes s) l
                    ltac:(lia) ltac:(lia) ltac:(rewrite Hwired, Hd; reflexivity)
                    Hoff Hh) as Hfl'.
      cbv zeta in Hfl'. fold n1 in Hfl'. rewrite Hmin in Hfl'.
      replace (n1 - (n1 - k1)) with k1 in Hfl' by ring. fold ret in Hfl'.
      destruct Hfl' as [Hlist [Hpd _]].
      * intros o' Ho'. apply In_slice in Ho'. destruct Ho' as [k [Hk ->]].
        apply HL1. fold n1. lia.
      * cbn [all_apart] in Hap. destruct Hap as [_ Hap].
        apply all_apart_app_r in Hap. rewrite Hsplit, <- app_assoc in Hap.
        exact (all_apart_app_r _ _ Hap).
      * rewrite Hd. exact Hfl.
      * rewrite Hpd, Hd in Hlist. exact Hlist.
    + assert (Hc' : cached (Allocator.tls s' i) = L0s ++ (kept ++ [o])).
      { rewrite Ht. unfold cached, TlsPoolBucket.set_L1.
        cbn [TlsPoolBucket.storageL0 TlsPoolBucket.pStorageL1
             TlsPoolBucket.numElementsL0 TlsPoolBucket.numElementsL1].
        rewrite slice_upd_snoc by lia. reflexivity. }
      rewrite Hc', Hcached, Hsplit. split.
      * apply in_or_app. right. apply in_or_app. right. now left.
      * exists (L0s ++ kept), (ret ++ l).
        split; rewrite <- !app_assoc; reflexivity.
Qed.

(** Either way the slot has joined the free slots of its bucket. *)
Lemma Free_slot_joins s p i l :
  geometry arch s -> Allocator.bucketSizeInBytes s < 2 ^ 32 ->
  0 <= i < Allocator.bucketsCount s ->
  PoolBucket.pData (Allocator.buckets s i) = region_base s i ->
  cache_ok arch s i ->
  region_base s i <= p -> p + 8 <= region_base s (i + 1) ->
  0 <= PoolBucket.head (Allocator.buckets s i) < 2 ^ 64 ->
  freelist (Allocator.ram s) (region_base s i) (Allocator.bucketSizeInBytes s)
           (PoolBucket.head (Allocator.buckets s i)) l ->
  all_apart ((p - region_base s i) :: cached (Allocator.tls s i) ++ l) ->
  exists fs1 fs2,
    cached (Allocator.tls s i) ++ l = fs1 ++ fs2 /\
    free_slots (Allocator.Free arch s p) i
               (fs1 ++ (p - region_base s i) :: fs2).
Proof.
  intros Hg Hoff Hi Hd Hc Hlo Hhi Hh Hfl Hap.
  destruct (Free_slot_local s p i l Hg Hoff Hi Hd Hc Hlo Hhi Hh Hfl Hap)
    as [l' [Hfl' Hbranch]].
  pose proof (Free_same_arena arch s p) as Hsa.
  assert (Hbase : region_base (Allocator.Free arch s p) i = region_base s i)
    by (apply region_base_same_arena; exact Hsa).
  assert (Hbsz : Allocator.bucketSizeInBytes (Allocator.Free arch s p)
                 = Allocator.bucketSizeInBytes s)
    by (destruct Hsa as [_ [H _]]; exact H).
  unfold free_slots. rewrite Hbase, Hbsz.
  destruct (fst (Allocator.ReleaseToTls arch s i p)).
  - destruct Hbranch as [_ [fs1 [fs2 [E1 E2]]]].
    exists fs1, fs2. split; [exact E1|].
    exists l'. split; [exact Hfl' | symmetry; exact E2].
  - destruct Hbranch as [Ht ->].
    exists (cached (Allocator.tls s i)), l. split; [reflexivity|].
    exists ((p - region_base s i) :: l). split; [exact Hfl'|].
    now rewrite Ht.
Qed.

(** C3. [free(p)] does nothing for [p <= 16384] (null included). For [p]
    in the arena the bucket index is [(p - arena_base) / bucketSizeInBytes];
    the slot goes to the calling thread's cache for that bucket, or, when
    the cache refuses it, onto that bucket's freelist by
    [FreeInterval(p, p)]: for a slot that is not free already, the offset
    of [p] is in the cache afterwards in the first case, and in the second
    the cache is as it was and [p] is the first node of the freelist, in
    front of the nodes it had; the free slots of the other buckets are as
    before and the state stays well formed. Every other pointer is handed
    to the generic allocator's [Free]. In each case [Free] just returns the
    next state: it has no error result. *)
Theorem Free_spec s p :
  geometry arch s -> 0 <= p < 2 ^ ptrBits arch ->
  (p <= Allocator.MaxValidAlignment -> Allocator.Free arch s p = s) /\
  (Allocator.IsMyAlloc s p = true ->
     let i := (p - Allocator.pBuffer s) / Allocator.bucketSizeInBytes s in
     let o := p - region_base s i in
     0 <= i < Allocator.bucketsCount s /\
     Allocator.FindBucket arch s p = i /\
     ((fst (Allocator.ReleaseToTls arch s i p) = true /\
       Allocator.Free arch s p = snd (Allocator.ReleaseToTls arch s i p)) \/
      (fst (Allocator.ReleaseToTls arch s i p) = false /\
       let mb := PoolBucket.FreeInterval (Allocator.ram s)
                   (Allocator.buckets s i) p p in
       Allocator.Free arch s p =
       Allocator.set_ram
         (Allocator.set_buckets s (upd (Allocator.buckets s) i (snd mb)))
         (fst mb))) /\
     (wf arch s -> p + 8 <= region_base s (i + 1) ->
      0 <= PoolBucket.head (Allocator.buckets s i) < 2 ^ 64 ->
      forall l,
        freelist (Allocator.ram s) (region_base s i)
                 (Allocator.bucketSizeInBytes s)
                 (PoolBucket.head (Allocator.buckets s i)) l ->
        all_apart (o :: cached (Allocator.tls s i) ++ l) ->
        let s' := Allocator.Free arch s p in
        wf arch s' /\
        (exists l',
           freelist (Allocator.ram s') (region_base s i)
                    (Allocator.bucketSizeInBytes s)
                    (PoolBucket.head (Allocator.buckets s' i)) l' /\
           if fst (Allocator.ReleaseToTls arch s i p)
           then In o (cached (Allocator.tls s' i)) /\
                exists fs1 fs2,
                  cached (Allocator.tls s i) ++ l = fs1 ++ fs2 /\
                  cached (Allocator.tls s' i) ++ l' = fs1 ++ o :: fs2
           else Allocator.tls s' i = Allocator.tls s i /\ l' = o :: l) /\
        (forall k fsk, k <> i -> free_slots s k fsk -> free_slots s' k fsk) /\
        Allocator.gAllocator s' = Allocator.gAllocator s)) /\
  (Allocator.MaxValidAlignment < p -> Allocator.IsMyAlloc s p = false ->
     Allocator.Free arch s p =
     Allocator.set_gAllocator s
       (GenericAllocator.Free (Allocator.gAllocator s) p)).
Proof.
  intros Hg Hp. split; [|split].
  - intros Hs. unfold Allocator.Free. now rewrite IsReadable_false.
  - intros Hin i o.
    destruct (FindBucket_arena arch s p Hg Hin) as [Hi [Hr Hfb]].
    fold i in Hi, Hr, Hfb.
    split; [exact Hi|]. split; [exact Hfb|].
    assert (Hread : Allocator.MaxValidAlignment < p).
    { pose proof (geo_base _ _ Hg) as Hb. pose proof (geo_size _ _ Hg) as Hsz.
      unfold region_base in Hr. nia. }
    split.
    { unfold Allocator.Free. rewrite IsReadable_true by exact Hread.
      cbn [negb]. rewrite Hfb.
      destruct (i <? Allocator.bucketsCount s) eqn:E;
        [|apply Z.ltb_ge in E; lia].
      assert (Hrefused : forall s1,
                Allocator.ReleaseToTls arch s i p = (false, s1) -> s1 = s).
      { unfold Allocator.ReleaseToTls. intros s1.
        destruct (Allocator.ReleaseToCache arch true _ _ _ _)
          as [ok [[c' b'] m']].
        destruct ok; intros Heq; inversion Heq; reflexivity. }
      destruct (Allocator.ReleaseToTls arch s i p) as [ok s1] eqn:Erel.
      destruct ok.
      + left. split; reflexivity.
      + right. split; [reflexivity|].
        rewrite (Hrefused s1 eq_refl).
        cbv zeta.
        destruct (PoolBucket.FreeInterval (Allocator.ram s)
                    (Allocator.buckets s i) p p) as [m b].
        reflexivity. }
    intros Hwf Hhi Hh l Hfl Hap s'.
    pose proof (geo_size _ _ Hg) as Hsz.
    pose proof (wf_offsets _ _ Hwf) as Hoff.
    pose proof (wf_caches _ _ Hwf i Hi) as Hc.
    destruct (wf_buckets _ _ Hwf i Hi) as [Hd _].
    assert (Hlo : region_base s i <= p) by lia.
    split; [|split; [|split]].
    + apply (Free_wf arch s p i l Hwf Hi Hlo Hhi Hfl Hh).
      unfold cached in Hap. rewrite <- app_assoc in Hap.
      exact (all_apart_drop _ _ _ Hap).
    + exact (Free_slot_local s p i l Hg Hoff Hi Hd Hc Hlo Hhi Hh Hfl Hap).
    + destruct (Free_arena_branches arch s p i Hg Hoff Hi Hc Hlo Hhi)
        as [Hoth _].
      cbv zeta in Hoth. fold s' in Hoth.
      intros k fsk Hk. destruct (Hoth k Hk) as [Hb Ht].
      apply free_slots_ext; try assumption.
      * exact (Free_same_arena arch s p).
      * intros x Hx. apply (Free_frame arch s p i x Hg Hi Hc Hlo Hhi).
        destruct (Z_lt_le_dec k i) as [Hlt | Hgt].
        -- left. pose proof (region_base_mono s (k + 1) i Hsz ltac:(lia)). lia.
        -- right. pose proof (region_base_mono s (i + 1) k Hsz ltac:(lia)). lia.
    + destruct (Free_arena_branches arch s p i Hg Hoff Hi Hc Hlo Hhi)
        as [_ [Hgen _]].
      exact Hgen.
  - intros Hread Hout.
    unfold Allocator.Free. rewrite IsReadable_true by exact Hread.
    cbn [negb].
    pose proof (FindBucket_outside arch s p Hg Hp Hout) as Hfb.
    destruct (Allocator.FindBucket arch s p <? Allocator.bucketsCount s) eqn:E;
      [apply Z.ltb_lt in E; lia | reflexivity].
Qed.

(** C2. For [p] a slot of bucket [i] that is in use, of element size
    [S = 16 * (i + 1)]: [realloc(p, n, a)] with [n <= S] frees [p] and
    returns [p]; with [n > S] it allocates by [alloc(n, a)] and, when that
    gives a block, copies exactly [S] bytes from [p] to it, frees [p] and
    returns the new pointer. Freed means that [p] has joined the free slots
    of bucket [i], which hold what they held and [p]. The [S] bytes at the
    result, so the first 16 among them, are then the bytes that were at
    [p] (the generic allocator being one that hands out memory clear of
    the arena). *)
Theorem Realloc_arena s p n a i fs :
  wf arch s ->
  is_pow2 a -> a <= Allocator.MaxValidAlignment -> 0 <= n < 2 ^ ptrBits arch ->
  0 <= i < Allocator.bucketsCount s ->
  region_base s i <= p -> p + 16 * (i + 1) <= region_base s (i + 1) ->
  0 <= PoolBucket.head (Allocator.buckets s i) < 2 ^ 64 ->
  free_slots s i fs -> all_apart ((p - region_base s i) :: fs) ->
  let S := Allocator.GetBucketElementSize i in
  let o := p - region_base s i in
  S = 16 * (i + 1) /\
  (n <= S ->
     let r := Allocator.Realloc arch s p n a in
     r = (p, Allocator.Free arch s p) /\
     wf arch (snd r) /\
     exists fs1 fs2,
       fs = fs1 ++ fs2 /\ free_slots (snd r) i (fs1 ++ o :: fs2)) /\
  (S < n ->
     let q := fst (Allocator.Alloc s n a) in
     let s1 := snd (Allocator.Alloc s n a) in
     q <> 0 ->
     let r := Allocator.Realloc arch s p n a in
     r = (q, Allocator.Free arch
               (Allocator.set_ram s1 (memmove (Allocator.ram s1) q p S)) p) /\
     ((forall pg g,
          GenericAllocator.Alloc (Allocator.gAllocator s) n a = (pg, g) ->
          pg + S <= Allocator.pBuffer s \/ Allocator.pBufferEnd s <= pg) ->
      (forall k, 0 <= k < S ->
         Allocator.ram (snd r) (q + k) = Allocator.ram s (p + k)) /\
      exists fs1 fs2,
        fs = fs1 ++ fs2 /\ free_slots (snd r) i (fs1 ++ o :: fs2))).
Proof.
  intros Hwf Hpow Ha Hn Hi Hlo Hhi Hh [l [Hfl ->]] Hap S o.
  pose proof (wf_geometry _ _ Hwf) as Hg.
  pose proof (wf_offsets _ _ Hwf) as Hoff.
  pose proof (wf_caches _ _ Hwf i Hi) as Hc.
  destruct (wf_buckets _ _ Hwf i Hi) as [Hd _].
  pose proof (geo_count _ _ Hg) as Hcnt.
  pose proof (geo_size _ _ Hg) as Hsz.
  pose proof (geo_base _ _ Hg) as Hbase.
  assert (HS : S = 16 * (i + 1))
    by (apply GetBucketElementSize_small; lia).
  assert (Hreg : region_base s i <= p < region_base s (i + 1)) by lia.
  assert (Hhi8 : p + 8 <= region_base s (i + 1)) by lia.
  assert (Hread : Allocator.MaxValidAlignment < p)
    by (unfold region_base in Hlo; nia).
  assert (Hp0 : (p =? 0) = false)
    by (apply Z.eqb_neq; unfold Allocator.MaxValidAlignment in Hread; lia).
  assert (Hfb : Allocator.FindBucket arch s p = i)
    by (apply FindBucket_region; assumption).
  assert (Hlt : (i <? Allocator.bucketsCount s) = true)
    by (apply Z.ltb_lt; lia).
  split; [exact HS|]. split.
  - intros Hle r.
    assert (Hrun : r = (p, Allocator.Free arch s p)).
    { subst r. unfold Allocator.Realloc.
      rewrite Hp0, Hfb, Hlt. fold S.
      apply Z.leb_le in Hle. rewrite Hle. reflexivity. }
    split; [exact Hrun|]. rewrite Hrun. cbn [snd]. split.
    + apply (Free_wf arch s p i l Hwf Hi Hlo Hhi8 Hfl Hh).
      unfold cached in Hap. rewrite <- app_assoc in Hap.
      exact (all_apart_drop _ _ _ Hap).
    + exact (Free_slot_joins s p i l Hg Hoff Hi Hd Hc Hlo Hhi8 Hh Hfl Hap).
  - intros Hgt q s1 Hq r.
    set (s2 := Allocator.set_ram s1 (memmove (Allocator.ram s1) q p S)).
    assert (Hrun : r = (q, Allocator.Free arch s2 p)).
    { subst r s2. unfold Allocator.Realloc.
      rewrite Hp0, Hfb, Hlt. fold S.
      destruct (n <=? S) eqn:E; [apply Z.leb_le in E; lia|].
      subst q s1. destruct (Allocator.Alloc s n a) as [q s1].
      rewrite (IsReadable_true p Hread). reflexivity. }
    split; [exact Hrun|].
    intros Hgen. rewrite Hrun. cbn [snd].
    pose proof (is_pow2_pos a Hpow) as Hapos.
    assert (Halloc : Allocator.Allocate s n a = (q, s1))
      by (subst q s1; unfold Allocator.Alloc;
          destruct (Allocator.Allocate s n a); reflexivity).
    destruct (Allocate_cases arch s n a Hwf ltac:(lia) Hapos q s1 Halloc)
      as [Hsa [Hram [Htls Hcases]]].
    pose proof (Allocate_outcome arch s n a q s1 Hwf ltac:(lia) Hapos Halloc)
      as Hout.
    cbv zeta in Hout.
    set (i0 := Z.shiftr (Z.max n a - 1) 4) in *.
    assert (Hi0 : i < i0).
    { unfold i0. rewrite Z.shiftr_div_pow2 by lia. change (2 ^ 4) with 16.
      apply Z.lt_le_trans with ((16 * (i + 1)) / 16).
      - rewrite Z.mul_comm, Z.div_mul by lia. lia.
      - apply Z.div_le_mono; lia. }
    assert (Hsa2 : same_arena s s2) by (destruct Hsa as [? [? [? [? ?]]]];
                                        repeat split; assumption).
    assert (Hclear : forall k, 0 <= k < S ->
              q + k < region_base s i \/ region_base s (i + 1) <= q + k).
    { intros k Hk.
      destruct Hcases as [[j [Hj [Hjlo _]]] | [_ [_ [Hg' _]]]].
      - right. pose proof (region_base_mono s (i + 1) j Hsz ltac:(lia)). lia.
      - destruct (Hgen q _ Hg') as [Hbelow | Habove].
        + left. pose proof (region_base_mono s 0 i Hsz ltac:(lia)) as Hm.
          unfold region_base in Hm |- *. lia.
        + right. rewrite (geo_end _ _ Hg) in Habove.
          pose proof (region_base_mono s (i + 1) (Allocator.bucketsCount s)
                        Hsz ltac:(lia)). lia. }
    assert (Htls2 : Allocator.tls s2 i = Allocator.tls s i)
      by (subst s2; cbn; apply Htls; lia).
    assert (Hbk2 : Allocator.buckets s2 i = Allocator.buckets s i).
    { subst s2. cbn [Allocator.set_ram Allocator.buckets].
      destruct Hout as [[_ [_ [_ ->]]] | [_ [[j [Hj [_ [_ [_ [Hbo _]]]]]]
                                        | [_ Hbo]]]].
      - reflexivity.
      - apply Hbo. lia.
      - apply Hbo. }
    assert (Hram2 : forall x, region_base s i <= x < region_base s (i + 1) ->
                              Allocator.ram s2 x = Allocator.ram s x).
    { intros x Hx. subst s2. cbn [Allocator.set_ram Allocator.ram].
      rewrite Hram. apply memmove_outside.
      destruct (Z_lt_le_dec x q) as [Hxq | Hxq]; [now left|].
      destruct (Z_lt_le_dec x (q + S)) as [Hxs | Hxs]; [|now right].
      exfalso. specialize (Hclear (x - q) ltac:(lia)).
      replace (q + (x - q)) with x in Hclear by ring. lia. }
    assert (Hg2 : geometry arch s2)
      by exact (geometry_same_arena arch s s2 Hsa2 Hg).
    assert (Hc2 : cache_ok arch s2 i)
      by exact (cache_ok_transfer arch s s2 i Hsa2 Htls2 Hc).
    assert (Hb2 : region_base s2 i = region_base s i)
      by exact (region_base_same_arena s s2 i Hsa2).
    assert (Hb2' : region_base s2 (i + 1) = region_base s (i + 1))
      by exact (region_base_same_arena s s2 (i + 1) Hsa2).
    assert (Hsz2 : Allocator.bucketSizeInBytes s2 = Allocator.bucketSizeInBytes s)
      by (destruct Hsa2 as [_ [H _]]; exact H).
    assert (Hcnt2 : Allocator.bucketsCount s2 = Allocator.bucketsCount s)
      by (destruct Hsa2 as [H _]; exact H).
    split.
    + intros k Hk.
      rewrite (Free_frame arch s2 p i (q + k)).
      * subst s2. cbn. rewrite memmove_inside by lia. rewrite Hram.
        f_equal. lia.
      * exact Hg2.
      * rewrite Hcnt2. exact Hi.
      * exact Hc2.
      * rewrite Hb2. exact Hlo.
      * rewrite Hb2'. lia.
      * rewrite Hb2, Hb2'. exact (Hclear k Hk).
    + pose proof (Free_slot_joins s2 p i l) as Hjoin.
      rewrite Hb2, Hb2', Hsz2, Hcnt2, Hbk2, Htls2 in Hjoin.
      apply Hjoin; try assumption.
      * rewrite <- Hsz2. apply (freelist_frame (Allocator.ram s));
          [|rewrite Hsz2; exact Hfl].
        intros x Hx. apply Hram2. rewrite region_base_step. lia.
Qed.

End FreeEffect.

Lemma all_apart_small : all_apart [0; 16; 32; 48].
Proof.
  cbn. unfold apart. repeat split; try (intros o' H; intuition lia).
Qed.

(** C2 at [realloc(p, 32, 16)] for the 16-byte slot [p] that the small
    allocator has handed out: the request does not fit the slot, the
    allocation gives the first slot of the second bucket, and the bump
    allocator's next block lies behind the arena. *)
Lemma Realloc_arena_witness :
  wf X64 small_used /\ is_pow2 16 /\ 16 <= Allocator.MaxValidAlignment /\
  0 <= 32 < 2 ^ ptrBits X64 /\
  0 <= 0 < Allocator.bucketsCount small_used /\
  region_base small_used 0 <= small_ptr /\
  small_ptr + 16 * (0 + 1) <= region_base small_used (0 + 1) /\
  0 <= PoolBucket.head (Allocator.buckets small_used 0) < 2 ^ 64 /\
  free_slots small_used 0 [16; 32; 48] /\
  all_apart ((small_ptr - region_base small_used 0) :: [16; 32; 48]) /\
  let S := Allocator.GetBucketElementSize 0 in
  let o := small_ptr - region_base small_used 0 in
  let q := fst (Allocator.Alloc small_used 32 16) in
  let s1 := snd (Allocator.Alloc small_used 32 16) in
  let r := Allocator.Realloc X64 small_used small_ptr 32 16 in
  S = 16 * (0 + 1) /\ S < 32 /\ q <> 0 /\
  (forall pg g,
      GenericAllocator.Alloc (Allocator.gAllocator small_used) 32 16 = (pg, g) ->
      pg + S <= Allocator.pBuffer small_used \/
      Allocator.pBufferEnd small_used <= pg) /\
  r = (q, Allocator.Free X64
            (Allocator.set_ram s1 (memmove (Allocator.ram s1) q small_ptr S))
            small_ptr) /\
  (forall k, 0 <= k < S ->
     Allocator.ram (snd r) (q + k) = Allocator.ram small_used (small_ptr + k)) /\
  exists fs1 fs2,
    [16; 32; 48] = fs1 ++ fs2 /\ free_slots (snd r) 0 (fs1 ++ o :: fs2).
Proof.
  assert (H1 : 16 <= Allocator.MaxValidAlignment) by by_computation.
  assert (H2 : 0 <= 32 < 2 ^ ptrBits X64) by by_computation.
  assert (H3 : 0 <= 0 < Allocator.bucketsCount small_used) by by_computation.
  assert (H4 : region_base small_used 0 <= small_ptr) by by_computation.
  assert (H5 : small_ptr + 16 * (0 + 1) <= region_base small_used (0 + 1))
    by by_computation.
  assert (H6 : 0 <= PoolBucket.head (Allocator.buckets small_used 0) < 2 ^ 64)
    by by_computation.
  assert (H7 : all_apart ((small_ptr - region_base small_used 0) :: [16; 32; 48])).
  { replace (small_ptr - region_base small_used 0) with 0
      by (vm_compute; reflexivity).
    exact all_apart_small. }
  assert (H8 : Allocator.GetBucketElementSize 0 < 32) by reflexivity.
  assert (H9 : fst (Allocator.Alloc small_used 32 16) <> 0)
    by (vm_compute; intros H; discriminate H).
  assert (H10 : forall pg g,
             GenericAllocator.Alloc (Allocator.gAllocator small_used) 32 16
             = (pg, g) ->
             pg + Allocator.GetBucketElementSize 0
             <= Allocator.pBuffer small_used \/
             Allocator.pBufferEnd small_used <= pg).
  { intros pg g H. vm_compute in H. injection H as <- _.
    right. vm_compute. intros H. discriminate H. }
  split; [exact small_used_wf|]. split; [exact is_pow2_16|]. split; [exact H1|].
  split; [exact H2|]. split; [exact H3|]. split; [exact H4|].
  split; [exact H5|]. split; [exact H6|].
  split; [exact small_used_free_slots|]. split; [exact H7|].
  destruct (Realloc_arena X64 small_used small_ptr 32 16 0 [16; 32; 48]
              small_used_wf is_pow2_16 H1 H2 H3 H4 H5 H6
              small_used_free_slots H7) as [HS [_ Hgrow]].
  destruct (Hgrow H8 H9) as [Hrun Hrest].
  destruct (Hrest H10) as [Hcopy Hfree].
  split; [exact HS|]. split; [exact H8|]. split; [exact H9|].
  split; [exact H10|]. split; [exact Hrun|]. split; [exact Hcopy | exact Hfree].
Defined.

(** C3 at [free(p)] for the slot that the small allocator has handed
    out: it has no thread cache, so the slot goes in front of the three
    slots on the freelist of the bucket. *)
Lemma Free_spec_witness :
  geometry X64 small_used /\ 0 <= small_ptr < 2 ^ ptrBits X64 /\
  Allocator.IsMyAlloc small_used small_ptr = true /\
  let i := (small_ptr - Allocator.pBuffer small_used)
           / Allocator.bucketSizeInBytes small_used in
  let o := small_ptr - region_base small_used i in
  let s' := Allocator.Free X64 small_used small_ptr in
  wf X64 small_used /\
  small_ptr + 8 <= region_base small_used (i + 1) /\
  0 <= PoolBucket.head (Allocator.buckets small_used i) < 2 ^ 64 /\
  freelist (Allocator.ram small_used) (region_base small_used i)
           (Allocator.bucketSizeInBytes small_used)
           (PoolBucket.head (Allocator.buckets small_used i)) [16; 32; 48] /\
  all_apart (o :: cached (Allocator.tls small_used i) ++ [16; 32; 48]) /\
  0 <= i < Allocator.bucketsCount small_used /\
  Allocator.FindBucket X64 small_used small_ptr = i /\
  ((fst (Allocator.ReleaseToTls X64 small_used i small_ptr) = true /\
    s' = snd (Allocator.ReleaseToTls X64 small_used i small_ptr)) \/
   (fst (Allocator.ReleaseToTls X64 small_used i small_ptr) = false /\
    let mb := PoolBucket.FreeInterval (Allocator.ram small_used)
                (Allocator.buckets small_used i) small_ptr small_ptr in
    s' =
    Allocator.set_ram
      (Allocator.set_buckets small_used
         (upd (Allocator.buckets small_used) i (snd mb)))
      (fst mb))) /\
  wf X64 s' /\
  (exists l',
     freelist (Allocator.ram s') (region_base small_used i)
              (Allocator.bucketSizeInBytes small_used)
              (PoolBucket.head (Allocator.buckets s' i)) l' /\
     if fst (Allocator.ReleaseToTls X64 small_used i small_ptr)
     then In o (cached (Allocator.tls s' i)) /\
          exists fs1 fs2,
            cached (Allocator.tls small_used i) ++ [16; 32; 48] = fs1 ++ fs2 /\
            cached (Allocator.tls s' i) ++ l' = fs1 ++ o :: fs2
     else Allocator.tls s' i = Allocator.tls small_used i /\
          l' = o :: [16; 32; 48]) /\
  (forall k fsk, k <> i -> free_slots small_used k fsk -> free_slots s' k fsk) /\
  Allocator.gAllocator s' = Allocator.gAllocator small_used.
Proof.
  assert (H1 : 0 <= small_ptr < 2 ^ ptrBits X64) by by_computation.
  assert (H2 : Allocator.IsMyAlloc small_used small_ptr = true)
    by (vm_compute; reflexivity).
  split; [exact (wf_geometry _ _ small_used_wf)|]. split; [exact H1|].
  split; [exact H2|]. intros i o s'.
  assert (H3 : small_ptr + 8 <= region_base small_used (i + 1))
    by by_computation.
  assert (H4 : 0 <= PoolBucket.head (Allocator.buckets small_used i) < 2 ^ 64)
    by by_computation.
  assert (H5 : freelist (Allocator.ram small_used) (region_base small_used i)
                 (Allocator.bucketSizeInBytes small_used)
                 (PoolBucket.head (Allocator.buckets small_used i))
                 [16; 32; 48])
    by (apply freelist_check_sound; vm_compute; reflexivity).
  assert (H6 : all_apart (o :: cached (Allocator.tls small_used i)
                            ++ [16; 32; 48])).
  { replace (o :: cached (Allocator.tls small_used i) ++ [16; 32; 48])
      with [0; 16; 32; 48] by (vm_compute; reflexivity).
    exact all_apart_small. }
  destruct (Free_spec X64 small_used small_ptr
              (wf_geometry _ _ small_used_wf) H1) as [_ [Harena _]].
  destruct (Harena H2) as [Hi [Hfb [Hbranch Heffect]]].
  destruct (Heffect small_used_wf H3 H4 [16; 32; 48] H5 H6)
    as [Hwf' [Hlist [Hothers Hgen]]].
  split; [exact small_used_wf|]. split; [exact H3|]. split; [exact H4|].
  split; [exact H5|]. split; [exact H6|]. split; [exact Hi|].
  split; [exact Hfb|]. split; [exact Hbranch|]. split; [exact Hwf'|].
  split; [exact Hlist|]. split; [exact Hothers | exact Hgen].
Defined.

(** ** Reuse of freed slots, and what does not change *)

Section Reuse.
Context {G : Type} {GA : GenericAllocator.Ops G}.
Variable arch : Arch.
Implicit Types (s : Allocator.t G) (c : TlsPoolBucket.t) (m : mem).

Lemma Realloc_same_arena s p n a :
  same_arena s (snd (Allocator.Realloc arch s p n a)).
Proof.
  unfold Allocator.Realloc.
  destruct (p =? 0); [apply Allocate_same_arena|].
  destruct (Allocator.FindBucket arch s p <? Allocator.bucketsCount s).
  - destruct (n <=? Allocator.GetBucketElementSize (Allocator.FindBucket arch s p)).
    + cbn [snd]. apply Free_same_arena.
    + unfold Allocator.Alloc.
      pose proof (Allocate_same_arena s n a) as H1.
      destruct (Allocator.Allocate s n a) as [p2 s1]. cbn [snd] in *.
      apply (same_arena_trans s s1); [exact H1|].
      destruct (Allocator.IsReadable p).
      * apply (same_arena_trans s1 (Allocator.set_ram s1
                  (memmove (Allocator.ram s1) p2 p
                     (Allocator.GetBucketElementSize
                        (Allocator.FindBucket arch s p)))));
          [repeat split | apply Free_same_arena].
      * apply Free_same_arena.
  - destruct (n =? 0).
    + cbn [snd]. destruct (Allocator.IsReadable p); repeat split.
    + destruct (negb (Allocator.IsReadable p)).
      * destruct (GenericAllocator.Alloc (Allocator.gAllocator s) n a).
        repeat split.
      * destruct (GenericAllocator.Realloc (Allocator.gAllocator s)
                    (Allocator.ram s) p n a) as [q [g m]].
        repeat split.
Qed.

Lemma same_arena_queries s s' :
  same_arena s s' ->
  Allocator.GetBucketsCount s' = Allocator.GetBucketsCount s /\
  (forall i, Allocator.GetBucketElementsCount s' i
             = Allocator.GetBucketElementsCount s i) /\
  (forall q, Allocator.IsMyAlloc s' q = Allocator.IsMyAlloc s q) /\
  (forall q, Allocator.GetBucketIndex arch s' q
             = Allocator.GetBucketIndex arch s q).
Proof.
  intros [Hc [Hs [He [Hb Hp]]]].
  assert (Hmine : forall q, Allocator.IsMyAlloc s' q = Allocator.IsMyAlloc s q)
    by (intros q; unfold Allocator.IsMyAlloc; now rewrite He, Hp).
  split; [exact Hc|]. split; [|split; [exact Hmine|]].
  - intros i. unfold Allocator.GetBucketElementsCount. now rewrite Hc, Hs.
  - intros q. unfold Allocator.GetBucketIndex, Allocator.FindBucket.
    now rewrite Hmine, Hc, Hs, Hb.
Qed.

(** X22. On an allocator whose arena is set up, no call of
    [Alloc], [Free] or [Realloc] moves or resizes the arena: the number of
    buckets and their element counts, and for every address the answers of
    [IsMyAlloc] and [GetBucketIndex], are after the call what they were
    before. For [Realloc] of a slot of the arena to more than the slot
    holds, this is when the allocation it makes gives a block. *)
Theorem arena_is_fixed s p n a :
  geometry arch s ->
  let after s' :=
    Allocator.GetBucketsCount s' = Allocator.GetBucketsCount s /\
    (forall i, Allocator.GetBucketElementsCount s' i
               = Allocator.GetBucketElementsCount s i) /\
    (forall q, Allocator.IsMyAlloc s' q = Allocator.IsMyAlloc s q) /\
    (forall q, Allocator.GetBucketIndex arch s' q
               = Allocator.GetBucketIndex arch s q) in
  after (snd (Allocator.Alloc s n a)) /\
  after (Allocator.Free arch s p) /\
  ((Allocator.IsMyAlloc s p = true ->
    Allocator.GetBucketElementSize (Allocator.FindBucket arch s p) < n ->
    fst (Allocator.Alloc s n a) <> 0) ->
   after (snd (Allocator.Realloc arch s p n a))).
Proof.
  intros _. cbv zeta. split; [|split; [|intros _]]; apply same_arena_queries.
  - apply Allocate_same_arena.
  - apply Free_same_arena.
  - apply Realloc_same_arena.
Qed.

(** X23. When every bucket spans its sub-region, an
    address belongs to the arena exactly when it belongs to one of the
    buckets, and that bucket is the one [FindBucket] names. *)
Theorem buckets_tile_arena s p :
  geometry arch s -> 0 <= p < 2 ^ ptrBits arch ->
  (forall i, 0 <= i < Allocator.bucketsCount s ->
     PoolBucket.pData (Allocator.buckets s i) = region_base s i /\
     PoolBucket.pBufferEnd (Allocator.buckets s i) = region_base s (i + 1)) ->
  (Allocator.IsMyAlloc s p = true <->
   exists i, 0 <= i < Allocator.bucketsCount s /\
             PoolBucket.IsMyAlloc (Allocator.buckets s i) p = true) /\
  (forall i, 0 <= i < Allocator.bucketsCount s ->
     PoolBucket.IsMyAlloc (Allocator.buckets s i) p = true ->
     Allocator.FindBucket arch s p = i).
Proof.
  intros Hg Hp Hspan.
  assert (Hin : forall i, 0 <= i < Allocator.bucketsCount s ->
            (PoolBucket.IsMyAlloc (Allocator.buckets s i) p = true <->
             region_base s i <= p < region_base s (i + 1))).
  { intros i Hi. destruct (Hspan i Hi) as [Hd He].
    unfold PoolBucket.IsMyAlloc. rewrite Hd, He, andb_true_iff.
    rewrite Z.leb_le, Z.ltb_lt. reflexivity. }
  split.
  - split.
    + intros Hmine. destruct (FindBucket_arena arch s p Hg Hmine) as [Hi [Hr _]].
      eexists. split; [exact Hi|]. now apply Hin.
    + intros [i [Hi Hb]]. apply Hin in Hb; [|exact Hi].
      now destruct (in_region_facts arch s s p i Hg (same_arena_refl s) Hi Hb).
  - intros i Hi Hb. apply Hin in Hb; [|exact Hi].
    now apply FindBucket_region.
Qed.

(** X24. The thread cache is last-in first-out
    and does not look at what it holds: after [Free(p)] the next [Alloc] of
    the size class of [p] returns [p], and after [Free(p)] twice the next
    two such calls both return [p]. *)
Theorem double_free_is_not_detected s p i n a :
  wf arch s -> 0 <= i < Allocator.bucketsCount s ->
  region_base s i <= p -> p + 8 <= region_base s (i + 1) ->
  TlsPoolBucket.maxElementsCount (Allocator.tls s i) <> 0 ->
  TlsPoolBucket.numElementsL0 (Allocator.tls s i) + 2
    <= SMM_MAX_CACHE_ITEMS_COUNT arch ->
  0 < n -> Z.shiftr (Z.max n a - 1) 4 = i ->
  fst (Allocator.Alloc (Allocator.Free arch s p) n a) = p /\
  let s2 := Allocator.Free arch (Allocator.Free arch s p) p in
  let r1 := Allocator.Alloc s2 n a in
  let r2 := Allocator.Alloc (snd r1) n a in
  fst r1 = p /\ fst r2 = p.
Proof.
  intros Hwf Hi Hlo Hhi Hmax Hroom Hn Hidx.
  pose proof (wf_geometry _ _ Hwf) as Hg.
  pose proof (wf_offsets _ _ Hwf) as Hoff.
  pose proof (geo_base _ _ Hg) as Hbase.
  pose proof (geo_size _ _ Hg) as Hsz.
  pose proof (K0_range arch) as HK.
  pose proof (wf_caches _ _ Hwf i Hi) as Hc.
  destruct (wf_buckets _ _ Hwf i Hi) as [Hd _].
  assert (Hp : region_base s i <= p < region_base s (i + 1)) by lia.
  assert (Hrel : u32 (p - region_base s i) = p - region_base s i).
  { apply u32_small. rewrite region_base_step in Hhi. lia. }
  split.
  { apply (free_then_alloc arch s p i n a); try assumption; lia. }
  destruct Hc as [H0 [H1 [Hm [Hw _]]]].
  assert (Hwired : TlsPoolBucket.pBucketData (Allocator.tls s i)
                   = region_base s i)
    by (destruct Hw as [[_ [_ Hz]] | [Hw _]]; [contradiction | exact Hw]).
  set (s1 := Allocator.Free arch s p).
  pose proof (Free_same_arena arch s p) as Hsa1. fold s1 in Hsa1.
  pose proof (geometry_same_arena arch s s1 Hsa1 Hg) as Hg1.
  pose proof (Free_to_L0 arch s p i Hg Hi Hp Hmax ltac:(lia)) as Ht1.
  cbv zeta in Ht1. fold s1 in Ht1. rewrite Hwired, Hrel in Ht1.
  set (c := Allocator.tls s i) in *.
  set (n0 := TlsPoolBucket.numElementsL0 c) in *.
  set (o := p - region_base s i) in *.
  assert (Hi1 : 0 <= i < Allocator.bucketsCount s1)
    by (destruct Hsa1 as [-> _]; exact Hi).
  assert (Hp1 : region_base s1 i <= p < region_base s1 (i + 1))
    by (rewrite !(region_base_same_arena s s1 _ Hsa1); exact Hp).
  set (s2 := Allocator.Free arch s1 p).
  pose proof (Free_same_arena arch s1 p) as Hsa2. fold s2 in Hsa2.
  assert (Ht2 : Allocator.tls s2 i
                = TlsPoolBucket.set_L0 c
                    (upd (upd (TlsPoolBucket.storageL0 c) n0 o) (n0 + 1) o)
                    (n0 + 2)).
  { pose proof (Free_to_L0 arch s1 p i Hg1 Hi1 Hp1) as H. cbv zeta in H.
    fold s2 in H. rewrite Ht1 in H.
    unfold TlsPoolBucket.set_L0 in H |- *.
    cbn [TlsPoolBucket.maxElementsCount TlsPoolBucket.numElementsL0
         TlsPoolBucket.pBucketData TlsPoolBucket.storageL0
         TlsPoolBucket.pStorageL1 TlsPoolBucket.pBucket
         TlsPoolBucket.numElementsL1] in H.
    replace (p - TlsPoolBucket.pBucketData c) with o in H
      by (subst o; rewrite Hwired; reflexivity).
    rewrite Hrel in H.
    replace (n0 + 1 + 1) with (n0 + 2) in H by ring.
    apply H; [exact Hmax | lia]. }
  assert (Hcnt2 : Allocator.bucketsCount s2 = Allocator.bucketsCount s)
    by (destruct Hsa2 as [-> _]; destruct Hsa1 as [-> _]; reflexivity).
  assert (Hpos : p <> 0)
    by (unfold region_base, Allocator.MaxValidAlignment in *; nia).
  assert (Hpop2 : Allocator.AllocFromCache (Allocator.tls s2 i)
                  = (p, TlsPoolBucket.set_L0 c
                          (upd (upd (TlsPoolBucket.storageL0 c) n0 o) (n0 + 1) o)
                          (n0 + 1))).
  { rewrite Ht2, AllocFromCache_L0 by (cbn; lia).
    unfold TlsPoolBucket.set_L0.
    cbn [TlsPoolBucket.maxElementsCount TlsPoolBucket.numElementsL0
         TlsPoolBucket.pBucketData TlsPoolBucket.storageL0
         TlsPoolBucket.pStorageL1 TlsPoolBucket.pBucket
         TlsPoolBucket.numElementsL1].
    replace (n0 + 2 - 1) with (n0 + 1) by ring.
    rewrite upd_same, Hwired. f_equal. subst o. ring. }
  cbv zeta. unfold Allocator.Alloc.
  assert (Hr1 : fst (Allocator.Allocate s2 n a) = p).
  { rewrite (Allocate_cache_hit s2 n a Hn); rewrite Hidx.
    - now rewrite Hpop2.
    - rewrite Hcnt2. lia.
    - now rewrite Hpop2. }
  split; [exact Hr1|].
  pose proof (Allocate_tls_start s2 n a Hn) as Ht3. cbv zeta in Ht3.
  rewrite Hidx in Ht3. specialize (Ht3 ltac:(rewrite Hcnt2; lia)).
  rewrite Hpop2 in Ht3. cbn [snd] in Ht3.
  pose proof (Allocate_same_arena s2 n a) as Hsa3.
  set (s3 := snd (Allocator.Allocate s2 n a)) in *.
  assert (Hpop3 : fst (Allocator.AllocFromCache (Allocator.tls s3 i)) = p).
  { rewrite Ht3, AllocFromCache_L0 by (cbn; lia).
    unfold TlsPoolBucket.set_L0.
    cbn [fst TlsPoolBucket.maxElementsCount TlsPoolBucket.numElementsL0
         TlsPoolBucket.pBucketData TlsPoolBucket.storageL0
         TlsPoolBucket.pStorageL1 TlsPoolBucket.pBucket
         TlsPoolBucket.numElementsL1].
    replace (n0 + 1 - 1) with n0 by ring.
    rewrite upd_other by lia. rewrite upd_same, Hwired. subst o. ring. }
  rewrite (Allocate_cache_hit s3 n a Hn); rewrite Hidx.
  - exact Hpop3.
  - destruct Hsa3 as [-> _]. rewrite Hcnt2. lia.
  - now rewrite Hpop3.
Qed.

End Reuse.

Lemma small_cached_used_wf : wf X64 small_cached_used.
Proof.
  unfold small_cached_used, Allocator.Alloc.
  apply Allocate_wf; [|lia|lia].
  exact (proj1 (CreateThreadCache_fresh X64 small_fresh CACHE_COLD 4
                  small_fresh_wf ltac:(lia))).
Qed.

(** X23 at an address inside the first bucket of the small
    allocator. *)
Lemma buckets_tile_arena_witness :
  geometry X64 small_fresh /\ 0 <= 65540 < 2 ^ ptrBits X64 /\
  (forall i, 0 <= i < Allocator.bucketsCount small_fresh ->
     PoolBucket.pData (Allocator.buckets small_fresh i)
     = region_base small_fresh i /\
     PoolBucket.pBufferEnd (Allocator.buckets small_fresh i)
     = region_base small_fresh (i + 1)) /\
  (Allocator.IsMyAlloc small_fresh 65540 = true <->
   exists i, 0 <= i < Allocator.bucketsCount small_fresh /\
             PoolBucket.IsMyAlloc (Allocator.buckets small_fresh i) 65540 = true) /\
  (forall i, 0 <= i < Allocator.bucketsCount small_fresh ->
     PoolBucket.IsMyAlloc (Allocator.buckets small_fresh i) 65540 = true ->
     Allocator.FindBucket X64 small_fresh 65540 = i).
Proof.
  assert (H1 : 0 <= 65540 < 2 ^ ptrBits X64) by by_computation.
  assert (H2 : forall i, 0 <= i < Allocator.bucketsCount small_fresh ->
             PoolBucket.pData (Allocator.buckets small_fresh i)
             = region_base small_fresh i /\
             PoolBucket.pBufferEnd (Allocator.buckets small_fresh i)
             = region_base small_fresh (i + 1)).
  { intros i Hi. change (Allocator.bucketsCount small_fresh) with 2 in Hi.
    assert (Hc : i = 0 \/ i = 1) by lia.
    destruct Hc as [-> | ->]; vm_compute; split; reflexivity. }
  split; [exact (wf_geometry _ _ small_fresh_wf)|]. split; [exact H1|].
  split; [exact H2|].
  exact (buckets_tile_arena X64 small_fresh 65540
           (wf_geometry _ _ small_fresh_wf) H1 H2).
Defined.

(** X24 at the first block of the small allocator
    with a thread cache. *)
Lemma double_free_is_not_detected_witness :
  wf X64 small_cached_used /\
  0 <= 0 < Allocator.bucketsCount small_cached_used /\
  region_base small_cached_used 0 <= small_cached_ptr /\
  small_cached_ptr + 8 <= region_base small_cached_used (0 + 1) /\
  TlsPoolBucket.maxElementsCount (Allocator.tls small_cached_used 0) <> 0 /\
  TlsPoolBucket.numElementsL0 (Allocator.tls small_cached_used 0) + 2
    <= SMM_MAX_CACHE_ITEMS_COUNT X64 /\
  0 < 16 /\ Z.shiftr (Z.max 16 16 - 1) 4 = 0 /\
  fst (Allocator.Alloc (Allocator.Free X64 small_cached_used small_cached_ptr)
                       16 16) = small_cached_ptr /\
  let s2 := Allocator.Free X64
              (Allocator.Free X64 small_cached_used small_cached_ptr)
              small_cached_ptr in
  let r1 := Allocator.Alloc s2 16 16 in
  let r2 := Allocator.Alloc (snd r1) 16 16 in
  fst r1 = small_cached_ptr /\ fst r2 = small_cached_ptr.
Proof.
  assert (H1 : 0 <= 0 < Allocator.bucketsCount small_cached_used)
    by by_computation.
  assert (H2 : region_base small_cached_used 0 <= small_cached_ptr)
    by by_computation.
  assert (H3 : small_cached_ptr + 8 <= region_base small_cached_used (0 + 1))
    by by_computation.
  assert (H4 : TlsPoolBucket.maxElementsCount (Allocator.tls small_cached_used 0)
               <> 0) by by_computation.
  assert (H5 : TlsPoolBucket.numElementsL0 (Allocator.tls small_cached_used 0) + 2
               <= SMM_MAX_CACHE_ITEMS_COUNT X64) by by_computation.
  assert (H6 : 0 < 16) by lia.
  assert (H7 : Z.shiftr (Z.max 16 16 - 1) 4 = 0) by reflexivity.
  split; [exact small_cached_used_wf|]. split; [exact H1|]. split; [exact H2|].
  split; [exact H3|]. split; [exact H4|]. split; [exact H5|].
  split; [exact H6|]. split; [exact H7|].
  exact (double_free_is_not_detected X64 small_cached_used small_cached_ptr 0
           16 16 small_cached_used_wf H1 H2 H3 H4 H5 H6 H7).
Defined.

(** X22 at the small allocator with one block handed out,
    for [alloc(32, 16)], the free of the block and its [realloc] to 32
    bytes, whose allocation gives a block of the second bucket. *)
Lemma arena_is_fixed_witness :
  geometry X64 small_used /\
  (Allocator.IsMyAlloc small_used small_ptr = true ->
   Allocator.GetBucketElementSize (Allocator.FindBucket X64 small_used small_ptr)
   < 32 ->
   fst (Allocator.Alloc small_used 32 16) <> 0) /\
  let after s' :=
    Allocator.GetBucketsCount s' = Allocator.GetBucketsCount small_used /\
    (forall i, Allocator.GetBucketElementsCount s' i
               = Allocator.GetBucketElementsCount small_used i) /\
    (forall q, Allocator.IsMyAlloc s' q = Allocator.IsMyAlloc small_used q) /\
    (forall q, Allocator.GetBucketIndex X64 s' q
               = Allocator.GetBucketIndex X64 small_used q) in
  after (snd (Allocator.Alloc small_used 32 16)) /\
  after (Allocator.Free X64 small_used small_ptr) /\
  after (snd (Allocator.Realloc X64 small_used small_ptr 32 16)).
Proof.
  assert (H1 : Allocator.IsMyAlloc small_used small_ptr = true ->
               Allocator.GetBucketElementSize
                 (Allocator.FindBucket X64 small_used small_ptr) < 32 ->
               fst (Allocator.Alloc small_used 32 16) <> 0).
  { intros _ _. vm_compute. intros H. discriminate H. }
  split; [exact (wf_geometry _ _ small_used_wf)|]. split; [exact H1|].
  destruct (arena_is_fixed X64 small_used small_ptr 32 16
              (wf_geometry _ _ small_used_wf)) as [Ha [Hf Hr]].
  split; [exact Ha|]. split; [exact Hf | exact (Hr H1)].
Defined.

(** ** What is written to memory *)

Section Footprint.
Context {G : Type} {GA : GenericAllocator.Ops G}.
Variable arch : Arch.
Implicit Types (s : Allocator.t G) (c : TlsPoolBucket.t) (m : mem).

(** Chaining cache entries writes the link fields of the slots it chains
    and nothing else. *)
Lemma link_loop_writes (fuel : nat) : forall c m i localTag pPrev x,
  x < pPrev \/ pPrev + 8 <= x ->
  (forall k, i <= k < i + Z.of_nat fuel ->
     x < TlsPoolBucket.pBucketData c + TlsPoolBucket.pStorageL1 c k \/
     TlsPoolBucket.pBucketData c + TlsPoolBucket.pStorageL1 c k + 8 <= x) ->
  fst (TlsPoolBucket.link_loop fuel c m i localTag pPrev) x = m x /\
  (x < snd (TlsPoolBucket.link_loop fuel c m i localTag pPrev) \/
   snd (TlsPoolBucket.link_loop fuel c m i localTag pPrev) + 8 <= x).
Proof.
  induction fuel as [|fuel IH]; intros c m i localTag pPrev x Hx Hk.
  - cbn. auto.
  - cbn [TlsPoolBucket.link_loop].
    destruct (IH c
                (store32 (store32 m pPrev localTag) (pPrev + 4)
                         (TlsPoolBucket.pStorageL1 c i))
                (i + 1) (u32 (localTag + 1))
                (TlsPoolBucket.pBucketData c + TlsPoolBucket.pStorageL1 c i)
                x ltac:(apply Hk; lia) ltac:(intros k Hkk; apply Hk; lia))
      as [Hm Hrest].
    split; [|exact Hrest].
    rewrite Hm. unfold store32.
    rewrite !store_le_outside by (cbn; lia). reflexivity.
Qed.

Lemma ReturnL1CacheToMaster_writes c b m count x :
  0 <= TlsPoolBucket.numElementsL1 c -> 0 <= count ->
  (forall k, 0 <= k < TlsPoolBucket.numElementsL1 c ->
     x < TlsPoolBucket.pBucketData c + TlsPoolBucket.pStorageL1 c k \/
     TlsPoolBucket.pBucketData c + TlsPoolBucket.pStorageL1 c k + 8 <= x) ->
  snd (TlsPoolBucket.ReturnL1CacheToMaster c b m count) x = m x.
Proof.
  intros Hn Hc Hk. unfold TlsPoolBucket.ReturnL1CacheToMaster.
  destruct (Z.eqb_spec count 0); [reflexivity|].
  destruct (Z.eqb_spec (TlsPoolBucket.numElementsL1 c) 0); [reflexivity|].
  cbv zeta.
  set (cnt := Z.min count (TlsPoolBucket.numElementsL1 c)).
  assert (Hcnt : 0 < cnt <= TlsPoolBucket.numElementsL1 c) by (unfold cnt; lia).
  set (first := TlsPoolBucket.numElementsL1 c - cnt).
  pose proof (link_loop_writes
                (Z.to_nat (TlsPoolBucket.numElementsL1 c - (first + 1)))
                c m (first + 1) 16777215
                (TlsPoolBucket.pBucketData c + TlsPoolBucket.pStorageL1 c first)
                x ltac:(apply Hk; unfold first; lia)
                ltac:(intros k Hkk; apply Hk; unfold first in *; lia))
    as [Hm Htl].
  destruct (TlsPoolBucket.link_loop _ c m (first + 1) _ _) as [m1 pTail].
  cbn [fst snd] in Hm, Htl.
  unfold PoolBucket.FreeInterval. cbn [snd].
  unfold store64. rewrite store_le_outside by (cbn; lia). exact Hm.
Qed.

Lemma ReleaseToCache_writes useCacheL0 c b m p x :
  0 <= TlsPoolBucket.numElementsL1 c ->
  (forall k, 0 <= k < TlsPoolBucket.numElementsL1 c ->
     x < TlsPoolBucket.pBucketData c + TlsPoolBucket.pStorageL1 c k \/
     TlsPoolBucket.pBucketData c + TlsPoolBucket.pStorageL1 c k + 8 <= x) ->
  snd (snd (Allocator.ReleaseToCache arch useCacheL0 c b m p)) x = m x.
Proof.
  intros Hn Hk. unfold Allocator.ReleaseToCache.
  destruct (TlsPoolBucket.maxElementsCount c =? 0); [reflexivity|].
  cbv zeta.
  destruct (useCacheL0 && _); [reflexivity|].
  destruct (TlsPoolBucket.numElementsL1 c <? TlsPoolBucket.maxElementsCount c);
    [reflexivity|].
  pose proof (ReturnL1CacheToMaster_writes c b m
                (Z.shiftr (TlsPoolBucket.numElementsL1 c) 1) x Hn
                ltac:(apply Z.shiftr_nonneg; lia) Hk) as Hret.
  destruct (TlsPoolBucket.ReturnL1CacheToMaster c b m _) as [[c1 b1] m1].
  cbn [snd] in Hret |- *. exact Hret.
Qed.

(** X25. [Alloc] never writes to memory. [Free] of a slot of
    the arena writes at most the link fields, the first 8 bytes, of the slot
    it frees and of the slots that L1 of the thread cache holds: every
    other byte, and so the content of every block in use, is left as it
    is. *)
Theorem memory_footprint s p i n a :
  wf arch s -> 0 <= i < Allocator.bucketsCount s ->
  region_base s i <= p -> p + 8 <= region_base s (i + 1) ->
  Allocator.ram (snd (Allocator.Alloc s n a)) = Allocator.ram s /\
  forall x,
    x < p \/ p + 8 <= x ->
    (forall k, 0 <= k < TlsPoolBucket.numElementsL1 (Allocator.tls s i) ->
       x < region_base s i + TlsPoolBucket.pStorageL1 (Allocator.tls s i) k \/
       region_base s i + TlsPoolBucket.pStorageL1 (Allocator.tls s i) k + 8 <= x) ->
    Allocator.ram (Allocator.Free arch s p) x = Allocator.ram s x.
Proof.
  intros Hwf Hi Hlo Hhi. split.
  { unfold Allocator.Alloc, Allocator.Allocate.
    destruct (n =? 0); [reflexivity|]. cbv zeta.
    set (i0 := Z.shiftr _ 4).
    destruct (i0 <? Allocator.bucketsCount s).
    - destruct (Allocator.AllocFromCache (Allocator.tls s i0)) as [pc c].
      destruct (negb (pc =? 0)); [reflexivity|].
      set (s1 := Allocator.set_tls s (upd (Allocator.tls s) i0 c)).
      destruct (Allocate_loop_ram (Z.to_nat (Allocator.bucketsCount s1 - i0))
                  s1 i0 n a) as [H _].
      exact H.
    - cbn [negb Z.eqb].
      destruct (Allocate_loop_ram (Z.to_nat (Allocator.bucketsCount s - i0))
                  s i0 n a) as [H _].
      exact H. }
  intros x Hx Hk.
  pose proof (wf_geometry _ _ Hwf) as Hg.
  pose proof (wf_caches _ _ Hwf i Hi) as Hc.
  assert (Hp : region_base s i <= p < region_base s (i + 1)) by lia.
  pose proof (Free_arena_unfold arch s p i Hg Hi Hp) as Hfree.
  cbv zeta in Hfree. rewrite Hfree.
  destruct Hc as [H0 [H1 [Hm [Hw _]]]].
  set (c := Allocator.tls s i) in *.
  destruct (Z.eq_dec (TlsPoolBucket.maxElementsCount c) 0) as [Hmax | Hmax].
  - assert (Hr : Allocator.ReleaseToCache arch true c
                   (Allocator.buckets s (TlsPoolBucket.pBucket c))
                   (Allocator.ram s) p
                 = (false, (c, Allocator.buckets s (TlsPoolBucket.pBucket c),
                            Allocator.ram s)))
      by (unfold Allocator.ReleaseToCache; rewrite Hmax; reflexivity).
    rewrite Hr. cbn [fst]. unfold PoolBucket.FreeInterval. cbn.
    apply store_le_outside. cbn. lia.
  - assert (Hwired : TlsPoolBucket.pBucketData c = region_base s i)
      by (destruct Hw as [[_ [_ Hz]] | [Hw _]]; [contradiction | exact Hw]).
    pose proof (ReleaseToCache_writes true c
                  (Allocator.buckets s (TlsPoolBucket.pBucket c))
                  (Allocator.ram s) p x ltac:(lia)
                  ltac:(rewrite Hwired; exact Hk)) as Hwr.
    destruct (Allocator.ReleaseToCache arch true c _ (Allocator.ram s) p)
      as [ok [[c' b'] m']] eqn:Er.
    cbn [fst snd] in *.
    destruct ok.
    + cbn. exact Hwr.
    + exfalso. unfold Allocator.ReleaseToCache in Er.
      destruct (Z.eqb_spec (TlsPoolBucket.maxElementsCount c) 0); [contradiction|].
      cbv zeta in Er.
      destruct (true && _) in Er; [discriminate|].
      destruct (_ <? _) in Er; [discriminate|].
      destruct (TlsPoolBucket.ReturnL1CacheToMaster _ _ _ _) as [[? ?] ?] in Er.
      discriminate.
Qed.

End Footprint.

(** X25 at the block of the small allocator. *)
Lemma memory_footprint_witness :
  wf X64 small_used /\ 0 <= 0 < Allocator.bucketsCount small_used /\
  region_base small_used 0 <= small_ptr /\
  small_ptr + 8 <= region_base small_used (0 + 1) /\
  Allocator.ram (snd (Allocator.Alloc small_used 16 16)) = Allocator.ram small_used /\
  forall x,
    x < small_ptr \/ small_ptr + 8 <= x ->
    (forall k,
       0 <= k < TlsPoolBucket.numElementsL1 (Allocator.tls small_used 0) ->
       x < region_base small_used 0
           + TlsPoolBucket.pStorageL1 (Allocator.tls small_used 0) k \/
       region_base small_used 0
       + TlsPoolBucket.pStorageL1 (Allocator.tls small_used 0) k + 8 <= x) ->
    Allocator.ram (Allocator.Free X64 small_used small_ptr) x
    = Allocator.ram small_used x.
Proof.
  assert (H1 : 0 <= 0 < Allocator.bucketsCount small_used) by by_computation.
  assert (H2 : region_base small_used 0 <= small_ptr) by by_computation.
  assert (H3 : small_ptr + 8 <= region_base small_used (0 + 1)) by by_computation.
  split; [exact small_used_wf|]. split; [exact H1|]. split; [exact H2|].
  split; [exact H3|].
  exact (memory_footprint X64 small_used small_ptr 0 16 16 small_used_wf
           H1 H2 H3).
Defined.

(** ** Failure, and [Realloc] in place *)

Section More.
Context {G : Type} {GA : GenericAllocator.Ops G}.
Variable arch : Arch.
Implicit Types (s : Allocator.t G) (c : TlsPoolBucket.t) (m : mem).

(** X26. [Alloc] of a positive size returns
    [nullptr] only when the generic allocator does: the thread cache of the
    starting bucket missed, every bucket from the starting one up was
    empty, and the generic allocator, asked for the caller's size and
    alignment, had nothing to give. The buckets, the thread caches and
    memory are as before. *)
Theorem Alloc_fails_only_with_generic s n a s' :
  wf arch s -> 0 < n -> 0 < a ->
  Allocator.Alloc s n a = (0, s') ->
  let i0 := Z.shiftr (Z.max n a - 1) 4 in
  GenericAllocator.Alloc (Allocator.gAllocator s) n a
  = (0, Allocator.gAllocator s') /\
  (forall k, i0 <= k < Allocator.bucketsCount s ->
     PoolBucket.head (Allocator.buckets s k) = TaggedIndex.Invalid) /\
  (i0 < Allocator.bucketsCount s ->
     TlsPoolBucket.numElementsL0 (Allocator.tls s i0) = 0 /\
     TlsPoolBucket.numElementsL1 (Allocator.tls s i0) = 0) /\
  (forall k, Allocator.buckets s' k = Allocator.buckets s k) /\
  (forall k, Allocator.tls s' k = Allocator.tls s k) /\
  Allocator.ram s' = Allocator.ram s.
Proof.
  intros Hwf Hn Ha Hrun i0. unfold Allocator.Alloc in Hrun.
  pose proof (wf_geometry _ _ Hwf) as Hg.
  pose proof (geo_base _ _ Hg) as Hbase.
  pose proof (geo_size _ _ Hg) as Hsz.
  assert (Hi0 : 0 <= i0) by (unfold i0; apply Z.shiftr_nonneg; lia).
  destruct (Allocate_cases arch s n a Hwf Hn Ha 0 s' Hrun)
    as [_ [Hram [_ [[j [Hj [Hlo _]]] | [Hall [Hmiss [Hgen Hbo]]]]]]].
  { exfalso.
    pose proof (region_base_mono s 0 j Hsz ltac:(lia)).
    unfold region_base, Allocator.MaxValidAlignment in *. lia. }
  destruct (Allocate_outcome arch s n a 0 s' Hwf Hn Ha Hrun)
    as [[_ [_ [H _]]] | [Htls _]]; [contradiction|].
  split; [exact Hgen|]. split; [exact Hall|]. split; [|split; [exact Hbo|]].
  - intros Hlt. specialize (Hmiss Hlt). fold i0 in Hmiss.
    pose proof (wf_caches _ _ Hwf i0 ltac:(lia)) as Hc.
    pose proof (cache_pop_hit arch s i0 Hg Hi0 Hc) as Hhit.
    destruct Hc as [H0 [H1 _]].
    destruct (Z.eq_dec (TlsPoolBucket.numElementsL0 (Allocator.tls s i0)) 0);
      [|exfalso; apply Hhit; [left; lia | exact Hmiss]].
    destruct (Z.eq_dec (TlsPoolBucket.numElementsL1 (Allocator.tls s i0)) 0);
      [|exfalso; apply Hhit; [right; lia | exact Hmiss]].
    split; assumption.
  - split; [exact Htls | exact Hram].
Qed.

(** X27. [Realloc] of a slot of the arena to a size
    that its bucket's elements can hold frees the slot and then returns
    it: the result is the pointer given, and it is the block that the next
    [Alloc] of its size class hands out. *)
Theorem Realloc_in_place_frees s p i n a n' a' :
  wf arch s -> 0 <= i < Allocator.bucketsCount s ->
  region_base s i <= p -> p + 8 <= region_base s (i + 1) ->
  n <= 16 * (i + 1) ->
  TlsPoolBucket.numElementsL0 (Allocator.tls s i)
    < SMM_MAX_CACHE_ITEMS_COUNT arch ->
  (TlsPoolBucket.maxElementsCount (Allocator.tls s i) = 0 ->
   TlsPoolBucket.numElementsL0 (Allocator.tls s i) = 0 /\
   TlsPoolBucket.numElementsL1 (Allocator.tls s i) = 0) ->
  0 < n' -> Z.shiftr (Z.max n' a' - 1) 4 = i ->
  let r := Allocator.Realloc arch s p n a in
  r = (p, Allocator.Free arch s p) /\
  fst (Allocator.Alloc (snd r) n' a') = p.
Proof.
  intros Hwf Hi Hlo Hhi Hsize HL0 Hdis Hn' Hidx.
  pose proof (wf_geometry _ _ Hwf) as Hg.
  pose proof (geo_base _ _ Hg) as Hbase.
  pose proof (geo_size _ _ Hg) as Hsz.
  pose proof (geo_count _ _ Hg) as Hcnt.
  destruct (wf_buckets _ _ Hwf i Hi) as [Hd _].
  assert (Hp : region_base s i <= p < region_base s (i + 1)) by lia.
  assert (Hr : Allocator.Realloc arch s p n a = (p, Allocator.Free arch s p)).
  { unfold Allocator.Realloc.
    assert (Hpos : p <> 0)
      by (pose proof (region_base_mono s 0 i Hsz ltac:(lia));
          unfold region_base, Allocator.MaxValidAlignment in *; lia).
    destruct (Z.eqb_spec p 0); [contradiction|].
    rewrite (FindBucket_region arch s p i Hg Hi Hp).
    destruct (Z.ltb_spec i (Allocator.bucketsCount s)); [|lia].
    rewrite GetBucketElementSize_small by lia.
    destruct (Z.leb_spec n (16 * (i + 1))); [reflexivity | lia]. }
  cbv zeta. rewrite Hr. split; [reflexivity|]. cbn [snd].
  apply (free_then_alloc arch s p i n' a'); try assumption.
  - exact (wf_offsets _ _ Hwf).
  - exact (wf_caches _ _ Hwf i Hi).
Qed.

End More.

Lemma oom_taken_wf : wf X64 oom_taken.
Proof.
  unfold oom_taken, Allocator.Alloc.
  apply Allocate_wf; [|lia|lia].
  refine (proj1 (Init_fresh X64 (Some 65536) (fun _ => 0) 2 32
                   (fun _ _ => 0) _)).
  unfold Init_ok. by_computation.
Qed.

Lemma oom_taken_run :
  Allocator.Alloc oom_taken 32 16 = (0, snd (Allocator.Alloc oom_taken 32 16)).
Proof.
  assert (H : fst (Allocator.Alloc oom_taken 32 16) = 0)
    by (vm_compute; reflexivity).
  destruct (Allocator.Alloc oom_taken 32 16) as [q t].
  cbn [fst snd] in *. now subst q.
Qed.

(** X26 at the allocator of the out-of-memory
    example once its only 32-byte slot is taken. *)
Lemma Alloc_fails_only_with_generic_witness :
  wf X64 oom_taken /\ 0 < 32 /\ 0 < 16 /\
  Allocator.Alloc oom_taken 32 16 = (0, snd (Allocator.Alloc oom_taken 32 16)) /\
  let s' := snd (Allocator.Alloc oom_taken 32 16) in
  let i0 := Z.shiftr (Z.max 32 16 - 1) 4 in
  GenericAllocator.Alloc (Allocator.gAllocator oom_taken) 32 16
  = (0, Allocator.gAllocator s') /\
  (forall k, i0 <= k < Allocator.bucketsCount oom_taken ->
     PoolBucket.head (Allocator.buckets oom_taken k) = TaggedIndex.Invalid) /\
  (i0 < Allocator.bucketsCount oom_taken ->
     TlsPoolBucket.numElementsL0 (Allocator.tls oom_taken i0) = 0 /\
     TlsPoolBucket.numElementsL1 (Allocator.tls oom_taken i0) = 0) /\
  (forall k, Allocator.buckets s' k = Allocator.buckets oom_taken k) /\
  (forall k, Allocator.tls s' k = Allocator.tls oom_taken k) /\
  Allocator.ram s' = Allocator.ram oom_taken.
Proof.
  assert (H1 : 0 < 32) by lia.
  assert (H2 : 0 < 16) by lia.
  split; [exact oom_taken_wf|]. split; [exact H1|]. split; [exact H2|].
  split; [exact oom_taken_run|].
  exact (Alloc_fails_only_with_generic X64 oom_taken 32 16
           (snd (Allocator.Alloc oom_taken 32 16)) oom_taken_wf H1 H2
           oom_taken_run).
Defined.

(** X27 at the block of the small allocator, shrunk
    to 8 bytes. *)
Lemma Realloc_in_place_frees_witness :
  wf X64 small_used /\ 0 <= 0 < Allocator.bucketsCount small_used /\
  region_base small_used 0 <= small_ptr /\
  small_ptr + 8 <= region_base small_used (0 + 1) /\
  8 <= 16 * (0 + 1) /\
  TlsPoolBucket.numElementsL0 (Allocator.tls small_used 0)
    < SMM_MAX_CACHE_ITEMS_COUNT X64 /\
  (TlsPoolBucket.maxElementsCount (Allocator.tls small_used 0) = 0 ->
   TlsPoolBucket.numElementsL0 (Allocator.tls small_used 0) = 0 /\
   TlsPoolBucket.numElementsL1 (Allocator.tls small_used 0) = 0) /\
  0 < 16 /\ Z.shiftr (Z.max 16 16 - 1) 4 = 0 /\
  let r := Allocator.Realloc X64 small_used small_ptr 8 8 in
  r = (small_ptr, Allocator.Free X64 small_used small_ptr) /\
  fst (Allocator.Alloc (snd r) 16 16) = small_ptr.
Proof.
  assert (H1 : 0 <= 0 < Allocator.bucketsCount small_used) by by_computation.
  assert (H2 : region_base small_used 0 <= small_ptr) by by_computation.
  assert (H3 : small_ptr + 8 <= region_base small_used (0 + 1)) by by_computation.
  assert (H4 : 8 <= 16 * (0 + 1)) by lia.
  assert (H5 : TlsPoolBucket.numElementsL0 (Allocator.tls small_used 0)
               < SMM_MAX_CACHE_ITEMS_COUNT X64) by by_computation.
  assert (H6 : TlsPoolBucket.maxElementsCount (Allocator.tls small_used 0) = 0 ->
               TlsPoolBucket.numElementsL0 (Allocator.tls small_used 0) = 0 /\
               TlsPoolBucket.numElementsL1 (Allocator.tls small_used 0) = 0)
    by (intros _; split; reflexivity).
  assert (H7 : 0 < 16) by lia.
  assert (H8 : Z.shiftr (Z.max 16 16 - 1) 4 = 0) by reflexivity.
  split; [exact small_used_wf|]. split; [exact H1|]. split; [exact H2|].
  split; [exact H3|]. split; [exact H4|]. split; [exact H5|].
  split; [exact H6|]. split; [exact H7|]. split; [exact H8|].
  exact (Realloc_in_place_frees X64 small_used small_ptr 0 8 8 16 16
           small_used_wf H1 H2 H3 H4 H5 H6 H7 H8).
Defined.

(** ** Pushes that overlap *)

Section ConcurrentPushes.
Variables (T : list Z) (offs : Z -> Z) (pData lim : Z) (l0 : list Z) (n0 : nat).
Hypothesis Hlim : lim < 2 ^ 32.
Hypothesis Hfit : forall t, In t T -> 0 <= offs t /\ offs t + 8 <= lim.
Hypothesis Hapart : all_apart (map offs T ++ l0).

Lemma apart_sym o1 o2 : apart o1 o2 -> apart o2 o1.
Proof. unfold apart. lia. Qed.

Lemma all_apart_threads (L : list Z) :
  all_apart (map offs L ++ l0) ->
  (forall t t', In t L -> In t' L -> t <> t' -> apart (offs t) (offs t')) /\
  (forall t o, In t L -> In o l0 -> apart (offs t) o).
Proof.
  induction L as [|a L IH]; cbn [map app all_apart].
  - intros _. split; intros ? ? [].
  - intros [Ha Hrest]. destruct (IH Hrest) as [IH1 IH2]. split.
    + intros t t' [<- | Ht] [<- | Ht'] Hne.
      * contradiction.
      * apply Ha. apply in_or_app. left. now apply in_map.
      * apply apart_sym. apply Ha. apply in_or_app. left. now apply in_map.
      * now apply IH1.
    + intros t o [<- | Ht] Ho.
      * apply Ha. apply in_or_app. now right.
      * now apply IH2.
Qed.

Lemma pusher_ok_frame m m' o f :
  (forall x, pData + o <= x < pData + o + 8 -> m' x = m x) ->
  pusher_ok m pData o f -> pusher_ok m' pData o f.
Proof.
  intros Hm [H1 [H2 H3]]. split; [exact H1|]. split; [exact H2|].
  destruct (PoolBucket.pc f); try exact H3.
  destruct H3 as [Ha [Hb [Hc [Hd He]]]]. repeat split; try assumption; try lia.
  rewrite <- He. apply load_le_ext. intros x Hx. apply Hm. cbn in Hx. lia.
Qed.

(** A step that leaves the stepping thread inside its call: it may have
    written the link of its own slot, nothing else. *)
Lemma pushing_busy_step sys finished tid sys' :
  pushing T offs pData lim l0 n0 sys finished ->
  In tid T -> ~ In tid finished ->
  PoolBucket.pData (PoolBucket.sys_bucket sys') = pData ->
  PoolBucket.head (PoolBucket.sys_bucket sys')
  = PoolBucket.head (PoolBucket.sys_bucket sys) ->
  PoolBucket.pushed sys' = PoolBucket.pushed sys ->
  (forall t, t <> tid ->
     PoolBucket.sys_threads sys' t = PoolBucket.sys_threads sys t) ->
  (forall x, x < pData + offs tid \/ pData + offs tid + 8 <= x ->
     PoolBucket.sys_mem sys' x = PoolBucket.sys_mem sys x) ->
  pusher_ok (PoolBucket.sys_mem sys') pData (offs tid)
            (PoolBucket.sys_threads sys' tid) ->
  pushing T offs pData lim l0 n0 sys' finished.
Proof.
  intros Hinv HinT Hnotfin Hdata Hhead Hpushed Hothers Hmem Hok.
  destruct (all_apart_threads T Hapart) as [Hpair Hlist].
  destruct Hinv as [Id Ih In_ If Ii Ib Il Ic].
  assert (Hbusy : PoolBucket.pc (PoolBucket.sys_threads sys' tid)
                  <> PoolBucket.AtDone).
  { destruct Hok as [_ [_ H]]. intros E. rewrite E in H. exact H. }
  constructor.
  - exact Hdata.
  - rewrite Hhead. exact Ih.
  - exact In_.
  - intros t. destruct (Z.eq_dec t tid) as [-> | Hne].
    + split; [intros H; contradiction | intros [_ H]; contradiction].
    + rewrite (Hothers t Hne). apply If.
  - intros t Ht. rewrite Hothers; [now apply Ii|]. intros ->. contradiction.
  - intros t Ht Hnf. destruct (Z.eq_dec t tid) as [-> | Hne]; [exact Hok|].
    rewrite (Hothers t Hne).
    apply (pusher_ok_frame (PoolBucket.sys_mem sys)); [|now apply Ib].
    intros x Hx. apply Hmem.
    destruct (Hpair t tid Ht HinT Hne) as [H | H]; lia.
  - rewrite Hhead.
    apply (freelist_frame_nodes (PoolBucket.sys_mem sys)); [|exact Il].
    intros o Ho x Hx. apply Hmem.
    assert (Hap : apart (offs tid) o).
    { apply in_app_or in Ho. destruct Ho as [Ho | Ho].
      - apply in_map_iff in Ho. destruct Ho as [t' [<- Ht']].
        apply Hpair; [exact HinT | now apply If |].
        intros ->. contradiction.
      - now apply Hlist. }
    destruct Hap as [H | H]; lia.
  - rewrite Hpushed. exact Ic.
Qed.

(** The step that completes a push: the compare-exchange has put the slot
    of the stepping thread in front of the list. *)
Lemma pushing_complete_step sys finished tid sys' :
  pushing T offs pData lim l0 n0 sys finished ->
  In tid T -> ~ In tid finished ->
  PoolBucket.pData (PoolBucket.sys_bucket sys') = pData ->
  PoolBucket.sys_mem sys' = PoolBucket.sys_mem sys ->
  (forall t, t <> tid ->
     PoolBucket.sys_threads sys' t = PoolBucket.sys_threads sys t) ->
  PoolBucket.pc (PoolBucket.sys_threads sys' tid) = PoolBucket.AtDone ->
  PoolBucket.head (PoolBucket.sys_bucket sys') <> TaggedIndex.Invalid ->
  0 <= PoolBucket.head (PoolBucket.sys_bucket sys') < 2 ^ 64 ->
  TaggedIndex.offset (PoolBucket.head (PoolBucket.sys_bucket sys')) = offs tid ->
  load64 (PoolBucket.sys_mem sys) (pData + offs tid)
  = PoolBucket.head (PoolBucket.sys_bucket sys) ->
  length (PoolBucket.pushed sys') = S (length (PoolBucket.pushed sys)) ->
  pushing T offs pData lim l0 n0 sys' (tid :: finished).
Proof.
  intros Hinv HinT Hnotfin Hdata Hmem Hothers Hdone Hne Hrange Hoff Hlink Hcount.
  destruct Hinv as [Id Ih In_ If Ii Ib Il Ic].
  constructor.
  - exact Hdata.
  - exact Hrange.
  - constructor; assumption.
  - intros t. destruct (Z.eq_dec t tid) as [-> | Hnt].
    + split; [intros _; now split | intros _; now left].
    + rewrite (Hothers t Hnt). rewrite <- If. cbn [In].
      split; [intros [E | H]; [congruence | exact H] | intros H; now right].
  - intros t Ht. rewrite Hothers; [now apply Ii|]. intros ->. contradiction.
  - intros t Ht Hnf. cbn [In] in Hnf.
    assert (Hnt : t <> tid) by (intros ->; apply Hnf; now left).
    rewrite (Hothers t Hnt), Hmem. apply Ib; [exact Ht|].
    intros H. apply Hnf. now right.
  - cbn [map app]. rewrite <- Hoff, Hmem.
    constructor; [exact Hne | rewrite Hoff; now apply Hfit |].
    rewrite Hoff, Hlink. exact Il.
  - rewrite Hcount, Ic. cbn [length]. lia.
Qed.

(** A step of a thread that is not inside a call changes nothing. *)
Lemma pushing_idle_step sys finished tid :
  pushing T offs pData lim l0 n0 sys finished ->
  PoolBucket.pc (PoolBucket.sys_threads sys tid) = PoolBucket.AtDone ->
  pushing T offs pData lim l0 n0 (PoolBucket.sys_step sys tid) finished.
Proof.
  intros Hinv Hpc. unfold PoolBucket.sys_step, PoolBucket.step,
    PoolBucket.completes. rewrite Hpc.
  assert (Hth : forall t,
            upd (PoolBucket.sys_threads sys) tid (PoolBucket.sys_threads sys tid) t
            = PoolBucket.sys_threads sys t) by (intros t; apply upd_self).
  destruct Hinv as [Id Ih In_ If Ii Ib Il Ic].
  constructor; cbn [PoolBucket.sys_bucket PoolBucket.sys_mem
                    PoolBucket.sys_threads PoolBucket.pushed];
    try assumption.
  - intros t. rewrite Hth. apply If.
  - intros t Ht. rewrite Hth. now apply Ii.
  - intros t Ht Hnf. rewrite Hth. now apply Ib.
Qed.

(** Every step of every thread keeps the system in order. *)
Lemma pushing_step sys finished tid :
  pushing T offs pData lim l0 n0 sys finished ->
  exists finished',
    pushing T offs pData lim l0 n0 (PoolBucket.sys_step sys tid) finished'.
Proof.
  intros Hinv.
  destruct (in_dec Z.eq_dec tid T) as [HinT | HnotT].
  2: { exists finished. apply pushing_idle_step; [exact Hinv|].
       now apply (pushing_idle _ _ _ _ _ _ _ _ Hinv). }
  destruct (in_dec Z.eq_dec tid finished) as [Hfin | Hnotfin].
  { exists finished. apply pushing_idle_step; [exact Hinv|].
    now apply (pushing_finished _ _ _ _ _ _ _ _ Hinv). }
  pose proof (pushing_busy _ _ _ _ _ _ _ _ Hinv tid HinT Hnotfin) as Hok.
  pose proof (pushing_data _ _ _ _ _ _ _ _ Hinv) as Hdata.
  pose proof (pushing_head _ _ _ _ _ _ _ _ Hinv) as Hhead.
  destruct (Hfit tid HinT) as [Ho1 Ho2].
  unfold PoolBucket.sys_step, PoolBucket.step, PoolBucket.completes.
  destruct (PoolBucket.sys_threads sys tid) as [pc aH aT tg nv hv] eqn:Ef.
  destruct Hok as [HaH [HaT Hpc]].
  cbn [PoolBucket.pc PoolBucket.arg_pHead PoolBucket.arg_pTail
       PoolBucket.loc_tag PoolBucket.loc_nodeValue PoolBucket.loc_headValue]
    in *.
  subst aH aT.
  destruct pc.
  - (* fetch_add *)
    exists finished.
    apply (pushing_busy_step sys finished tid); try assumption;
      cbn [PoolBucket.sys_bucket PoolBucket.sys_mem PoolBucket.sys_threads
           PoolBucket.pushed]; try reflexivity.
    + intros t Ht. now apply upd_other.
    + rewrite upd_same. repeat split.
  - (* load of head *)
    exists finished.
    apply (pushing_busy_step sys finished tid); try assumption;
      cbn [PoolBucket.sys_bucket PoolBucket.sys_mem PoolBucket.sys_threads
           PoolBucket.pushed]; try reflexivity.
    + intros t Ht. now apply upd_other.
    + rewrite upd_same. rewrite Hdata.
      replace (pData + offs tid - pData) with (offs tid) by ring.
      split; [reflexivity|]. split; [reflexivity|].
      cbn [PoolBucket.pc PoolBucket.loc_nodeValue PoolBucket.loc_headValue].
      rewrite (u32_small (offs tid)) by lia.
      split; [apply make_not_Invalid; lia|].
      split; [rewrite offset_make; apply u32_small; lia|].
      split; [apply make_range | exact Hhead].
  - (* store through pTail *)
    destruct Hpc as [Hnv [Hoff [Hnr Hhr]]].
    exists finished.
    apply (pushing_busy_step sys finished tid); try assumption;
      cbn [PoolBucket.sys_bucket PoolBucket.sys_mem PoolBucket.sys_threads
           PoolBucket.pushed]; try reflexivity.
    + intros t Ht. now apply upd_other.
    + intros x Hx. apply store_le_outside. cbn. lia.
    + rewrite upd_same.
      split; [reflexivity|]. split; [reflexivity|].
      cbn [PoolBucket.pc PoolBucket.loc_nodeValue PoolBucket.loc_headValue].
      repeat split; try assumption; try lia.
      now apply load64_store64_same.
  - (* compare-exchange *)
    destruct Hpc as [Hnv [Hoff [Hnr [Hhr Hlink]]]].
    destruct (Z.eqb_spec (PoolBucket.head (PoolBucket.sys_bucket sys)) hv)
      as [Heq | Hneq].
    + exists (tid :: finished).
      apply (pushing_complete_step sys finished tid); try assumption;
        cbn [PoolBucket.sys_bucket PoolBucket.sys_mem PoolBucket.sys_threads
             PoolBucket.pushed PoolBucket.head PoolBucket.pData
             PoolBucket.set_head]; try reflexivity; try assumption.
      * intros t Ht. now apply upd_other.
      * now rewrite upd_same.
      * congruence.
      * rewrite length_app. cbn [length]. lia.
    + exists finished.
      apply (pushing_busy_step sys finished tid); try assumption;
        cbn [PoolBucket.sys_bucket PoolBucket.sys_mem PoolBucket.sys_threads
             PoolBucket.pushed]; try reflexivity.
      * intros t Ht. now apply upd_other.
      * rewrite upd_same.
        split; [reflexivity|]. split; [reflexivity|].
        cbn [PoolBucket.pc PoolBucket.loc_nodeValue PoolBucket.loc_headValue].
        repeat split; try assumption; lia.
  - contradiction.
Qed.

Lemma pushing_run schedule : forall sys finished,
  pushing T offs pData lim l0 n0 sys finished ->
  exists finished',
    pushing T offs pData lim l0 n0 (PoolBucket.run sys schedule) finished'.
Proof.
  induction schedule as [|tid schedule IH]; intros sys finished Hinv.
  - exists finished. exact Hinv.
  - destruct (pushing_step sys finished tid Hinv) as [finished1 H1].
    exact (IH _ _ H1).
Qed.

End ConcurrentPushes.

(** X18. Threads that free one slot each into
    the same bucket, their [FreeInterval] calls interleaved in any way: at
    every moment the head starts a freelist that holds the slots of exactly
    the calls that have completed, the latest first, in front of the list
    the bucket had at the start. No push is lost or applied twice, and no
    retry of the compare-exchange damages the list. *)
Theorem concurrent_pushes_all_arrive sys T offs lim l0 schedule :
  pushers_enter sys T offs ->
  freelist (PoolBucket.sys_mem sys)
           (PoolBucket.pData (PoolBucket.sys_bucket sys)) lim
           (PoolBucket.head (PoolBucket.sys_bucket sys)) l0 ->
  0 <= PoolBucket.head (PoolBucket.sys_bucket sys) < 2 ^ 64 ->
  lim < 2 ^ 32 ->
  (forall t, In t T -> 0 <= offs t /\ offs t + 8 <= lim) ->
  all_apart (map offs T ++ l0) ->
  let fin := PoolBucket.run sys schedule in
  exists finished,
    NoDup finished /\
    (forall t, In t finished <->
       In t T /\
       PoolBucket.pc (PoolBucket.sys_threads fin t) = PoolBucket.AtDone) /\
    freelist (PoolBucket.sys_mem fin)
             (PoolBucket.pData (PoolBucket.sys_bucket fin)) lim
             (PoolBucket.head (PoolBucket.sys_bucket fin))
             (map offs finished ++ l0) /\
    length (PoolBucket.pushed fin)
    = (length (PoolBucket.pushed sys) + length finished)%nat.
Proof.
  intros [Henter Hidle] Hfl Hhead Hlim Hfit Hapart fin.
  assert (Hinit : pushing T offs (PoolBucket.pData (PoolBucket.sys_bucket sys))
                    lim l0 (length (PoolBucket.pushed sys)) sys []).
  { constructor.
    - reflexivity.
    - exact Hhead.
    - constructor.
    - intros t. split; [intros [] | intros [Ht Hpc]].
      rewrite (Henter t Ht) in Hpc. discriminate Hpc.
    - exact Hidle.
    - intros t Ht _. rewrite (Henter t Ht). repeat split.
    - exact Hfl.
    - cbn. lia. }
  destruct (pushing_run T offs _ lim l0 _ Hlim Hfit Hapart schedule sys [] Hinit)
    as [finished [Id Ih In_ If Ii Ib Il Ic]].
  exists finished. fold fin in Id, Ih, If, Il, Ic.
  split; [exact In_|]. split; [exact If|]. split; [|exact Ic].
  rewrite Id. exact Il.
Qed.

(** Steps of one thread in a row are steps of that thread alone. *)
Lemma run_solo tid (n : nat) : forall sys,
  let r := solo_steps n (PoolBucket.sys_mem sys) (PoolBucket.sys_bucket sys)
                      (PoolBucket.sys_threads sys tid) in
  let fin := PoolBucket.run sys (repeat tid n) in
  PoolBucket.sys_mem fin = fst (fst r) /\
  PoolBucket.sys_bucket fin = snd (fst r) /\
  PoolBucket.sys_threads fin tid = snd r /\
  (forall t, t <> tid ->
     PoolBucket.sys_threads fin t = PoolBucket.sys_threads sys t).
Proof.
  induction n as [|n IH]; intros sys.
  - cbn. repeat split; reflexivity.
  - cbv zeta. cbn [repeat solo_steps]. unfold PoolBucket.run. cbn [fold_left].
    fold (PoolBucket.run (PoolBucket.sys_step sys tid) (repeat tid n)).
    specialize (IH (PoolBucket.sys_step sys tid)). cbv zeta in IH.
    destruct (PoolBucket.step (PoolBucket.sys_mem sys)
                (PoolBucket.sys_bucket sys) (PoolBucket.sys_threads sys tid))
      as [[m' b'] f'] eqn:Es.
    assert (E : exists pushed',
              PoolBucket.sys_step sys tid
              = PoolBucket.mkSys m' b' (upd (PoolBucket.sys_threads sys) tid f')
                                 pushed').
    { unfold PoolBucket.sys_step. rewrite Es. eexists. reflexivity. }
    destruct E as [pushed' E]. rewrite E in IH |- *.
    cbn [PoolBucket.sys_mem PoolBucket.sys_bucket PoolBucket.sys_threads] in IH.
    rewrite upd_same in IH.
    destruct IH as [H1 [H2 [H3 H4]]].
    split; [exact H1|]. split; [exact H2|]. split; [exact H3|].
    intros t Ht. rewrite (H4 t Ht). now apply upd_other.
Qed.

Lemma solo_steps_4 m b f :
  let r := solo_steps 4 m b f in
  PoolBucket.pc (snd r) = PoolBucket.AtDone /\
  (PoolBucket.pc f <> PoolBucket.AtDone ->
   PoolBucket.head (snd (fst r)) = PoolBucket.loc_nodeValue (snd r)).
Proof.
  destruct f as [pc aH aT tg nv hv]. cbv zeta.
  destruct pc; unfold solo_steps, PoolBucket.step;
    cbn [PoolBucket.pc PoolBucket.arg_pHead PoolBucket.arg_pTail
         PoolBucket.loc_tag PoolBucket.loc_nodeValue PoolBucket.loc_headValue
         PoolBucket.head PoolBucket.set_globalTag PoolBucket.set_head
         PoolBucket.pData PoolBucket.globalTag].
  - rewrite Z.eqb_refl. cbn. split; [reflexivity | intros _; reflexivity].
  - rewrite Z.eqb_refl. cbn. split; [reflexivity | intros _; reflexivity].
  - destruct (PoolBucket.head b =? hv).
    + cbn. split; [reflexivity | intros _; reflexivity].
    + cbn [PoolBucket.pc PoolBucket.arg_pHead PoolBucket.arg_pTail
         PoolBucket.loc_tag PoolBucket.loc_nodeValue PoolBucket.loc_headValue
         PoolBucket.head PoolBucket.set_globalTag PoolBucket.set_head
         PoolBucket.pData PoolBucket.globalTag].
      rewrite Z.eqb_refl. cbn. split; [reflexivity | intros _; reflexivity].
  - destruct (PoolBucket.head b =? hv).
    + cbn. split; [reflexivity | intros _; reflexivity].
    + cbn [PoolBucket.pc PoolBucket.arg_pHead PoolBucket.arg_pTail
         PoolBucket.loc_tag PoolBucket.loc_nodeValue PoolBucket.loc_headValue
         PoolBucket.head PoolBucket.set_globalTag PoolBucket.set_head
         PoolBucket.pData PoolBucket.globalTag].
      rewrite Z.eqb_refl. cbn. split; [reflexivity | intros _; reflexivity].
  - cbn. split; [reflexivity | intros H; contradiction].
Qed.

(** X19. A thread inside [FreeInterval] that runs
    four steps without interference leaves the call, wherever it was: a
    compare-exchange that follows a fresh load of [head] succeeds. Its node
    value is then the head, and no other thread has been touched. *)
Theorem push_is_obstruction_free (sys : PoolBucket.Sys) (tid : Z) :
  let fin := PoolBucket.run sys [tid; tid; tid; tid] in
  PoolBucket.pc (PoolBucket.sys_threads fin tid) = PoolBucket.AtDone /\
  (PoolBucket.pc (PoolBucket.sys_threads sys tid) <> PoolBucket.AtDone ->
     PoolBucket.head (PoolBucket.sys_bucket fin)
     = PoolBucket.loc_nodeValue (PoolBucket.sys_threads fin tid)) /\
  (forall t, t <> tid ->
     PoolBucket.sys_threads fin t = PoolBucket.sys_threads sys t).
Proof.
  pose proof (run_solo tid 4 sys) as H. cbv zeta in H. cbn [repeat] in H.
  destruct H as [_ [H2 [H3 H4]]].
  pose proof (solo_steps_4 (PoolBucket.sys_mem sys) (PoolBucket.sys_bucket sys)
                (PoolBucket.sys_threads sys tid)) as [S1 S2].
  cbv zeta. rewrite H2, H3. split; [exact S1|]. split; [exact S2 | exact H4].
Qed.

(** X18 at the two threads of the race example,
    under the schedule in which thread 0 is overtaken. *)
Lemma concurrent_pushes_all_arrive_witness :
  pushers_enter pair_sys [0; 1] pair_offs /\
  freelist (PoolBucket.sys_mem pair_sys)
           (PoolBucket.pData (PoolBucket.sys_bucket pair_sys)) 32
           (PoolBucket.head (PoolBucket.sys_bucket pair_sys)) [] /\
  0 <= PoolBucket.head (PoolBucket.sys_bucket pair_sys) < 2 ^ 64 /\
  32 < 2 ^ 32 /\
  (forall t, In t [0; 1] -> 0 <= pair_offs t /\ pair_offs t + 8 <= 32) /\
  all_apart (map pair_offs [0; 1] ++ []) /\
  let fin := PoolBucket.run pair_sys race_schedule in
  exists finished,
    NoDup finished /\
    (forall t, In t finished <->
       In t [0; 1] /\
       PoolBucket.pc (PoolBucket.sys_threads fin t) = PoolBucket.AtDone) /\
    freelist (PoolBucket.sys_mem fin)
             (PoolBucket.pData (PoolBucket.sys_bucket fin)) 32
             (PoolBucket.head (PoolBucket.sys_bucket fin))
             (map pair_offs finished ++ []) /\
    length (PoolBucket.pushed fin)
    = (length (PoolBucket.pushed pair_sys) + length finished)%nat.
Proof.
  assert (H1 : pushers_enter pair_sys [0; 1] pair_offs).
  { split.
    - intros t [<- | [<- | []]]; reflexivity.
    - intros t Hn. cbn.
      destruct (Z.eqb_spec t 0) as [-> | _]; [exfalso; apply Hn; now left|].
      destruct (Z.eqb_spec t 1) as [-> | _];
        [exfalso; apply Hn; right; now left|].
      reflexivity. }
  assert (H2 : freelist (PoolBucket.sys_mem pair_sys)
                 (PoolBucket.pData (PoolBucket.sys_bucket pair_sys)) 32
                 (PoolBucket.head (PoolBucket.sys_bucket pair_sys)) [])
    by constructor.
  assert (H3 : 32 < 2 ^ 32) by reflexivity.
  assert (H4 : forall t, In t [0; 1] ->
                 0 <= pair_offs t /\ pair_offs t + 8 <= 32)
    by (intros t [<- | [<- | []]]; cbn; lia).
  assert (H5 : all_apart (map pair_offs [0; 1] ++ [])).
  { cbn. unfold apart. repeat split; try (intros o' H; intuition lia). }
  split; [exact H1|]. split; [exact H2|]. split; [exact Invalid_range|].
  split; [exact H3|]. split; [exact H4|]. split; [exact H5|].
  exact (concurrent_pushes_all_arrive pair_sys [0; 1] pair_offs 32 []
           race_schedule H1 H2 Invalid_range H3 H4 H5).
Defined.

(** ** The tags of pushes that overlap *)

Section ConcurrentTags.
Variables (T : list Z) (g0 : Z) (pushed0 : list Z).

Lemma tags_drawn_ext th th' drawn :
  (forall t, In t drawn -> PoolBucket.loc_tag (th' t) = PoolBucket.loc_tag (th t)) ->
  tags_drawn g0 th drawn -> tags_drawn g0 th' drawn.
Proof.
  induction drawn as [|t rest IH]; intros Hext H; [exact I|].
  cbn [tags_drawn] in *. destruct H as [H1 H2]. split.
  - rewrite Hext by (now left). exact H1.
  - apply IH; [|exact H2]. intros t' Ht'. apply Hext. now right.
Qed.

Lemma tags_drawn_in th drawn : forall t,
  tags_drawn g0 th drawn -> In t drawn ->
  exists j, 0 <= j < Z.of_nat (length drawn) /\
            PoolBucket.loc_tag (th t) = u32 (g0 + j).
Proof.
  induction drawn as [|t0 rest IH]; intros t H Hin; [destruct Hin|].
  cbn [tags_drawn] in H. destruct H as [H1 H2]. cbn [length].
  destruct Hin as [<- | Hin].
  - exists (Z.of_nat (length rest)). split; [lia | exact H1].
  - destruct (IH t H2 Hin) as [j [Hj Ht]]. exists j. split; [lia | exact Ht].
Qed.

Lemma u32_shift_inj j1 j2 :
  0 <= j1 < 2 ^ 32 -> 0 <= j2 < 2 ^ 32 ->
  u32 (g0 + j1) = u32 (g0 + j2) -> j1 = j2.
Proof.
  intros H1 H2 H. unfold u32, wrap in H.
  assert (Hd : (j1 - j2) mod 2 ^ 32 = 0).
  { replace (j1 - j2) with ((g0 + j1) - (g0 + j2)) by ring.
    rewrite Zminus_mod, H, Z.sub_diag. reflexivity. }
  apply Z.mod_divide in Hd; [|lia]. destruct Hd as [q Hq]. nia.
Qed.

(** As long as no more than [2^32] tags are drawn, the threads hold
    different tags. *)
Lemma tags_drawn_inj th drawn :
  tags_drawn g0 th drawn -> NoDup drawn ->
  Z.of_nat (length drawn) <= 2 ^ 32 ->
  forall t t', In t drawn -> In t' drawn ->
    PoolBucket.loc_tag (th t) = PoolBucket.loc_tag (th t') -> t = t'.
Proof.
  induction drawn as [|t0 rest IH]; intros H Hnd Hlen t t' Ht Ht' Heq;
    [destruct Ht|].
  cbn [tags_drawn] in H. destruct H as [H1 H2]. cbn [length] in Hlen.
  inversion Hnd as [|? ? Hnotin Hnd']; subst.
  destruct Ht as [<- | Ht]; destruct Ht' as [<- | Ht']; [reflexivity | | |].
  - exfalso. destruct (tags_drawn_in th rest t' H2 Ht') as [j [Hj Hj']].
    rewrite H1, Hj' in Heq. apply u32_shift_inj in Heq; lia.
  - exfalso. destruct (tags_drawn_in th rest t H2 Ht) as [j [Hj Hj']].
    rewrite H1, Hj' in Heq. apply u32_shift_inj in Heq; lia.
  - apply IH; try assumption. lia.
Qed.

Lemma NoDup_map_in {A B : Type} (f : A -> B) (l : list A) :
  NoDup l ->
  (forall x y, In x l -> In y l -> f x = f y -> x = y) ->
  NoDup (map f l).
Proof.
  induction l as [|a l IH]; intros Hnd Hinj; [constructor|].
  inversion Hnd as [|? ? Hnotin Hnd']; subst. cbn [map]. constructor.
  - intros Hin. apply in_map_iff in Hin. destruct Hin as [x [Hx Hxl]].
    assert (x = a) by (apply Hinj; [now right | now left | exact Hx]).
    subst x. contradiction.
  - apply IH; [exact Hnd'|]. intros x y Hx Hy. apply Hinj; now right.
Qed.

(** A state that differs in the frame of one thread, which keeps its tag
    and stays where it is with respect to the draw and the end of its
    call. *)
Lemma drawing_keep sys drawn finished tid sys' :
  drawing T g0 pushed0 sys drawn finished ->
  In tid drawn ->
  PoolBucket.pc (PoolBucket.sys_threads sys tid) <> PoolBucket.AtDone ->
  PoolBucket.globalTag (PoolBucket.sys_bucket sys')
  = PoolBucket.globalTag (PoolBucket.sys_bucket sys) ->
  PoolBucket.pushed sys' = PoolBucket.pushed sys ->
  (forall t, t <> tid ->
     PoolBucket.sys_threads sys' t = PoolBucket.sys_threads sys t) ->
  PoolBucket.loc_tag (PoolBucket.sys_threads sys' tid)
  = PoolBucket.loc_tag (PoolBucket.sys_threads sys tid) ->
  PoolBucket.pc (PoolBucket.sys_threads sys' tid) <> PoolBucket.AtFetchAdd ->
  PoolBucket.pc (PoolBucket.sys_threads sys' tid) <> PoolBucket.AtDone ->
  (PoolBucket.pc (PoolBucket.sys_threads sys' tid) <> PoolBucket.AtLoadHead ->
   TaggedIndex.tag (PoolBucket.loc_nodeValue (PoolBucket.sys_threads sys' tid))
   = PoolBucket.loc_tag (PoolBucket.sys_threads sys' tid)) ->
  drawing T g0 pushed0 sys' drawn finished.
Proof.
  intros [Ic In_ Id Ii It Inode Ifn If Ip] Hin Hbusy Hg Hpushed Hoth Htag
         Hnf Hnd Hnode.
  assert (Hnotfin : ~ In tid finished)
    by (intros H; destruct (If tid H) as [_ H']; contradiction).
  assert (Htags : forall t,
            PoolBucket.loc_tag (PoolBucket.sys_threads sys' t)
            = PoolBucket.loc_tag (PoolBucket.sys_threads sys t)).
  { intros t. destruct (Z.eq_dec t tid) as [-> | Hne];
      [exact Htag | now rewrite Hoth]. }
  constructor.
  - rewrite Hg. exact Ic.
  - exact In_.
  - intros t. destruct (Z.eq_dec t tid) as [-> | Hne].
    + split; [intros _; split; [now apply Id | exact Hnf] | intros _; exact Hin].
    + rewrite (Hoth t Hne). apply Id.
  - intros t Ht. rewrite Hoth; [now apply Ii|].
    intros ->. apply Ht. now apply Id.
  - apply (tags_drawn_ext (PoolBucket.sys_threads sys)); [|exact It].
    intros t _. apply Htags.
  - intros t Ht. destruct (Z.eq_dec t tid) as [-> | Hne]; [exact Hnode|].
    rewrite (Hoth t Hne). now apply Inode.
  - exact Ifn.
  - intros t Ht. destruct (If t Ht) as [H1 H2]. split; [exact H1|].
    rewrite Hoth; [exact H2|]. intros ->. contradiction.
  - rewrite Hpushed, Ip. f_equal. apply map_ext. intros t. now rewrite Htags.
Qed.

(** A step of a thread that is not inside a call changes nothing. *)
Lemma drawing_idle_step sys drawn finished tid :
  drawing T g0 pushed0 sys drawn finished ->
  PoolBucket.pc (PoolBucket.sys_threads sys tid) = PoolBucket.AtDone ->
  drawing T g0 pushed0 (PoolBucket.sys_step sys tid) drawn finished.
Proof.
  intros Hinv Hpc. unfold PoolBucket.sys_step, PoolBucket.step,
    PoolBucket.completes. rewrite Hpc.
  assert (Hth : forall t,
            upd (PoolBucket.sys_threads sys) tid (PoolBucket.sys_threads sys tid) t
            = PoolBucket.sys_threads sys t) by (intros t; apply upd_self).
  destruct Hinv as [Ic In_ Id Ii It Inode Ifn If Ip].
  constructor; cbn [PoolBucket.sys_bucket PoolBucket.sys_mem
                    PoolBucket.sys_threads PoolBucket.pushed];
    try assumption.
  - intros t. rewrite Hth. apply Id.
  - intros t Ht. rewrite Hth. now apply Ii.
  - apply (tags_drawn_ext (PoolBucket.sys_threads sys)); [|exact It].
    intros t _. now rewrite Hth.
  - intros t Ht. rewrite Hth. now apply Inode.
  - intros t Ht. rewrite Hth. now apply If.
  - rewrite Ip. f_equal. apply map_ext. intros t. now rewrite Hth.
Qed.

Lemma drawing_step sys drawn finished tid :
  drawing T g0 pushed0 sys drawn finished ->
  exists drawn' finished',
    drawing T g0 pushed0 (PoolBucket.sys_step sys tid) drawn' finished'.
Proof.
  intros Hinv.
  destruct (PoolBucket.pc (PoolBucket.sys_threads sys tid)) eqn:Epc.
  - (* fetch_add: the thread draws its tag *)
    pose proof Hinv as [Ic In_ Id Ii It Inode Ifn If Ip].
    assert (HinT : In tid T).
    { destruct (in_dec Z.eq_dec tid T) as [H | H]; [exact H|].
      rewrite (Ii tid H) in Epc. discriminate. }
    assert (Hnotdrawn : ~ In tid drawn)
      by (intros H; apply Id in H; destruct H as [_ H]; contradiction).
    exists (tid :: drawn), finished.
    unfold PoolBucket.sys_step, PoolBucket.step, PoolBucket.completes.
    rewrite Epc.
    assert (Hoth : forall t, t <> tid ->
              upd (PoolBucket.sys_threads sys) tid
                  (PoolBucket.mkFrame PoolBucket.AtLoadHead
                     (PoolBucket.arg_pHead (PoolBucket.sys_threads sys tid))
                     (PoolBucket.arg_pTail (PoolBucket.sys_threads sys tid))
                     (PoolBucket.globalTag (PoolBucket.sys_bucket sys))
                     (PoolBucket.loc_nodeValue (PoolBucket.sys_threads sys tid))
                     (PoolBucket.loc_headValue (PoolBucket.sys_threads sys tid)))
                  t
              = PoolBucket.sys_threads sys t)
      by (intros t Ht; now apply upd_other).
    constructor; cbn [PoolBucket.sys_bucket PoolBucket.sys_mem
                      PoolBucket.sys_threads PoolBucket.pushed
                      PoolBucket.globalTag PoolBucket.set_globalTag].
    + rewrite Ic, u32_add_l. cbn [length]. f_equal. lia.
    + constructor; assumption.
    + intros t. destruct (Z.eq_dec t tid) as [-> | Hne].
      * rewrite upd_same. cbn [PoolBucket.pc].
        split; [intros _; split; [exact HinT | discriminate]
               | intros _; now left].
      * rewrite (Hoth t Hne), <- Id. cbn [In].
        split; [intros [E | H]; [congruence | exact H] | intros H; now right].
    + intros t Ht. rewrite Hoth; [now apply Ii|]. intros ->. contradiction.
    + cbn [tags_drawn]. split.
      * rewrite upd_same. cbn [PoolBucket.loc_tag]. exact Ic.
      * apply (tags_drawn_ext (PoolBucket.sys_threads sys)); [|exact It].
        intros t Ht. rewrite Hoth; [reflexivity|]. intros ->. contradiction.
    + intros t [<- | Ht].
      * rewrite upd_same. cbn [PoolBucket.pc]. intros H. contradiction.
      * rewrite Hoth by (intros ->; contradiction). now apply Inode.
    + exact Ifn.
    + intros t Ht. destruct (If t Ht) as [H1 H2].
      split; [now right|]. rewrite Hoth; [exact H2|].
      intros ->. contradiction.
    + rewrite Ip. f_equal. apply map_ext_in. intros t Ht.
      rewrite Hoth; [reflexivity|]. intros ->.
      apply in_rev in Ht. destruct (If tid Ht) as [H _]. contradiction.
  - (* load of head *)
    pose proof Hinv as [Ic In_ Id Ii It Inode Ifn If Ip].
    assert (Hin : In tid drawn).
    { apply Id. split; [|rewrite Epc; discriminate].
      destruct (in_dec Z.eq_dec tid T) as [H | H]; [exact H|].
      rewrite (Ii tid H) in Epc. discriminate. }
    destruct (tags_drawn_in _ _ tid It Hin) as [j [_ Hj]].
    exists drawn, finished.
    apply (drawing_keep sys drawn finished tid); try assumption;
      unfold PoolBucket.sys_step, PoolBucket.step, PoolBucket.completes;
      rewrite Epc;
      cbn [PoolBucket.sys_bucket PoolBucket.sys_mem PoolBucket.sys_threads
           PoolBucket.pushed]; try reflexivity;
      try (rewrite upd_same; cbn [PoolBucket.pc PoolBucket.loc_tag
                                  PoolBucket.loc_nodeValue]).
    + discriminate.
    + intros t Ht. now apply upd_other.
    + reflexivity.
    + discriminate.
    + discriminate.
    + intros _. rewrite tag_make, Hj. apply u32_idem.
  - (* store through pTail *)
    pose proof Hinv as [Ic In_ Id Ii It Inode Ifn If Ip].
    assert (Hin : In tid drawn).
    { apply Id. split; [|rewrite Epc; discriminate].
      destruct (in_dec Z.eq_dec tid T) as [H | H]; [exact H|].
      rewrite (Ii tid H) in Epc. discriminate. }
    pose proof (Inode tid Hin ltac:(rewrite Epc; discriminate)) as Hnode.
    exists drawn, finished.
    apply (drawing_keep sys drawn finished tid); try assumption;
      unfold PoolBucket.sys_step, PoolBucket.step, PoolBucket.completes;
      rewrite Epc;
      cbn [PoolBucket.sys_bucket PoolBucket.sys_mem PoolBucket.sys_threads
           PoolBucket.pushed]; try reflexivity;
      try (rewrite upd_same; cbn [PoolBucket.pc PoolBucket.loc_tag
                                  PoolBucket.loc_nodeValue]).
    + discriminate.
    + intros t Ht. now apply upd_other.
    + reflexivity.
    + discriminate.
    + discriminate.
    + intros _. exact Hnode.
  - (* compare-exchange *)
    pose proof Hinv as [Ic In_ Id Ii It Inode Ifn If Ip].
    assert (Hin : In tid drawn).
    { apply Id. split; [|rewrite Epc; discriminate].
      destruct (in_dec Z.eq_dec tid T) as [H | H]; [exact H|].
      rewrite (Ii tid H) in Epc. discriminate. }
    pose proof (Inode tid Hin ltac:(rewrite Epc; discriminate)) as Hnode.
    assert (Hnotfin : ~ In tid finished).
    { intros H. destruct (If tid H) as [_ H']. rewrite H' in Epc. discriminate. }
    destruct (PoolBucket.head (PoolBucket.sys_bucket sys)
              =? PoolBucket.loc_headValue (PoolBucket.sys_threads sys tid))
      eqn:Ecas.
    + exists drawn, (tid :: finished).
      unfold PoolBucket.sys_step, PoolBucket.step, PoolBucket.completes.
      rewrite Epc, Ecas.
      assert (Hoth : forall t f', t <> tid ->
                upd (PoolBucket.sys_threads sys) tid f' t
                = PoolBucket.sys_threads sys t)
        by (intros t f' Ht; now apply upd_other).
      constructor; cbn [PoolBucket.sys_bucket PoolBucket.sys_mem
                        PoolBucket.sys_threads PoolBucket.pushed
                        PoolBucket.globalTag PoolBucket.set_head
                        PoolBucket.head].
      * exact Ic.
      * exact In_.
      * intros t. destruct (Z.eq_dec t tid) as [-> | Hne].
        -- rewrite upd_same. cbn [PoolBucket.pc].
           split; [intros _; split; [now apply Id | discriminate]
                  | intros _; exact Hin].
        -- rewrite (Hoth t _ Hne). apply Id.
      * intros t Ht. rewrite Hoth; [now apply Ii|].
        intros ->. apply Ht. now apply Id.
      * apply (tags_drawn_ext (PoolBucket.sys_threads sys)); [|exact It].
        intros t _. destruct (Z.eq_dec t tid) as [-> | Hne].
        -- now rewrite upd_same.
        -- now rewrite Hoth.
      * intros t Ht. destruct (Z.eq_dec t tid) as [-> | Hne].
        -- rewrite upd_same. cbn [PoolBucket.pc PoolBucket.loc_nodeValue
                                   PoolBucket.loc_tag]. intros _. exact Hnode.
        -- rewrite (Hoth t _ Hne). now apply Inode.
      * constructor; assumption.
      * intros t [<- | Ht].
        -- split; [exact Hin|]. now rewrite upd_same.
        -- destruct (If t Ht) as [H1 H2]. split; [exact H1|].
           rewrite Hoth; [exact H2|]. intros ->. contradiction.
      * rewrite Ip. cbn [rev]. rewrite map_app, app_assoc. cbn [map].
        rewrite upd_same. cbn [PoolBucket.loc_tag]. rewrite Hnode.
        f_equal. f_equal. apply map_ext_in. intros t Ht.
        rewrite Hoth; [reflexivity|]. intros ->.
        apply in_rev in Ht. contradiction.
    + exists drawn, finished.
      apply (drawing_keep sys drawn finished tid); try assumption;
        unfold PoolBucket.sys_step, PoolBucket.step, PoolBucket.completes;
        rewrite Epc, ?Ecas;
        cbn [PoolBucket.sys_bucket PoolBucket.sys_mem PoolBucket.sys_threads
             PoolBucket.pushed]; try reflexivity;
        try (rewrite upd_same; cbn [PoolBucket.pc PoolBucket.loc_tag
                                    PoolBucket.loc_nodeValue]).
      * discriminate.
      * intros t Ht. now apply upd_other.
      * reflexivity.
      * discriminate.
      * discriminate.
      * intros _. exact Hnode.
  - exists drawn, finished. now apply drawing_idle_step.
Qed.

Lemma drawing_run schedule : forall sys drawn finished,
  drawing T g0 pushed0 sys drawn finished ->
  exists drawn' finished',
    drawing T g0 pushed0 (PoolBucket.run sys schedule) drawn' finished'.
Proof.
  induction schedule as [|tid schedule IH]; intros sys drawn finished Hinv.
  - exists drawn, finished. exact Hinv.
  - destruct (drawing_step sys drawn finished tid Hinv) as [d1 [f1 H1]].
    exact (IH _ _ _ H1).
Qed.

End ConcurrentTags.

(** X28. Threads that make one
    [FreeInterval] call each on the same bucket, interleaved in any way,
    fewer than [2^32] of them: every call draws its own tag, [globalTag]
    has counted the draws, and the heads that the completed calls have
    installed carry pairwise different tags, each one of the [length T]
    values that follow [globalTag]'s value at the start. *)
Theorem concurrent_pushes_have_distinct_tags sys T schedule :
  (forall t, In t T ->
     PoolBucket.pc (PoolBucket.sys_threads sys t) = PoolBucket.AtFetchAdd) ->
  (forall t, ~ In t T ->
     PoolBucket.pc (PoolBucket.sys_threads sys t) = PoolBucket.AtDone) ->
  0 <= PoolBucket.globalTag (PoolBucket.sys_bucket sys) < 2 ^ 32 ->
  Z.of_nat (length T) <= 2 ^ 32 ->
  let g0 := PoolBucket.globalTag (PoolBucket.sys_bucket sys) in
  let fin := PoolBucket.run sys schedule in
  exists tags (draws : nat),
    PoolBucket.pushed fin = PoolBucket.pushed sys ++ tags /\
    NoDup tags /\
    (length tags <= draws <= length T)%nat /\
    (forall tag, In tag tags ->
       exists j, 0 <= j < Z.of_nat draws /\ tag = u32 (g0 + j)) /\
    PoolBucket.globalTag (PoolBucket.sys_bucket fin) = u32 (g0 + Z.of_nat draws).
Proof.
  intros Henter Hidle Hg0 Hlen g0 fin.
  assert (Hinit : drawing T g0 (PoolBucket.pushed sys) sys [] []).
  { constructor.
    - cbn [length]. subst g0. rewrite Z.add_0_r. symmetry. now apply u32_small.
    - constructor.
    - intros t. split; [intros [] | intros [Ht Hpc]].
      rewrite (Henter t Ht) in Hpc. contradiction.
    - exact Hidle.
    - exact I.
    - intros t [].
    - constructor.
    - intros t [].
    - cbn. now rewrite app_nil_r. }
  destruct (drawing_run T g0 (PoolBucket.pushed sys) schedule sys [] [] Hinit)
    as [drawn [finished [Ic In_ Id Ii It Inode Ifn If Ip]]].
  fold fin in Ic, Id, Ii, It, Inode, If, Ip.
  assert (Hdl : (length drawn <= length T)%nat).
  { apply NoDup_incl_length; [exact In_|]. intros t Ht. now apply Id in Ht. }
  assert (Hfl : (length finished <= length drawn)%nat).
  { apply NoDup_incl_length; [exact Ifn|]. intros t Ht. now apply If in Ht. }
  exists (map (fun t => PoolBucket.loc_tag (PoolBucket.sys_threads fin t))
              (rev finished)), (length drawn).
  split; [exact Ip|]. split; [|split; [|split; [|exact Ic]]].
  - apply NoDup_map_in; [apply NoDup_rev; exact Ifn|].
    intros x y Hx Hy. apply in_rev in Hx. apply in_rev in Hy.
    apply (tags_drawn_inj g0 (PoolBucket.sys_threads fin) drawn It In_);
      [lia | now apply If | now apply If].
  - rewrite length_map, length_rev. lia.
  - intros tag Htag. apply in_map_iff in Htag. destruct Htag as [t [<- Ht]].
    apply in_rev in Ht.
    apply (tags_drawn_in g0 (PoolBucket.sys_threads fin) drawn t It).
    now apply If.
Qed.

(** X28 at the two threads of the race
    example, under the schedule in which thread 0 is overtaken. *)
Lemma concurrent_pushes_have_distinct_tags_witness :
  (forall t, In t [0; 1] ->
     PoolBucket.pc (PoolBucket.sys_threads pair_sys t) = PoolBucket.AtFetchAdd) /\
  (forall t, ~ In t [0; 1] ->
     PoolBucket.pc (PoolBucket.sys_threads pair_sys t) = PoolBucket.AtDone) /\
  0 <= PoolBucket.globalTag (PoolBucket.sys_bucket pair_sys) < 2 ^ 32 /\
  Z.of_nat (length [0; 1]) <= 2 ^ 32 /\
  let g0 := PoolBucket.globalTag (PoolBucket.sys_bucket pair_sys) in
  let fin := PoolBucket.run pair_sys race_schedule in
  exists tags (draws : nat),
    PoolBucket.pushed fin = PoolBucket.pushed pair_sys ++ tags /\
    NoDup tags /\
    (length tags <= draws <= length [0; 1])%nat /\
    (forall tag, In tag tags ->
       exists j, 0 <= j < Z.of_nat draws /\ tag = u32 (g0 + j)) /\
    PoolBucket.globalTag (PoolBucket.sys_bucket fin) = u32 (g0 + Z.of_nat draws).
Proof.
  assert (H1 : forall t, In t [0; 1] ->
             PoolBucket.pc (PoolBucket.sys_threads pair_sys t)
             = PoolBucket.AtFetchAdd)
    by (intros t [<- | [<- | []]]; reflexivity).
  assert (H2 : forall t, ~ In t [0; 1] ->
             PoolBucket.pc (PoolBucket.sys_threads pair_sys t)
             = PoolBucket.AtDone).
  { intros t Hn. cbn.
    destruct (Z.eqb_spec t 0) as [-> | _]; [exfalso; apply Hn; now left|].
    destruct (Z.eqb_spec t 1) as [-> | _];
      [exfalso; apply Hn; right; now left|].
    reflexivity. }
  assert (H3 : 0 <= PoolBucket.globalTag (PoolBucket.sys_bucket pair_sys) < 2 ^ 32)
    by by_computation.
  assert (H4 : Z.of_nat (length [0; 1]) <= 2 ^ 32) by by_computation.
  split; [exact H1|]. split; [exact H2|]. split; [exact H3|]. split; [exact H4|].
  exact (concurrent_pushes_have_distinct_tags pair_sys [0; 1] race_schedule
           H1 H2 H3 H4).
Defined.
